(** * Time Capsule: ledger contract, sealing, storage gateway and reveal pipeline

    A shallow embedding of
    - [contracts/contracts/TimeCapsule.sol] (module [TimeCapsule]),
    - [Frontend/src/lib/crypto.ts] (module [Crypto]),
    - [Frontend/src/lib/ipfs.ts] (module [IPFS]),
    - [Frontend/src/lib/reveal.ts] (module [Reveal]),
    together with the platform primitives those files call (Keccak-256 of the
    EVM, the Web platform's string, base64, UTF-8 and AES-GCM routines). *)

From Stdlib Require Import ZArith List Bool String Ascii Lia.
From Stdlib Require Import Strings.Byte.
From stdpp Require Import gmap strings list fin_maps.
Import ListNotations.
Local Open Scope Z_scope.
Set Warnings "-register-all".

(** ** Bytes *)

Definition byte_to_Z (b : byte) : Z := Z.of_N (Byte.to_N b).

Definition Z_to_byte (z : Z) : byte :=
  match Byte.of_N (Z.to_N (Z.land z 255)) with
  | Some b => b
  | None => x00
  end.

Definition bytes_of_string (s : string) : list byte := list_byte_of_string s.

(** Big-endian value of a byte string (a [bytes32] read as a [uint256]). *)
Definition be_value (bs : list byte) : Z :=
  fold_left (fun acc b => acc * 256 + byte_to_Z b) bs 0.

(** ** Keccak-256, the EVM's [keccak256] *)

Module Keccak.

Definition mask64 : Z := 2 ^ 64 - 1.

Definition rotl64 (v : Z) (n : Z) : Z :=
  Z.land (Z.lor (Z.shiftl v n) (Z.shiftr v (64 - n))) mask64.

Definition lane (st : list Z) (i : nat) : Z := nth i st 0.

Definition round_constants : list Z :=
  [ 0x0000000000000001; 0x0000000000008082; 0x800000000000808A;
    0x8000000080008000; 0x000000000000808B; 0x0000000080000001;
    0x8000000080008081; 0x8000000000008009; 0x000000000000008A;
    0x0000000000000088; 0x0000000080008009; 0x000000008000000A;
    0x000000008000808B; 0x800000000000008B; 0x8000000000008089;
    0x8000000000008003; 0x8000000000008002; 0x8000000000000080;
    0x000000000000800A; 0x800000008000000A; 0x8000000080008081;
    0x8000000000008080; 0x0000000080000001; 0x8000000080008008 ].

(** Rotation offsets, indexed by [x + 5 * y]. *)
Definition rotation_offsets : list Z :=
  [ 0; 1; 62; 28; 27;
    36; 44; 6; 55; 20;
    3; 10; 43; 25; 39;
    41; 45; 15; 21; 8;
    18; 2; 61; 56; 14 ].

Definition indices : list nat := seq 0 25.

Definition theta (st : list Z) : list Z :=
  let C := fun x : nat =>
    Z.lxor (lane st x)
      (Z.lxor (lane st (x + 5))
         (Z.lxor (lane st (x + 10))
            (Z.lxor (lane st (x + 15)) (lane st (x + 20))))) in
  let D := fun x : nat =>
    Z.lxor (C ((x + 4) mod 5)%nat) (rotl64 (C ((x + 1) mod 5)%nat) 1) in
  map (fun i => Z.lxor (lane st i) (D (i mod 5)%nat)) indices.

Definition rho_pi (st : list Z) : list Z :=
  map (fun j =>
         let X := (j mod 5)%nat in
         let Y := (j / 5)%nat in
         let x := ((X + 3 * Y) mod 5)%nat in
         let src := (x + 5 * X)%nat in
         rotl64 (lane st src) (nth src rotation_offsets 0)) indices.

Definition chi (st : list Z) : list Z :=
  map (fun i =>
         let x := (i mod 5)%nat in
         let y := (i / 5)%nat in
         let b1 := lane st ((x + 1) mod 5 + 5 * y) in
         let b2 := lane st ((x + 2) mod 5 + 5 * y) in
         Z.lxor (lane st i) (Z.land (Z.lxor b1 mask64) b2)) indices.

Definition iota (rc : Z) (st : list Z) : list Z :=
  match st with
  | [] => []
  | a :: rest => Z.lxor a rc :: rest
  end.

Definition round (st : list Z) (rc : Z) : list Z :=
  iota rc (chi (rho_pi (theta st))).

Definition keccak_f (st : list Z) : list Z :=
  fold_left round round_constants st.

(** Little-endian 64-bit lane from up to eight bytes. *)
Definition lane_of_bytes (bs : list byte) : Z :=
  fold_right (fun b acc => byte_to_Z b + 256 * acc) 0 bs.

Fixpoint lanes_of_bytes (n : nat) (bs : list byte) : list Z :=
  match n with
  | O => []
  | S n' => lane_of_bytes (firstn 8 bs) :: lanes_of_bytes n' (skipn 8 bs)
  end.

Definition rate : nat := 136.

Definition absorb_block (st : list Z) (block : list byte) : list Z :=
  let ls := lanes_of_bytes 17 block in
  keccak_f (map (fun i => Z.lxor (lane st i) (nth i ls 0)) indices).

(** [pad10*1] with the original Keccak domain bit: the padded message is a
    whole number of [rate]-byte blocks. *)
Definition pad (msg : list byte) : list byte :=
  let r := (rate - (length msg mod rate))%nat in
  match r with
  | 1%nat => msg ++ [x81]
  | _ => msg ++ [x01] ++ repeat x00 (r - 2) ++ [x80]
  end.

Fixpoint absorb (fuel : nat) (st : list Z) (bs : list byte) : list Z :=
  match fuel with
  | O => st
  | S fuel' =>
      match bs with
      | [] => st
      | _ => absorb fuel' (absorb_block st (firstn rate bs)) (skipn rate bs)
      end
  end.

Definition bytes_of_lane (l : Z) : list byte :=
  map (fun k => Z_to_byte (Z.shiftr l (8 * Z.of_nat k))) (seq 0 8).

Definition digest (msg : list byte) : list byte :=
  let padded := pad msg in
  let st := absorb (S (length padded / rate)) (repeat 0 25) padded in
  firstn 32 (flat_map bytes_of_lane st).

End Keccak.

(** [keccak256(bytes)] as the EVM returns it: a [bytes32], here its value as
    an unsigned 256-bit integer. *)
Definition keccak256 (msg : list byte) : Z := be_value (Keccak.digest msg).

(** The hash is computed by [vm_compute] only; conversion leaves it folded. *)
Opaque keccak256.


(** ** The ledger contract: [contracts/contracts/TimeCapsule.sol] *)

Module TimeCapsule.

Inductive CapsuleType := RAW_TEXT | HASH_ONLY | ENCRYPTED.

Inductive CapsuleStatus := LOCKED | UNLOCKED | REVEALED.

(** [struct CapsuleMeta]. Addresses, [uint64], [uint256] and [bytes32] values
    are unsigned integers; a Solidity [string] is a byte string. *)
Record CapsuleMeta := mkCapsuleMeta {
  owner : Z;
  createdAt : Z;
  unlockTime : Z;
  capsuleType : CapsuleType;
  status : CapsuleStatus;
  contentHash : Z;
  contentRef : string;
  recipients : list string;
  isPublic : bool
}.

(** The value a [mapping] holds at a key never written. *)
Definition zeroCapsule : CapsuleMeta :=
  {| owner := 0; createdAt := 0; unlockTime := 0; capsuleType := RAW_TEXT;
     status := LOCKED; contentHash := 0; contentRef := EmptyString;
     recipients := []; isPublic := false |}.

(** The contract's state variables. *)
Record Storage := mkStorage {
  _capsuleCounter : Z;
  _capsules : gmap Z CapsuleMeta;
  _userCapsules : gmap Z (list Z);
  protocolFee : Z;
  treasury : Z
}.

Definition MIN_LOCK_DURATION : Z := 86400.
Definition MAX_LOCK_DURATION : Z := 10 * 365 * 86400.
Definition MAX_CONTENT_SIZE : Z := 32 * 1024.

Definition UINT64_MAX : Z := 2 ^ 64 - 1.
Definition UINT256_MAX : Z := 2 ^ 256 - 1.

Inductive Event :=
| CapsuleCreated (capsuleId : Z) (owner : Z) (unlockTime : Z)
    (capsuleType : CapsuleType) (contentHash : Z)
| CapsuleRevealed (capsuleId : Z) (revealer : Z) (finalContentRef : string)
| CapsuleUnlocked (capsuleId : Z) (unlocker : Z).

(** The custom errors of the contract, the EVM's arithmetic panic, a failed
    [transfer], a failed [require], and the revert without data of a function
    that is not [payable] when the call carries value. *)
Inductive Error :=
| InvalidUnlockTime
| InsufficientFee
| NotOwner
| CapsuleNotFound
| CapsuleStillLocked
| CapsuleAlreadyRevealed
| ContentTooLarge
| HashMismatch
| UnauthorizedAccess
| Panic (code : Z)
| TransferFailed
| RequireFailed (message : string)
| NotPayable.

(** What a call sees of its transaction and block. [accepts_payment a v]
    tells whether [payable(a).transfer(v)] goes through. *)
Record Env := mkEnv {
  msg_sender : Z;
  msg_value : Z;
  block_timestamp : Z;
  accepts_payment : Z -> Z -> bool
}.

(** A call either returns, with the new storage, its return value and the
    events it emitted, or reverts and leaves the storage as it was. *)
Inductive Outcome (A : Type) :=
| Success (st : Storage) (ret : A) (log : list Event)
| Reverted (e : Error).

Arguments Success {A} st ret log.
Arguments Reverted {A} e.

(** [constructor(address _treasury)] *)
Definition constructor (_treasury : Z) : Storage :=
  {| _capsuleCounter := 0; _capsules := ∅; _userCapsules := ∅;
     protocolFee := 10 ^ 15; treasury := _treasury |}.

(** [_capsules[capsuleId]] *)
Definition capsuleAt (st : Storage) (capsuleId : Z) : CapsuleMeta :=
  default zeroCapsule (_capsules st !! capsuleId).

Definition setCapsule (st : Storage) (capsuleId : Z) (c : CapsuleMeta) : Storage :=
  {| _capsuleCounter := _capsuleCounter st;
     _capsules := <[capsuleId := c]> (_capsules st);
     _userCapsules := _userCapsules st;
     protocolFee := protocolFee st;
     treasury := treasury st |}.

Definition set_status (c : CapsuleMeta) (s : CapsuleStatus) : CapsuleMeta :=
  {| owner := owner c; createdAt := createdAt c; unlockTime := unlockTime c;
     capsuleType := capsuleType c; status := s; contentHash := contentHash c;
     contentRef := contentRef c; recipients := recipients c;
     isPublic := isPublic c |}.

Definition set_contentRef (c : CapsuleMeta) (r : string) : CapsuleMeta :=
  {| owner := owner c; createdAt := createdAt c; unlockTime := unlockTime c;
     capsuleType := capsuleType c; status := status c;
     contentHash := contentHash c; contentRef := r;
     recipients := recipients c; isPublic := isPublic c |}.

Definition status_eqb (a b : CapsuleStatus) : bool :=
  match a, b with
  | LOCKED, LOCKED | UNLOCKED, UNLOCKED | REVEALED, REVEALED => true
  | _, _ => false
  end.

(** [modifier validCapsule]: the error it raises, if any. *)
Definition validCapsule (st : Storage) (capsuleId : Z) : option Error :=
  if (capsuleId =? 0) || (capsuleId >? _capsuleCounter st)
  then Some CapsuleNotFound else None.

(** [modifier onlyUnlocked] *)
Definition onlyUnlocked (env : Env) (st : Storage) (capsuleId : Z) : option Error :=
  if block_timestamp env <? unlockTime (capsuleAt st capsuleId)
  then Some CapsuleStillLocked else None.

Definition alphabet : string := "0123456789abcdef".

Definition alphabet_at (n : Z) : ascii :=
  match String.get (Z.to_nat n) alphabet with
  | Some c => c
  | None => "0"%char
  end.

(** [value[j]] for a [bytes32 value]: the bytes are numbered from the most
    significant one. *)
Definition bytes32_at (value : Z) (j : Z) : Z :=
  Z.land (Z.shiftr value (8 * (31 - j))) 255.

(** [_addressToString]: ["0x"] and the forty lower-case hex digits. *)
Definition _addressToString (addr : Z) : string :=
  let value := Z.land addr (2 ^ 160 - 1) in
  String "0" (String "x"
    (fold_right
       (fun i acc =>
          String (alphabet_at (Z.shiftr (bytes32_at value (i + 12)) 4))
            (String (alphabet_at (Z.land (bytes32_at value (i + 12)) 15)) acc))
       EmptyString (map Z.of_nat (seq 0 20)))).

(** [_compareStrings]: equality of the Keccak hashes of the packed bytes. *)
Definition _compareStrings (a b : string) : bool :=
  keccak256 (bytes_of_string a) =? keccak256 (bytes_of_string b).

(** [_canAccessCapsule] *)
Definition _canAccessCapsule (env : Env) (st : Storage) (capsuleId user : Z) : bool :=
  let capsule := capsuleAt st capsuleId in
  if owner capsule =? user then true
  else
    let userStr := _addressToString user in
    if existsb (fun r => _compareStrings r userStr) (recipients capsule) then true
    else if isPublic capsule && (block_timestamp env >=? unlockTime capsule) then true
    else false.

(** [createCapsule]. [currentTime + MIN_LOCK_DURATION] and
    [currentTime + MAX_LOCK_DURATION] are checked [uint64] additions, and [||]
    evaluates its second operand only when the first is false. *)
Definition createCapsule (env : Env) (st : Storage)
    (capsuleType : CapsuleType) (contentHash : Z) (contentRef : string)
    (unlockTime : Z) (recipients : list string) (isPublic : bool) : Outcome Z :=
  let currentTime := block_timestamp env mod 2 ^ 64 in
  if currentTime + MIN_LOCK_DURATION >? UINT64_MAX then Reverted (Panic 0x11)
  else if unlockTime <=? currentTime + MIN_LOCK_DURATION then Reverted InvalidUnlockTime
  else if currentTime + MAX_LOCK_DURATION >? UINT64_MAX then Reverted (Panic 0x11)
  else if unlockTime >? currentTime + MAX_LOCK_DURATION then Reverted InvalidUnlockTime
  else if msg_value env <? protocolFee st then Reverted InsufficientFee
  else if _capsuleCounter st + 1 >? UINT256_MAX then Reverted (Panic 0x11)
  else
    let capsuleId := _capsuleCounter st + 1 in
    let capsule :=
      {| owner := msg_sender env; createdAt := currentTime;
         unlockTime := unlockTime; capsuleType := capsuleType;
         status := LOCKED; contentHash := contentHash;
         contentRef := contentRef; recipients := recipients;
         isPublic := isPublic |} in
    let st' :=
      {| _capsuleCounter := capsuleId;
         _capsules := <[capsuleId := capsule]> (_capsules st);
         _userCapsules :=
           <[msg_sender env :=
               default [] (_userCapsules st !! msg_sender env) ++ [capsuleId]]>
             (_userCapsules st);
         protocolFee := protocolFee st;
         treasury := treasury st |} in
    if (protocolFee st >? 0) && negb (treasury st =? 0)
       && negb (accepts_payment env (treasury st) (protocolFee st))
    then Reverted TransferFailed
    else if (msg_value env >? protocolFee st)
            && negb (accepts_payment env (msg_sender env)
                       (msg_value env - protocolFee st))
    then Reverted TransferFailed
    else Success st' capsuleId
           [CapsuleCreated capsuleId (msg_sender env) unlockTime capsuleType contentHash].

(** [revealCapsule]. The function is not [payable]: a call that carries
    value reverts before the modifiers run. *)
Definition revealCapsule (env : Env) (st : Storage)
    (capsuleId : Z) (plaintextOrKey : list byte) (finalContentRef : string)
    : Outcome unit :=
  if negb (msg_value env =? 0) then Reverted NotPayable else
  match validCapsule st capsuleId with
  | Some e => Reverted e
  | None =>
    match onlyUnlocked env st capsuleId with
    | Some e => Reverted e
    | None =>
      let capsule := capsuleAt st capsuleId in
      if negb (_canAccessCapsule env st capsuleId (msg_sender env))
      then Reverted UnauthorizedAccess
      else if status_eqb (status capsule) REVEALED
      then Reverted CapsuleAlreadyRevealed
      else
        let computedHash := keccak256 plaintextOrKey in
        if negb (computedHash =? contentHash capsule)
        then Reverted HashMismatch
        else
          let capsule1 := set_status capsule REVEALED in
          let capsule2 :=
            if (Z.of_nat (String.length finalContentRef) >? 0)
            then set_contentRef capsule1 finalContentRef
            else capsule1 in
          Success (setCapsule st capsuleId capsule2) tt
            [CapsuleRevealed capsuleId (msg_sender env) finalContentRef]
    end
  end.

(** [unlockCapsule]; not [payable]. *)
Definition unlockCapsule (env : Env) (st : Storage) (capsuleId : Z) : Outcome unit :=
  if negb (msg_value env =? 0) then Reverted NotPayable else
  match validCapsule st capsuleId with
  | Some e => Reverted e
  | None =>
    match onlyUnlocked env st capsuleId with
    | Some e => Reverted e
    | None =>
      let capsule := capsuleAt st capsuleId in
      if negb (_canAccessCapsule env st capsuleId (msg_sender env))
      then Reverted UnauthorizedAccess
      else if status_eqb (status capsule) LOCKED
      then Success (setCapsule st capsuleId (set_status capsule UNLOCKED)) tt
             [CapsuleUnlocked capsuleId (msg_sender env)]
      else Success st tt []
    end
  end.

(** [getCapsule], [getUserCapsules] and [totalCapsules] are views, read
    here by a call that carries no value. *)
Definition getCapsule (st : Storage) (capsuleId : Z) : Outcome CapsuleMeta :=
  match validCapsule st capsuleId with
  | Some e => Reverted e
  | None => Success st (capsuleAt st capsuleId) []
  end.

(** [getUserCapsules] *)
Definition getUserCapsules (st : Storage) (user : Z) : list Z :=
  default [] (_userCapsules st !! user).

(** [totalCapsules] *)
Definition totalCapsules (st : Storage) : Z := _capsuleCounter st.

(** [setProtocolFee]; not [payable]. *)
Definition setProtocolFee (env : Env) (st : Storage) (newFee : Z) : Outcome unit :=
  if negb (msg_value env =? 0) then Reverted NotPayable else
  if msg_sender env =? treasury st
  then Success {| _capsuleCounter := _capsuleCounter st; _capsules := _capsules st;
                  _userCapsules := _userCapsules st; protocolFee := newFee;
                  treasury := treasury st |} tt []
  else Reverted (RequireFailed "Only treasury can update fee").

(** [setTreasury]; not [payable]. *)
Definition setTreasury (env : Env) (st : Storage) (newTreasury : Z) : Outcome unit :=
  if negb (msg_value env =? 0) then Reverted NotPayable else
  if msg_sender env =? treasury st
  then Success {| _capsuleCounter := _capsuleCounter st; _capsules := _capsules st;
                  _userCapsules := _userCapsules st; protocolFee := protocolFee st;
                  treasury := newTreasury |} tt []
  else Reverted (RequireFailed "Only treasury can update address").

(** *** Sequences of transactions *)

Inductive Call :=
| CallCreate (capsuleType : CapsuleType) (contentHash : Z) (contentRef : string)
    (unlockTime : Z) (recipients : list string) (isPublic : bool)
| CallReveal (capsuleId : Z) (plaintextOrKey : list byte) (finalContentRef : string)
| CallUnlock (capsuleId : Z)
| CallSetProtocolFee (newFee : Z)
| CallSetTreasury (newTreasury : Z).

Definition storage_after {A : Type} (st : Storage) (o : Outcome A) : Storage :=
  match o with
  | Success st' _ _ => st'
  | Reverted _ => st
  end.

Definition succeeded {A : Type} (o : Outcome A) : bool :=
  match o with
  | Success _ _ _ => true
  | Reverted _ => false
  end.

(** The storage after one transaction; a reverted one changes nothing. *)
Definition exec (st : Storage) (tx : Env * Call) : Storage :=
  let env := fst tx in
  match snd tx with
  | CallCreate t h r u rs p => storage_after st (createCapsule env st t h r u rs p)
  | CallReveal i m r => storage_after st (revealCapsule env st i m r)
  | CallUnlock i => storage_after st (unlockCapsule env st i)
  | CallSetProtocolFee f => storage_after st (setProtocolFee env st f)
  | CallSetTreasury t => storage_after st (setTreasury env st t)
  end.

Definition run (st : Storage) (txs : list (Env * Call)) : Storage :=
  fold_left exec txs st.

(** Every storage met while running [txs] from [st], the first one included. *)
Fixpoint history (st : Storage) (txs : list (Env * Call)) : list Storage :=
  match txs with
  | [] => [st]
  | tx :: rest => st :: history (exec st tx) rest
  end.

Definition exists_capsule (st : Storage) (capsuleId : Z) : Prop :=
  1 <= capsuleId <= _capsuleCounter st.

(** The order [LOCKED < UNLOCKED < REVEALED]. *)
Definition status_rank (s : CapsuleStatus) : Z :=
  match s with LOCKED => 0 | UNLOCKED => 1 | REVEALED => 2 end.

Definition status_le (a b : CapsuleStatus) : Prop :=
  status_rank a <= status_rank b.

(** The caller is the owner, is listed among the recipients (as the lower-case
    hex string the contract compares with), or the capsule is public. *)
Definition authorized (st : Storage) (capsuleId caller : Z) : Prop :=
  let c := capsuleAt st capsuleId in
  owner c = caller \/ In (_addressToString caller) (recipients c) \/ isPublic c = true.


(** The fields fixed at creation agree. *)
Definition same_commitment (c c' : CapsuleMeta) : Prop :=
  owner c' = owner c /\ createdAt c' = createdAt c
  /\ unlockTime c' = unlockTime c /\ capsuleType c' = capsuleType c
  /\ recipients c' = recipients c /\ isPublic c' = isPublic c
  /\ contentHash c' = contentHash c.

(** What a transaction may do to a capsule record: the fields fixed at
    creation stay, the status does not go down, and [contentRef] changes only
    in a step that takes the capsule to REVEALED from another status. *)
Definition evolves (c c' : CapsuleMeta) : Prop :=
  same_commitment c c'
  /\ status_le (status c) (status c')
  /\ (contentRef c' <> contentRef c -> status c <> REVEALED /\ status c' = REVEALED).

(** How many consecutive storages of a history differ in the [contentRef] of
    capsule [capsuleId]. *)
Fixpoint contentRef_changes (capsuleId : Z) (h : list Storage) : nat :=
  match h with
  | [] => 0%nat
  | a :: rest =>
      match rest with
      | [] => 0%nat
      | b :: _ =>
          ((if String.eqb (contentRef (capsuleAt a capsuleId))
                          (contentRef (capsuleAt b capsuleId))
            then 0 else 1)
           + contentRef_changes capsuleId rest)%nat
      end
  end.

(** *** Sample transactions *)

Definition alice : Z := 0xA11CE.
Definition bob : Z := 0xB0B.
Definition carol : Z := 0xCA401.
Definition the_treasury : Z := 0x742d35Cc6639C10532BfeD48c4F4B8a2c857Fd3e.

Definition t0 : Z := 1700000000.

Definition always_paid : Z -> Z -> bool := fun _ _ => true.

Definition secret : list byte := bytes_of_string "hello future".

(** [secret] with the lowest bit of its first byte flipped. *)
Definition secret_flipped : list byte := bytes_of_string "iello future".

Definition env_create : Env := mkEnv alice (10 ^ 15) t0 always_paid.

Definition env_at (caller : Z) (days : Z) : Env :=
  mkEnv caller 0 (t0 + days * 86400) always_paid.

(** One private capsule of [alice], to unlock forty days after [t0], with
    [bob] listed as recipient. *)
Definition st_created : Storage :=
  storage_after (constructor the_treasury)
    (createCapsule env_create (constructor the_treasury) ENCRYPTED
       (keccak256 secret) "QmTest123" (t0 + 40 * 86400)
       [_addressToString bob] false).

Definition st_unlocked : Storage :=
  storage_after st_created (unlockCapsule (env_at alice 41) st_created 1).

Definition st_revealed : Storage :=
  storage_after st_created
    (revealCapsule (env_at alice 41) st_created 1 secret "QmFinal").

End TimeCapsule.

(** ** The JavaScript values the client code handles *)

Module JS.

(** A string is its sequence of UTF-16 code units. *)
Abbreviation jsstring := (list Z).

(** A literal whose characters are all below U+0100. *)
Definition js (s : string) : jsstring :=
  map (fun a => Z.of_N (N_of_ascii a)) (list_ascii_of_string s).

Definition jsstring_eqb (a b : jsstring) : bool :=
  if decide (a = b) then true else false.

(** Values as [JSON.parse] builds them, and [undefined]. Numbers are
    integers here; the code below only asks for their type and truthiness. *)
Inductive JsValue :=
| JUndefined
| JNull
| JBool (b : bool)
| JNumber (n : Z)
| JString (s : jsstring)
| JObject (fields : list (jsstring * JsValue))
| JArray (items : list JsValue).

Inductive TypeOf := T_undefined | T_object | T_boolean | T_number | T_string.

Definition typeof (v : JsValue) : TypeOf :=
  match v with
  | JUndefined => T_undefined
  | JNull => T_object
  | JBool _ => T_boolean
  | JNumber _ => T_number
  | JString _ => T_string
  | JObject _ => T_object
  | JArray _ => T_object
  end.

Definition truthy (v : JsValue) : bool :=
  match v with
  | JUndefined | JNull => false
  | JBool b => b
  | JNumber n => negb (n =? 0)
  | JString s => match s with [] => false | _ => true end
  | JObject _ | JArray _ => true
  end.

Fixpoint assoc (name : jsstring) (fields : list (jsstring * JsValue)) : JsValue :=
  match fields with
  | [] => JUndefined
  | (k, v) :: rest => if jsstring_eqb k name then v else assoc name rest
  end.

(** [v.name] for a value that is neither [null] nor [undefined]. *)
Definition get (v : JsValue) (name : jsstring) : JsValue :=
  match v with
  | JObject fields => assoc name fields
  | _ => JUndefined
  end.

(** A computation that returns or throws an [Error] with a message. *)
Inductive Result (A : Type) :=
| Ok (a : A)
| Throw (message : jsstring).

Arguments Ok {A} a.
Arguments Throw {A} message.

(** The characters [\s] matches and [trim] strips: WhiteSpace and
    LineTerminator of ECMA-262. *)
Definition is_whitespace (c : Z) : bool :=
  (c =? 0x09) || (c =? 0x0A) || (c =? 0x0B) || (c =? 0x0C) || (c =? 0x0D)
  || (c =? 0x20) || (c =? 0xA0) || (c =? 0x1680)
  || ((0x2000 <=? c) && (c <=? 0x200A))
  || (c =? 0x2028) || (c =? 0x2029) || (c =? 0x202F) || (c =? 0x205F)
  || (c =? 0x3000) || (c =? 0xFEFF).

Fixpoint drop_while (f : Z -> bool) (s : jsstring) : jsstring :=
  match s with
  | [] => []
  | c :: rest => if f c then drop_while f rest else s
  end.

(** [s.trim()] *)
Definition trim (s : jsstring) : jsstring :=
  rev (drop_while is_whitespace (rev (drop_while is_whitespace s))).

(** [s.replace(/\s/g, '')] *)
Definition remove_whitespace (s : jsstring) : jsstring :=
  List.filter (fun c => negb (is_whitespace c)) s.

Definition is_digit (c : Z) : bool := (0x30 <=? c) && (c <=? 0x39).

(** [s.match(/^\d+$/)] is not [null]. *)
Definition all_digits (s : jsstring) : bool :=
  match s with
  | [] => false
  | _ => forallb is_digit s
  end.

(** [s.startsWith(p)] *)
Fixpoint startsWith (s p : jsstring) : bool :=
  match p with
  | [] => true
  | c :: p' =>
      match s with
      | [] => false
      | d :: s' => (c =? d) && startsWith s' p'
      end
  end.

(** Position of a character in the base64 alphabet. *)
Definition base64_index (c : Z) : option Z :=
  if (0x41 <=? c) && (c <=? 0x5A) then Some (c - 0x41)
  else if (0x61 <=? c) && (c <=? 0x7A) then Some (c - 0x61 + 26)
  else if (0x30 <=? c) && (c <=? 0x39) then Some (c - 0x30 + 52)
  else if c =? 0x2B then Some 62
  else if c =? 0x2F then Some 63
  else None.

Definition is_base64_char (c : Z) : bool :=
  match base64_index c with Some _ => true | None => false end.

(** [/^[A-Za-z0-9+/]*={0,2}$/.test(s)] *)
Definition base64_format (s : jsstring) : bool :=
  match drop_while is_base64_char s with
  | [] => true
  | [c] => c =? 0x3D
  | [c; d] => (c =? 0x3D) && (d =? 0x3D)
  | _ => false
  end.

Fixpoint sextets (s : jsstring) : option (list Z) :=
  match s with
  | [] => Some []
  | c :: rest =>
      match base64_index c, sextets rest with
      | Some v, Some vs => Some (v :: vs)
      | _, _ => None
      end
  end.

Fixpoint decode_sextets (l : list Z) : list Z :=
  match l with
  | a :: b :: c :: d :: rest =>
      let n := Z.lor (Z.shiftl a 18) (Z.lor (Z.shiftl b 12) (Z.lor (Z.shiftl c 6) d)) in
      Z.shiftr n 16 :: Z.land (Z.shiftr n 8) 255 :: Z.land n 255 :: decode_sextets rest
  | [a; b; c] =>
      let n := Z.shiftr (Z.lor (Z.shiftl a 12) (Z.lor (Z.shiftl b 6) c)) 2 in
      [Z.shiftr n 8; Z.land n 255]
  | [a; b] => [Z.shiftr (Z.lor (Z.shiftl a 6) b) 4]
  | _ => []
  end.

Definition is_ascii_whitespace (c : Z) : bool :=
  (c =? 0x09) || (c =? 0x0A) || (c =? 0x0C) || (c =? 0x0D) || (c =? 0x20).

Definition strip_padding (s : jsstring) : jsstring :=
  if (Z.of_nat (length s) mod 4 =? 0)
  then match rev s with
       | 0x3D :: 0x3D :: r => rev r
       | 0x3D :: r => rev r
       | _ => s
       end
  else s.

(** [atob(s)]: the forgiving-base64 decode of the HTML standard. [None]
    stands for the [InvalidCharacterError] it throws. The result is a binary
    string, one code unit below 256 per byte. *)
Definition atob (s : jsstring) : option jsstring :=
  let s1 := List.filter (fun c => negb (is_ascii_whitespace c)) s in
  let s2 := strip_padding s1 in
  if Z.of_nat (length s2) mod 4 =? 1 then None
  else match sextets s2 with
       | Some vs => Some (decode_sextets vs)
       | None => None
       end.

(** The [message] of the exception [atob] throws (the browser's wording). *)
Definition atob_error_message : jsstring :=
  js "Failed to execute 'atob' on 'Window': The string to be decoded is not correctly encoded.".

End JS.

(** ** Recovery kits: [Frontend/src/lib/crypto.ts], first part *)

Module Kit.
Import JS.

(** What [validateRecoveryKit] returns: [{ isValid, error? }]. *)
Record Validation := mkValidation {
  isValid : bool;
  error : option jsstring
}.

Definition valid : Validation := {| isValid := true; error := None |}.

Definition invalid (message : jsstring) : Validation :=
  {| isValid := false; error := Some message |}.

(** The [while (cleanBase64.length % 4) cleanBase64 += '='] loop. *)
Definition pad_base64 (s : jsstring) : jsstring :=
  s ++ repeat 0x3D (Z.to_nat ((4 - Z.of_nat (length s) mod 4) mod 4)).

(** [base64ToArrayBuffer]: the bytes, or the [Error] it throws. *)
Definition base64ToArrayBuffer (base64 : jsstring) : Result (list byte) :=
  let cleanBase64 := pad_base64 (remove_whitespace (trim base64)) in
  let attempt : Result (list byte) :=
    if negb (base64_format cleanBase64) then Throw (js "Invalid base64 format")
    else match atob cleanBase64 with
         | Some binaryString => Ok (map Z_to_byte binaryString)
         | None => Throw atob_error_message
         end in
  match attempt with
  | Ok bytes => Ok bytes
  | Throw message => Throw (js "Failed to decode base64 data: " ++ message)
  end.

Definition base64_alphabet : string :=
  "ABCDEFGHIJKLMNOPQRSTUVWXYZabcdefghijklmnopqrstuvwxyz0123456789+/".

Definition base64_char (v : Z) : Z :=
  match String.get (Z.to_nat v) base64_alphabet with
  | Some a => Z.of_N (N_of_ascii a)
  | None => 0x41
  end.

(** [btoa] on a binary string given as its bytes. *)
Fixpoint btoa (bs : list Z) : jsstring :=
  match bs with
  | a :: b :: c :: rest =>
      let n := Z.lor (Z.shiftl a 16) (Z.lor (Z.shiftl b 8) c) in
      base64_char (Z.shiftr n 18) :: base64_char (Z.land (Z.shiftr n 12) 63)
        :: base64_char (Z.land (Z.shiftr n 6) 63) :: base64_char (Z.land n 63)
        :: btoa rest
  | [a; b] =>
      let n := Z.lor (Z.shiftl a 16) (Z.shiftl b 8) in
      [base64_char (Z.shiftr n 18); base64_char (Z.land (Z.shiftr n 12) 63);
       base64_char (Z.land (Z.shiftr n 6) 63); 0x3D]
  | [a] =>
      let n := Z.shiftl a 16 in
      [base64_char (Z.shiftr n 18); base64_char (Z.land (Z.shiftr n 12) 63);
       0x3D; 0x3D]
  | [] => []
  end.

(** [arrayBufferToBase64] *)
Definition arrayBufferToBase64 (buffer : list byte) : jsstring :=
  btoa (map byte_to_Z buffer).

(** [!v || typeof v !== 'string'] is false: [v] is a non-empty string. *)
Definition nonempty_string (v : JsValue) : option jsstring :=
  match v with
  | JString s => if truthy v then Some s else None
  | _ => None
  end.

(** The length checks of [validateRecoveryKit], after the base64 checks. *)
Definition check_lengths (key iv : jsstring) : Validation :=
  match base64ToArrayBuffer key with
  | Throw _ => invalid (js "Failed to validate key/IV buffer lengths")
  | Ok keyBuffer =>
      match base64ToArrayBuffer iv with
      | Throw _ => invalid (js "Failed to validate key/IV buffer lengths")
      | Ok ivBuffer =>
          if negb (Z.of_nat (length keyBuffer) =? 32)
          then invalid (js "Invalid encryption key length")
          else if negb (Z.of_nat (length ivBuffer) =? 12)
          then invalid (js "Invalid initialization vector length")
          else valid
      end
  end.

(** [validateRecoveryKit]. The outer [try] has nothing left to catch once
    the three fields are known to be strings. *)
Definition validateRecoveryKit (kit : JsValue) : Validation :=
  if negb (truthy kit) || negb (match typeof kit with T_object => true | _ => false end)
  then invalid (js "Recovery kit must be a valid JSON object")
  else
    match nonempty_string (get kit (js "key")) with
    | None => invalid (js "Recovery kit missing or invalid encryption key")
    | Some key =>
      match nonempty_string (get kit (js "iv")) with
      | None => invalid (js "Recovery kit missing or invalid initialization vector")
      | Some iv =>
        match nonempty_string (get kit (js "capsuleId")) with
        | None => invalid (js "Recovery kit missing or invalid capsule ID")
        | Some capsuleId =>
          if all_digits capsuleId
          then valid
          else
            let cleanKey := remove_whitespace (trim key) in
            let cleanIv := remove_whitespace (trim iv) in
            if negb (base64_format cleanKey)
            then invalid (js "Recovery kit key contains invalid base64 characters")
            else if negb (base64_format cleanIv)
            then invalid (js "Recovery kit IV contains invalid base64 characters")
            else
              match atob cleanKey, atob cleanIv with
              | Some _, Some _ => check_lengths key iv
              | _, _ =>
                  invalid (js "Recovery kit contains invalid base64 encoded data: "
                             ++ atob_error_message)
              end
        end
      end
    end.

(** A kit as the code builds and stores it. *)
Definition make_kit (key iv capsuleId : jsstring) : JsValue :=
  JObject [(js "key", JString key); (js "iv", JString iv);
           (js "capsuleId", JString capsuleId)].

(** *** Sample kits *)

Definition sample_key_bytes : list byte := map Z_to_byte (map Z.of_nat (seq 0 32)).
Definition sample_iv_bytes : list byte := map Z_to_byte (map Z.of_nat (seq 100 12)).

Definition good_kit : JsValue :=
  make_kit (arrayBufferToBase64 sample_key_bytes) (arrayBufferToBase64 sample_iv_bytes)
    (js "capsule_abc").

(** A kit whose key and IV decode to three bytes each, under a numeric id. *)
Definition short_numeric_kit : JsValue :=
  make_kit (js "AAAA") (js "AAAA") (js "1700000000000").

Definition short_kit : JsValue :=
  make_kit (js "AAAA") (js "AAAA") (js "capsule_abc").

End Kit.

(** ** The storage gateway: [Frontend/src/lib/ipfs.ts] *)

Module IPFS.
Import JS.

(** [fetch(url, init)]: what the code puts in [init]. *)
Record Request := mkRequest {
  url : jsstring;
  method : option jsstring;
  mode : option jsstring;
  headers : list (jsstring * jsstring)
}.

(** What the code reads of a response; reading the body may fail. *)
Record Response := mkResponse {
  ok : bool;
  json : Result JsValue;
  text : Result jsstring
}.

(** [IPFSUploadResult] *)
Inductive UploadMethod := pinata | viaLocalStorage.

Record IPFSUploadResult := mkUpload {
  cid : jsstring;
  upload_url : jsstring;
  size : Z;
  upload_method : UploadMethod;
  gatewayUrl : jsstring
}.

Definition pinataApiUrl : jsstring := js "https://api.pinata.cloud".
Definition pinataGateway : jsstring := js "https://gateway.pinata.cloud".

Fixpoint decimal_digits (fuel : nat) (n : Z) (acc : jsstring) : jsstring :=
  match fuel with
  | O => acc
  | S fuel' =>
      let acc' := (0x30 + n mod 10) :: acc in
      if n / 10 =? 0 then acc' else decimal_digits fuel' (n / 10) acc'
  end.

(** A non-negative integer inside a template literal. *)
Definition decimal (n : Z) : jsstring :=
  decimal_digits (S (Z.to_nat (Z.log2 n))) n [].

(** [a || b] *)
Definition or_else (a b : JsValue) : JsValue := if truthy a then a else b.

Fixpoint take_while (f : Z -> bool) (s : jsstring) : jsstring :=
  match s with
  | [] => []
  | c :: rest => if f c then c :: take_while f rest else []
  end.

(** The number a string of decimal digits spells, after [acc]. *)
Fixpoint digits_value (ds : jsstring) (acc : Z) : Z :=
  match ds with
  | [] => acc
  | d :: rest => digits_value rest (10 * acc + (d - 0x30))
  end.

(** The exponent part of a decimal literal: nothing, or [e] or [E], an
    optional sign and digits. [None] when the text is none of these. *)
Definition exponent_part (s : jsstring) : option Z :=
  match s with
  | [] => Some 0
  | c :: rest =>
      if (c =? 0x65) || (c =? 0x45) then
        match rest with
        | 0x2D :: ds => if all_digits ds then Some (- digits_value ds 0) else None
        | 0x2B :: ds => if all_digits ds then Some (digits_value ds 0) else None
        | ds => if all_digits ds then Some (digits_value ds 0) else None
        end
      else None
  end.

(** [Number(s) > 0] for an unsigned decimal literal [s]: [Infinity], or
    digits with an optional fraction and exponent that spell a number above
    half the smallest double, below which the value rounds to zero. *)
Definition decimal_positive (s : jsstring) : bool :=
  if jsstring_eqb s (js "Infinity") then true
  else
    let whole := take_while is_digit s in
    let after_whole := drop_while is_digit s in
    let fraction :=
      match after_whole with
      | 0x2E :: rest => take_while is_digit rest
      | _ => []
      end in
    let after_fraction :=
      match after_whole with
      | 0x2E :: rest => drop_while is_digit rest
      | _ => after_whole
      end in
    match whole ++ fraction, exponent_part after_fraction with
    | _ :: _, Some e =>
        let m := digits_value (whole ++ fraction) 0 in
        let scale := e - Z.of_nat (length fraction) in
        (m >? 0) && ((scale >=? 0) || (m * 2 ^ 1075 >? 10 ^ (- scale)))
    | _, _ => false
    end.

(** [Number(s) > 0] for the digits of a literal in base 16, 8 or 2. *)
Definition radix_positive (is_radix_digit : Z -> bool) (ds : jsstring) : bool :=
  match ds with
  | [] => false
  | _ => forallb is_radix_digit ds && existsb (fun d => negb (d =? 0x30)) ds
  end.

Definition is_hex_char (c : Z) : bool :=
  is_digit c || ((0x41 <=? c) && (c <=? 0x46)) || ((0x61 <=? c) && (c <=? 0x66)).

(** [Number(s) > 0]: [s] without the white space around it is a numeric
    literal of a positive value. *)
Definition string_positive (s : jsstring) : bool :=
  match trim s with
  | [] => false
  | 0x2D :: _ => false
  | 0x2B :: rest => decimal_positive rest
  | 0x30 :: marker :: rest =>
      if (marker =? 0x78) || (marker =? 0x58) then radix_positive is_hex_char rest
      else if (marker =? 0x6F) || (marker =? 0x4F)
      then radix_positive (fun c => (0x30 <=? c) && (c <=? 0x37)) rest
      else if (marker =? 0x62) || (marker =? 0x42)
      then radix_positive (fun c => (0x30 <=? c) && (c <=? 0x31)) rest
      else decimal_positive (0x30 :: marker :: rest)
  | t => decimal_positive t
  end.

(** [Number(String(v)) > 0] for an element [v] of an array that [join]
    turns into text: [null] and [undefined] give the empty string, an array
    of one element the text of that element, and an array of more a text with
    a comma, which is no number. *)
Fixpoint joined_positive (v : JsValue) : bool :=
  match v with
  | JNumber n => n >? 0
  | JString s => string_positive s
  | JArray [e] => joined_positive e
  | _ => false
  end.

(** [v > 0], with the conversion to a number the comparison makes. An object
    converts to no number; where the conversion throws (an object with a
    [toString] of its own, which is not a function) the answer here is
    [false] as well. *)
Definition gt_zero (v : JsValue) : bool :=
  match v with
  | JBool b => b
  | JNumber n => n >? 0
  | JString s => string_positive s
  | JArray [e] => joined_positive e
  | _ => false
  end.

(** [v.rows && v.rows.length > 0]. The comparison is inside a [try] whose
    [catch] goes on as for [false], so the two are not told apart. *)
Definition has_rows (v : JsValue) : bool :=
  match get v (js "rows") with
  | JArray (_ :: _) => true
  | JString (_ :: _) => true
  | JObject fields => gt_zero (assoc (js "length") fields)
  | _ => false
  end.

Section Service.

(** The platform around the service: [encodeURIComponent], [JSON.stringify],
    the configured token, and the network as it answers during one call (a
    [Throw] is a rejected [fetch]: a network error, a CORS refusal or the
    fifteen-second timeout). *)
Variable encodeURIComponent : jsstring -> jsstring.
Variable JSON_stringify : JsValue -> jsstring.
Variable pinataJWT : jsstring.
Variable fetch : Request -> Result Response.

Definition gateway_path (cid : jsstring) : jsstring :=
  pinataGateway ++ js "/ipfs/" ++ cid.

Definition accept_any : list (jsstring * jsstring) :=
  [(js "Accept", js "application/json, text/plain, */*")].

Definition bearer : jsstring * jsstring :=
  (js "Authorization", js "Bearer " ++ pinataJWT).

(** [fallbackToLocalStorage]; [timestamp] is [Date.now()] and [randomId] the
    six characters drawn from [Math.random()]. *)
Definition fallbackToLocalStorage (localStorage : gmap (list Z) (list Z))
    (timestamp : Z) (randomId : jsstring) (data fileName : jsstring)
    : gmap (list Z) (list Z) * IPFSUploadResult :=
  let mockCid := js "local_" ++ decimal timestamp ++ js "_" ++ randomId in
  let ls1 := <[js "ipfs_" ++ mockCid := data]> localStorage in
  let ls2 :=
    <[js "ipfs_meta_" ++ mockCid :=
        JSON_stringify
          (JObject [(js "fileName", JString fileName);
                    (js "uploadedAt", JNumber timestamp);
                    (js "size", JNumber (Z.of_nat (length data)))])]> ls1 in
  (ls2,
   {| cid := mockCid; upload_url := js "local://" ++ mockCid;
      size := Z.of_nat (length data); upload_method := viaLocalStorage;
      gatewayUrl := js "local://" ++ mockCid |}).

(** Strategy 1, one proxy. [Some content] is a [return]. *)
Definition try_cors_proxy (proxyUrl : jsstring) : option jsstring :=
  match fetch {| url := proxyUrl; method := None; mode := None; headers := accept_any |} with
  | Throw _ => None
  | Ok response =>
      if ok response then
        match json response with
        | Throw _ => None
        | Ok JNull | Ok JUndefined => None
        | Ok data =>
            let content :=
              or_else (get data (js "contents"))
                (or_else (get data (js "data"))
                   (or_else (get data (js "response")) (JString (JSON_stringify data)))) in
            match content with
            | JString s => if truthy content then Some s else None
            | _ => None
            end
        end
      else None
  end.

(** A request whose body text is returned when the response is [ok]. *)
Definition try_text (r : Request) : option jsstring :=
  match fetch r with
  | Throw _ => None
  | Ok response =>
      if ok response then
        match text response with
        | Ok content => Some content
        | Throw _ => None
        end
      else None
  end.

(** Runs the attempts in order until one returns; the second component lists
    the requests made. *)
Fixpoint first_success {A : Type} (attempt : A -> option jsstring) (request : A -> Request)
    (xs : list A) : option jsstring * list Request :=
  match xs with
  | [] => (None, [])
  | x :: rest =>
      match attempt x with
      | Some content => (Some content, [request x])
      | None =>
          let '(r, trace) := first_success attempt request rest in
          (r, request x :: trace)
      end
  end.

Definition corsProxies (cid : jsstring) : list jsstring :=
  [ js "https://api.allorigins.win/get?url=" ++ encodeURIComponent (gateway_path cid);
    js "https://cors-anywhere.herokuapp.com/" ++ gateway_path cid;
    js "https://corsproxy.io/?" ++ encodeURIComponent (gateway_path cid) ].

Definition proxy_request (proxyUrl : jsstring) : Request :=
  {| url := proxyUrl; method := None; mode := None; headers := accept_any |}.

Definition pin_list_request (cid : jsstring) : Request :=
  {| url := pinataApiUrl ++ js "/data/pinList?status=pinned&hashContains=" ++ cid
              ++ js "&pageLimit=1";
     method := None; mode := None; headers := [bearer] |}.

Definition auth_gateway_request (cid : jsstring) : Request :=
  {| url := gateway_path cid; method := None; mode := None;
     headers := bearer :: accept_any |}.

(** Strategy 2: the pin list, then the authenticated gateway. *)
Definition try_pinata (cid : jsstring) : option jsstring * list Request :=
  match pinataJWT with
  | [] => (None, [])
  | _ =>
      match fetch (pin_list_request cid) with
      | Throw _ => (None, [pin_list_request cid])
      | Ok pinListResponse =>
          if ok pinListResponse then
            match json pinListResponse with
            | Throw _ | Ok JNull | Ok JUndefined => (None, [pin_list_request cid])
            | Ok pinData =>
                if has_rows pinData
                then (try_text (auth_gateway_request cid),
                      [pin_list_request cid; auth_gateway_request cid])
                else (None, [pin_list_request cid])
            end
          else (None, [pin_list_request cid])
      end
  end.

Definition corsOptimizedGateways (cid : jsstring) : list jsstring :=
  [ gateway_path cid;
    js "https://cloudflare-ipfs.com/ipfs/" ++ cid;
    js "https://dweb.link/ipfs/" ++ cid;
    js "https://" ++ cid ++ js ".ipfs.dweb.link" ].

Definition gateway_request (gatewayUrl : jsstring) : Request :=
  {| url := gatewayUrl; method := Some (js "GET"); mode := Some (js "cors");
     headers :=
       accept_any ++
       [(js "Cache-Control", js "no-cache");
        (js "User-Agent", js "Mozilla/5.0 (compatible; TimeCapsule/1.0)")] |}.

Definition alternativeMethods : list jsstring := [js "no-cors"; js "same-origin"].

Definition alternative_request (cid : jsstring) (m : jsstring) : Request :=
  {| url := gateway_path cid; method := Some (js "GET"); mode := Some m;
     headers := [(js "Accept", js "*/*")] |}.

(** The message thrown when every strategy has failed. *)
Definition helpfulError (cid : jsstring) : jsstring :=
  js "IPFS download failed after trying multiple strategies:" ++ [10; 10]
  ++ js "CID: " ++ cid ++ [10; 10]
  ++ js "Attempted strategies:" ++ [10]
  ++ js "1. " ++ [0x2717] ++ js " CORS proxy services (3 different proxies)" ++ [10]
  ++ js "2. " ++ [0x2717] ++ js " Pinata authenticated API" ++ [10]
  ++ js "3. " ++ [0x2717] ++ js " CORS-optimized gateways (4 different gateways)" ++ [10]
  ++ js "4. " ++ [0x2717] ++ js " Alternative request modes" ++ [10; 10]
  ++ js "This is likely due to:" ++ [10]
  ++ js "- CORS restrictions from all IPFS gateways" ++ [10]
  ++ js "- Content not fully propagated across IPFS network" ++ [10]
  ++ js "- Network connectivity issues" ++ [10; 10]
  ++ js "Solutions to try:" ++ [10]
  ++ js "1. Wait 5-10 minutes for better IPFS propagation" ++ [10]
  ++ js "2. Try accessing the content directly: " ++ gateway_path cid ++ [10]
  ++ js "3. Use a different browser or disable CORS temporarily for testing" ++ [10]
  ++ js "4. Upload content again and try immediately" ++ [10; 10]
  ++ js "The content exists on IPFS but browser CORS policies are preventing access.".

(** The network fallback chain of [download], strategies 1 to 4. *)
Definition download_from_network (cid : jsstring) : Result jsstring * list Request :=
  match first_success try_cors_proxy proxy_request (corsProxies cid) with
  | (Some content, t1) => (Ok content, t1)
  | (None, t1) =>
      match try_pinata cid with
      | (Some content, t2) => (Ok content, t1 ++ t2)
      | (None, t2) =>
          match first_success (fun u => try_text (gateway_request u)) gateway_request
                  (corsOptimizedGateways cid) with
          | (Some content, t3) => (Ok content, t1 ++ t2 ++ t3)
          | (None, t3) =>
              match first_success (fun m => try_text (alternative_request cid m))
                      (alternative_request cid) alternativeMethods with
              | (Some content, t4) => (Ok content, t1 ++ t2 ++ t3 ++ t4)
              | (None, t4) => (Throw (helpfulError cid), t1 ++ t2 ++ t3 ++ t4)
              end
          end
      end
  end.

(** [download]: what it returns or throws, and the requests it made. *)
Definition download (localStorage : gmap (list Z) (list Z)) (cid : jsstring)
    : Result jsstring * list Request :=
  if negb (truthy (JString cid)) || jsstring_eqb (trim cid) []
  then (Throw (js "Invalid CID: CID cannot be empty"), [])
  else if startsWith cid (js "local_")
  then match localStorage !! (js "ipfs_" ++ cid) with
       | Some stored =>
           if negb (truthy (JString stored))
           then (Throw (js "Content not found in localStorage for CID: " ++ cid), [])
           else (Ok stored, [])
       | None => (Throw (js "Content not found in localStorage for CID: " ++ cid), [])
       end
  else download_from_network cid.

(** [getGatewayUrl] without a file name. *)
Definition getGatewayUrl (cid : jsstring) : jsstring :=
  if startsWith cid (js "local_") then js "local://" ++ cid else gateway_path cid.

End Service.

(** *** A sample network and cache *)

Definition no_network : Request -> Result Response :=
  fun _ => Throw (js "Failed to fetch").

(** A network on which every request is answered with the same text. *)
Definition echo_network : Request -> Result Response :=
  fun _ => Ok {| ok := true; json := Throw (js "Unexpected token");
                 text := Ok (js "from the network") |}.

Definition plain_encode : jsstring -> jsstring := fun s => s.
Definition plain_stringify : JsValue -> jsstring := fun _ => js "{}".

Definition cache_after_upload : gmap (list Z) (list Z) * IPFSUploadResult :=
  fallbackToLocalStorage plain_stringify ∅ 1700000000000 (js "k3x9qa")
    (js "encrypted blob") (js "capsule-content.enc").

Definition cache_after_empty_upload : gmap (list Z) (list Z) * IPFSUploadResult :=
  fallbackToLocalStorage plain_stringify ∅ 1700000000000 (js "k3x9qa")
    [] (js "content.txt").

End IPFS.

(** ** UTF-8 and UTF-16: [TextEncoder] and [TextDecoder] *)

Module Encoding.
Import JS.

Definition is_lead (c : Z) : bool := (0xD800 <=? c) && (c <=? 0xDBFF).
Definition is_trail (c : Z) : bool := (0xDC00 <=? c) && (c <=? 0xDFFF).

(** Scalar values of a string, as the conversion to a [USVString] reads it:
    a surrogate pair is one value, a surrogate on its own becomes U+FFFD. *)
Fixpoint scalar_values (s : jsstring) : list Z :=
  match s with
  | [] => []
  | c :: rest =>
      if is_lead c then
        match rest with
        | d :: rest' =>
            if is_trail d
            then 0x10000 + Z.shiftl (c - 0xD800) 10 + (d - 0xDC00) :: scalar_values rest'
            else 0xFFFD :: scalar_values rest
        | [] => [0xFFFD]
        end
      else if is_trail c then 0xFFFD :: scalar_values rest
      else c :: scalar_values rest
  end.

(** No surrogate stands on its own. *)
Fixpoint well_formed (s : jsstring) : bool :=
  match s with
  | [] => true
  | c :: rest =>
      if is_lead c then
        match rest with
        | d :: rest' => is_trail d && well_formed rest'
        | [] => false
        end
      else negb (is_trail c) && well_formed rest
  end.

Definition utf8_encode_scalar (cp : Z) : list Z :=
  if cp <=? 0x7F then [cp]
  else if cp <=? 0x7FF then
    [Z.lor 0xC0 (Z.shiftr cp 6); Z.lor 0x80 (Z.land cp 0x3F)]
  else if cp <=? 0xFFFF then
    [Z.lor 0xE0 (Z.shiftr cp 12); Z.lor 0x80 (Z.land (Z.shiftr cp 6) 0x3F);
     Z.lor 0x80 (Z.land cp 0x3F)]
  else
    [Z.lor 0xF0 (Z.shiftr cp 18); Z.lor 0x80 (Z.land (Z.shiftr cp 12) 0x3F);
     Z.lor 0x80 (Z.land (Z.shiftr cp 6) 0x3F); Z.lor 0x80 (Z.land cp 0x3F)].

(** [new TextEncoder().encode(s)] *)
Definition TextEncoder_encode (s : jsstring) : list byte :=
  map Z_to_byte (flat_map utf8_encode_scalar (scalar_values s)).

(** The UTF-8 decoder of the Encoding standard. *)
Record Decoder := mkDecoder {
  code_point : Z;
  bytes_seen : Z;
  bytes_needed : Z;
  lower_boundary : Z;
  upper_boundary : Z
}.

Definition decoder_start : Decoder :=
  {| code_point := 0; bytes_seen := 0; bytes_needed := 0;
     lower_boundary := 0x80; upper_boundary := 0xBF |}.

(** A byte read with no sequence under way. *)
Definition lead_byte (b : Z) : Decoder * list Z :=
  if b <=? 0x7F then (decoder_start, [b])
  else if (0xC2 <=? b) && (b <=? 0xDF) then
    ({| code_point := Z.land b 0x1F; bytes_seen := 0; bytes_needed := 1;
        lower_boundary := 0x80; upper_boundary := 0xBF |}, [])
  else if (0xE0 <=? b) && (b <=? 0xEF) then
    ({| code_point := Z.land b 0xF; bytes_seen := 0; bytes_needed := 2;
        lower_boundary := if b =? 0xE0 then 0xA0 else 0x80;
        upper_boundary := if b =? 0xED then 0x9F else 0xBF |}, [])
  else if (0xF0 <=? b) && (b <=? 0xF4) then
    ({| code_point := Z.land b 0x7; bytes_seen := 0; bytes_needed := 3;
        lower_boundary := if b =? 0xF0 then 0x90 else 0x80;
        upper_boundary := if b =? 0xF4 then 0x8F else 0xBF |}, [])
  else (decoder_start, [0xFFFD]).

(** One byte through the decoder. A byte that cannot continue the sequence
    under way ends it with U+FFFD and is read again as a first byte. *)
Definition decoder_step (d : Decoder) (b : Z) : Decoder * list Z :=
  if bytes_needed d =? 0 then lead_byte b
  else if negb ((lower_boundary d <=? b) && (b <=? upper_boundary d)) then
    let '(d', out) := lead_byte b in (d', 0xFFFD :: out)
  else
    let cp := Z.lor (Z.shiftl (code_point d) 6) (Z.land b 0x3F) in
    if bytes_seen d + 1 =? bytes_needed d
    then (decoder_start, [cp])
    else ({| code_point := cp; bytes_seen := bytes_seen d + 1;
             bytes_needed := bytes_needed d;
             lower_boundary := 0x80; upper_boundary := 0xBF |}, [])
  .

Fixpoint decoder_run (d : Decoder) (bs : list Z) : Decoder * list Z :=
  match bs with
  | [] => (d, [])
  | b :: rest =>
      let '(d1, out1) := decoder_step d b in
      let '(d2, out2) := decoder_run d1 rest in
      (d2, out1 ++ out2)
  end.

(** The scalar values of a byte sequence; an unfinished sequence at the end
    gives one more U+FFFD. *)
Definition utf8_decode (bs : list Z) : list Z :=
  let '(d, out) := decoder_run decoder_start bs in
  if bytes_needed d =? 0 then out else out ++ [0xFFFD].

Definition utf16_encode_scalar (cp : Z) : jsstring :=
  if cp <? 0x10000 then [cp]
  else [0xD800 + Z.shiftr (cp - 0x10000) 10; 0xDC00 + Z.land (cp - 0x10000) 0x3FF].

Definition strip_bom (cps : list Z) : list Z :=
  match cps with
  | 0xFEFF :: rest => rest
  | _ => cps
  end.

(** [new TextDecoder().decode(bytes)]: UTF-8, not fatal, a leading byte order
    mark dropped. *)
Definition TextDecoder_decode (bs : list byte) : jsstring :=
  flat_map utf16_encode_scalar (strip_bom (utf8_decode (map byte_to_Z bs))).

Definition is_byte (b : Z) : bool := (0 <=? b) && (b <=? 255).

(** A UTF-16 code unit. *)
Definition is_code_unit (c : Z) : bool := (0 <=? c) && (c <=? 0xFFFF).

(** A scalar value is encoded in bytes, and decodes from them to itself,
    leaving the decoder where it started. *)
Definition scalar_roundtrips (cp : Z) : bool :=
  forallb is_byte (utf8_encode_scalar cp)
  && match decoder_run decoder_start (utf8_encode_scalar cp) with
     | (d, [cp']) => (cp' =? cp) && (bytes_needed d =? 0) && (bytes_seen d =? 0)
                     && (code_point d =? 0) && (lower_boundary d =? 0x80)
                     && (upper_boundary d =? 0xBF)
     | _ => false
     end.

Definition is_scalar (cp : Z) : bool :=
  ((0 <=? cp) && (cp <=? 0xD7FF)) || ((0xE000 <=? cp) && (cp <=? 0x10FFFF)).

(** [P] holds of the [n] integers from [lo] on. *)
Definition forall_range (P : Z -> bool) (lo : Z) (n : N) : bool :=
  snd (N.iter n (fun st : Z * bool => (fst st + 1, snd st && P (fst st))) (lo, true)).

End Encoding.

(** ** AES, the block cipher behind [crypto.subtle] *)

Module AES.

(** Multiplication by [x] in GF(2^8) modulo [x^8 + x^4 + x^3 + x + 1]. *)
Definition xtime (a : Z) : Z :=
  let b := Z.shiftl a 1 in
  if Z.testbit a 7 then Z.land (Z.lxor b 0x1B) 255 else b.

Fixpoint gf_mul_fuel (n : nat) (a b : Z) : Z :=
  match n with
  | O => 0
  | S n' =>
      Z.lxor (if Z.testbit b 0 then a else 0)
             (gf_mul_fuel n' (xtime a) (Z.shiftr b 1))
  end.

Definition gf_mul (a b : Z) : Z := gf_mul_fuel 8 a b.

Definition gf_square (a : Z) : Z := gf_mul a a.

(** [a^254]: the inverse of a non-zero [a], and [0] for [0]. *)
Definition gf_inv (a : Z) : Z :=
  let a2 := gf_square a in
  let a4 := gf_square a2 in
  let a8 := gf_square a4 in
  let a16 := gf_square a8 in
  let a32 := gf_square a16 in
  let a64 := gf_square a32 in
  let a128 := gf_square a64 in
  gf_mul a128 (gf_mul a64 (gf_mul a32 (gf_mul a16 (gf_mul a8 (gf_mul a4 a2))))).

Definition rotl8 (a : Z) (n : Z) : Z :=
  Z.land (Z.lor (Z.shiftl a n) (Z.shiftr a (8 - n))) 255.

Definition sbox_of (a : Z) : Z :=
  let i := gf_inv a in
  Z.lxor i (Z.lxor (rotl8 i 1) (Z.lxor (rotl8 i 2)
    (Z.lxor (rotl8 i 3) (Z.lxor (rotl8 i 4) 0x63)))).

Definition sbox_table : list Z :=
  Eval vm_compute in map (fun n => sbox_of (Z.of_nat n)) (seq 0 256).

Definition sbox (a : Z) : Z := nth (Z.to_nat a) sbox_table 0.

(** A word is four bytes, the first one on top. *)
Definition sub_word (w : list Z) : list Z := map sbox w.

Definition rot_word (w : list Z) : list Z :=
  match w with
  | a :: rest => rest ++ [a]
  | [] => []
  end.

Definition xor_bytes (a b : list Z) : list Z :=
  map (fun p => Z.lxor (fst p) (snd p)) (combine a b).

Fixpoint chunks (n : nat) (count : nat) (l : list Z) : list (list Z) :=
  match count with
  | O => []
  | S count' => firstn n l :: chunks n count' (skipn n l)
  end.

(** The words of the key schedule after the first [Nk], most recent first.
    [i] is the index of the next word and [rcon] the round constant due. *)
Fixpoint expand (fuel : nat) (Nk : nat) (i : nat) (rcon : Z)
    (ws : list (list Z)) : list (list Z) :=
  match fuel with
  | O => ws
  | S fuel' =>
      let prev := nth 0 ws [] in
      let back := nth (Nk - 1) ws [] in
      if (i mod Nk =? 0)%nat then
        let temp := xor_bytes (sub_word (rot_word prev)) [rcon; 0; 0; 0] in
        expand fuel' Nk (S i) (xtime rcon) (xor_bytes back temp :: ws)
      else if (6 <? Nk)%nat && (i mod Nk =? 4)%nat then
        expand fuel' Nk (S i) rcon (xor_bytes back (sub_word prev) :: ws)
      else
        expand fuel' Nk (S i) rcon (xor_bytes back prev :: ws)
  end.

(** The round keys, sixteen bytes each, for a key of 16, 24 or 32 bytes. *)
Definition round_keys (key : list Z) : list (list Z) :=
  let Nk := (length key / 4)%nat in
  let Nr := (Nk + 6)%nat in
  let first := rev (chunks 4 Nk key) in
  let ws := rev (expand (4 * (Nr + 1) - Nk) Nk Nk 1 first) in
  map (fun ks => concat ks) (map (fun k => firstn 4 (skipn (4 * k) ws)) (seq 0 (Nr + 1))).

Definition byte_at (s : list Z) (i : nat) : Z := nth i s 0.

(** Byte [r + 4c] of the state is row [r] of column [c]. *)
Definition shift_rows (s : list Z) : list Z :=
  map (fun i => byte_at s (i mod 4 + 4 * ((i / 4 + i mod 4) mod 4))) (seq 0 16).

Definition mix_column (col : list Z) : list Z :=
  let a0 := byte_at col 0 in
  let a1 := byte_at col 1 in
  let a2 := byte_at col 2 in
  let a3 := byte_at col 3 in
  [ Z.lxor (xtime a0) (Z.lxor (Z.lxor (xtime a1) a1) (Z.lxor a2 a3));
    Z.lxor a0 (Z.lxor (xtime a1) (Z.lxor (Z.lxor (xtime a2) a2) a3));
    Z.lxor a0 (Z.lxor a1 (Z.lxor (xtime a2) (Z.lxor (xtime a3) a3)));
    Z.lxor (Z.lxor (xtime a0) a0) (Z.lxor a1 (Z.lxor a2 (xtime a3))) ].

Definition mix_columns (s : list Z) : list Z :=
  concat (map mix_column (chunks 4 4 s)).

Definition aes_round (s : list Z) (rk : list Z) : list Z :=
  xor_bytes (mix_columns (shift_rows (map sbox s))) rk.

Definition final_round (s : list Z) (rk : list Z) : list Z :=
  xor_bytes (shift_rows (map sbox s)) rk.

(** The cipher on one sixteen-byte block. *)
Definition cipher_bytes (key : list Z) (block : list Z) : list Z :=
  match round_keys key with
  | [] => block
  | rk0 :: rks =>
      let middle := List.removelast rks in
      let last_key := List.last rks [] in
      final_round (fold_left aes_round middle (xor_bytes block rk0)) last_key
  end.

End AES.

(** ** AES-GCM as [crypto.subtle.encrypt] and [decrypt] run it *)

Module GCM.

(** A block is a 128-bit number, its first byte the most significant. *)
Definition block_of_bytes (bs : list Z) : Z :=
  fold_left (fun acc b => acc * 256 + b) bs 0.

Definition bytes_of_block (x : Z) : list Z :=
  map (fun i => Z.land (Z.shiftr x (8 * (15 - Z.of_nat i))) 255) (seq 0 16).

(** [CIPH_K]: the AES cipher on a block. *)
Definition E (key : list Z) (x : Z) : Z :=
  block_of_bytes (AES.cipher_bytes key (bytes_of_block x)).

Definition R : Z := Z.shiftl 0xE1 120.

Fixpoint gf128_mul_fuel (n : nat) (i : Z) (x v z : Z) : Z :=
  match n with
  | O => z
  | S n' =>
      let z' := if Z.testbit x (127 - i) then Z.lxor z v else z in
      let v' := if Z.testbit v 0 then Z.lxor (Z.shiftr v 1) R else Z.shiftr v 1 in
      gf128_mul_fuel n' (i + 1) x v' z'
  end.

(** The product of two blocks in GF(2^128), bits numbered as in SP 800-38D. *)
Definition gf128_mul (x y : Z) : Z := gf128_mul_fuel 128 0 x y 0.

Definition ghash (h : Z) (blocks : list Z) : Z :=
  fold_left (fun y x => gf128_mul (Z.lxor y x) h) blocks 0.

Definition pad16 (bs : list Z) : list Z :=
  bs ++ repeat 0 ((16 - length bs mod 16) mod 16).

Fixpoint blocks_of (fuel : nat) (bs : list Z) : list Z :=
  match fuel with
  | O => []
  | S fuel' =>
      match bs with
      | [] => []
      | _ => block_of_bytes (firstn 16 bs) :: blocks_of fuel' (skipn 16 bs)
      end
  end.

Definition blocks (bs : list Z) : list Z := blocks_of (length bs) (pad16 bs).

Definition inc32 (x : Z) : Z :=
  Z.lor (Z.shiftl (Z.shiftr x 32) 32) ((Z.land x 0xFFFFFFFF + 1) mod 2 ^ 32).

(** The pre-counter block [J0] for an initialization vector. *)
Definition j0 (h : Z) (iv : list Z) : Z :=
  if Z.of_nat (length iv) =? 12
  then Z.lor (Z.shiftl (block_of_bytes iv) 32) 1
  else ghash h (blocks iv ++ [8 * Z.of_nat (length iv)]).

(** [GCTR]: the counter-mode key stream, as many bytes as the input has,
    combined with the input. *)
Fixpoint keystream (key : list Z) (cb : Z) (nblocks : nat) : list Z :=
  match nblocks with
  | O => []
  | S n => bytes_of_block (E key cb) ++ keystream key (inc32 cb) n
  end.

Definition gctr (key : list Z) (icb : Z) (x : list Z) : list Z :=
  AES.xor_bytes x (keystream key icb ((length x + 15) / 16)).

(** The authentication tag of a ciphertext, with no additional data. *)
Definition tag (key : list Z) (iv : list Z) (c : list Z) : list Z :=
  let h := E key 0 in
  let s := ghash h (blocks c ++ [8 * Z.of_nat (length c)]) in
  bytes_of_block (Z.lxor s (E key (j0 h iv))).

(** Authenticated encryption: the ciphertext followed by the 128-bit tag. *)
Definition seal (key iv plaintext : list Z) : list Z :=
  let h := E key 0 in
  let c := gctr key (inc32 (j0 h iv)) plaintext in
  c ++ tag key iv c.

Definition bytes_eqb (a b : list Z) : bool :=
  (length a =? length b)%nat && forallb (fun p => fst p =? snd p) (combine a b).

(** Authenticated decryption: [None] when the input is shorter than a tag or
    the tag does not match. *)
Definition open (key iv data : list Z) : option (list Z) :=
  if (length data <? 16)%nat then None
  else
    let c := firstn (length data - 16) data in
    let t := skipn (length data - 16) data in
    if bytes_eqb (tag key iv c) t
    then Some (gctr key (inc32 (j0 (E key 0) iv)) c)
    else None.

End GCM.

(** ** Sealing: [Frontend/src/lib/crypto.ts], second part *)

Module Crypto.
Import JS Kit.

(** A [CryptoKey] for AES-GCM: the raw key and what it may be used for. *)
Record CryptoKey := mkCryptoKey {
  raw : list byte;
  extractable : bool;
  may_encrypt : bool;
  may_decrypt : bool
}.

(** [EncryptedData] *)
Record EncryptedData := mkEncryptedData {
  encryptedContent : list byte;
  iv : list byte;
  key : list byte
}.

Definition valid_key_length (n : nat) : bool :=
  (n =? 16)%nat || (n =? 24)%nat || (n =? 32)%nat.

(** The largest plaintext [crypto.subtle.encrypt] takes under AES-GCM. *)
Definition MAX_PLAINTEXT : Z := 2 ^ 39 - 256.

(** What makes [crypto.subtle] reject a call. Each is raised as a
    [DOMException]: a key of the wrong length as [DataError], a key that may
    not be exported or used as [InvalidAccessError], the others as
    [OperationError]. *)
Inductive CryptoFailure :=
| InvalidKeyLength
| KeyNotExtractable
| KeyUsageMissing
| DataTooLong
| EmptyNonce
| AuthenticationFailed.

(** [crypto.subtle.generateKey({name: 'AES-GCM', length: 256}, true,
    ['encrypt', 'decrypt'])], given the 32 random bytes it draws. *)
Definition generateKey (random : list byte) : CryptoKey :=
  {| raw := random; extractable := true; may_encrypt := true; may_decrypt := true |}.

Section Engine.

(** The [message] of the exception the engine raises for each failure. The
    wording is the engine's own; the code forwards it as it is. *)
Variable engine_message : CryptoFailure -> jsstring.

(** [crypto.subtle.importKey('raw', key, {name: 'AES-GCM'}, false, ['decrypt'])] *)
Definition importKey (keyData : list byte) : Result CryptoKey :=
  if valid_key_length (length keyData)
  then Ok {| raw := keyData; extractable := false; may_encrypt := false;
             may_decrypt := true |}
  else Throw (engine_message InvalidKeyLength).

(** [crypto.subtle.exportKey('raw', key)] *)
Definition exportKey (k : CryptoKey) : Result (list byte) :=
  if extractable k then Ok (raw k) else Throw (engine_message KeyNotExtractable).

(** [crypto.subtle.encrypt({name: 'AES-GCM', iv}, key, data)], with the
    default 128-bit tag and no additional data. An empty [iv] is refused, as
    the browsers' implementations do. *)
Definition subtle_encrypt (k : CryptoKey) (iv data : list byte) : Result (list byte) :=
  if negb (may_encrypt k) then Throw (engine_message KeyUsageMissing)
  else if Z.of_nat (length data) >? MAX_PLAINTEXT then Throw (engine_message DataTooLong)
  else if (length iv =? 0)%nat then Throw (engine_message EmptyNonce)
  else Ok (map Z_to_byte
             (GCM.seal (map byte_to_Z (raw k)) (map byte_to_Z iv) (map byte_to_Z data))).

(** [crypto.subtle.decrypt({name: 'AES-GCM', iv}, key, data)] *)
Definition subtle_decrypt (k : CryptoKey) (iv data : list byte) : Result (list byte) :=
  if negb (may_decrypt k) then Throw (engine_message KeyUsageMissing)
  else if (length iv =? 0)%nat then Throw (engine_message EmptyNonce)
  else match GCM.open (map byte_to_Z (raw k)) (map byte_to_Z iv) (map byte_to_Z data) with
       | Some plaintext => Ok (map Z_to_byte plaintext)
       | None => Throw (engine_message AuthenticationFailed)
       end.

(** [encrypt(data, key?)]. [fresh_key] and [fresh_iv] are the random bytes
    [generateKey] and [generateIV] draw: 32 and 12 of them. *)
Definition encrypt (fresh_key fresh_iv : list byte) (data : jsstring)
    (key : option CryptoKey) : Result EncryptedData :=
  let encryptionKey :=
    match key with Some k => k | None => generateKey fresh_key end in
  let iv := fresh_iv in
  let encodedData := Encoding.TextEncoder_encode data in
  match subtle_encrypt encryptionKey iv encodedData with
  | Throw e => Throw e
  | Ok encryptedContent =>
      match exportKey encryptionKey with
      | Throw e => Throw e
      | Ok exportedKey =>
          Ok {| encryptedContent := encryptedContent; iv := iv; key := exportedKey |}
      end
  end.

(** [decrypt(encryptedData, key, iv)] *)
Definition decrypt (encryptedData key iv : list byte) : Result jsstring :=
  match importKey key with
  | Throw e => Throw e
  | Ok cryptoKey =>
      match subtle_decrypt cryptoKey iv encryptedData with
      | Throw e => Throw e
      | Ok decryptedData => Ok (Encoding.TextDecoder_decode decryptedData)
      end
  end.

(** [createRecoveryKit]; [now] is [Date.now()]. *)
Definition createRecoveryKit (now : Z) (encryptedData : EncryptedData)
    (capsuleId : jsstring) : JsValue :=
  JObject [(js "key", JString (arrayBufferToBase64 (key encryptedData)));
           (js "iv", JString (arrayBufferToBase64 (iv encryptedData)));
           (js "capsuleId", JString capsuleId);
           (js "metadata",
            JObject [(js "createdAt", JNumber now); (js "version", JString (js "1.0"))])].

(** The message of the [TypeError] a property read on [null], [undefined] or
    a call of a missing method raises (the engine's wording is its own). *)
Definition TypeError_message : jsstring := js "TypeError".

(** [base64ToArrayBuffer(v)] for a value that need not be a string: its
    [trim] call is inside the [try]. *)
Definition base64ToArrayBuffer_value (v : JsValue) : Result (list byte) :=
  match v with
  | JString s => base64ToArrayBuffer s
  | _ => Throw (js "Failed to decode base64 data: " ++ TypeError_message)
  end.

(** [decryptWithRecoveryKit] *)
Definition decryptWithRecoveryKit (encryptedContent : list byte) (recoveryKit : JsValue)
    : Result jsstring :=
  match recoveryKit with
  | JNull | JUndefined => Throw TypeError_message
  | _ =>
      match base64ToArrayBuffer_value (get recoveryKit (js "key")) with
      | Throw e => Throw e
      | Ok key =>
          match base64ToArrayBuffer_value (get recoveryKit (js "iv")) with
          | Throw e => Throw e
          | Ok iv => decrypt encryptedContent key iv
          end
      end
  end.

(** [v.length] can be read: [v] is neither [null] nor [undefined]. *)
Definition has_members (v : JsValue) : bool :=
  match v with
  | JNull | JUndefined => false
  | _ => true
  end.

Section Parsing.

(** [JSON.parse], which returns a value or throws. *)
Variable JSON_parse : jsstring -> Result JsValue.

(** The body of the [try] in [decryptCapsuleContent]. *)
Definition decryptCapsuleContent_try (encryptedContentBase64 : jsstring)
    (recoveryKit : JsValue) : Result JsValue :=
  if negb (has_members recoveryKit)
     || negb (has_members (get recoveryKit (js "key")))
     || negb (has_members (get recoveryKit (js "iv")))
  then Throw TypeError_message
  else
    let validation := validateRecoveryKit recoveryKit in
    if negb (isValid validation)
    then Throw (js "Invalid recovery kit: " ++ default (js "undefined") (error validation))
    else if negb (truthy (JString encryptedContentBase64))
    then Throw (js "Encrypted content is missing or invalid")
    else
      match base64ToArrayBuffer encryptedContentBase64 with
      | Throw e => Throw e
      | Ok encryptedContent =>
          match decryptWithRecoveryKit encryptedContent recoveryKit with
          | Throw e => Throw e
          | Ok decryptedString =>
              match JSON_parse decryptedString with
              | Throw e => Throw e
              | Ok capsuleContent =>
                  if negb (has_members capsuleContent) then Throw TypeError_message
                  else if negb (truthy (get capsuleContent (js "title")))
                          || negb (truthy (get capsuleContent (js "creator")))
                  then Throw (js "Decrypted content has invalid structure")
                  else Ok capsuleContent
              end
          end
      end.

(** [decryptCapsuleContent]: every failure is thrown again as
    [Decryption failed: ...]. *)
Definition decryptCapsuleContent (encryptedContentBase64 : jsstring)
    (recoveryKit : JsValue) : Result JsValue :=
  match decryptCapsuleContent_try encryptedContentBase64 recoveryKit with
  | Ok capsuleContent => Ok capsuleContent
  | Throw message => Throw (js "Decryption failed: " ++ message)
  end.

End Parsing.

End Engine.

(** *** A sample sealing *)

(** An engine that words every exception by its name. *)
Definition named_engine (f : CryptoFailure) : jsstring :=
  match f with
  | InvalidKeyLength => js "DataError"
  | KeyNotExtractable | KeyUsageMissing => js "InvalidAccessError"
  | DataTooLong | EmptyNonce | AuthenticationFailed => js "OperationError"
  end.

Definition sample_plaintext : jsstring := js "hello future".

Definition sample_sealed : Result EncryptedData :=
  encrypt named_engine sample_key_bytes sample_iv_bytes sample_plaintext None.

(** A nonce of sixteen bytes whose pre-counter block under the sample key is
    that of the twelve-byte sample nonce. *)
Definition twin_iv_bytes : list byte :=
  map Z_to_byte
    [238; 81; 33; 127; 104; 168; 232; 172; 90; 252; 51; 77; 189; 169; 226; 63].

(** Another key, and a nonce of sixteen bytes under which the tag of the
    sample ciphertext verifies with that key. *)
Definition other_key_bytes : list byte := map Z_to_byte (map Z.of_nat (seq 1 32)).

Definition forged_iv_bytes : list byte :=
  map Z_to_byte
    [92; 29; 127; 43; 82; 211; 188; 51; 250; 182; 112; 64; 96; 162; 127; 237].

(** A string made of one unpaired surrogate. *)
Definition lone_surrogate : jsstring := [0xD800].

Definition with_bom : jsstring := 0xFEFF :: js "hello".

End Crypto.

(** ** The reveal pipeline: [Frontend/src/lib/reveal.ts] *)

Module Reveal.
Import JS Kit.

Record Comment := mkComment {
  comment_id : jsstring;
  author : jsstring;
  content : jsstring;
  timestamp : Z
}.

Record RevealMetadata := mkRevealMetadata {
  revealedAt : Z;
  revealedBy : jsstring;
  isEarlyReveal : bool;
  originalUnlockTime : Z;
  revealMessage : option jsstring;
  likes : Z;
  comments : list Comment
}.

(** [RevealedCapsule]; [originalData] is the parsed bundle. *)
Record RevealedCapsule := mkRevealedCapsule {
  id : jsstring;
  originalData : JsValue;
  revealMetadata : RevealMetadata
}.

(** [RevealResult] *)
Record RevealResult := mkRevealResult {
  success : bool;
  data : option RevealedCapsule;
  error : option jsstring
}.

Definition failure (message : jsstring) : RevealResult :=
  {| success := false; data := None; error := Some message |}.

Definition revealed (c : RevealedCapsule) : RevealResult :=
  {| success := true; data := Some c; error := None |}.

(** The browser's [localStorage] as this service uses it: the entries that
    hold plain strings, the list kept under ['revealed_capsules'] (empty when
    the entry is missing) and the array parsed from ['timeCapsules'] ([None]
    when that entry does not parse to an array). *)
Record LocalStorage := mkLocalStorage {
  items : gmap (list Z) (list Z);
  revealed_capsules : list RevealedCapsule;
  timeCapsules : option (list JsValue)
}.

(** The lines [revealCapsule] writes to the console, in order. *)
Inductive Log :=
| LogStarting
| LogMockBypassId
| LogFoundCid
| LogFetching
| LogMockScenario
| LogMockDone
| LogDownloaded
| LogDownloadFailed
| LogDecrypting
| LogRevealed
| LogFailed.

(** What a call leaves behind: its result, the storage, the console lines
    and the network requests made. *)
Record Outcome := mkOutcome {
  result : RevealResult;
  storage : LocalStorage;
  console : list Log;
  requests : list IPFS.Request
}.

(** [getRevealedCapsules] *)
Definition getRevealedCapsules (ls : LocalStorage) : list RevealedCapsule :=
  revealed_capsules ls.

(** [getRevealedCapsule]: [find] returns the first match. *)
Definition getRevealedCapsule (ls : LocalStorage) (capsuleId : jsstring)
    : option RevealedCapsule :=
  List.find (fun capsule => jsstring_eqb (id capsule) capsuleId) (getRevealedCapsules ls).

(** [storeRevealedCapsule] *)
Definition storeRevealedCapsule (ls : LocalStorage) (capsule : RevealedCapsule)
    : LocalStorage :=
  let revealed := getRevealedCapsules ls in
  let filteredRevealed :=
    List.filter (fun c => negb (jsstring_eqb (id c) (id capsule))) revealed in
  {| items := items ls;
     revealed_capsules := filteredRevealed ++ [capsule];
     timeCapsules := timeCapsules ls |}.

(** [a === s] for a string [s]. *)
Definition strict_eq_string (a : JsValue) (s : jsstring) : bool :=
  match a with
  | JString t => jsstring_eqb t s
  | _ => false
  end.

(** [storedCapsules.find(c => c.id === capsuleId)]; reading [c.id] of a
    [null] entry throws. *)
Fixpoint find_stored (capsuleId : jsstring) (cs : list JsValue) : Result (option JsValue) :=
  match cs with
  | [] => Ok None
  | c :: rest =>
      if negb (Crypto.has_members c) then Throw Crypto.TypeError_message
      else if strict_eq_string (get c (js "id")) capsuleId then Ok (Some c)
      else find_stored capsuleId rest
  end.

(** [getCapsuleIPFSHash]: the truthy [ipfsHash] of the stored capsule, or
    [null]. *)
Definition getCapsuleIPFSHash (ls : LocalStorage) (capsuleId : jsstring) : option JsValue :=
  match timeCapsules ls with
  | None => None
  | Some storedCapsules =>
      match find_stored capsuleId storedCapsules with
      | Ok (Some capsule) =>
          if truthy (get capsule (js "ipfsHash"))
          then Some (get capsule (js "ipfsHash"))
          else None
      | _ => None
      end
  end.

(** [likeCapsule] *)
Definition likeCapsule (ls : LocalStorage) (capsuleId : jsstring) : bool * LocalStorage :=
  match getRevealedCapsule ls capsuleId with
  | None => (false, ls)
  | Some _ =>
      let bump (c : RevealedCapsule) :=
        let m := revealMetadata c in
        {| id := id c; originalData := originalData c;
           revealMetadata :=
             {| revealedAt := revealedAt m; revealedBy := revealedBy m;
                isEarlyReveal := isEarlyReveal m;
                originalUnlockTime := originalUnlockTime m;
                revealMessage := revealMessage m; likes := likes m + 1;
                comments := comments m |} |} in
      let fix go (l : list RevealedCapsule) :=
        match l with
        | [] => []
        | c :: rest => if jsstring_eqb (id c) capsuleId then bump c :: rest else c :: go rest
        end in
      (true, {| items := items ls; revealed_capsules := go (revealed_capsules ls);
                timeCapsules := timeCapsules ls |})
  end.

Section Service.

Variable engine_message : Crypto.CryptoFailure -> jsstring.
Variable encodeURIComponent : jsstring -> jsstring.
Variable JSON_stringify : JsValue -> jsstring.
Variable JSON_parse : jsstring -> Result JsValue.
Variable toLowerCase : jsstring -> jsstring.
Variable pinataJWT : jsstring.

(** [isUserAuthorized]; [toLowerCase] on a creator that is not a string
    throws. *)
Definition isUserAuthorized (capsuleData : JsValue) (userAddress : jsstring) : Result bool :=
  match get capsuleData (js "creator") with
  | JString creator => Ok (jsstring_eqb (toLowerCase creator) (toLowerCase userAddress))
  | _ => Throw Crypto.TypeError_message
  end.

Definition mock_content (createdAt : Z) (userAddress : jsstring) : JsValue :=
  JObject [(js "title", JString (js "Test Time Capsule"));
           (js "description",
            JString (js "This is a test capsule for early reveal functionality"));
           (js "files", JArray []);
           (js "createdAt", JNumber createdAt);
           (js "creator", JString userAddress)].

Definition fresh_metadata (revealedAt : Z) (revealedBy : jsstring) (early : bool)
    (originalUnlockTime : Z) (revealMessage : option jsstring) : RevealMetadata :=
  {| revealedAt := revealedAt; revealedBy := revealedBy; isEarlyReveal := early;
     originalUnlockTime := originalUnlockTime; revealMessage := revealMessage;
     likes := 0; comments := [] |}.

(** [revealCapsule] from the check for an earlier reveal on. [fetch] is the
    network during the call, [now k] the [k]-th reading of [Date.now()], and
    [log] the console lines written so far. *)
Definition reveal_unrevealed (fetch : IPFS.Request -> Result IPFS.Response)
    (now : nat -> Z) (ls : LocalStorage) (log : list Log)
    (capsuleId : jsstring) (recoveryKit : JsValue) (userAddress : jsstring)
    (originalUnlockTime : Z) (revealMessage : option jsstring) : Outcome :=
  match getRevealedCapsule ls capsuleId with
  | Some _ =>
      mkOutcome (failure (js "This capsule has already been revealed")) ls log []
  | None =>
    match getCapsuleIPFSHash ls capsuleId with
    | None =>
        mkOutcome (failure (js "Could not find IPFS content for this capsule")) ls log []
    | Some (JString ipfsCid) =>
        let log1 := log ++ [LogFoundCid; LogFetching] in
        if startsWith ipfsCid (js "mock_") then
          let revealedCapsule :=
            {| id := capsuleId;
               originalData := mock_content (now 0%nat) userAddress;
               revealMetadata :=
                 fresh_metadata (now 2%nat) userAddress
                   (now 1%nat <? originalUnlockTime * 1000) originalUnlockTime
                   (Some (default [] revealMessage)) |} in
          mkOutcome (revealed revealedCapsule) (storeRevealedCapsule ls revealedCapsule)
            (log1 ++ [LogMockScenario; LogMockDone]) []
        else
          match IPFS.download encodeURIComponent JSON_stringify pinataJWT fetch
                  (items ls) ipfsCid with
          | (Throw message, reqs) =>
              mkOutcome (failure (js "Failed to download content from IPFS: " ++ message))
                ls (log1 ++ [LogDownloadFailed]) reqs
          | (Ok encryptedContent, reqs) =>
              let log2 := log1 ++ [LogDownloaded; LogDecrypting] in
              match Crypto.decryptCapsuleContent engine_message JSON_parse
                      encryptedContent recoveryKit with
              | Throw message => mkOutcome (failure message) ls (log2 ++ [LogFailed]) reqs
              | Ok decryptedData =>
                  match isUserAuthorized decryptedData userAddress with
                  | Throw message => mkOutcome (failure message) ls (log2 ++ [LogFailed]) reqs
                  | Ok false =>
                      mkOutcome (failure (js "You are not authorized to reveal this capsule"))
                        ls log2 reqs
                  | Ok true =>
                      let revealedCapsule :=
                        {| id := capsuleId; originalData := decryptedData;
                           revealMetadata :=
                             fresh_metadata (now 1%nat) userAddress
                               (now 0%nat <? originalUnlockTime * 1000)
                               originalUnlockTime revealMessage |} in
                      mkOutcome (revealed revealedCapsule)
                        (storeRevealedCapsule ls revealedCapsule)
                        (log2 ++ [LogRevealed]) reqs
                  end
              end
          end
    | Some _ =>
        mkOutcome (failure Crypto.TypeError_message) ls
          (log ++ [LogFoundCid; LogFetching; LogFailed]) []
    end
  end.

(** [revealCapsule] *)
Definition revealCapsule (fetch : IPFS.Request -> Result IPFS.Response)
    (now : nat -> Z) (ls : LocalStorage)
    (capsuleId : jsstring) (recoveryKit : JsValue) (userAddress : jsstring)
    (originalUnlockTime : Z) (revealMessage : option jsstring) : Outcome :=
  let validation := validateRecoveryKit recoveryKit in
  if negb (isValid validation) then
    mkOutcome
      (failure (js "Invalid recovery kit: "
                  ++ default (js "undefined") (Kit.error validation)))
      ls [LogStarting] []
  else if negb (strict_eq_string (get recoveryKit (js "capsuleId")) capsuleId) then
    if negb (all_digits capsuleId) then
      mkOutcome (failure (js "Recovery kit does not match the specified capsule"))
        ls [LogStarting] []
    else
      reveal_unrevealed fetch now ls [LogStarting; LogMockBypassId]
        capsuleId recoveryKit userAddress originalUnlockTime revealMessage
  else
    reveal_unrevealed fetch now ls [LogStarting]
      capsuleId recoveryKit userAddress originalUnlockTime revealMessage.

End Service.

(** How many records of the index carry [capsuleId]. *)
Definition count_id (capsuleId : jsstring) (l : list RevealedCapsule) : nat :=
  length (List.filter (fun c => jsstring_eqb (id c) capsuleId) l).

(** *** A sample client *)

Definition ascii_lower (s : jsstring) : jsstring :=
  map (fun c => if (0x41 <=? c) && (c <=? 0x5A) then c + 32 else c) s.

(** A parser that knows one document: the sample bundle. *)
Definition sample_bundle : JsValue :=
  JObject [(js "title", JString (js "My capsule"));
           (js "description", JString (js "hello future"));
           (js "files", JArray []);
           (js "createdAt", JNumber 1700000000000);
           (js "creator", JString (js "0xA11CE"))].

Definition sample_bundle_text : jsstring :=
  js "{ title: My capsule, creator: 0xA11CE }".

Definition sample_parse (s : jsstring) : Result JsValue :=
  if jsstring_eqb s sample_bundle_text then Ok sample_bundle
  else Throw (js "Unexpected token").

Definition sample_sealed_bundle : list byte :=
  match Crypto.encrypt Crypto.named_engine sample_key_bytes sample_iv_bytes
          sample_bundle_text None with
  | Ok e => Crypto.encryptedContent e
  | Throw _ => []
  end.

Definition stored_entry (capsuleId ipfsHash : jsstring) : JsValue :=
  JObject [(js "id", JString capsuleId); (js "ipfsHash", JString ipfsHash)].

(** One capsule sealed into the local cache, one numeric-id capsule with a
    mock address, nothing revealed yet. *)
Definition sample_storage : LocalStorage :=
  {| items := {[ js "ipfs_local_1700000000000_k3x9qa"
                 := arrayBufferToBase64 sample_sealed_bundle ]};
     revealed_capsules := [];
     timeCapsules :=
       Some [stored_entry (js "capsule_abc") (js "local_1700000000000_k3x9qa");
             stored_entry (js "1700000000000") (js "local_1700000000000_k3x9qa");
             stored_entry (js "1700000000001") (js "mock_cid")] |}.

Definition sample_clock : nat -> Z := fun k => 1800000000000 + Z.of_nat k.

Definition sample_reveal (ls : LocalStorage) (capsuleId : jsstring) (kit : JsValue)
    : Outcome :=
  revealCapsule Crypto.named_engine IPFS.plain_encode IPFS.plain_stringify sample_parse
    ascii_lower [] IPFS.no_network sample_clock ls capsuleId kit (js "0xa11ce")
    1700000000 None.

(** The storage after the sample capsule has been revealed. *)
Definition sample_revealed_storage : LocalStorage :=
  storage (sample_reveal sample_storage (js "capsule_abc") good_kit).

End Reveal.

(** ** Hexadecimal literals for test vectors *)

Module Hex.

Definition hex_digit (a : ascii) : Z :=
  let n := Z.of_N (N_of_ascii a) in
  if (0x30 <=? n) && (n <=? 0x39) then n - 0x30
  else if (0x61 <=? n) && (n <=? 0x66) then n - 0x61 + 10
  else n - 0x41 + 10.

Fixpoint unhex (s : string) : list Z :=
  match s with
  | String a (String b rest) => 16 * hex_digit a + hex_digit b :: unhex rest
  | _ => []
  end.

End Hex.

(** ** The ledger contract, its views and payments *)

Module Ledger.
Import TimeCapsule.

(** [canAccessCapsule]; a view, and like every function that is not
    [payable] it reverts when the call carries value. *)
Definition canAccessCapsule (env : Env) (st : Storage) (capsuleId user : Z)
    : Outcome bool :=
  if negb (msg_value env =? 0) then Reverted NotPayable else
  match validCapsule st capsuleId with
  | Some e => Reverted e
  | None => Success st (_canAccessCapsule env st capsuleId user) []
  end.

(** The [transfer] calls a [createCapsule] that gets past its checks makes,
    in order: the fee to the treasury, then the refund of what was sent in
    excess. *)
Definition createCapsule_transfers (env : Env) (st : Storage) : list (Z * Z) :=
  (if (protocolFee st >? 0) && negb (treasury st =? 0)
   then [(treasury st, protocolFee st)] else [])
  ++ (if msg_value env >? protocolFee st
      then [(msg_sender env, msg_value env - protocolFee st)] else []).

Definition total_sent (transfers : list (Z * Z)) : Z :=
  fold_right (fun t acc => snd t + acc) 0 transfers.

(** How many [createCapsule] calls of [txs] succeed when run from [st]. *)
Fixpoint creations (st : Storage) (txs : list (Env * Call)) : Z :=
  match txs with
  | [] => 0
  | tx :: rest =>
      (match snd tx with
       | CallCreate t h r u rs p =>
           if succeeded (createCapsule (fst tx) st t h r u rs p) then 1 else 0
       | _ => 0
       end) + creations (exec st tx) rest
  end.

(** The registry invariant: a user's list holds exactly the ids of the
    capsules that user owns, each once. *)
Definition registry_consistent (st : Storage) : Prop :=
  0 <= totalCapsules st
  /\ (forall user capsuleId,
        In capsuleId (getUserCapsules st user)
        <-> exists_capsule st capsuleId /\ owner (capsuleAt st capsuleId) = user)
  /\ (forall user, NoDup (getUserCapsules st user)).

(** *** Sample transactions *)

Definition mallory : Z := 0xBAD.

(** A private capsule of [alice] without recipients. *)
Definition st_private : Storage :=
  storage_after (constructor the_treasury)
    (createCapsule env_create (constructor the_treasury) ENCRYPTED
       (keccak256 secret) "QmTest123" (t0 + 40 * 86400) [] false).

Definition env_paying (caller value : Z) : Env :=
  mkEnv caller value t0 always_paid.

End Ledger.

(** ** Addresses as strings: [_addressToString] and [Frontend/src/lib/ens.ts] *)

Module Addresses.
Import JS TimeCapsule.

(** The two digits [_addressToString] writes for each index of its loop. *)
Fixpoint hex_bytes (value : Z) (idx : list Z) : string :=
  match idx with
  | [] => EmptyString
  | i :: rest =>
      String (alphabet_at (Z.shiftr (bytes32_at value (i + 12)) 4))
        (String (alphabet_at (Z.land (bytes32_at value (i + 12)) 15))
           (hex_bytes value rest))
  end.

(** The number a string of hexadecimal digits spells, after [acc]. *)
Fixpoint hex_value (s : string) (acc : Z) : Z :=
  match s with
  | EmptyString => acc
  | String a rest => hex_value rest (16 * acc + Hex.hex_digit a)
  end.

(** The number an address string spells after its two-character prefix. *)
Definition address_of_string (s : string) : Z :=
  match s with
  | String _ (String _ digits) => hex_value digits 0
  | _ => 0
  end.

Definition is_hex_digit (c : Z) : bool :=
  ((0x30 <=? c) && (c <=? 0x39)) || ((0x41 <=? c) && (c <=? 0x46))
  || ((0x61 <=? c) && (c <=? 0x66)).

(** [isValidAddress]: [/^0x[a-fA-F0-9]{40}$/.test(address)] *)
Definition isValidAddress (address : jsstring) : bool :=
  match address with
  | 0x30 :: 0x78 :: digits => (length digits =? 40)%nat && forallb is_hex_digit digits
  | _ => false
  end.

Fixpoint endsWith_rev (rs rp : jsstring) : bool :=
  match rp with
  | [] => true
  | c :: rp' =>
      match rs with
      | [] => false
      | d :: rs' => (c =? d) && endsWith_rev rs' rp'
      end
  end.

(** [s.endsWith(p)] *)
Definition endsWith (s p : jsstring) : bool := endsWith_rev (rev s) (rev p).

(** [isValidEnsName] *)
Definition isValidEnsName (name : jsstring) : bool :=
  endsWith name (js ".eth") && (Z.of_nat (length name) >? 4).

(** [s.slice(0, 6)] and [s.slice(-4)] *)
Definition slice_first (n : nat) (s : jsstring) : jsstring := firstn n s.
Definition slice_last (n : nat) (s : jsstring) : jsstring := skipn (length s - n) s.

(** [formatAddress]; [ensName] is [None] for [undefined] and [null]. *)
Definition formatAddress (address : jsstring) (ensName : option jsstring) : jsstring :=
  match ensName with
  | Some (c :: name) => c :: name
  | _ =>
      match address with
      | [] => []
      | _ => slice_first 6 address ++ js "..." ++ slice_last 4 address
      end
  end.

(** The digits [_addressToString] writes. *)
Definition is_lower_hex (c : Z) : bool :=
  ((0x30 <=? c) && (c <=? 0x39)) || ((0x61 <=? c) && (c <=? 0x66)).

(** An upper-case hexadecimal letter, as checksummed addresses carry them. *)
Definition is_upper_hex (c : Z) : bool := (0x41 <=? c) && (c <=? 0x46).

(** [addRecipient] of the creation page: the list the state update leaves,
    or [None] when the entry is refused and no update is made. [rendered] is
    [formData.recipients] of the render the call was made from, which
    [includes] is asked about; [prev] is the list the updater passed to
    [setFormData] receives, after the awaited ENS lookup; they differ when
    another update came in between. [resolved] is what [resolveEnsAddress]
    answered for a name that looks like an ENS name. *)
Definition addRecipient (rendered prev : list jsstring) (newRecipient : jsstring)
    (resolved : option jsstring) : option (list jsstring) :=
  match trim newRecipient with
  | [] => None
  | c :: rest =>
      let entered := c :: rest in
      let address :=
        if isValidEnsName entered
        then match resolved with
             | Some (d :: a) => Some (d :: a)
             | _ => None
             end
        else Some entered in
      match address with
      | None => None
      | Some address =>
          if negb (isValidAddress address) then None
          else if existsb (jsstring_eqb address) rendered then None
          else Some (prev ++ [address])
      end
  end.

(** [removeRecipient]; [recipients] is the list its updater receives. *)
Definition removeRecipient (recipients : list jsstring) (addressToRemove : jsstring)
    : list jsstring :=
  List.filter (fun addr => negb (jsstring_eqb addr addressToRemove)) recipients.

(** *** Samples *)

(** The treasury's address as wallets display it, with its checksum case. *)
Definition checksummed : jsstring := js "0x742d35Cc6639C10532BfeD48c4F4B8a2c857Fd3e".

(** A capsule whose only recipient is entered in that form. *)
Definition st_checksummed : Storage :=
  storage_after (constructor the_treasury)
    (createCapsule env_create (constructor the_treasury) ENCRYPTED
       (keccak256 secret) "QmTest123" (t0 + 40 * 86400)
       ["0x742d35Cc6639C10532BfeD48c4F4B8a2c857Fd3e"%string] false).

End Addresses.

(** ** [Frontend/src/lib/browserBuffer.ts] *)

Module BrowserBuffer.
Import JS Kit.

(** [BrowserBuffer.arrayBufferToBase64] *)
Definition arrayBufferToBase64 (buffer : list byte) : jsstring :=
  btoa (map byte_to_Z buffer).

(** [BrowserBuffer.base64ToArrayBuffer]: [atob] on the string as given; the
    exception is [atob]'s own. *)
Definition base64ToArrayBuffer (base64 : jsstring) : Result (list byte) :=
  match atob base64 with
  | Some binaryString => Ok (map Z_to_byte binaryString)
  | None => Throw atob_error_message
  end.

(** [BrowserBuffer.stringToArrayBuffer] *)
Definition stringToArrayBuffer (str : jsstring) : list byte :=
  Encoding.TextEncoder_encode str.

(** [BrowserBuffer.arrayBufferToString] *)
Definition arrayBufferToString (buffer : list byte) : jsstring :=
  Encoding.TextDecoder_decode buffer.

(** [BrowserBuffer.uint8ArrayToBase64] *)
Definition uint8ArrayToBase64 (uint8Array : list byte) : jsstring :=
  btoa (map byte_to_Z uint8Array).

(** [BrowserBuffer.base64ToUint8Array] *)
Definition base64ToUint8Array (base64 : jsstring) : Result (list byte) :=
  match atob base64 with
  | Some binaryString => Ok (map Z_to_byte binaryString)
  | None => Throw atob_error_message
  end.

(** What [btoa] writes before its padding, and the padding. *)
Fixpoint btoa_unpadded (bs : list Z) : jsstring :=
  match bs with
  | a :: b :: c :: rest =>
      let n := Z.lor (Z.shiftl a 16) (Z.lor (Z.shiftl b 8) c) in
      base64_char (Z.shiftr n 18) :: base64_char (Z.land (Z.shiftr n 12) 63)
        :: base64_char (Z.land (Z.shiftr n 6) 63) :: base64_char (Z.land n 63)
        :: btoa_unpadded rest
  | [a; b] =>
      let n := Z.lor (Z.shiftl a 16) (Z.shiftl b 8) in
      [base64_char (Z.shiftr n 18); base64_char (Z.land (Z.shiftr n 12) 63);
       base64_char (Z.land (Z.shiftr n 6) 63)]
  | [a] =>
      let n := Z.shiftl a 16 in
      [base64_char (Z.shiftr n 18); base64_char (Z.land (Z.shiftr n 12) 63)]
  | [] => []
  end.

Fixpoint btoa_padding (bs : list Z) : jsstring :=
  match bs with
  | _ :: _ :: _ :: rest => btoa_padding rest
  | [_; _] => [0x3D]
  | [_] => [0x3D; 0x3D]
  | [] => []
  end.

Definition in_byte (b : Z) : Prop := 0 <= b <= 255.

(** The strings built from the base64 alphabet and [=]. *)
Definition is_base64_text (c : Z) : bool := is_base64_char c || (c =? 0x3D).

End BrowserBuffer.

(** ** The storage gateway: uploads and availability *)

Module Gateway.
Import JS IPFS.

(** What an upload returned: the record built from the pinning service's
    answer ([cid] and both URLs from its [IpfsHash], [size] from its
    [PinSize] or else the length of the data), or the record of the local
    fallback. *)
Inductive Uploaded :=
| Pinned (result : JsValue) (dataLength : Z)
| Cached (r : IPFSUploadResult).

(** One line of the report of [checkContentExists]. *)
Record GatewayStatus := mkGatewayStatus {
  gateway_name : jsstring;
  gateway_url : jsstring;
  gateway_status : jsstring
}.

Section Service.

Variable encodeURIComponent : jsstring -> jsstring.
Variable JSON_stringify : JsValue -> jsstring.
Variable pinataJWT : jsstring.
Variable fetch : Request -> Result Response.

(** The [POST] of [data] under [fileName] to [/pinning/pinFileToIPFS], as the
    service answers it. *)
Variable pin : jsstring -> jsstring -> Result Response.

Definition pin_request : Request :=
  {| url := pinataApiUrl ++ js "/pinning/pinFileToIPFS"; method := Some (js "POST");
     mode := None; headers := [bearer pinataJWT] |}.

(** [uploadToPinata]: the storage afterwards, what is returned and the
    requests made. Whatever goes wrong after the token check lands in the
    [catch], which falls back to the local cache. *)
Definition uploadToPinata (localStorage : gmap (list Z) (list Z))
    (timestamp : Z) (randomId : jsstring) (data fileName : jsstring)
    : gmap (list Z) (list Z) * Uploaded * list Request :=
  let fallback (reqs : list Request) :=
    let '(ls, r) :=
      fallbackToLocalStorage JSON_stringify localStorage timestamp randomId data fileName in
    (ls, Cached r, reqs) in
  match pinataJWT with
  | [] => fallback []
  | _ =>
      match pin data fileName with
      | Throw _ => fallback [pin_request]
      | Ok response =>
          if negb (ok response) then fallback [pin_request]
          else match json response with
               | Throw _ | Ok JNull | Ok JUndefined => fallback [pin_request]
               | Ok result =>
                   (localStorage, Pinned result (Z.of_nat (length data)), [pin_request])
               end
      end
  end.

(** [uploadString] *)
Definition uploadString (localStorage : gmap (list Z) (list Z))
    (timestamp : Z) (randomId : jsstring) (content fileName : jsstring)
    : gmap (list Z) (list Z) * Uploaded * list Request :=
  uploadToPinata localStorage timestamp randomId content fileName.

Definition head_request (gatewayUrl : jsstring) : Request :=
  {| url := gatewayUrl; method := Some (js "HEAD"); mode := Some (js "no-cors");
     headers := [] |}.

(** The gateways [checkContentExists] asks, with their names. *)
Definition checked_gateways (cid : jsstring) : list (jsstring * jsstring) :=
  [ (js "Pinata Gateway", gateway_path cid);
    (js "IPFS.io Gateway", js "https://ipfs.io/ipfs/" ++ cid);
    (js "Cloudflare Gateway", js "https://cloudflare-ipfs.com/ipfs/" ++ cid);
    (js "Dweb.link Gateway", js "https://dweb.link/ipfs/" ++ cid) ].

(** The status line of one answer; [status] is the response's status code as
    the template literal prints it. *)
Definition check_gateway (status_text : Response -> jsstring) (g : jsstring * jsstring)
    : bool * GatewayStatus :=
  match fetch (head_request (snd g)) with
  | Ok response =>
      (ok response,
       {| gateway_name := fst g; gateway_url := snd g;
          gateway_status := if ok response then js "available"
                            else js "error " ++ status_text response |})
  | Throw _ =>
      (false,
       {| gateway_name := fst g; gateway_url := snd g;
          gateway_status := js "cors_blocked" |})
  end.

(** [checkContentExists]: [exists], the report and the requests made. *)
Definition checkContentExists (status_text : Response -> jsstring)
    (localStorage : gmap (list Z) (list Z)) (cid : jsstring)
    : bool * list GatewayStatus * list Request :=
  if startsWith cid (js "local_") then
    let exists_ :=
      match localStorage !! (js "ipfs_" ++ cid) with
      | Some _ => true
      | None => false
      end in
    (exists_,
     [{| gateway_name := js "localStorage"; gateway_url := js "local://" ++ cid;
         gateway_status := if exists_ then js "available" else js "not found" |}],
     [])
  else
    let answers := map (check_gateway status_text) (checked_gateways cid) in
    (existsb fst answers, map snd answers,
     map (fun g => head_request (snd g)) (checked_gateways cid)).

(** A request carries the token. *)
Definition carries_token (r : Request) : bool :=
  existsb (fun h => jsstring_eqb (fst h) (js "Authorization")) (headers r).

(** A request goes to the pinning service or to its gateway. *)
Definition to_pinata (r : Request) : bool :=
  startsWith (url r) pinataApiUrl || startsWith (url r) pinataGateway.

End Service.

(** *** A sample service *)

(** A pinning service that is down. *)
Definition pin_down : jsstring -> jsstring -> Result Response :=
  fun _ _ => Throw (js "Failed to fetch").

Definition sample_upload : gmap (list Z) (list Z) * Uploaded * list Request :=
  uploadString plain_stringify (js "jwt") pin_down ∅ 1700000000000 (js "k3x9qa")
    (js "encrypted blob") (js "capsule-content.enc").

End Gateway.

(** ** The social feed and the preview: [Frontend/src/lib/reveal.ts], further *)

Module Feed.
Import JS Kit Reveal.

(** The first record under [capsuleId] replaced by [f] of it:
    [revealed[revealed.findIndex(c => c.id === capsuleId)] = ...]. *)
Fixpoint update_first (capsuleId : jsstring) (f : RevealedCapsule -> RevealedCapsule)
    (l : list RevealedCapsule) : list RevealedCapsule :=
  match l with
  | [] => []
  | c :: rest =>
      if jsstring_eqb (id c) capsuleId then f c :: rest
      else c :: update_first capsuleId f rest
  end.

Definition with_like (c : RevealedCapsule) : RevealedCapsule :=
  let m := revealMetadata c in
  {| id := id c; originalData := originalData c;
     revealMetadata :=
       {| revealedAt := revealedAt m; revealedBy := revealedBy m;
          isEarlyReveal := isEarlyReveal m;
          originalUnlockTime := originalUnlockTime m;
          revealMessage := revealMessage m; likes := likes m + 1;
          comments := comments m |} |}.

Definition with_comment (comment : Comment) (c : RevealedCapsule) : RevealedCapsule :=
  let m := revealMetadata c in
  {| id := id c; originalData := originalData c;
     revealMetadata :=
       {| revealedAt := revealedAt m; revealedBy := revealedBy m;
          isEarlyReveal := isEarlyReveal m;
          originalUnlockTime := originalUnlockTime m;
          revealMessage := revealMessage m; likes := likes m;
          comments := comments m ++ [comment] |} |}.

(** [addComment]; [now k] is the [k]-th reading of [Date.now()]. *)
Definition addComment (now : nat -> Z) (ls : LocalStorage)
    (capsuleId author content : jsstring) : bool * LocalStorage :=
  match getRevealedCapsule ls capsuleId with
  | None => (false, ls)
  | Some _ =>
      let comment :=
        {| comment_id := IPFS.decimal (now 0%nat); author := author;
           content := content; timestamp := now 1%nat |} in
      (true,
       {| items := items ls;
          revealed_capsules :=
            update_first capsuleId (with_comment comment) (revealed_capsules ls);
          timeCapsules := timeCapsules ls |})
  end.

(** [clearAllRevealedCapsules] *)
Definition clearAllRevealedCapsules (ls : LocalStorage) : LocalStorage :=
  {| items := delete (js "social_interactions") (items ls);
     revealed_capsules := [];
     timeCapsules := timeCapsules ls |}.

(** The likes and the comments a record carries. *)
Definition likes_of (ls : LocalStorage) (capsuleId : jsstring) : option Z :=
  option_map (fun c => likes (revealMetadata c)) (getRevealedCapsule ls capsuleId).

Definition comments_of (ls : LocalStorage) (capsuleId : jsstring) : option (list Comment) :=
  option_map (fun c => comments (revealMetadata c)) (getRevealedCapsule ls capsuleId).

(** [n] calls of [likeCapsule] for one capsule, one after the other. *)
Fixpoint like_times (n : nat) (ls : LocalStorage) (capsuleId : jsstring) : LocalStorage :=
  match n with
  | O => ls
  | S n' => like_times n' (snd (likeCapsule ls capsuleId)) capsuleId
  end.

Section Service.

Variable engine_message : Crypto.CryptoFailure -> jsstring.
Variable encodeURIComponent : jsstring -> jsstring.
Variable JSON_stringify : JsValue -> jsstring.
Variable JSON_parse : jsstring -> Result JsValue.
Variable toLowerCase : jsstring -> jsstring.
Variable pinataJWT : jsstring.

(** [previewCapsule]: the result and the requests made; nothing is stored. *)
Definition previewCapsule (fetch : IPFS.Request -> Result IPFS.Response)
    (now : nat -> Z) (ls : LocalStorage)
    (capsuleId : jsstring) (recoveryKit : JsValue) (userAddress : jsstring)
    (originalUnlockTime : Z) : RevealResult * list IPFS.Request :=
  let validation := validateRecoveryKit recoveryKit in
  if negb (isValid validation) then
    (failure (match Kit.error validation with
              | Some (c :: message) => c :: message
              | _ => js "Invalid recovery kit"
              end), [])
  else
    let authorize (decryptedContent : JsValue) (first_reading : nat)
        (reqs : list IPFS.Request) :=
      match isUserAuthorized toLowerCase decryptedContent userAddress with
      | Throw message => (failure message, reqs)
      | Ok false => (failure (js "You are not authorized to access this capsule"), reqs)
      | Ok true =>
          (revealed
             {| id := capsuleId; originalData := decryptedContent;
                revealMetadata :=
                  fresh_metadata (now (S first_reading)) userAddress
                    (now first_reading <? originalUnlockTime * 1000)
                    originalUnlockTime None |}, reqs)
      end in
    match getCapsuleIPFSHash ls capsuleId with
    | None => (failure (js "Unable to locate capsule data on IPFS"), [])
    | Some (JString ipfsCid) =>
        if startsWith ipfsCid (js "mock_") then
          authorize (mock_content (now 0%nat) userAddress) 1%nat []
        else
          match IPFS.download encodeURIComponent JSON_stringify pinataJWT fetch
                  (items ls) ipfsCid with
          | (Throw message, reqs) => (failure message, reqs)
          | (Ok encryptedContent, reqs) =>
              match Crypto.decryptCapsuleContent engine_message JSON_parse
                      encryptedContent recoveryKit with
              | Throw message => (failure message, reqs)
              | Ok decryptedContent => authorize decryptedContent 0%nat reqs
              end
          end
    | Some _ => (failure Crypto.TypeError_message, [])
    end.

End Service.

(** *** A sample feed *)

Definition sample_record : RevealedCapsule :=
  {| id := js "capsule_abc"; originalData := sample_bundle;
     revealMetadata := fresh_metadata 1800000000001 (js "0xa11ce") false 1700000000 None |}.

(** One revealed capsule in the index, nothing else. *)
Definition feed_storage : LocalStorage :=
  {| items := ∅; revealed_capsules := [sample_record]; timeCapsules := None |}.

Definition empty_feed : LocalStorage :=
  {| items := ∅; revealed_capsules := []; timeCapsules := None |}.

(** One stored capsule with a mock address, nothing revealed. *)
Definition mock_storage : LocalStorage :=
  {| items := ∅; revealed_capsules := [];
     timeCapsules := Some [stored_entry (js "1700000000001") (js "mock_cid")] |}.

End Feed.

(** ** The recovery-kit upload form: [components/RecoveryKitUpload.tsx] *)

Module KitForm.
Import JS Kit Addresses.

(** What the form reports through [onError]: a fixed or forwarded text, or
    the text [This recovery kit is for capsule ${kit.capsuleId}, but you're
    trying to reveal capsule ${capsuleId}], kept with its two parts. *)
Inductive FormError :=
| Message (text : jsstring)
| WrongCapsule (kitCapsuleId : JsValue) (capsuleId : jsstring).

(** The callback the form ends with. *)
Inductive Callback :=
| onValidKit (kit : JsValue)
| onError (e : FormError).

(** A selected file: its name, its size in bytes and what [readAsText]
    delivers ([None] when the reader fails). *)
Record File := mkFile {
  file_name : jsstring;
  file_size : Z;
  file_text : option jsstring
}.

Section Form.

Variable JSON_parse : jsstring -> Result JsValue.

(** The optional [capsuleId] property of the form. *)
Variable capsuleId : option jsstring.

(** [validateAndProcessKit] *)
Definition validateAndProcessKit (fileContent : jsstring) : Callback :=
  match JSON_parse fileContent with
  | Throw _ =>
      onError (Message (js "Invalid JSON format. Please upload a valid recovery kit file."))
  | Ok parsedKit =>
      let validation := validateRecoveryKit parsedKit in
      if negb (isValid validation) then
        onError (Message (match Kit.error validation with
                          | Some (c :: message) => c :: message
                          | _ => js "Invalid recovery kit format"
                          end))
      else
        match capsuleId with
        | Some (c :: rest) =>
            if negb (Reveal.strict_eq_string (get parsedKit (js "capsuleId")) (c :: rest))
            then onError (WrongCapsule (get parsedKit (js "capsuleId")) (c :: rest))
            else onValidKit parsedKit
        | _ => onValidKit parsedKit
        end
  end.

(** [handleFileSelect] *)
Definition handleFileSelect (file : File) : Callback :=
  if negb (endsWith (file_name file) (js ".json")) then
    onError (Message (js "Please select a JSON file (.json)"))
  else if file_size file >? 10 * 1024 then
    onError (Message (js "File too large. Recovery kit files should be small JSON files."))
  else
    match file_text file with
    | Some content => validateAndProcessKit content
    | None => onError (Message (js "Failed to read file. Please try again."))
    end.

End Form.

(** *** A sample file *)

(** A parser that knows one document: the sample kit. *)
Definition kit_parse (s : jsstring) : Result JsValue :=
  if jsstring_eqb s (js "{ kit }") then Ok good_kit else Throw (js "Unexpected token").

Definition kit_file : File :=
  {| file_name := js "recovery-kit.json"; file_size := 7;
     file_text := Some (js "{ kit }") |}.

End KitForm.

(** * Properties *)

(** ** Keccak-256 test vectors *)

Example keccak256_empty :
  keccak256 [] = 0xc5d2460186f7233c927e7db2dcc703c0e500b653ca82273b7bfad8045d85a470.
Proof. vm_compute. reflexivity. Qed.

Example keccak256_abc :
  keccak256 (bytes_of_string "abc")
  = 0x4e03657aea45a94fc7d47ba826c8d667c0d1e6e33a64a036ec44f58fa12d6c45.
Proof. vm_compute. reflexivity. Qed.

(** ** The ledger contract *)

Module TimeCapsuleProofs.
Import TimeCapsule.

Example addressToString_example :
  _addressToString 0x742d35Cc6639C10532BfeD48c4F4B8a2c857Fd3e
  = "0x742d35cc6639c10532bfed48c4f4b8a2c857fd3e"%string.
Proof. vm_compute. reflexivity. Qed.

Lemma compareStrings_refl (a : string) : _compareStrings a a = true.
Proof. unfold _compareStrings. apply Z.eqb_refl. Qed.

Lemma status_eqb_eq (a b : CapsuleStatus) : status_eqb a b = true <-> a = b.
Proof. destruct a, b; simpl; split; intros H; try reflexivity; discriminate H. Qed.

Lemma status_eqb_neq (a b : CapsuleStatus) : status_eqb a b = false <-> a <> b.
Proof.
  destruct a, b; simpl; split; intros H; try reflexivity;
    try discriminate H; try (intros E; discriminate E); exfalso; apply H; reflexivity.
Qed.

Lemma validCapsule_exists (st : Storage) (capsuleId : Z) :
  exists_capsule st capsuleId -> validCapsule st capsuleId = None.
Proof.
  intros [Hlo Hhi]. unfold validCapsule.
  replace (capsuleId =? 0) with false by (symmetry; apply Z.eqb_neq; lia).
  replace (capsuleId >? _capsuleCounter st) with false; [reflexivity|].
  symmetry. rewrite Z.gtb_ltb. apply Z.ltb_ge. lia.
Qed.

Lemma onlyUnlocked_early (env : Env) (st : Storage) (capsuleId : Z) :
  block_timestamp env < unlockTime (capsuleAt st capsuleId) ->
  onlyUnlocked env st capsuleId = Some CapsuleStillLocked.
Proof.
  intros H. unfold onlyUnlocked.
  replace (block_timestamp env <? _) with true; [reflexivity|].
  symmetry. apply Z.ltb_lt. exact H.
Qed.

Lemma onlyUnlocked_due (env : Env) (st : Storage) (capsuleId : Z) :
  block_timestamp env >= unlockTime (capsuleAt st capsuleId) ->
  onlyUnlocked env st capsuleId = None.
Proof.
  intros H. unfold onlyUnlocked.
  replace (block_timestamp env <? _) with false; [reflexivity|].
  symmetry. apply Z.ltb_ge. lia.
Qed.

Lemma listed_recipient_found (s : string) (rs : list string) :
  In s rs -> existsb (fun r => _compareStrings r s) rs = true.
Proof.
  intros H. apply existsb_exists. exists s. split; [exact H|apply compareStrings_refl].
Qed.

(** An owner, a listed recipient, or anyone for a public capsule whose unlock
    time has come, passes the contract's access check. *)
Lemma authorized_canAccess (env : Env) (st : Storage) (capsuleId caller : Z) :
  authorized st capsuleId caller ->
  block_timestamp env >= unlockTime (capsuleAt st capsuleId) ->
  _canAccessCapsule env st capsuleId caller = true.
Proof.
  intros Hauth Htime. unfold _canAccessCapsule.
  destruct (owner (capsuleAt st capsuleId) =? caller) eqn:Eo; [reflexivity|].
  destruct (existsb _ (recipients (capsuleAt st capsuleId))) eqn:Er; [reflexivity|].
  destruct Hauth as [Ho | [Hr | Hp]].
  - apply Z.eqb_neq in Eo. contradiction.
  - rewrite (listed_recipient_found _ _ Hr) in Er. discriminate Er.
  - rewrite Hp. simpl.
    replace (block_timestamp env >=? _) with true; [reflexivity|].
    symmetry. rewrite Z.geb_leb. apply Z.leb_le. lia.
Qed.

(** A call that carries value is refused by the functions that are not
    [payable], whatever else holds. *)
Lemma value_refused (env : Env) (st : Storage) (capsuleId : Z) (m : list byte)
    (ref : string) (v : Z) :
  msg_value env <> 0 ->
  revealCapsule env st capsuleId m ref = Reverted NotPayable
  /\ unlockCapsule env st capsuleId = Reverted NotPayable
  /\ setProtocolFee env st v = Reverted NotPayable
  /\ setTreasury env st v = Reverted NotPayable.
Proof.
  intros H. apply Z.eqb_neq in H.
  unfold revealCapsule, unlockCapsule, setProtocolFee, setTreasury. rewrite H.
  repeat split.
Qed.

Lemma reveal_outcome (env : Env) (st : Storage) (capsuleId : Z)
    (m : list byte) (ref : string) :
  msg_value env = 0 ->
  exists_capsule st capsuleId ->
  block_timestamp env >= unlockTime (capsuleAt st capsuleId) ->
  authorized st capsuleId (msg_sender env) ->
  status (capsuleAt st capsuleId) <> REVEALED ->
  revealCapsule env st capsuleId m ref =
    if keccak256 m =? contentHash (capsuleAt st capsuleId)
    then Success
           (setCapsule st capsuleId
              (if Z.of_nat (String.length ref) >? 0
               then set_contentRef (set_status (capsuleAt st capsuleId) REVEALED) ref
               else set_status (capsuleAt st capsuleId) REVEALED))
           tt [CapsuleRevealed capsuleId (msg_sender env) ref]
    else Reverted HashMismatch.
Proof.
  intros Hval Hex Htime Hauth Hst. unfold revealCapsule. rewrite Hval. cbn [Z.eqb negb].
  rewrite (validCapsule_exists _ _ Hex), (onlyUnlocked_due _ _ _ Htime).
  rewrite (authorized_canAccess _ _ _ _ Hauth Htime). simpl.
  apply status_eqb_neq in Hst. rewrite Hst.
  destruct (keccak256 m =? contentHash (capsuleAt st capsuleId)); reflexivity.
Qed.

Lemma unlock_outcome (env : Env) (st : Storage) (capsuleId : Z) :
  msg_value env = 0 ->
  exists_capsule st capsuleId ->
  block_timestamp env >= unlockTime (capsuleAt st capsuleId) ->
  authorized st capsuleId (msg_sender env) ->
  unlockCapsule env st capsuleId =
    if status_eqb (status (capsuleAt st capsuleId)) LOCKED
    then Success (setCapsule st capsuleId (set_status (capsuleAt st capsuleId) UNLOCKED))
           tt [CapsuleUnlocked capsuleId (msg_sender env)]
    else Success st tt [].
Proof.
  intros Hval Hex Htime Hauth. unfold unlockCapsule. rewrite Hval. cbn [Z.eqb negb].
  rewrite (validCapsule_exists _ _ Hex), (onlyUnlocked_due _ _ _ Htime).
  rewrite (authorized_canAccess _ _ _ _ Hauth Htime). reflexivity.
Qed.

Lemma capsuleAt_setCapsule_eq (st : Storage) (capsuleId : Z) (c : CapsuleMeta) :
  capsuleAt (setCapsule st capsuleId c) capsuleId = c.
Proof. unfold capsuleAt, setCapsule. simpl. rewrite lookup_insert_eq. reflexivity. Qed.

Lemma capsuleAt_setCapsule_ne (st : Storage) (i j : Z) (c : CapsuleMeta) :
  i <> j -> capsuleAt (setCapsule st i c) j = capsuleAt st j.
Proof.
  intros Hne. unfold capsuleAt, setCapsule. simpl.
  rewrite lookup_insert_ne by exact Hne. reflexivity.
Qed.

(** C1 (hash binding). For an existing capsule whose unlock time has come, an
    authorized caller and a capsule not yet REVEALED, [revealCapsule], called
    without value as a function that is not [payable] must be, succeeds
    exactly when the Keccak-256 hash of the presented bytes equals the stored
    [contentHash]; bytes with any other hash are rejected with [HashMismatch]. *)
Theorem C1_reveal_hash_binding (env : Env) (st : Storage) (capsuleId : Z)
    (m : list byte) (ref : string) :
  msg_value env = 0 ->
  exists_capsule st capsuleId ->
  block_timestamp env >= unlockTime (capsuleAt st capsuleId) ->
  authorized st capsuleId (msg_sender env) ->
  status (capsuleAt st capsuleId) <> REVEALED ->
  (succeeded (revealCapsule env st capsuleId m ref) = true
     <-> keccak256 m = contentHash (capsuleAt st capsuleId))
  /\ (keccak256 m <> contentHash (capsuleAt st capsuleId) ->
      revealCapsule env st capsuleId m ref = Reverted HashMismatch).
Proof.
  intros Hval Hex Htime Hauth Hst.
  rewrite (reveal_outcome env st capsuleId m ref Hval Hex Htime Hauth Hst).
  destruct (keccak256 m =? contentHash (capsuleAt st capsuleId)) eqn:E.
  - apply Z.eqb_eq in E. split.
    + split; intros _; [exact E | reflexivity].
    + intros Hne. contradiction.
  - apply Z.eqb_neq in E. split.
    + split; [intros H; discriminate H | intros H; contradiction].
    + intros _. reflexivity.
Qed.

(** C2 (timing). For an existing capsule and a call without value (neither
    function is [payable]), before [unlockTime] both [unlockCapsule] and
    [revealCapsule] revert with [CapsuleStillLocked]; from [unlockTime] on, an
    authorized caller's [unlockCapsule] succeeds, and so does their
    [revealCapsule] with hash-matching bytes on a capsule not yet REVEALED. *)
Theorem C2_timing (env : Env) (st : Storage) (capsuleId : Z)
    (m : list byte) (ref : string) :
  msg_value env = 0 ->
  exists_capsule st capsuleId ->
  (block_timestamp env < unlockTime (capsuleAt st capsuleId) ->
     unlockCapsule env st capsuleId = Reverted CapsuleStillLocked
     /\ revealCapsule env st capsuleId m ref = Reverted CapsuleStillLocked)
  /\ (block_timestamp env >= unlockTime (capsuleAt st capsuleId) ->
      authorized st capsuleId (msg_sender env) ->
      succeeded (unlockCapsule env st capsuleId) = true
      /\ (keccak256 m = contentHash (capsuleAt st capsuleId) ->
          status (capsuleAt st capsuleId) <> REVEALED ->
          succeeded (revealCapsule env st capsuleId m ref) = true)).
Proof.
  intros Hval Hex. split.
  - intros Hearly. unfold unlockCapsule, revealCapsule. rewrite Hval. cbn [Z.eqb negb].
    rewrite (validCapsule_exists _ _ Hex), (onlyUnlocked_early _ _ _ Hearly).
    split; reflexivity.
  - intros Htime Hauth. split.
    + rewrite (unlock_outcome env st capsuleId Hval Hex Htime Hauth).
      destruct (status_eqb _ LOCKED); reflexivity.
    + intros Hhash Hst.
      rewrite (reveal_outcome env st capsuleId m ref Hval Hex Htime Hauth Hst).
      apply Z.eqb_eq in Hhash. rewrite Hhash. reflexivity.
Qed.

(** C10 (no prior unlock needed). For a capsule still LOCKED whose unlock time
    has come, [revealCapsule] by an authorized caller with hash-matching bytes,
    called without value, succeeds and leaves the capsule REVEALED: the record
    goes from LOCKED to REVEALED in one call. *)
Theorem C10_reveal_from_locked (env : Env) (st : Storage) (capsuleId : Z)
    (m : list byte) (ref : string) :
  msg_value env = 0 ->
  exists_capsule st capsuleId ->
  status (capsuleAt st capsuleId) = LOCKED ->
  block_timestamp env >= unlockTime (capsuleAt st capsuleId) ->
  authorized st capsuleId (msg_sender env) ->
  keccak256 m = contentHash (capsuleAt st capsuleId) ->
  exists st' log,
    revealCapsule env st capsuleId m ref = Success st' tt log
    /\ status (capsuleAt st' capsuleId) = REVEALED.
Proof.
  intros Hval Hex Hlocked Htime Hauth Hhash.
  assert (Hst : status (capsuleAt st capsuleId) <> REVEALED)
    by (rewrite Hlocked; discriminate).
  rewrite (reveal_outcome env st capsuleId m ref Hval Hex Htime Hauth Hst).
  apply Z.eqb_eq in Hhash. rewrite Hhash.
  eexists. eexists. split; [reflexivity|].
  rewrite capsuleAt_setCapsule_eq.
  destruct (Z.of_nat (String.length ref) >? 0); reflexivity.
Qed.

(** *** The sample storages *)

Lemma st_created_capsule :
  capsuleAt st_created 1 =
    {| owner := alice; createdAt := t0; unlockTime := t0 + 40 * 86400;
       capsuleType := ENCRYPTED; status := LOCKED;
       contentHash := keccak256 secret; contentRef := "QmTest123";
       recipients := [_addressToString bob]; isPublic := false |}.
Proof. vm_compute. reflexivity. Qed.

Lemma st_created_counter : _capsuleCounter st_created = 1.
Proof. vm_compute. reflexivity. Qed.

Lemma st_created_exists : exists_capsule st_created 1.
Proof. unfold exists_capsule. rewrite st_created_counter. lia. Qed.

Lemma C1_witness :
  (succeeded (revealCapsule (env_at bob 41) st_created 1 secret "QmFinal") = true
     <-> keccak256 secret = contentHash (capsuleAt st_created 1))
  /\ (keccak256 secret_flipped <> contentHash (capsuleAt st_created 1) ->
      revealCapsule (env_at bob 41) st_created 1 secret_flipped "QmFinal"
      = Reverted HashMismatch).
Proof.
  split.
  - apply (C1_reveal_hash_binding (env_at bob 41) st_created 1 secret "QmFinal").
    + reflexivity.
    + exact st_created_exists.
    + rewrite st_created_capsule. vm_compute. discriminate.
    + right. left. rewrite st_created_capsule. simpl. left. reflexivity.
    + rewrite st_created_capsule. simpl. discriminate.
  - apply (C1_reveal_hash_binding (env_at bob 41) st_created 1 secret_flipped "QmFinal").
    + reflexivity.
    + exact st_created_exists.
    + rewrite st_created_capsule. vm_compute. discriminate.
    + right. left. rewrite st_created_capsule. simpl. left. reflexivity.
    + rewrite st_created_capsule. simpl. discriminate.
Defined.

(** A single flipped bit of the credential is rejected. *)
Example reveal_flipped_bit :
  revealCapsule (env_at alice 41) st_created 1 secret_flipped "QmFinal"
  = Reverted HashMismatch.
Proof. vm_compute. reflexivity. Qed.

Example reveal_secret :
  succeeded (revealCapsule (env_at alice 41) st_created 1 secret "QmFinal") = true.
Proof. vm_compute. reflexivity. Qed.

Lemma C2_witness :
  (unlockCapsule (env_at alice 1) st_created 1 = Reverted CapsuleStillLocked
   /\ revealCapsule (env_at alice 1) st_created 1 secret "" = Reverted CapsuleStillLocked)
  /\ succeeded (unlockCapsule (env_at alice 41) st_created 1) = true
  /\ succeeded (revealCapsule (env_at alice 41) st_created 1 secret "") = true.
Proof.
  assert (Hearly : block_timestamp (env_at alice 1) < unlockTime (capsuleAt st_created 1))
    by (rewrite st_created_capsule; vm_compute; reflexivity).
  assert (Hdue : block_timestamp (env_at alice 41) >= unlockTime (capsuleAt st_created 1))
    by (rewrite st_created_capsule; vm_compute; discriminate).
  assert (Hauth : authorized st_created 1 (msg_sender (env_at alice 41)))
    by (left; rewrite st_created_capsule; reflexivity).
  assert (Hhash : keccak256 secret = contentHash (capsuleAt st_created 1))
    by (rewrite st_created_capsule; reflexivity).
  assert (Hst : status (capsuleAt st_created 1) <> REVEALED)
    by (rewrite st_created_capsule; simpl; discriminate).
  destruct (C2_timing (env_at alice 1) st_created 1 secret "" eq_refl st_created_exists)
    as [Hbefore _].
  destruct (C2_timing (env_at alice 41) st_created 1 secret "" eq_refl st_created_exists)
    as [_ Hafter].
  destruct (Hafter Hdue Hauth) as [Hunlock Hreveal].
  split; [exact (Hbefore Hearly)|].
  split; [exact Hunlock | exact (Hreveal Hhash Hst)].
Defined.

Lemma C10_witness :
  exists st' log,
    revealCapsule (env_at alice 41) st_created 1 secret "QmFinal" = Success st' tt log
    /\ status (capsuleAt st' 1) = REVEALED.
Proof.
  apply (C10_reveal_from_locked (env_at alice 41) st_created 1 secret "QmFinal").
  - reflexivity.
  - exact st_created_exists.
  - rewrite st_created_capsule. reflexivity.
  - rewrite st_created_capsule. vm_compute. discriminate.
  - left. rewrite st_created_capsule. reflexivity.
  - rewrite st_created_capsule. reflexivity.
Defined.

(** *** One transaction, seen from an existing capsule *)

Lemma same_commitment_refl (c : CapsuleMeta) : same_commitment c c.
Proof. unfold same_commitment. repeat split. Qed.

Lemma same_commitment_trans (a b c : CapsuleMeta) :
  same_commitment a b -> same_commitment b c -> same_commitment a c.
Proof.
  unfold same_commitment.
  intros (H1 & H2 & H3 & H4 & H5 & H6 & H7) (G1 & G2 & G3 & G4 & G5 & G6 & G7).
  repeat split; congruence.
Qed.

Lemma evolves_refl (c : CapsuleMeta) : evolves c c.
Proof.
  split; [apply same_commitment_refl|]. split; [unfold status_le; lia|].
  intros H. exfalso. apply H. reflexivity.
Qed.

Lemma evolves_set_status (c : CapsuleMeta) (s : CapsuleStatus) :
  status_le (status c) s -> evolves c (set_status c s).
Proof.
  intros Hle. split; [unfold same_commitment; simpl; repeat split|].
  split; [exact Hle|]. simpl. intros H. exfalso. apply H. reflexivity.
Qed.

Lemma status_le_REVEALED (s : CapsuleStatus) : status_le s REVEALED.
Proof. destruct s; unfold status_le; simpl; lia. Qed.

Lemma evolves_reveal (c : CapsuleMeta) (ref : string) :
  status c <> REVEALED ->
  evolves c (if Z.of_nat (String.length ref) >? 0
             then set_contentRef (set_status c REVEALED) ref
             else set_status c REVEALED).
Proof.
  intros Hst. destruct (Z.of_nat (String.length ref) >? 0).
  - split; [unfold same_commitment; simpl; repeat split|].
    split; [apply status_le_REVEALED|]. simpl. intros _. split; [exact Hst|reflexivity].
  - apply evolves_set_status. apply status_le_REVEALED.
Qed.

Lemma create_frame (env : Env) (st st' : Storage) (t : CapsuleType) (h : Z)
    (r : string) (u : Z) (rs : list string) (p : bool) (ret : Z) (log : list Event)
    (capsuleId : Z) :
  createCapsule env st t h r u rs p = Success st' ret log ->
  exists_capsule st capsuleId ->
  _capsuleCounter st' = _capsuleCounter st + 1
  /\ ret = _capsuleCounter st + 1
  /\ capsuleAt st' capsuleId = capsuleAt st capsuleId.
Proof.
  unfold createCapsule. intros H [Hlo Hhi].
  repeat match type of H with
         | (if ?b then _ else _) = _ => destruct b; [discriminate H|]
         end.
  injection H as <- <- _. simpl. split; [reflexivity|]. split; [reflexivity|].
  unfold capsuleAt. simpl. rewrite lookup_insert_ne by lia. reflexivity.
Qed.

Lemma reveal_success (env : Env) (st st' : Storage) (i : Z) (m : list byte)
    (ref : string) (log : list Event) :
  revealCapsule env st i m ref = Success st' tt log ->
  status (capsuleAt st i) <> REVEALED
  /\ keccak256 m = contentHash (capsuleAt st i)
  /\ block_timestamp env >= unlockTime (capsuleAt st i)
  /\ _canAccessCapsule env st i (msg_sender env) = true
  /\ st' = setCapsule st i
             (if Z.of_nat (String.length ref) >? 0
              then set_contentRef (set_status (capsuleAt st i) REVEALED) ref
              else set_status (capsuleAt st i) REVEALED).
Proof.
  unfold revealCapsule, onlyUnlocked.
  destruct (msg_value env =? 0); cbn [negb]; [|discriminate].
  destruct (validCapsule st i); [discriminate|].
  destruct (block_timestamp env <? unlockTime (capsuleAt st i)) eqn:Et; [discriminate|].
  destruct (_canAccessCapsule env st i (msg_sender env)); simpl; [|discriminate].
  destruct (status_eqb (status (capsuleAt st i)) REVEALED) eqn:Es; [discriminate|].
  destruct (keccak256 m =? contentHash (capsuleAt st i)) eqn:Eh; simpl; [|discriminate].
  intros H. injection H as <- _.
  apply status_eqb_neq in Es. apply Z.eqb_eq in Eh. apply Z.ltb_ge in Et.
  repeat split; try assumption. lia.
Qed.

Lemma unlock_success (env : Env) (st st' : Storage) (i : Z) (log : list Event) :
  unlockCapsule env st i = Success st' tt log ->
  block_timestamp env >= unlockTime (capsuleAt st i)
  /\ _canAccessCapsule env st i (msg_sender env) = true
  /\ validCapsule st i = None
  /\ ((status (capsuleAt st i) = LOCKED
       /\ st' = setCapsule st i (set_status (capsuleAt st i) UNLOCKED)
       /\ log = [CapsuleUnlocked i (msg_sender env)])
      \/ (status (capsuleAt st i) <> LOCKED /\ st' = st /\ log = [])).
Proof.
  unfold unlockCapsule, onlyUnlocked.
  destruct (msg_value env =? 0); cbn [negb]; [|discriminate].
  destruct (validCapsule st i); [discriminate|].
  destruct (block_timestamp env <? unlockTime (capsuleAt st i)) eqn:Et; [discriminate|].
  destruct (_canAccessCapsule env st i (msg_sender env)); simpl; [|discriminate].
  apply Z.ltb_ge in Et.
  destruct (status_eqb (status (capsuleAt st i)) LOCKED) eqn:Es; intros H;
    injection H as <- <-.
  - apply status_eqb_eq in Es. repeat split; try lia. left. repeat split. exact Es.
  - apply status_eqb_neq in Es. repeat split; try lia. right. repeat split. exact Es.
Qed.

Lemma setCapsule_counter (st : Storage) (i : Z) (c : CapsuleMeta) :
  _capsuleCounter (setCapsule st i c) = _capsuleCounter st.
Proof. reflexivity. Qed.

Lemma evolves_setCapsule (st : Storage) (i capsuleId : Z) (c : CapsuleMeta) :
  evolves (capsuleAt st i) c ->
  evolves (capsuleAt st capsuleId) (capsuleAt (setCapsule st i c) capsuleId).
Proof.
  intros H. destruct (Z.eq_dec i capsuleId) as [->|Hne].
  - rewrite capsuleAt_setCapsule_eq. exact H.
  - rewrite capsuleAt_setCapsule_ne by exact Hne. apply evolves_refl.
Qed.

(** A transaction keeps every existing capsule in existence and lets its
    record only [evolves]. *)
Lemma exec_evolves (st : Storage) (tx : Env * Call) (capsuleId : Z) :
  exists_capsule st capsuleId ->
  exists_capsule (exec st tx) capsuleId
  /\ evolves (capsuleAt st capsuleId) (capsuleAt (exec st tx) capsuleId).
Proof.
  intros Hex. destruct tx as [env call]. unfold exec. simpl.
  destruct call as [t h r u rs p | i m ref | i | f | tr].
  - destruct (createCapsule env st t h r u rs p) as [st' ret log|e] eqn:E; simpl.
    + destruct (create_frame _ _ _ _ _ _ _ _ _ _ _ capsuleId E Hex) as (Hc & _ & Hsame).
      split; [unfold exists_capsule in *; lia|]. rewrite Hsame. apply evolves_refl.
    + split; [exact Hex|apply evolves_refl].
  - destruct (revealCapsule env st i m ref) as [st' [] log|e] eqn:E; simpl.
    + destruct (reveal_success _ _ _ _ _ _ _ E) as (Hst & _ & _ & _ & ->).
      split; [exact Hex|]. apply evolves_setCapsule. apply evolves_reveal. exact Hst.
    + split; [exact Hex|apply evolves_refl].
  - destruct (unlockCapsule env st i) as [st' [] log|e] eqn:E; simpl.
    + destruct (unlock_success _ _ _ _ _ E) as (_ & _ & _ & [(Hl & -> & _)|(_ & -> & _)]).
      * split; [exact Hex|]. apply evolves_setCapsule. apply evolves_set_status.
        rewrite Hl. unfold status_le. simpl. lia.
      * split; [exact Hex|apply evolves_refl].
    + split; [exact Hex|apply evolves_refl].
  - unfold setProtocolFee.
    destruct (msg_value env =? 0), (msg_sender env =? treasury st); simpl;
      (split; [exact Hex|apply evolves_refl]).
  - unfold setTreasury.
    destruct (msg_value env =? 0), (msg_sender env =? treasury st); simpl;
      (split; [exact Hex|apply evolves_refl]).
Qed.

Lemma run_cons (st : Storage) (tx : Env * Call) (txs : list (Env * Call)) :
  run st (tx :: txs) = run (exec st tx) txs.
Proof. reflexivity. Qed.

Lemma run_status_monotone (txs : list (Env * Call)) :
  forall (st : Storage) (capsuleId : Z),
    exists_capsule st capsuleId ->
    status_le (status (capsuleAt st capsuleId))
              (status (capsuleAt (run st txs) capsuleId)).
Proof.
  induction txs as [|tx txs IH]; intros st capsuleId Hex.
  - simpl. unfold status_le. lia.
  - rewrite run_cons.
    destruct (exec_evolves st tx capsuleId Hex) as (Hex' & _ & Hle & _).
    specialize (IH (exec st tx) capsuleId Hex'). unfold status_le in *. lia.
Qed.

Lemma run_same_commitment (txs : list (Env * Call)) :
  forall (st : Storage) (capsuleId : Z),
    exists_capsule st capsuleId ->
    same_commitment (capsuleAt st capsuleId) (capsuleAt (run st txs) capsuleId).
Proof.
  induction txs as [|tx txs IH]; intros st capsuleId Hex.
  - apply same_commitment_refl.
  - rewrite run_cons.
    destruct (exec_evolves st tx capsuleId Hex) as (Hex' & Hsame & _).
    exact (same_commitment_trans _ _ _ Hsame (IH _ _ Hex')).
Qed.

Lemma evolves_trans (a b c : CapsuleMeta) : evolves a b -> evolves b c -> evolves a c.
Proof.
  intros (Hs1 & Hl1 & Hc1) (Hs2 & Hl2 & Hc2).
  split; [exact (same_commitment_trans _ _ _ Hs1 Hs2)|].
  split; [unfold status_le in *; lia|].
  intros Hne.
  destruct (String.eqb (contentRef b) (contentRef a)) eqn:E.
  - apply String.eqb_eq in E.
    assert (Hne2 : contentRef c <> contentRef b) by congruence.
    destruct (Hc2 Hne2) as [Hb Hc]. split; [|exact Hc].
    intros Ha. apply Hb. unfold status_le in Hl1. rewrite Ha in Hl1.
    destruct (status b); simpl in Hl1; try lia; reflexivity.
  - apply String.eqb_neq in E. destruct (Hc1 E) as [Ha Hb]. split; [exact Ha|].
    unfold status_le in Hl2. rewrite Hb in Hl2.
    destruct (status c); simpl in Hl2; try lia; reflexivity.
Qed.

Lemma run_evolves (txs : list (Env * Call)) :
  forall (st : Storage) (capsuleId : Z),
    exists_capsule st capsuleId ->
    evolves (capsuleAt st capsuleId) (capsuleAt (run st txs) capsuleId).
Proof.
  induction txs as [|tx txs IH]; intros st capsuleId Hex.
  - apply evolves_refl.
  - rewrite run_cons.
    destruct (exec_evolves st tx capsuleId Hex) as (Hex' & Hev).
    exact (evolves_trans _ _ _ Hev (IH _ _ Hex')).
Qed.

Lemma canAccess_later (env env' : Env) (st st' : Storage) (capsuleId user : Z) :
  same_commitment (capsuleAt st capsuleId) (capsuleAt st' capsuleId) ->
  block_timestamp env <= block_timestamp env' ->
  _canAccessCapsule env st capsuleId user = true ->
  _canAccessCapsule env' st' capsuleId user = true.
Proof.
  intros (Ho & _ & Hu & _ & Hr & Hp & _) Ht. unfold _canAccessCapsule.
  rewrite Ho, Hr, Hp, Hu.
  destruct (owner (capsuleAt st capsuleId) =? user); [reflexivity|].
  destruct (existsb _ (recipients (capsuleAt st capsuleId))); [reflexivity|].
  destruct (isPublic (capsuleAt st capsuleId)); simpl; [|discriminate].
  destruct (block_timestamp env >=? unlockTime (capsuleAt st capsuleId)) eqn:E;
    [|discriminate].
  intros _. rewrite Z.geb_leb in E. apply Z.leb_le in E.
  replace (block_timestamp env' >=? unlockTime (capsuleAt st capsuleId)) with true;
    [reflexivity|].
  symmetry. rewrite Z.geb_leb. apply Z.leb_le. lia.
Qed.

(** Repeating a successful [unlockCapsule] (same caller, no earlier block,
    again without value) succeeds again, changes nothing and emits nothing. *)
Lemma unlock_repeat (env env' : Env) (st st' : Storage) (capsuleId : Z)
    (log : list Event) :
  unlockCapsule env st capsuleId = Success st' tt log ->
  msg_sender env' = msg_sender env ->
  msg_value env' = 0 ->
  block_timestamp env <= block_timestamp env' ->
  unlockCapsule env' st' capsuleId = Success st' tt [].
Proof.
  intros H Hs Hval Ht.
  destruct (unlock_success _ _ _ _ _ H) as (Htime & Hacc & Hvalid & Hcase).
  assert (Hev : evolves (capsuleAt st capsuleId) (capsuleAt st' capsuleId)
                /\ status (capsuleAt st' capsuleId) <> LOCKED
                /\ _capsuleCounter st' = _capsuleCounter st).
  { destruct Hcase as [(Hl & -> & _)|(Hn & -> & _)].
    - rewrite capsuleAt_setCapsule_eq. split; [|split; [simpl; discriminate|reflexivity]].
      apply evolves_set_status. rewrite Hl. unfold status_le. simpl. lia.
    - split; [apply evolves_refl|]. split; [exact Hn|reflexivity]. }
  destruct Hev as ((Hsame & _) & Hnl & Hc).
  unfold unlockCapsule. rewrite Hval. cbn [Z.eqb negb].
  assert (Hvalid' : validCapsule st' capsuleId = None)
    by (unfold validCapsule in *; rewrite Hc; exact Hvalid).
  rewrite Hvalid'.
  rewrite onlyUnlocked_due.
  - rewrite Hs. rewrite (canAccess_later env env' st st' capsuleId _ Hsame Ht Hacc).
    simpl. apply status_eqb_neq in Hnl. rewrite Hnl. reflexivity.
  - destruct Hsame as (_ & _ & Hu & _). rewrite Hu. lia.
Qed.

(** C4 (state monotonicity). Along every sequence of transactions the status
    of an existing capsule never goes down in the order LOCKED, UNLOCKED,
    REVEALED; [unlockCapsule] on a capsule already UNLOCKED (unlock time
    reached, authorized caller, no value sent) returns without error, leaves
    the storage as it is and emits no event; and so does any repetition,
    without value, of an [unlockCapsule] call that succeeded. *)
Theorem C4_status_monotone :
  (forall (st : Storage) (txs : list (Env * Call)) (capsuleId : Z),
      exists_capsule st capsuleId ->
      status_le (status (capsuleAt st capsuleId))
                (status (capsuleAt (run st txs) capsuleId)))
  /\ (forall (env : Env) (st : Storage) (capsuleId : Z),
        msg_value env = 0 ->
        exists_capsule st capsuleId ->
        status (capsuleAt st capsuleId) = UNLOCKED ->
        block_timestamp env >= unlockTime (capsuleAt st capsuleId) ->
        authorized st capsuleId (msg_sender env) ->
        unlockCapsule env st capsuleId = Success st tt [])
  /\ (forall (env env' : Env) (st st' : Storage) (capsuleId : Z) (log : list Event),
        unlockCapsule env st capsuleId = Success st' tt log ->
        msg_sender env' = msg_sender env ->
        msg_value env' = 0 ->
        block_timestamp env <= block_timestamp env' ->
        unlockCapsule env' st' capsuleId = Success st' tt []).
Proof.
  split; [|split].
  - intros st txs capsuleId Hex. apply run_status_monotone. exact Hex.
  - intros env st capsuleId Hval Hex Hst Htime Hauth.
    rewrite (unlock_outcome env st capsuleId Hval Hex Htime Hauth). rewrite Hst.
    reflexivity.
  - intros env env' st st' capsuleId log. apply unlock_repeat.
Qed.

Lemma st_unlocked_capsule :
  capsuleAt st_unlocked 1 = set_status (capsuleAt st_created 1) UNLOCKED.
Proof. vm_compute. reflexivity. Qed.

Lemma C4_witness :
  status_le (status (capsuleAt st_created 1))
    (status (capsuleAt
               (run st_created
                  [ (env_at bob 41, CallUnlock 1);
                    (env_at alice 42, CallReveal 1 secret "QmFinal");
                    (env_at bob 43, CallUnlock 1) ]) 1))
  /\ unlockCapsule (env_at bob 42) st_unlocked 1 = Success st_unlocked tt []
  /\ unlockCapsule (env_at alice 42) st_unlocked 1 = Success st_unlocked tt [].
Proof.
  destruct C4_status_monotone as (Hmono & Hnoop & Hrep).
  split; [|split].
  - apply Hmono. exact st_created_exists.
  - apply Hnoop.
    + reflexivity.
    + unfold exists_capsule. vm_compute. split; discriminate.
    + rewrite st_unlocked_capsule. reflexivity.
    + rewrite st_unlocked_capsule, st_created_capsule. vm_compute. discriminate.
    + right. left. rewrite st_unlocked_capsule, st_created_capsule. simpl.
      left. reflexivity.
  - apply (Hrep (env_at alice 41) (env_at alice 42) st_created st_unlocked 1
             [CapsuleUnlocked 1 alice]).
    + vm_compute. reflexivity.
    + reflexivity.
    + reflexivity.
    + vm_compute. discriminate.
Defined.

Lemma nonempty_length (ref : string) :
  (Z.of_nat (String.length ref) >? 0) = negb (String.eqb ref "").
Proof. destruct ref; reflexivity. Qed.

Lemma history_head (st : Storage) (txs : list (Env * Call)) :
  exists rest, history st txs = st :: rest.
Proof. destruct txs; simpl; eexists; reflexivity. Qed.

Lemma contentRef_changes_cons (capsuleId : Z) (a b : Storage) (rest : list Storage) :
  contentRef_changes capsuleId (a :: b :: rest)
  = ((if String.eqb (contentRef (capsuleAt a capsuleId))
                    (contentRef (capsuleAt b capsuleId))
      then 0 else 1)
     + contentRef_changes capsuleId (b :: rest))%nat.
Proof. reflexivity. Qed.

(** Once REVEALED, the [contentRef] of a capsule stays. *)
Lemma revealed_contentRef_stays (txs : list (Env * Call)) :
  forall (st : Storage) (capsuleId : Z),
    exists_capsule st capsuleId ->
    status (capsuleAt st capsuleId) = REVEALED ->
    contentRef_changes capsuleId (history st txs) = 0%nat.
Proof.
  induction txs as [|tx txs IH]; intros st capsuleId Hex Hrev; [reflexivity|].
  simpl history.
  destruct (exec_evolves st tx capsuleId Hex) as (Hex' & _ & Hle & Hch).
  destruct (history_head (exec st tx) txs) as [rest Hh].
  assert (Hrev' : status (capsuleAt (exec st tx) capsuleId) = REVEALED).
  { unfold status_le in Hle. rewrite Hrev in Hle.
    destruct (status (capsuleAt (exec st tx) capsuleId)); simpl in Hle;
      try lia; reflexivity. }
  specialize (IH (exec st tx) capsuleId Hex' Hrev').
  rewrite Hh in *. rewrite contentRef_changes_cons, IH.
  destruct (String.eqb _ _) eqn:E; [reflexivity|].
  apply String.eqb_neq in E.
  assert (Hne : contentRef (capsuleAt (exec st tx) capsuleId)
                <> contentRef (capsuleAt st capsuleId)) by congruence.
  destruct (Hch Hne) as [Hn _]. contradiction.
Qed.

Lemma contentRef_changes_once (txs : list (Env * Call)) :
  forall (st : Storage) (capsuleId : Z),
    exists_capsule st capsuleId ->
    (contentRef_changes capsuleId (history st txs) <= 1)%nat.
Proof.
  induction txs as [|tx txs IH]; intros st capsuleId Hex; [simpl; lia|].
  simpl history.
  destruct (exec_evolves st tx capsuleId Hex) as (Hex' & _ & _ & Hch).
  destruct (history_head (exec st tx) txs) as [rest Hh].
  specialize (IH (exec st tx) capsuleId Hex').
  pose proof (revealed_contentRef_stays txs (exec st tx) capsuleId Hex') as Hstay.
  rewrite Hh in *. rewrite contentRef_changes_cons.
  destruct (String.eqb _ _) eqn:E; [simpl; exact IH|].
  apply String.eqb_neq in E.
  assert (Hne : contentRef (capsuleAt (exec st tx) capsuleId)
                <> contentRef (capsuleAt st capsuleId)) by congruence.
  destruct (Hch Hne) as [_ Hrev]. rewrite (Hstay Hrev). simpl. lia.
Qed.

(** C9 (frame). Along every sequence of transactions an existing capsule keeps
    its owner, createdAt, unlockTime, capsuleType, recipients, isPublic and
    contentHash, and its contentRef differs at the end only if the capsule has
    become REVEALED on the way. A successful [unlockCapsule] leaves the
    storage as it is or sets the status of that one capsule to UNLOCKED; a
    successful
    [revealCapsule] sets the status of that one capsule to REVEALED and, only
    when [finalContentRef] is not empty, its [contentRef]; nothing else in the
    storage changes. Over a whole history the [contentRef] of a capsule
    changes at most once. *)
Theorem C9_frame :
  (forall (st : Storage) (txs : list (Env * Call)) (capsuleId : Z),
      exists_capsule st capsuleId ->
      same_commitment (capsuleAt st capsuleId) (capsuleAt (run st txs) capsuleId)
      /\ (contentRef (capsuleAt (run st txs) capsuleId)
            <> contentRef (capsuleAt st capsuleId) ->
          status (capsuleAt st capsuleId) <> REVEALED
          /\ status (capsuleAt (run st txs) capsuleId) = REVEALED))
  /\ (forall (env : Env) (st st' : Storage) (capsuleId : Z) (log : list Event),
        unlockCapsule env st capsuleId = Success st' tt log ->
        st' = st
        \/ st' = setCapsule st capsuleId (set_status (capsuleAt st capsuleId) UNLOCKED))
  /\ (forall (env : Env) (st st' : Storage) (capsuleId : Z) (m : list byte)
             (finalContentRef : string) (log : list Event),
        revealCapsule env st capsuleId m finalContentRef = Success st' tt log ->
        st' = setCapsule st capsuleId
                (if String.eqb finalContentRef ""
                 then set_status (capsuleAt st capsuleId) REVEALED
                 else set_contentRef (set_status (capsuleAt st capsuleId) REVEALED)
                        finalContentRef))
  /\ (forall (st : Storage) (txs : list (Env * Call)) (capsuleId : Z),
        exists_capsule st capsuleId ->
        (contentRef_changes capsuleId (history st txs) <= 1)%nat).
Proof.
  split; [|split; [|split]].
  - intros st txs capsuleId Hex.
    destruct (run_evolves txs st capsuleId Hex) as (Hsame & _ & Hch).
    split; assumption.
  - intros env st st' capsuleId log H.
    destruct (unlock_success _ _ _ _ _ H) as (_ & _ & _ & [(_ & -> & _)|(_ & -> & _)]).
    + right. reflexivity.
    + left. reflexivity.
  - intros env st st' capsuleId m ref log H.
    destruct (reveal_success _ _ _ _ _ _ _ H) as (_ & _ & _ & _ & ->).
    rewrite nonempty_length. destruct (String.eqb ref ""); reflexivity.
  - intros st txs capsuleId Hex. apply contentRef_changes_once. exact Hex.
Qed.

Lemma C9_witness :
  same_commitment (capsuleAt st_created 1)
    (capsuleAt
       (run st_created
          [ (env_at bob 41, CallUnlock 1);
            (env_at alice 42, CallReveal 1 secret "QmFinal");
            (env_at carol 43, CallSetTreasury carol) ]) 1)
  /\ (st_unlocked = st_created
      \/ st_unlocked = setCapsule st_created 1 (set_status (capsuleAt st_created 1) UNLOCKED))
  /\ st_revealed
     = setCapsule st_created 1
         (set_contentRef (set_status (capsuleAt st_created 1) REVEALED) "QmFinal")
  /\ (contentRef_changes 1
        (history st_created
           [ (env_at bob 41, CallUnlock 1);
             (env_at alice 42, CallReveal 1 secret "QmFinal");
             (env_at alice 43, CallReveal 1 secret "QmOther") ]) <= 1)%nat.
Proof.
  destruct C9_frame as (Hsame & Hunlock & Hreveal & Honce).
  split; [|split; [|split]].
  - apply (Hsame st_created). exact st_created_exists.
  - apply (Hunlock (env_at alice 41) st_created st_unlocked 1 [CapsuleUnlocked 1 alice]).
    vm_compute. reflexivity.
  - apply (Hreveal (env_at alice 41) st_created st_revealed 1 secret "QmFinal"
             [CapsuleRevealed 1 alice "QmFinal"]).
    vm_compute. reflexivity.
  - apply Honce. exact st_created_exists.
Defined.

Example contentRef_replaced_at_reveal :
  contentRef (capsuleAt st_created 1) = "QmTest123"%string
  /\ contentRef (capsuleAt st_revealed 1) = "QmFinal"%string
  /\ contentRef_changes 1
       (history st_created
          [ (env_at bob 41, CallUnlock 1);
            (env_at alice 42, CallReveal 1 secret "QmFinal");
            (env_at alice 43, CallReveal 1 secret "QmOther") ]) = 1%nat.
Proof. vm_compute. repeat split. Qed.

(** *** Creation *)

(** [createCapsule] with the fee covered, payments accepted and no overflow in
    sight: the outcome depends on the unlock time alone. *)
Lemma create_outcome (env : Env) (st : Storage) (t : CapsuleType) (h : Z)
    (r : string) (u : Z) (rs : list string) (p : bool) :
  block_timestamp env mod 2 ^ 64 + MAX_LOCK_DURATION <= UINT64_MAX ->
  msg_value env >= protocolFee st ->
  (forall a v, accepts_payment env a v = true) ->
  _capsuleCounter st < UINT256_MAX ->
  createCapsule env st t h r u rs p =
    if (u <=? block_timestamp env mod 2 ^ 64 + MIN_LOCK_DURATION)
       || (u >? block_timestamp env mod 2 ^ 64 + MAX_LOCK_DURATION)
    then Reverted InvalidUnlockTime
    else Success
           {| _capsuleCounter := _capsuleCounter st + 1;
              _capsules :=
                <[_capsuleCounter st + 1 :=
                    {| owner := msg_sender env;
                       createdAt := block_timestamp env mod 2 ^ 64;
                       unlockTime := u; capsuleType := t; status := LOCKED;
                       contentHash := h; contentRef := r; recipients := rs;
                       isPublic := p |}]> (_capsules st);
              _userCapsules :=
                <[msg_sender env :=
                    default [] (_userCapsules st !! msg_sender env)
                      ++ [_capsuleCounter st + 1]]> (_userCapsules st);
              protocolFee := protocolFee st;
              treasury := treasury st |}
           (_capsuleCounter st + 1)
           [CapsuleCreated (_capsuleCounter st + 1) (msg_sender env) u t h].
Proof.
  intros Hmax Hfee Hpay Hcnt. unfold createCapsule.
  assert (Hmin : block_timestamp env mod 2 ^ 64 + MIN_LOCK_DURATION <= UINT64_MAX)
    by (unfold MIN_LOCK_DURATION, MAX_LOCK_DURATION in *; lia).
  replace (block_timestamp env mod 2 ^ 64 + MIN_LOCK_DURATION >? UINT64_MAX) with false
    by (symmetry; rewrite Z.gtb_ltb; apply Z.ltb_ge; lia).
  destruct (u <=? block_timestamp env mod 2 ^ 64 + MIN_LOCK_DURATION); [reflexivity|].
  replace (block_timestamp env mod 2 ^ 64 + MAX_LOCK_DURATION >? UINT64_MAX) with false
    by (symmetry; rewrite Z.gtb_ltb; apply Z.ltb_ge; lia).
  destruct (u >? block_timestamp env mod 2 ^ 64 + MAX_LOCK_DURATION); [reflexivity|].
  replace (msg_value env <? protocolFee st) with false
    by (symmetry; apply Z.ltb_ge; lia).
  replace (_capsuleCounter st + 1 >? UINT256_MAX) with false
    by (symmetry; rewrite Z.gtb_ltb; apply Z.ltb_ge; lia).
  rewrite !Hpay. simpl. rewrite !andb_false_r. reflexivity.
Qed.

(** C3, as the contract has it. With the fee covered (and its transfers
    accepted, the [uint64] sums and the counter in range), [createCapsule]
    succeeds exactly when [createdAt + MIN_LOCK_DURATION < unlockTime] and
    [unlockTime <= createdAt + MAX_LOCK_DURATION]: the lower end of the window
    is excluded, the upper end is included. Every other unlock time reverts
    with [InvalidUnlockTime], and a success stores a LOCKED record with that
    [createdAt] and [unlockTime] under the next id. *)
Theorem C3_unlock_time_window (env : Env) (st : Storage) (t : CapsuleType) (h : Z)
    (r : string) (u : Z) (rs : list string) (p : bool) :
  block_timestamp env mod 2 ^ 64 + MAX_LOCK_DURATION <= UINT64_MAX ->
  msg_value env >= protocolFee st ->
  (forall a v, accepts_payment env a v = true) ->
  _capsuleCounter st < UINT256_MAX ->
  let created := block_timestamp env mod 2 ^ 64 in
  let in_window := created + MIN_LOCK_DURATION < u <= created + MAX_LOCK_DURATION in
  (succeeded (createCapsule env st t h r u rs p) = true <-> in_window)
  /\ (~ in_window -> createCapsule env st t h r u rs p = Reverted InvalidUnlockTime)
  /\ (in_window ->
      exists st' log,
        createCapsule env st t h r u rs p = Success st' (_capsuleCounter st + 1) log
        /\ _capsuleCounter st' = _capsuleCounter st + 1
        /\ capsuleAt st' (_capsuleCounter st + 1)
           = {| owner := msg_sender env; createdAt := created; unlockTime := u;
                capsuleType := t; status := LOCKED; contentHash := h;
                contentRef := r; recipients := rs; isPublic := p |}).
Proof.
  intros Hmax Hfee Hpay Hcnt created in_window. subst created in_window.
  rewrite (create_outcome env st t h r u rs p Hmax Hfee Hpay Hcnt).
  destruct (u <=? block_timestamp env mod 2 ^ 64 + MIN_LOCK_DURATION) eqn:E1; simpl.
  - apply Z.leb_le in E1. split; [|split].
    + split; [intros H; discriminate H | intros H; lia].
    + intros _. reflexivity.
    + intros H. lia.
  - apply Z.leb_gt in E1.
    destruct (u >? block_timestamp env mod 2 ^ 64 + MAX_LOCK_DURATION) eqn:E2.
    + rewrite Z.gtb_ltb in E2. apply Z.ltb_lt in E2. split; [|split].
      * split; [intros H; discriminate H | intros H; lia].
      * intros _. reflexivity.
      * intros H. lia.
    + rewrite Z.gtb_ltb in E2. apply Z.ltb_ge in E2. split; [|split].
      * split; [intros _; lia | intros _; reflexivity].
      * intros H. exfalso. apply H. lia.
      * intros _. eexists. eexists. split; [reflexivity|]. split; [reflexivity|].
        unfold capsuleAt. simpl. rewrite lookup_insert_eq. reflexivity.
Qed.

Lemma C3_witness :
  (succeeded (createCapsule env_create (constructor the_treasury) ENCRYPTED
                (keccak256 secret) "QmTest123" (t0 + 40 * 86400) [] false) = true
   <-> t0 + MIN_LOCK_DURATION < t0 + 40 * 86400 <= t0 + MAX_LOCK_DURATION)
  /\ createCapsule env_create (constructor the_treasury) ENCRYPTED
       (keccak256 secret) "QmTest123" (t0 + MAX_LOCK_DURATION + 1) [] false
     = Reverted InvalidUnlockTime.
Proof.
  assert (Hmax : block_timestamp env_create mod 2 ^ 64 + MAX_LOCK_DURATION <= UINT64_MAX)
    by (vm_compute; discriminate).
  assert (Hfee : msg_value env_create >= protocolFee (constructor the_treasury))
    by (vm_compute; discriminate).
  assert (Hpay : forall a v, accepts_payment env_create a v = true)
    by (intros a v; reflexivity).
  assert (Hcnt : _capsuleCounter (constructor the_treasury) < UINT256_MAX)
    by (vm_compute; reflexivity).
  split.
  - exact (proj1 (C3_unlock_time_window env_create (constructor the_treasury) ENCRYPTED
                    (keccak256 secret) "QmTest123" (t0 + 40 * 86400) [] false
                    Hmax Hfee Hpay Hcnt)).
  - apply (C3_unlock_time_window env_create (constructor the_treasury) ENCRYPTED
             (keccak256 secret) "QmTest123" (t0 + MAX_LOCK_DURATION + 1) [] false
             Hmax Hfee Hpay Hcnt).
    vm_compute. intros [_ H]. apply H. reflexivity.
Defined.

(** An unlock time of exactly [createdAt + MIN_LOCK_DURATION] lies in the
    closed interval and the fee is paid, yet the call reverts. *)
Lemma C3_counterexample :
  (t0 + MIN_LOCK_DURATION <= t0 + MIN_LOCK_DURATION <= t0 + MAX_LOCK_DURATION)
  /\ msg_value env_create >= protocolFee (constructor the_treasury)
  /\ createCapsule env_create (constructor the_treasury) ENCRYPTED
       (keccak256 secret) "QmTest123" (t0 + MIN_LOCK_DURATION) [] false
     = Reverted InvalidUnlockTime.
Proof.
  split; [vm_compute; split; discriminate|].
  split; [vm_compute; discriminate|].
  vm_compute. reflexivity.
Qed.

(** The upper end of the window is accepted. *)
Example create_at_max :
  succeeded (createCapsule env_create (constructor the_treasury) ENCRYPTED
               (keccak256 secret) "QmTest123" (t0 + MAX_LOCK_DURATION) [] false)
  = true.
Proof. vm_compute. reflexivity. Qed.

(** *** A capsule already REVEALED *)

Lemma reveal_revealed_reverts (env : Env) (st : Storage) (capsuleId : Z)
    (m : list byte) (ref : string) :
  status (capsuleAt st capsuleId) = REVEALED ->
  exists e, revealCapsule env st capsuleId m ref = Reverted e.
Proof.
  intros Hrev. unfold revealCapsule.
  destruct (msg_value env =? 0); cbn [negb]; [|eexists; reflexivity].
  destruct (validCapsule st capsuleId); [eexists; reflexivity|].
  destruct (onlyUnlocked env st capsuleId); [eexists; reflexivity|].
  destruct (_canAccessCapsule env st capsuleId (msg_sender env)); simpl;
    [|eexists; reflexivity].
  rewrite Hrev. simpl. eexists. reflexivity.
Qed.

Lemma reveal_revealed_error (env : Env) (st : Storage) (capsuleId : Z)
    (m : list byte) (ref : string) :
  msg_value env = 0 ->
  exists_capsule st capsuleId ->
  status (capsuleAt st capsuleId) = REVEALED ->
  block_timestamp env >= unlockTime (capsuleAt st capsuleId) ->
  _canAccessCapsule env st capsuleId (msg_sender env) = true ->
  revealCapsule env st capsuleId m ref = Reverted CapsuleAlreadyRevealed.
Proof.
  intros Hval Hex Hrev Htime Hacc. unfold revealCapsule. rewrite Hval. cbn [Z.eqb negb].
  rewrite (validCapsule_exists _ _ Hex), (onlyUnlocked_due _ _ _ Htime), Hacc, Hrev.
  reflexivity.
Qed.

End TimeCapsuleProofs.

(** ** Recovery kits *)

Module KitProofs.
Import JS Kit.

Example atob_hello : atob (js "aGVsbG8=") = Some (js "hello").
Proof. vm_compute. reflexivity. Qed.

Example atob_unpadded : atob (js "aGVsbG8") = Some (js "hello").
Proof. vm_compute. reflexivity. Qed.

Example atob_bad_length : atob (js "aGVsb") = None.
Proof. vm_compute. reflexivity. Qed.

Example btoa_hello : btoa (js "hello") = js "aGVsbG8=".
Proof. vm_compute. reflexivity. Qed.

Example good_kit_valid : validateRecoveryKit good_kit = valid.
Proof. vm_compute. reflexivity. Qed.

Example short_kit_invalid :
  validateRecoveryKit short_kit = invalid (js "Invalid encryption key length").
Proof. vm_compute. reflexivity. Qed.

Example short_numeric_kit_valid : validateRecoveryKit short_numeric_kit = valid.
Proof. vm_compute. reflexivity. Qed.

End KitProofs.

(** ** The storage gateway *)

Module IPFSProofs.
Import JS IPFS.

Lemma drop_while_nil (f : Z -> bool) (s : list Z) :
  drop_while f s = [] -> forallb f s = true.
Proof.
  induction s as [|c rest IH]; simpl; [reflexivity|].
  destruct (f c); simpl; [exact IH|discriminate].
Qed.

(** A string whose first character is not white space does not trim to the
    empty string. *)
Lemma trim_nonempty (c : Z) (rest : list Z) :
  is_whitespace c = false -> trim (c :: rest) <> [].
Proof.
  intros Hc Htrim. unfold trim in Htrim. simpl in Htrim. rewrite Hc in Htrim.
  apply (f_equal (@rev Z)) in Htrim. rewrite rev_involutive in Htrim. simpl in Htrim.
  apply drop_while_nil in Htrim.
  rewrite forallb_forall in Htrim.
  assert (Hin : In c (rev rest ++ [c])) by (apply in_or_app; right; left; reflexivity).
  specialize (Htrim c Hin). rewrite Hc in Htrim. discriminate Htrim.
Qed.

Lemma local_prefix_shape (cid : list Z) :
  startsWith cid (js "local_") = true -> exists rest, cid = 0x6C :: rest.
Proof.
  replace (js "local_") with [108; 111; 99; 97; 108; 95] by (vm_compute; reflexivity).
  destruct cid as [|c rest]; [discriminate|].
  cbn [startsWith]. destruct (108 =? c) eqn:E; [|discriminate].
  intros _. apply Z.eqb_eq in E. subst c. exists rest. reflexivity.
Qed.

(** What [download] does for an address with the reserved prefix [local_]:
    it makes no network request whatever the network would answer, returns
    the cached content when the cache holds a non-empty string under [ipfs_]
    followed by the address, and throws the not-found error when the entry is
    missing or is the empty string. *)
Theorem local_addresses_resolve_locally
    (encodeURIComponent : list Z -> list Z) (JSON_stringify : JsValue -> list Z)
    (pinataJWT : list Z) (fetch : Request -> Result Response)
    (localStorage : gmap (list Z) (list Z)) (cid : list Z) :
  startsWith cid (js "local_") = true ->
  snd (download encodeURIComponent JSON_stringify pinataJWT fetch localStorage cid) = []
  /\ fst (download encodeURIComponent JSON_stringify pinataJWT fetch localStorage cid)
     = match localStorage !! (js "ipfs_" ++ cid) with
       | Some (c :: stored) => Ok (c :: stored)
       | _ => Throw (js "Content not found in localStorage for CID: " ++ cid)
       end.
Proof.
  intros Hlocal. destruct (local_prefix_shape cid Hlocal) as [rest ->].
  unfold download. rewrite Hlocal.
  assert (Htrim : jsstring_eqb (trim (108 :: rest)) [] = false).
  { unfold jsstring_eqb. destruct (decide (trim (108 :: rest) = [])) as [E|E]; [|reflexivity].
    exfalso. exact (trim_nonempty 108 rest eq_refl E). }
  rewrite Htrim. cbn [truthy negb orb].
  destruct (localStorage !! (js "ipfs_" ++ 108 :: rest)) as [[|c stored]|];
    simpl; split; reflexivity.
Qed.

Lemma local_addresses_resolve_locally_witness :
  snd (download plain_encode plain_stringify (js "jwt") echo_network
         (fst cache_after_upload) (cid (snd cache_after_upload))) = []
  /\ fst (download plain_encode plain_stringify (js "jwt") echo_network
            (fst cache_after_upload) (cid (snd cache_after_upload)))
     = Ok (js "encrypted blob").
Proof.
  assert (Hlocal : startsWith (cid (snd cache_after_upload)) (js "local_") = true)
    by (vm_compute; reflexivity).
  destruct (local_addresses_resolve_locally plain_encode plain_stringify (js "jwt") echo_network
              (fst cache_after_upload) (cid (snd cache_after_upload)) Hlocal)
    as [Hreq Hres].
  split; [exact Hreq|]. rewrite Hres. vm_compute. reflexivity.
Defined.

(** C8 (stored content that is not returned). The empty string uploaded
    through [fallbackToLocalStorage] gets a [local_] address and an entry in
    the cache, yet [download] of that address throws the not-found error: its
    test [!stored] takes the stored empty string for a missing entry. No
    request is made. *)
Theorem C8_empty_content_not_found :
  startsWith (cid (snd cache_after_empty_upload)) (js "local_") = true
  /\ fst cache_after_empty_upload !! (js "ipfs_" ++ cid (snd cache_after_empty_upload))
     = Some []
  /\ download plain_encode plain_stringify (js "jwt") echo_network
       (fst cache_after_empty_upload) (cid (snd cache_after_empty_upload))
     = (Throw (js "Content not found in localStorage for CID: "
                 ++ cid (snd cache_after_empty_upload)), []).
Proof. vm_compute. repeat split. Qed.

(** A [rows.length] that is not a number is converted before it is compared
    with zero. *)
Example rows_length_is_converted :
  has_rows (JObject [(js "rows", JObject [(js "length", JString (js "2"))])]) = true
  /\ map string_positive
       [js " 0x10 "; js "5."; js ".5"; js "1e5"; js "+3"; js "0.0001"; js "Infinity";
        js "0b101"; js "4e-324"]
     = [true; true; true; true; true; true; true; true; true]
  /\ map string_positive
       [js ""; js "  "; js "0"; js "-1"; js "abc"; js "."; js "1_0"; js "0o0";
        js "1e-400"; js "2e-324"; js "+0x10"; js "1,2"; js "e5"]
     = [false; false; false; false; false; false; false; false; false; false; false;
        false; false]
  /\ map gt_zero
       [JBool true; JArray [JString (js "3")]; JArray [JArray [JNumber 7]];
        JArray [JBool true]; JArray [JNumber 1; JNumber 2]; JArray []; JNull;
        JObject []]
     = [true; true; true; false; false; false; false; false].
Proof. vm_compute. repeat split. Qed.

(** An address without the prefix goes to the network. *)
Example network_address_is_fetched :
  download plain_encode plain_stringify [] echo_network ∅ (js "bafy123")
  = (Ok (js "from the network"),
     map proxy_request (corsProxies plain_encode (js "bafy123"))
       ++ [gateway_request (gateway_path (js "bafy123"))]).
Proof. vm_compute. reflexivity. Qed.

Example network_down :
  fst (download plain_encode plain_stringify (js "jwt") no_network ∅ (js "bafy123"))
  = Throw (helpfulError (js "bafy123"))
  /\ length (snd (download plain_encode plain_stringify (js "jwt") no_network ∅
                    (js "bafy123"))) = 10%nat.
Proof. vm_compute. split; reflexivity. Qed.

End IPFSProofs.

(** ** Text encoding *)

Module EncodingProofs.
Import JS Encoding.

Lemma byte_to_Z_range (b : byte) : 0 <= byte_to_Z b <= 255.
Proof. destruct b; vm_compute; split; discriminate. Qed.

Lemma Z_to_byte_to_Z (b : byte) : Z_to_byte (byte_to_Z b) = b.
Proof. destruct b; reflexivity. Qed.

Lemma byte_to_Z_to_byte (z : Z) : 0 <= z <= 255 -> byte_to_Z (Z_to_byte z) = z.
Proof.
  intros Hz. unfold Z_to_byte, byte_to_Z.
  change 255 with (Z.ones 8). rewrite Z.land_ones by lia.
  rewrite Z.mod_small by lia.
  destruct (Byte.of_N (Z.to_N z)) as [b|] eqn:E.
  - apply Byte.to_of_N in E. rewrite E. lia.
  - apply Byte.of_N_None_iff in E. lia.
Qed.

Lemma bytes_roundtrip (bs : list Z) :
  forallb Encoding.is_byte bs = true -> map byte_to_Z (map Z_to_byte bs) = bs.
Proof.
  induction bs as [|b bs IH]; simpl; [reflexivity|].
  intros H. apply andb_true_iff in H. destruct H as [Hb Hbs].
  unfold Encoding.is_byte in Hb. apply andb_true_iff in Hb. destruct Hb as [H0 H1].
  apply Z.leb_le in H0, H1.
  rewrite byte_to_Z_to_byte by lia. rewrite IH by exact Hbs. reflexivity.
Qed.

Lemma bytes_roundtrip' (bs : list byte) : map Z_to_byte (map byte_to_Z bs) = bs.
Proof.
  induction bs as [|b bs IH]; simpl; [reflexivity|].
  rewrite Z_to_byte_to_Z, IH. reflexivity.
Qed.

Lemma iter_range_fst (P : Z -> bool) (lo : Z) (n : N) :
  fst (N.iter n (fun st : Z * bool => (fst st + 1, snd st && P (fst st))) (lo, true))
  = lo + Z.of_N n.
Proof.
  induction n as [|n IH] using N.peano_ind; [simpl; lia|].
  rewrite N.iter_succ. simpl. rewrite IH. lia.
Qed.

(** A range check that computes to [true] holds of every integer in range. *)
Lemma forall_range_sound (P : Z -> bool) (lo : Z) (n : N) :
  forall_range P lo n = true ->
  forall x, lo <= x < lo + Z.of_N n -> P x = true.
Proof.
  unfold forall_range. induction n as [|n IH] using N.peano_ind.
  - intros _ x Hx. lia.
  - rewrite N.iter_succ. simpl. rewrite iter_range_fst. intros H x Hx.
    apply andb_true_iff in H. destruct H as [Hrest Hlast].
    destruct (Z.eq_dec x (lo + Z.of_N n)) as [->|Hne]; [exact Hlast|].
    apply IH; [exact Hrest|lia].
Qed.

(** *** Bit arithmetic of the encoder and the decoder *)

Lemma shiftr_div (x n : Z) : 0 <= n -> Z.shiftr x n = x / 2 ^ n.
Proof. intros Hn. apply Z.shiftr_div_pow2. exact Hn. Qed.

Lemma land_3F (x : Z) : Z.land x 0x3F = x mod 64.
Proof. change 0x3F with (Z.ones 6). rewrite Z.land_ones by lia. reflexivity. Qed.

Lemma small_bits_high (x n : Z) : 0 <= x < 64 -> 6 <= n -> Z.testbit x n = false.
Proof.
  intros Hx Hn. destruct (Z.eq_dec x 0) as [->|Hne]; [apply Z.bits_0|].
  apply Z.bits_above_log2; [lia|].
  assert (Z.log2 x < 6) by (apply Z.log2_lt_pow2; lia). lia.
Qed.

(** Six low bits joined to a shifted value: the bits do not overlap. *)
Lemma lor_shiftl_6 (h x : Z) :
  0 <= x < 64 -> Z.lor (Z.shiftl h 6) x = h * 64 + x.
Proof.
  intros Hx. rewrite Z.shiftl_mul_pow2 by lia. change (2 ^ 6) with 64.
  assert (Hdisj : Z.land (h * 64) x = 0).
  { apply Z.bits_inj'. intros n Hn. rewrite Z.land_spec, Z.bits_0.
    destruct (Z.lt_ge_cases n 6) as [Hlo|Hhi].
    - change 64 with (2 ^ 6). rewrite Z.mul_pow2_bits_low by lia. reflexivity.
    - rewrite (small_bits_high x n Hx Hhi). apply andb_false_r. }
  rewrite <- Z.lxor_lor by exact Hdisj. symmetry. apply Z.add_nocarry_lxor. exact Hdisj.
Qed.

Lemma continuation_byte (x : Z) :
  0 <= x < 64 -> Z.lor 0x80 x = 0x80 + x /\ Z.land (0x80 + x) 0x3F = x.
Proof.
  intros Hx.
  pose proof (forall_range_sound
                (fun x => (Z.lor 0x80 x =? 0x80 + x) && (Z.land (0x80 + x) 0x3F =? x))
                0 64 eq_refl x ltac:(lia)) as H.
  simpl in H. apply andb_true_iff in H. destruct H as [H1 H2].
  apply Z.eqb_eq in H1, H2. split; assumption.
Qed.

(** A continuation byte within the decoder's bounds adds its six bits. *)
Lemma continuation_step (d : Decoder) (x : Z) :
  bytes_needed d <> 0 ->
  0 <= x < 64 ->
  lower_boundary d <= 0x80 + x <= upper_boundary d ->
  decoder_step d (Z.lor 0x80 x)
  = if bytes_seen d + 1 =? bytes_needed d
    then (decoder_start, [code_point d * 64 + x])
    else ({| code_point := code_point d * 64 + x; bytes_seen := bytes_seen d + 1;
             bytes_needed := bytes_needed d;
             lower_boundary := 0x80; upper_boundary := 0xBF |}, []).
Proof.
  intros Hn Hx Hb. destruct (continuation_byte x Hx) as [Hlor Hland].
  unfold decoder_step. rewrite Hlor, Hland.
  replace (bytes_needed d =? 0) with false by (symmetry; apply Z.eqb_neq; exact Hn).
  replace (lower_boundary d <=? 128 + x) with true by (symmetry; apply Z.leb_le; lia).
  replace (128 + x <=? upper_boundary d) with true by (symmetry; apply Z.leb_le; lia).
  cbn [andb negb]. rewrite (lor_shiftl_6 (code_point d) x Hx). reflexivity.
Qed.

Lemma is_byte_continuation (x : Z) : 0 <= x < 64 -> is_byte (Z.lor 0x80 x) = true.
Proof.
  intros Hx. destruct (continuation_byte x Hx) as [-> _]. unfold is_byte.
  apply andb_true_iff. split; apply Z.leb_le; lia.
Qed.

(** The first byte of a four-byte sequence. *)
Lemma lead_byte_4 (hi : Z) :
  0 <= hi <= 4 ->
  lead_byte (Z.lor 0xF0 hi)
  = ({| code_point := hi; bytes_seen := 0; bytes_needed := 3;
        lower_boundary := if hi =? 0 then 0x90 else 0x80;
        upper_boundary := if hi =? 4 then 0x8F else 0xBF |}, [])
  /\ is_byte (Z.lor 0xF0 hi) = true.
Proof.
  intros Hhi.
  assert (H : hi = 0 \/ hi = 1 \/ hi = 2 \/ hi = 3 \/ hi = 4) by lia.
  destruct H as [-> | [-> | [-> | [-> | ->]]]]; split; reflexivity.
Qed.

(** A scalar value above U+FFFF round-trips through its four bytes. *)
Lemma four_byte_roundtrip (cp : Z) :
  0x10000 <= cp <= 0x10FFFF -> scalar_roundtrips cp = true.
Proof.
  intros Hcp. unfold scalar_roundtrips, utf8_encode_scalar.
  replace (cp <=? 0x7F) with false by (symmetry; apply Z.leb_gt; lia).
  replace (cp <=? 0x7FF) with false by (symmetry; apply Z.leb_gt; lia).
  replace (cp <=? 0xFFFF) with false by (symmetry; apply Z.leb_gt; lia).
  rewrite !shiftr_div by lia. rewrite !land_3F.
  set (hi := cp / 2 ^ 18). set (a := (cp / 2 ^ 12) mod 64).
  set (b := (cp / 2 ^ 6) mod 64). set (c := cp mod 64).
  assert (Hhi : 0 <= hi <= 4).
  { unfold hi. change (2 ^ 18) with 262144.
    assert (cp / 262144 < 5) by (apply Z.div_lt_upper_bound; lia).
    assert (0 <= cp / 262144) by (apply Z.div_pos; lia). lia. }
  assert (Ha : 0 <= a < 64) by (unfold a; apply Z.mod_pos_bound; lia).
  assert (Hb : 0 <= b < 64) by (unfold b; apply Z.mod_pos_bound; lia).
  assert (Hc : 0 <= c < 64) by (unfold c; apply Z.mod_pos_bound; lia).
  assert (Hsum : ((hi * 64 + a) * 64 + b) * 64 + c = cp).
  { unfold hi, a, b, c. change (2 ^ 18) with 262144. change (2 ^ 12) with 4096.
    change (2 ^ 6) with 64. clear. 
    pose proof (Z.div_mod cp 64 ltac:(lia)).
    pose proof (Z.div_mod (cp / 64) 64 ltac:(lia)).
    pose proof (Z.div_mod (cp / 4096) 64 ltac:(lia)).
    assert (cp / 64 / 64 = cp / 4096) by (rewrite Z.div_div by lia; reflexivity).
    assert (cp / 4096 / 64 = cp / 262144) by (rewrite Z.div_div by lia; reflexivity).
    lia. }
  assert (Hlow : hi = 0 -> 16 <= a).
  { intros H0. unfold hi, a in *. change (2 ^ 18) with 262144 in H0.
    change (2 ^ 12) with 4096.
    assert (cp < 262144).
    { pose proof (Z.div_mod cp 262144 ltac:(lia)).
      pose proof (Z.mod_pos_bound cp 262144 ltac:(lia)). lia. }
    assert (16 <= cp / 4096 < 64)
      by (split; [apply Z.div_le_lower_bound; lia|apply Z.div_lt_upper_bound; lia]).
    rewrite Z.mod_small by lia. lia. }
  assert (Hhigh : hi = 4 -> a <= 15).
  { intros H4. unfold hi, a in *. change (2 ^ 18) with 262144 in H4.
    change (2 ^ 12) with 4096.
    assert (1048576 <= cp).
    { pose proof (Z.div_mod cp 262144 ltac:(lia)).
      pose proof (Z.mod_pos_bound cp 262144 ltac:(lia)). lia. }
    assert (256 <= cp / 4096 < 272)
      by (split; [apply Z.div_le_lower_bound; lia|apply Z.div_lt_upper_bound; lia]).
    replace (cp / 4096) with (cp / 4096 - 256 + 4 * 64) by lia.
    rewrite Z.mod_add by lia. rewrite Z.mod_small by lia. lia. }
  destruct (lead_byte_4 hi Hhi) as [Hlead Hbyte].
  apply andb_true_iff. split.
  - cbn [forallb]. rewrite Hbyte, !is_byte_continuation by assumption. reflexivity.
  - set (s1 := {| code_point := hi; bytes_seen := 0; bytes_needed := 3;
                  lower_boundary := if hi =? 0 then 0x90 else 0x80;
                  upper_boundary := if hi =? 4 then 0x8F else 0xBF |}) in *.
    set (s2 := {| code_point := hi * 64 + a; bytes_seen := 1; bytes_needed := 3;
                  lower_boundary := 0x80; upper_boundary := 0xBF |}).
    set (s3 := {| code_point := (hi * 64 + a) * 64 + b; bytes_seen := 2;
                  bytes_needed := 3; lower_boundary := 0x80; upper_boundary := 0xBF |}).
    assert (H1 : decoder_step decoder_start (Z.lor 0xF0 hi) = (s1, []))
      by (unfold decoder_step; exact Hlead).
    assert (H2 : decoder_step s1 (Z.lor 0x80 a) = (s2, [])).
    { rewrite continuation_step; [reflexivity|discriminate|exact Ha|].
      unfold s1. cbn [lower_boundary upper_boundary].
      destruct (hi =? 0) eqn:E0; destruct (hi =? 4) eqn:E4;
        try apply Z.eqb_eq in E0; try apply Z.eqb_eq in E4;
        try specialize (Hlow E0); try specialize (Hhigh E4); lia. }
    assert (H3 : decoder_step s2 (Z.lor 0x80 b) = (s3, [])).
    { rewrite continuation_step; [reflexivity|discriminate|exact Hb|].
      unfold s2. cbn [lower_boundary upper_boundary]. lia. }
    assert (H4 : decoder_step s3 (Z.lor 0x80 c) = (decoder_start, [cp])).
    { rewrite continuation_step; [|discriminate|exact Hc|].
      - unfold s3. cbn [bytes_seen bytes_needed code_point]. rewrite Hsum. reflexivity.
      - unfold s3. cbn [lower_boundary upper_boundary]. lia. }
    cbn [decoder_run]. rewrite H1, H2, H3, H4. cbn [app].
    rewrite Z.eqb_refl. reflexivity.
Qed.

(** The first byte of a three-byte sequence. *)
Lemma lead_byte_3 (hi : Z) :
  0 <= hi <= 15 ->
  lead_byte (Z.lor 0xE0 hi)
  = ({| code_point := hi; bytes_seen := 0; bytes_needed := 2;
        lower_boundary := if hi =? 0 then 0xA0 else 0x80;
        upper_boundary := if hi =? 13 then 0x9F else 0xBF |}, [])
  /\ is_byte (Z.lor 0xE0 hi) = true.
Proof.
  intros Hhi.
  assert (H : hi = 0 \/ hi = 1 \/ hi = 2 \/ hi = 3 \/ hi = 4 \/ hi = 5 \/ hi = 6
              \/ hi = 7 \/ hi = 8 \/ hi = 9 \/ hi = 10 \/ hi = 11 \/ hi = 12
              \/ hi = 13 \/ hi = 14 \/ hi = 15) by lia.
  repeat (destruct H as [-> | H]; [split; reflexivity|]). subst hi. split; reflexivity.
Qed.

(** A scalar value from U+0800 to U+FFFF round-trips through its three
    bytes. *)
Lemma three_byte_roundtrip (cp : Z) :
  0x800 <= cp <= 0xFFFF -> is_scalar cp = true -> scalar_roundtrips cp = true.
Proof.
  intros Hcp Hs. unfold scalar_roundtrips, utf8_encode_scalar.
  replace (cp <=? 0x7F) with false by (symmetry; apply Z.leb_gt; lia).
  replace (cp <=? 0x7FF) with false by (symmetry; apply Z.leb_gt; lia).
  replace (cp <=? 0xFFFF) with true by (symmetry; apply Z.leb_le; lia).
  rewrite !shiftr_div by lia. rewrite !land_3F.
  set (hi := cp / 2 ^ 12). set (a := (cp / 2 ^ 6) mod 64). set (c := cp mod 64).
  assert (Hnot : cp <= 0xD7FF \/ 0xE000 <= cp).
  { unfold is_scalar in Hs. apply orb_true_iff in Hs.
    destruct Hs as [H|H]; apply andb_true_iff in H; destruct H as [H1 H2];
      apply Z.leb_le in H1, H2; lia. }
  assert (Hhi : 0 <= hi <= 15).
  { unfold hi. change (2 ^ 12) with 4096.
    assert (cp / 4096 < 16) by (apply Z.div_lt_upper_bound; lia).
    assert (0 <= cp / 4096) by (apply Z.div_pos; lia). lia. }
  assert (Ha : 0 <= a < 64) by (unfold a; apply Z.mod_pos_bound; lia).
  assert (Hc : 0 <= c < 64) by (unfold c; apply Z.mod_pos_bound; lia).
  assert (Hsum : (hi * 64 + a) * 64 + c = cp).
  { unfold hi, a, c. change (2 ^ 12) with 4096. change (2 ^ 6) with 64.
    pose proof (Z.div_mod cp 64 ltac:(lia)).
    pose proof (Z.div_mod (cp / 64) 64 ltac:(lia)).
    assert (cp / 64 / 64 = cp / 4096) by (rewrite Z.div_div by lia; reflexivity).
    lia. }
  assert (Hlow : hi = 0 -> 32 <= a).
  { intros H0. unfold hi, a in *. change (2 ^ 12) with 4096 in H0.
    change (2 ^ 6) with 64.
    assert (cp < 4096).
    { pose proof (Z.div_mod cp 4096 ltac:(lia)).
      pose proof (Z.mod_pos_bound cp 4096 ltac:(lia)). lia. }
    assert (32 <= cp / 64 < 64)
      by (split; [apply Z.div_le_lower_bound; lia|apply Z.div_lt_upper_bound; lia]).
    rewrite Z.mod_small by lia. lia. }
  assert (Hhigh : hi = 13 -> a <= 31).
  { intros H13. unfold hi, a in *. change (2 ^ 12) with 4096 in H13.
    change (2 ^ 6) with 64.
    assert (53248 <= cp < 57344).
    { pose proof (Z.div_mod cp 4096 ltac:(lia)).
      pose proof (Z.mod_pos_bound cp 4096 ltac:(lia)). lia. }
    assert (832 <= cp / 64 < 864)
      by (split; [apply Z.div_le_lower_bound; lia|apply Z.div_lt_upper_bound; lia]).
    replace (cp / 64) with (cp / 64 - 832 + 13 * 64) by lia.
    rewrite Z.mod_add by lia. rewrite Z.mod_small by lia. lia. }
  destruct (lead_byte_3 hi Hhi) as [Hlead Hbyte].
  apply andb_true_iff. split.
  - cbn [forallb]. rewrite Hbyte, !is_byte_continuation by assumption. reflexivity.
  - set (s1 := {| code_point := hi; bytes_seen := 0; bytes_needed := 2;
                  lower_boundary := if hi =? 0 then 0xA0 else 0x80;
                  upper_boundary := if hi =? 13 then 0x9F else 0xBF |}) in *.
    set (s2 := {| code_point := hi * 64 + a; bytes_seen := 1; bytes_needed := 2;
                  lower_boundary := 0x80; upper_boundary := 0xBF |}).
    assert (H1 : decoder_step decoder_start (Z.lor 0xE0 hi) = (s1, []))
      by (unfold decoder_step; exact Hlead).
    assert (H2 : decoder_step s1 (Z.lor 0x80 a) = (s2, [])).
    { rewrite continuation_step; [reflexivity|discriminate|exact Ha|].
      unfold s1. cbn [lower_boundary upper_boundary].
      destruct (hi =? 0) eqn:E0; destruct (hi =? 13) eqn:E13;
        try apply Z.eqb_eq in E0; try apply Z.eqb_eq in E13;
        try specialize (Hlow E0); try specialize (Hhigh E13); lia. }
    assert (H3 : decoder_step s2 (Z.lor 0x80 c) = (decoder_start, [cp])).
    { rewrite continuation_step; [|discriminate|exact Hc|].
      - unfold s2. cbn [bytes_seen bytes_needed code_point]. rewrite Hsum. reflexivity.
      - unfold s2. cbn [lower_boundary upper_boundary]. lia. }
    cbn [decoder_run]. rewrite H1, H2, H3. cbn [app].
    rewrite Z.eqb_refl. reflexivity.
Qed.

Lemma short_scalars_checked :
  forall_range (fun cp => negb (is_scalar cp) || scalar_roundtrips cp) 0 0x800 = true.
Proof. vm_compute. reflexivity. Qed.

(** Every scalar value round-trips through the encoder and the decoder. *)
Lemma scalar_roundtrip (cp : Z) :
  is_scalar cp = true -> scalar_roundtrips cp = true.
Proof.
  intros Hs.
  assert (Hr : 0 <= cp <= 0x10FFFF).
  { unfold is_scalar in Hs. apply orb_true_iff in Hs.
    destruct Hs as [H|H]; apply andb_true_iff in H; destruct H as [H1 H2];
      apply Z.leb_le in H1, H2; lia. }
  destruct (Z_lt_le_dec cp 0x800) as [Hshort|Hlong].
  - pose proof (forall_range_sound _ 0 0x800 short_scalars_checked cp ltac:(lia)) as H.
    simpl in H. rewrite Hs in H. exact H.
  - destruct (Z_le_gt_dec cp 0xFFFF) as [H3|H4].
    + apply three_byte_roundtrip; [lia|exact Hs].
    + apply four_byte_roundtrip. lia.
Qed.

Lemma decoder_eq_start (d : Decoder) :
  (bytes_needed d =? 0) && (bytes_seen d =? 0) && (code_point d =? 0)
  && (lower_boundary d =? 0x80) && (upper_boundary d =? 0xBF) = true ->
  d = decoder_start.
Proof.
  destruct d as [c s n l u]. simpl. intros H.
  repeat (apply andb_true_iff in H; destruct H as [H ?]).
  repeat match goal with E : (_ =? _) = true |- _ => apply Z.eqb_eq in E end.
  subst. reflexivity.
Qed.

Lemma scalar_decodes (cp : Z) :
  is_scalar cp = true ->
  decoder_run decoder_start (utf8_encode_scalar cp) = (decoder_start, [cp])
  /\ forallb is_byte (utf8_encode_scalar cp) = true.
Proof.
  intros Hs. pose proof (scalar_roundtrip cp Hs) as H. unfold scalar_roundtrips in H.
  apply andb_true_iff in H. destruct H as [Hb H]. split; [|exact Hb].
  destruct (decoder_run decoder_start (utf8_encode_scalar cp)) as [d out].
  destruct out as [|cp' [|x out]]; try discriminate H.
  rewrite <- !andb_assoc in H. apply andb_true_iff in H. destruct H as [Hcp H].
  apply Z.eqb_eq in Hcp. subst cp'. rewrite !andb_assoc in H.
  rewrite (decoder_eq_start d H). reflexivity.
Qed.

Lemma decoder_run_app (d : Decoder) (a b : list Z) :
  decoder_run d (a ++ b)
  = let '(d1, out1) := decoder_run d a in
    let '(d2, out2) := decoder_run d1 b in
    (d2, out1 ++ out2).
Proof.
  revert d. induction a as [|x a IH]; intros d; simpl.
  - destruct (decoder_run d b). reflexivity.
  - destruct (decoder_step d x) as [d1 o1]. rewrite IH.
    destruct (decoder_run d1 a) as [d2 o2]. destruct (decoder_run d2 b) as [d3 o3].
    rewrite app_assoc. reflexivity.
Qed.

Lemma scalars_decode (cps : list Z) :
  forallb is_scalar cps = true ->
  decoder_run decoder_start (flat_map utf8_encode_scalar cps) = (decoder_start, cps)
  /\ forallb is_byte (flat_map utf8_encode_scalar cps) = true.
Proof.
  induction cps as [|cp cps IH]; simpl; [intros _; split; reflexivity|].
  intros H. apply andb_true_iff in H. destruct H as [Hcp Hrest].
  destruct (scalar_decodes cp Hcp) as [Hd Hb]. destruct (IH Hrest) as [IHd IHb].
  split.
  - rewrite decoder_run_app, Hd, IHd. reflexivity.
  - rewrite forallb_app, Hb, IHb. reflexivity.
Qed.

Lemma utf8_decode_encode (cps : list Z) :
  forallb is_scalar cps = true ->
  utf8_decode (flat_map utf8_encode_scalar cps) = cps.
Proof.
  intros H. unfold utf8_decode. destruct (scalars_decode cps H) as [-> _]. reflexivity.
Qed.

Lemma shiftl_10 (x : Z) : Z.shiftl x 10 = x * 1024.
Proof. rewrite Z.shiftl_mul_pow2 by lia. reflexivity. Qed.

Lemma shiftr_10 (x : Z) : Z.shiftr x 10 = x / 1024.
Proof. rewrite Z.shiftr_div_pow2 by lia. reflexivity. Qed.

Lemma land_3FF (x : Z) : Z.land x 0x3FF = x mod 1024.
Proof. change 0x3FF with (Z.ones 10). rewrite Z.land_ones by lia. reflexivity. Qed.

Lemma pair_is_scalar (c d : Z) :
  is_lead c = true -> is_trail d = true ->
  is_scalar (0x10000 + Z.shiftl (c - 0xD800) 10 + (d - 0xDC00)) = true.
Proof.
  unfold is_lead, is_trail, is_scalar. intros Hc Hd.
  apply andb_true_iff in Hc, Hd. destruct Hc as [Hc1 Hc2], Hd as [Hd1 Hd2].
  apply Z.leb_le in Hc1, Hc2, Hd1, Hd2. rewrite shiftl_10.
  apply orb_true_iff. right. apply andb_true_iff. split; apply Z.leb_le; lia.
Qed.

Lemma pair_roundtrip (c d : Z) :
  is_lead c = true -> is_trail d = true ->
  utf16_encode_scalar (0x10000 + Z.shiftl (c - 0xD800) 10 + (d - 0xDC00)) = [c; d].
Proof.
  unfold is_lead, is_trail, utf16_encode_scalar. intros Hc Hd.
  apply andb_true_iff in Hc, Hd. destruct Hc as [Hc1 Hc2], Hd as [Hd1 Hd2].
  apply Z.leb_le in Hc1, Hc2, Hd1, Hd2. rewrite shiftl_10.
  replace (65536 + (c - 55296) * 1024 + (d - 56320) <? 65536) with false
    by (symmetry; apply Z.ltb_ge; lia).
  rewrite shiftr_10, land_3FF.
  replace (65536 + (c - 55296) * 1024 + (d - 56320) - 65536)
    with ((d - 56320) + (c - 55296) * 1024) by lia.
  rewrite Z.div_add by lia. rewrite Z.mod_add by lia.
  rewrite Z.div_small by lia. rewrite Z.mod_small by lia.
  f_equal; [lia|]. f_equal. lia.
Qed.

Lemma unit_is_scalar (c : Z) :
  is_code_unit c = true -> is_lead c = false -> is_trail c = false ->
  is_scalar c = true /\ utf16_encode_scalar c = [c].
Proof.
  unfold is_code_unit, is_lead, is_trail, is_scalar, utf16_encode_scalar.
  intros Hu Hl Ht. apply andb_true_iff in Hu. destruct Hu as [H0 H1].
  apply Z.leb_le in H0, H1.
  apply andb_false_iff in Hl, Ht.
  split.
  - apply orb_true_iff.
    destruct (Z_le_gt_dec c 0xD7FF) as [Hle|Hgt].
    + left. apply andb_true_iff. split; apply Z.leb_le; lia.
    + right. apply andb_true_iff. split; apply Z.leb_le; [|lia].
      destruct Hl as [Hl|Hl], Ht as [Ht|Ht];
        try (apply Z.leb_gt in Hl); try (apply Z.leb_gt in Ht); lia.
  - replace (c <? 65536) with true by (symmetry; apply Z.ltb_lt; lia). reflexivity.
Qed.

(** For a well-formed string of code units, the scalar values are scalar
    values and give the string back. *)
Lemma scalar_values_roundtrip (n : nat) :
  forall p : list Z,
    (length p <= n)%nat ->
    forallb is_code_unit p = true ->
    well_formed p = true ->
    forallb is_scalar (scalar_values p) = true
    /\ flat_map utf16_encode_scalar (scalar_values p) = p.
Proof.
  induction n as [|n IH]; intros p Hlen Hu Hw.
  - destruct p; [split; reflexivity|simpl in Hlen; lia].
  - destruct p as [|c rest]; [split; reflexivity|].
    simpl in Hu. apply andb_true_iff in Hu. destruct Hu as [Hc Hrest].
    simpl in Hw. simpl scalar_values.
    destruct (is_lead c) eqn:El.
    + destruct rest as [|d rest']; [discriminate Hw|].
      apply andb_true_iff in Hw. destruct Hw as [Hd Hw]. rewrite Hd.
      simpl in Hrest. apply andb_true_iff in Hrest. destruct Hrest as [_ Hrest'].
      assert (Hlen' : (length rest' <= n)%nat) by (simpl in Hlen; lia).
      destruct (IH rest' Hlen' Hrest' Hw) as [IH1 IH2].
      split.
      * cbn [forallb]. rewrite (pair_is_scalar c d El Hd), IH1. reflexivity.
      * cbn [flat_map]. rewrite (pair_roundtrip c d El Hd), IH2. reflexivity.
    + apply andb_true_iff in Hw. destruct Hw as [Ht Hw].
      apply negb_true_iff in Ht. rewrite Ht.
      assert (Hlen' : (length rest <= n)%nat) by (simpl in Hlen; lia).
      destruct (IH rest Hlen' Hrest Hw) as [IH1 IH2].
      destruct (unit_is_scalar c Hc El Ht) as [Hs He].
      split.
      * cbn [forallb]. rewrite Hs, IH1. reflexivity.
      * cbn [flat_map]. rewrite He, IH2. reflexivity.
Qed.

Lemma strip_bom_id (cps : list Z) : hd 0 cps <> 0xFEFF -> strip_bom cps = cps.
Proof.
  destruct cps as [|c rest]; [reflexivity|]. simpl. intros H.
  destruct (Z.eq_dec c 0xFEFF) as [->|Hne]; [contradiction|].
  destruct c as [|q|q]; try reflexivity.
  repeat (destruct q as [q|q|]; try reflexivity). contradiction.
Qed.

Lemma scalar_values_head (p : list Z) :
  forallb is_code_unit p = true ->
  hd 0 p <> 0xFEFF -> hd 0 (scalar_values p) <> 0xFEFF.
Proof.
  destruct p as [|c rest]; [simpl; intros; assumption|].
  simpl. intros Hu Hne. apply andb_true_iff in Hu. destruct Hu as [Hc _].
  destruct (is_lead c) eqn:El.
  - destruct rest as [|d rest']; [simpl; lia|].
    destruct (is_trail d) eqn:Et; simpl; [|lia].
    unfold is_lead, is_trail in El, Et.
    apply andb_true_iff in El, Et. destruct El as [E1 E2], Et as [E3 E4].
    apply Z.leb_le in E1, E2, E3, E4. rewrite shiftl_10. lia.
  - destruct (is_trail c); simpl; [lia|exact Hne].
Qed.

(** [TextDecoder] gives back what [TextEncoder] was given, for a well-formed
    string that does not start with U+FEFF. *)
Theorem text_roundtrip (p : list Z) :
  forallb is_code_unit p = true ->
  well_formed p = true ->
  hd 0 p <> 0xFEFF ->
  TextDecoder_decode (TextEncoder_encode p) = p.
Proof.
  intros Hu Hw Hb. unfold TextDecoder_decode, TextEncoder_encode.
  destruct (scalar_values_roundtrip (length p) p (le_n _) Hu Hw) as [Hs Hr].
  destruct (scalars_decode _ Hs) as [_ Hbytes].
  rewrite bytes_roundtrip by exact Hbytes.
  rewrite (utf8_decode_encode _ Hs).
  rewrite (strip_bom_id _ (scalar_values_head p Hu Hb)). exact Hr.
Qed.

Example encode_euro_sign : TextEncoder_encode [0x20AC] = [xe2; x82; xac].
Proof. vm_compute. reflexivity. Qed.

Example encode_surrogate_pair :
  TextEncoder_encode [0xD83D; 0xDE00] = [xf0; x9f; x98; x80].
Proof. vm_compute. reflexivity. Qed.

Example encode_lone_surrogate : TextEncoder_encode [0xD83D] = [xef; xbf; xbd].
Proof. vm_compute. reflexivity. Qed.

(** Ill-formed input decodes to U+FFFD, once per maximal ill-formed part. *)
Example decode_encoded_surrogate :
  TextDecoder_decode [xed; xa0; x80] = [0xFFFD; 0xFFFD; 0xFFFD].
Proof. vm_compute. reflexivity. Qed.

Example decode_truncated : TextDecoder_decode [xf0; x9f; x98] = [0xFFFD].
Proof. vm_compute. reflexivity. Qed.

Example decode_interrupted :
  TextDecoder_decode [xe2; x28; xa1] = [0xFFFD; 0x28; 0xFFFD].
Proof. vm_compute. reflexivity. Qed.

Example decode_byte_order_mark :
  TextDecoder_decode [xef; xbb; xbf; x61] = [0x61].
Proof. vm_compute. reflexivity. Qed.

End EncodingProofs.

(** ** AES and AES-GCM test vectors *)

Module CipherProofs.

Import Hex.

Example sbox_values :
  AES.sbox 0x00 = 0x63 /\ AES.sbox 0x01 = 0x7c /\ AES.sbox 0x53 = 0xed
  /\ AES.sbox 0xff = 0x16.
Proof. vm_compute. repeat split. Qed.

(** FIPS 197, appendix C. *)
Example aes128_vector :
  AES.cipher_bytes (unhex "000102030405060708090a0b0c0d0e0f")
    (unhex "00112233445566778899aabbccddeeff")
  = unhex "69c4e0d86a7b0430d8cdb78070b4c55a".
Proof. vm_compute. reflexivity. Qed.

Example aes192_vector :
  AES.cipher_bytes (unhex "000102030405060708090a0b0c0d0e0f1011121314151617")
    (unhex "00112233445566778899aabbccddeeff")
  = unhex "dda97ca4864cdfe06eaf70a0ec0d7191".
Proof. vm_compute. reflexivity. Qed.

Example aes256_vector :
  AES.cipher_bytes
    (unhex "000102030405060708090a0b0c0d0e0f101112131415161718191a1b1c1d1e1f")
    (unhex "00112233445566778899aabbccddeeff")
  = unhex "8ea2b7ca516745bfeafc49904b496089".
Proof. vm_compute. reflexivity. Qed.

(** The GCM specification's test cases 13, 14 and 15. *)
Example gcm_case13 :
  GCM.seal (repeat 0 32) (repeat 0 12) [] = unhex "530f8afbc74536b9a963b4f1c4cb738b".
Proof. vm_compute. reflexivity. Qed.

Example gcm_case14 :
  GCM.seal (repeat 0 32) (repeat 0 12) (repeat 0 16)
  = unhex "cea7403d4d606b6e074ec5d3baf39d18d0d1c8a799996bf0265b98b5d48ab919".
Proof. vm_compute. reflexivity. Qed.

Example gcm_case15 :
  GCM.seal
    (unhex "feffe9928665731c6d6a8f9467308308feffe9928665731c6d6a8f9467308308")
    (unhex "cafebabefacedbaddecaf888")
    (unhex "d9313225f88406e5a55909c5aff5269a86a7a9531534f7da2e4c303d8a318a721c3c0c95956809532fcf0e2449a6b525b16aedf5aa0de657ba637b391aafd255")
  = unhex "522dc1f099567d07f47f37a32a84427d643a8cdcbfe5c0c97598a2bd2555d1aa8cb08e48590dbb3da7b08b1056828838c5f61e6393ba7a0abcc9f662898015adb094dac5d93471bdec1a502270e3cc6c".
Proof. vm_compute. reflexivity. Qed.

(** Vectors computed with OpenSSL, with initialization vectors of other
    lengths and partial blocks. *)

Example gcm_reference_0 :
  GCM.seal (unhex "000102030405060708090a0b0c0d0e0f101112131415161718191a1b1c1d1e1f") (unhex "6465666768696a6b6c6d6e6f") (unhex "68656c6c6f20667574757265")
  = unhex "207eb20a16c930eb4a172d8d3ba01fbc4995f153b806eda95f2ddded"
  /\ GCM.open (unhex "000102030405060708090a0b0c0d0e0f101112131415161718191a1b1c1d1e1f") (unhex "6465666768696a6b6c6d6e6f") (unhex "207eb20a16c930eb4a172d8d3ba01fbc4995f153b806eda95f2ddded")
    = Some (unhex "68656c6c6f20667574757265").
Proof. vm_compute. split; reflexivity. Qed.

Example gcm_reference_1 :
  GCM.seal (unhex "000102030405060708090a0b0c0d0e0f101112131415161718191a1b1c1d1e1f") (unhex "6465666768696a6b6c6d6e6f") (unhex "efbfbd")
  = unhex "a7a463cdf51291c8baac12adae2ee0a3498807"
  /\ GCM.open (unhex "000102030405060708090a0b0c0d0e0f101112131415161718191a1b1c1d1e1f") (unhex "6465666768696a6b6c6d6e6f") (unhex "a7a463cdf51291c8baac12adae2ee0a3498807")
    = Some (unhex "efbfbd").
Proof. vm_compute. split; reflexivity. Qed.

Example gcm_reference_2 :
  GCM.seal (unhex "000102030405060708090a0b0c0d0e0f101112131415161718191a1b1c1d1e1f") (unhex "0001020304050607") (unhex "616263")
  = unhex "283490b9d3050c64ae7a1ff072380524f8e96b"
  /\ GCM.open (unhex "000102030405060708090a0b0c0d0e0f101112131415161718191a1b1c1d1e1f") (unhex "0001020304050607") (unhex "283490b9d3050c64ae7a1ff072380524f8e96b")
    = Some (unhex "616263").
Proof. vm_compute. split; reflexivity. Qed.

Example gcm_reference_3 :
  GCM.seal (unhex "000102030405060708090a0b0c0d0e0f101112131415161718191a1b1c1d1e1f") (unhex "000102030405060708090a0b0c0d0e0f10111213") (unhex "000102030405060708090a0b0c0d0e0f101112131415161718191a1b1c1d1e1f2021222324252627")
  = unhex "1c4800ab968b76922c43b34c1ed11cefb16fbf29be39c793207dfd6cc25b258beaf636c13c6bf8cb1114a837443d4b763912c3973adf9fab"
  /\ GCM.open (unhex "000102030405060708090a0b0c0d0e0f101112131415161718191a1b1c1d1e1f") (unhex "000102030405060708090a0b0c0d0e0f10111213") (unhex "1c4800ab968b76922c43b34c1ed11cefb16fbf29be39c793207dfd6cc25b258beaf636c13c6bf8cb1114a837443d4b763912c3973adf9fab")
    = Some (unhex "000102030405060708090a0b0c0d0e0f101112131415161718191a1b1c1d1e1f2021222324252627").
Proof. vm_compute. split; reflexivity. Qed.

Example gcm_reference_4 :
  GCM.seal (unhex "000102030405060708090a0b0c0d0e0f") (unhex "00") (unhex "000102030405060708090a0b0c0d0e0f10")
  = unhex "3a63fcbd84e40aad74265203947004a257aff2d7debb33dc086b40fa451033b9cb"
  /\ GCM.open (unhex "000102030405060708090a0b0c0d0e0f") (unhex "00") (unhex "3a63fcbd84e40aad74265203947004a257aff2d7debb33dc086b40fa451033b9cb")
    = Some (unhex "000102030405060708090a0b0c0d0e0f10").
Proof. vm_compute. split; reflexivity. Qed.

Example gcm_reference_5 :
  GCM.seal (unhex "000102030405060708090a0b0c0d0e0f1011121314151617") (unhex "000102030405060708090a0b0c0d0e0f") (unhex "")
  = unhex "00feee37b36055179e342b98c69e673c"
  /\ GCM.open (unhex "000102030405060708090a0b0c0d0e0f1011121314151617") (unhex "000102030405060708090a0b0c0d0e0f") (unhex "00feee37b36055179e342b98c69e673c")
    = Some (unhex "").
Proof. vm_compute. split; reflexivity. Qed.

Example gcm_reference_6 :
  GCM.seal (unhex "000102030405060708090a0b0c0d0e0f101112131415161718191a1b1c1d1e1f") (unhex "000102030405060708090a0b0c0d0e0f101112131415161718191a1b1c1d1e1f202122232425262728292a2b2c2d2e2f303132333435363738393a3b") (unhex "000102030405060708090a0b0c0d0e0f101112131415161718191a1b1c1d1e1f20")
  = unhex "4ec08c97bd76c0fee9082cd33e43eac4aa8eabb12477eb0b400b74bfca86579d69189de6a6bd31ecd383933a001159d31a"
  /\ GCM.open (unhex "000102030405060708090a0b0c0d0e0f101112131415161718191a1b1c1d1e1f") (unhex "000102030405060708090a0b0c0d0e0f101112131415161718191a1b1c1d1e1f202122232425262728292a2b2c2d2e2f303132333435363738393a3b") (unhex "4ec08c97bd76c0fee9082cd33e43eac4aa8eabb12477eb0b400b74bfca86579d69189de6a6bd31ecd383933a001159d31a")
    = Some (unhex "000102030405060708090a0b0c0d0e0f101112131415161718191a1b1c1d1e1f20").
Proof. vm_compute. split; reflexivity. Qed.

End CipherProofs.

(** ** Sealing *)

Module CryptoProofs.
Import JS Kit Crypto.

Example sample_sealed_value :
  sample_sealed
  = Ok {| encryptedContent :=
            map Z_to_byte
              (Hex.unhex "207eb20a16c930eb4a172d8d3ba01fbc4995f153b806eda95f2ddded");
          iv := sample_iv_bytes; key := sample_key_bytes |}.
Proof. vm_compute. reflexivity. Qed.

Import Encoding EncodingProofs.

(** *** Counter mode is its own inverse *)

Lemma xor_bytes_length (a b : list Z) :
  length (AES.xor_bytes a b) = Nat.min (length a) (length b).
Proof. unfold AES.xor_bytes. rewrite length_map, length_combine. reflexivity. Qed.

Lemma xor_bytes_twice (p : list Z) :
  forall ks : list Z,
    (length p <= length ks)%nat -> AES.xor_bytes (AES.xor_bytes p ks) ks = p.
Proof.
  unfold AES.xor_bytes. induction p as [|a p IH]; intros ks Hlen; [reflexivity|].
  destruct ks as [|k ks]; [simpl in Hlen; lia|]. simpl.
  rewrite Z.lxor_assoc, Z.lxor_nilpotent, Z.lxor_0_r.
  simpl in Hlen. rewrite IH by lia. reflexivity.
Qed.

Lemma bytes_of_block_length (x : Z) : length (GCM.bytes_of_block x) = 16%nat.
Proof. unfold GCM.bytes_of_block. rewrite length_map, length_seq. reflexivity. Qed.

Lemma keystream_length (key : list Z) (n : nat) :
  forall cb : Z, length (GCM.keystream key cb n) = (16 * n)%nat.
Proof.
  induction n as [|n IH]; intros cb; [reflexivity|].
  cbn [GCM.keystream]. rewrite length_app, bytes_of_block_length, IH. lia.
Qed.

Lemma keystream_covers (n : nat) : (n <= 16 * ((n + 15) / 16))%nat.
Proof.
  pose proof (Nat.div_mod_eq (n + 15) 16) as H.
  pose proof (Nat.mod_upper_bound (n + 15) 16) as H'. lia.
Qed.

Lemma gctr_length (key : list Z) (icb : Z) (x : list Z) :
  length (GCM.gctr key icb x) = length x.
Proof.
  unfold GCM.gctr. rewrite xor_bytes_length, keystream_length.
  pose proof (keystream_covers (length x)). lia.
Qed.

Lemma gctr_twice (key : list Z) (icb : Z) (x : list Z) :
  GCM.gctr key icb (GCM.gctr key icb x) = x.
Proof.
  unfold GCM.gctr at 1. rewrite gctr_length. unfold GCM.gctr.
  apply xor_bytes_twice. rewrite keystream_length. apply keystream_covers.
Qed.

Lemma tag_length (key iv c : list Z) : length (GCM.tag key iv c) = 16%nat.
Proof. unfold GCM.tag. apply bytes_of_block_length. Qed.

Lemma bytes_eqb_refl (a : list Z) : GCM.bytes_eqb a a = true.
Proof.
  unfold GCM.bytes_eqb. rewrite Nat.eqb_refl. simpl.
  induction a as [|x a IH]; simpl; [reflexivity|]. rewrite Z.eqb_refl. exact IH.
Qed.

Lemma bytes_eqb_eq (a : list Z) :
  forall b : list Z, GCM.bytes_eqb a b = true -> a = b.
Proof.
  unfold GCM.bytes_eqb. induction a as [|x a IH]; intros [|y b]; simpl;
    try reflexivity; try discriminate.
  intros H. apply andb_true_iff in H. destruct H as [Hl H].
  apply andb_true_iff in H. destruct H as [Hxy H].
  apply Z.eqb_eq in Hxy. subst y. f_equal. apply IH. rewrite Hl. exact H.
Qed.

(** Opening what was sealed under the same key and initialization vector
    gives the plaintext back. *)
Lemma open_seal (key iv p : list Z) : GCM.open key iv (GCM.seal key iv p) = Some p.
Proof.
  unfold GCM.open, GCM.seal.
  set (c := GCM.gctr key (GCM.inc32 (GCM.j0 (GCM.E key 0) iv)) p).
  rewrite length_app, tag_length.
  replace (length c + 16 <? 16)%nat with false by (symmetry; apply Nat.ltb_ge; lia).
  replace (length c + 16 - 16)%nat with (length c) by lia.
  rewrite take_app_length, drop_app_length, bytes_eqb_refl.
  unfold c. rewrite gctr_twice. reflexivity.
Qed.

(** What [open] accepts carries the tag computed from its ciphertext. *)
Lemma open_Some (key iv data plaintext : list Z) :
  GCM.open key iv data = Some plaintext ->
  (16 <= length data)%nat
  /\ GCM.tag key iv (firstn (length data - 16) data) = skipn (length data - 16) data.
Proof.
  unfold GCM.open. destruct (length data <? 16)%nat eqn:El; [discriminate|].
  apply Nat.ltb_ge in El.
  destruct (GCM.bytes_eqb _ _) eqn:Et; [|discriminate].
  intros _. split; [exact El|]. apply bytes_eqb_eq. exact Et.
Qed.

(** *** Sealed bytes are bytes *)

Lemma is_byte_land (x : Z) : is_byte (Z.land x 255) = true.
Proof.
  unfold is_byte. change 255 with (Z.ones 8) at 1 2. rewrite Z.land_ones by lia.
  pose proof (Z.mod_pos_bound x (2 ^ 8) ltac:(lia)) as H.
  apply andb_true_iff. split; apply Z.leb_le; lia.
Qed.

Lemma is_byte_land_id (x : Z) : is_byte x = true -> Z.land x 255 = x.
Proof.
  unfold is_byte. intros H. apply andb_true_iff in H. destruct H as [H0 H1].
  apply Z.leb_le in H0, H1. change 255 with (Z.ones 8). rewrite Z.land_ones by lia.
  apply Z.mod_small. lia.
Qed.

Lemma is_byte_lxor (a b : Z) :
  is_byte a = true -> is_byte b = true -> is_byte (Z.lxor a b) = true.
Proof.
  intros Ha Hb. rewrite <- (is_byte_land_id a Ha), <- (is_byte_land_id b Hb).
  replace (Z.lxor (Z.land a 255) (Z.land b 255)) with (Z.land (Z.lxor a b) 255);
    [apply is_byte_land|].
  apply Z.bits_inj'. intros n _.
  rewrite !Z.land_spec, !Z.lxor_spec, !Z.land_spec.
  destruct (Z.testbit a n), (Z.testbit b n), (Z.testbit 255 n); reflexivity.
Qed.

Lemma is_byte_xor_bytes (a : list Z) :
  forall b : list Z,
    forallb is_byte a = true -> forallb is_byte b = true ->
    forallb is_byte (AES.xor_bytes a b) = true.
Proof.
  unfold AES.xor_bytes. induction a as [|x a IH]; intros [|y b] Ha Hb; try reflexivity.
  simpl in *. apply andb_true_iff in Ha, Hb. destruct Ha as [Hx Ha], Hb as [Hy Hb].
  rewrite (is_byte_lxor x y Hx Hy). simpl. apply IH; assumption.
Qed.

Lemma is_byte_bytes_of_block (x : Z) : forallb is_byte (GCM.bytes_of_block x) = true.
Proof.
  unfold GCM.bytes_of_block. apply forallb_forall. intros b Hb.
  apply in_map_iff in Hb. destruct Hb as (i & <- & _). apply is_byte_land.
Qed.

Lemma is_byte_keystream (key : list Z) (n : nat) :
  forall cb : Z, forallb is_byte (GCM.keystream key cb n) = true.
Proof.
  induction n as [|n IH]; intros cb; [reflexivity|].
  cbn [GCM.keystream]. rewrite forallb_app, is_byte_bytes_of_block, IH. reflexivity.
Qed.

Lemma is_byte_seal (key iv p : list Z) :
  forallb is_byte p = true -> forallb is_byte (GCM.seal key iv p) = true.
Proof.
  intros Hp. unfold GCM.seal. rewrite forallb_app. apply andb_true_iff. split.
  - unfold GCM.gctr. apply is_byte_xor_bytes; [exact Hp|apply is_byte_keystream].
  - unfold GCM.tag. apply is_byte_bytes_of_block.
Qed.

Lemma is_byte_of_bytes (bs : list byte) : forallb is_byte (map byte_to_Z bs) = true.
Proof.
  apply forallb_forall. intros z Hz. apply in_map_iff in Hz. destruct Hz as (b & <- & _).
  pose proof (byte_to_Z_range b) as H. unfold is_byte.
  apply andb_true_iff. split; apply Z.leb_le; lia.
Qed.

(** *** [encrypt] and [decrypt] *)

Section Engine.

Context {engine_message : CryptoFailure -> list Z}.

Local Abbreviation encrypt := (Crypto.encrypt engine_message).
Local Abbreviation decrypt := (Crypto.decrypt engine_message).

Lemma encrypt_Ok (fresh_key n : list byte) (p : list Z) (key0 : option CryptoKey) :
  let k := match key0 with Some k => k | None => generateKey fresh_key end in
  Z.of_nat (length (TextEncoder_encode p)) <= MAX_PLAINTEXT ->
  may_encrypt k = true -> extractable k = true -> n <> [] ->
  encrypt fresh_key n p key0
  = Ok {| encryptedContent :=
            map Z_to_byte
              (GCM.seal (map byte_to_Z (raw k)) (map byte_to_Z n)
                 (map byte_to_Z (TextEncoder_encode p)));
          iv := n; key := raw k |}.
Proof.
  intros k Hcap He Hx Hn. unfold Crypto.encrypt, subtle_encrypt, exportKey. fold k.
  rewrite He, Hx. simpl.
  replace (Z.of_nat (length (TextEncoder_encode p)) >? MAX_PLAINTEXT) with false
    by (symmetry; rewrite Z.gtb_ltb; apply Z.ltb_ge; lia).
  destruct n as [|b n]; [contradiction|]. reflexivity.
Qed.

Lemma decrypt_sealed (k n plaintext : list byte) :
  valid_key_length (length k) = true -> n <> [] ->
  decrypt (map Z_to_byte
             (GCM.seal (map byte_to_Z k) (map byte_to_Z n) (map byte_to_Z plaintext)))
    k n
  = Ok (TextDecoder_decode plaintext).
Proof.
  intros Hk Hn. unfold Crypto.decrypt, importKey, subtle_decrypt. rewrite Hk. simpl.
  destruct n as [|b n]; [contradiction|]. cbn [length Nat.eqb].
  rewrite bytes_roundtrip by (apply is_byte_seal; apply is_byte_of_bytes).
  rewrite open_seal, bytes_roundtrip'. reflexivity.
Qed.

Lemma decrypt_Ok (c k n : list byte) (s : list Z) :
  decrypt c k n = Ok s ->
  valid_key_length (length k) = true /\ n <> []
  /\ exists plaintext,
       GCM.open (map byte_to_Z k) (map byte_to_Z n) (map byte_to_Z c) = Some plaintext
       /\ s = TextDecoder_decode (map Z_to_byte plaintext).
Proof.
  unfold Crypto.decrypt, importKey, subtle_decrypt.
  destruct (valid_key_length (length k)); [|discriminate]. simpl.
  destruct n as [|b n]; [discriminate|]. cbn [length Nat.eqb].
  destruct (GCM.open _ _ _) as [plaintext|]; [|discriminate].
  intros H. injection H as <-. split; [reflexivity|]. split; [discriminate|].
  exists plaintext. split; reflexivity.
Qed.

Lemma decrypt_Throw (c k n : list byte) :
  valid_key_length (length k) = false \/ n = []
  \/ GCM.open (map byte_to_Z k) (map byte_to_Z n) (map byte_to_Z c) = None ->
  exists e, decrypt c k n = Throw e.
Proof.
  unfold Crypto.decrypt, importKey, subtle_decrypt. intros H.
  destruct (valid_key_length (length k)); [|eexists; reflexivity]. simpl.
  destruct n as [|b n]; [eexists; reflexivity|]. cbn [length Nat.eqb].
  destruct H as [H|[H|H]]; try discriminate H.
  rewrite H. eexists. reflexivity.
Qed.

(** C6, as the code has it. For a plaintext that is well-formed UTF-16 (no
    surrogate on its own), does not start with U+FEFF and whose UTF-8 form is
    within the size cap of AES-GCM, an AES key usable for encryption and
    export (the one passed in, or the fresh one when none is), and a non-empty
    nonce, [decrypt] of what [encrypt] produced, under the key and nonce
    [encrypt] returned, is the plaintext. [decrypt] returns
    a string only for a key of 16, 24 or 32 bytes, a non-empty nonce and an
    input whose last sixteen bytes are the AES-GCM tag of the rest under that
    key and nonce; otherwise it throws. A key and nonce other than the ones
    used for sealing are refused unless that tag check passes under them. *)
Theorem C6_seal_roundtrip :
  (forall (fresh_key n : list byte) (p : list Z) (key0 : option CryptoKey),
      let k := match key0 with Some k => k | None => generateKey fresh_key end in
      forallb is_code_unit p = true ->
      well_formed p = true ->
      hd 0 p <> 0xFEFF ->
      Z.of_nat (length (TextEncoder_encode p)) <= MAX_PLAINTEXT ->
      valid_key_length (length (raw k)) = true ->
      may_encrypt k = true ->
      extractable k = true ->
      n <> [] ->
      exists e,
        encrypt fresh_key n p key0 = Ok e
        /\ iv e = n /\ key e = raw k
        /\ decrypt (encryptedContent e) (key e) (iv e) = Ok p)
  /\ (forall (c k n : list byte) (s : list Z),
        decrypt c k n = Ok s ->
        valid_key_length (length k) = true /\ n <> []
        /\ (16 <= length c)%nat
        /\ GCM.tag (map byte_to_Z k) (map byte_to_Z n)
             (firstn (length c - 16) (map byte_to_Z c))
           = skipn (length c - 16) (map byte_to_Z c))
  /\ (forall c k n : list byte,
        valid_key_length (length k) = false \/ n = []
        \/ GCM.open (map byte_to_Z k) (map byte_to_Z n) (map byte_to_Z c) = None ->
        exists e, decrypt c k n = Throw e).
Proof.
  split; [|split].
  - intros fresh_key n p key0 k Hu Hw Hb Hcap Hk He Hx Hn.
    eexists. split; [apply encrypt_Ok; assumption|]. fold k. simpl.
    split; [reflexivity|]. split; [reflexivity|].
    rewrite (decrypt_sealed (raw k) n (TextEncoder_encode p) Hk Hn).
    rewrite (text_roundtrip p Hu Hw Hb). reflexivity.
  - intros c k n s H.
    destruct (decrypt_Ok c k n s H) as (Hk & Hn & plaintext & Ho & _).
    split; [exact Hk|]. split; [exact Hn|].
    destruct (open_Some _ _ _ _ Ho) as [Hl Ht]. rewrite length_map in Hl, Ht.
    split; assumption.
  - exact decrypt_Throw.
Qed.

End Engine.

Lemma C6_witness :
  (exists e,
      encrypt named_engine sample_key_bytes sample_iv_bytes sample_plaintext None = Ok e
      /\ iv e = sample_iv_bytes /\ key e = sample_key_bytes
      /\ decrypt named_engine (encryptedContent e) (key e) (iv e) = Ok sample_plaintext)
  /\ (exists e, decrypt named_engine [] sample_key_bytes sample_iv_bytes = Throw e).
Proof.
  destruct (@C6_seal_roundtrip named_engine) as (Hround & _ & Hthrow).
  split.
  - apply (Hround sample_key_bytes sample_iv_bytes sample_plaintext None);
      try (vm_compute; reflexivity); vm_compute; discriminate.
  - apply Hthrow. right. right. vm_compute. reflexivity.
Defined.

(** A string that is one unpaired surrogate comes back as U+FFFD, and a
    leading U+FEFF is lost. And a second nonce opens what was sealed under the
    first: the sixteen bytes of [twin_iv_bytes] give, under the sample key,
    the pre-counter block of the twelve-byte sample nonce, so [decrypt] with
    that different nonce verifies the tag and returns the plaintext instead of
    failing. Under another key too a nonce can be found for which the tag
    verifies: with [other_key_bytes] and [forged_iv_bytes], [decrypt] returns
    a string that is not the plaintext. *)
Lemma C6_counterexample :
  (exists e,
      encrypt named_engine sample_key_bytes sample_iv_bytes lone_surrogate None = Ok e
      /\ decrypt named_engine (encryptedContent e) (key e) (iv e) = Ok [0xFFFD])
  /\ (exists e,
        encrypt named_engine sample_key_bytes sample_iv_bytes with_bom None = Ok e
        /\ decrypt named_engine (encryptedContent e) (key e) (iv e) = Ok (js "hello"))
  /\ (exists e,
        encrypt named_engine sample_key_bytes sample_iv_bytes sample_plaintext None = Ok e
        /\ key e = sample_key_bytes /\ iv e = sample_iv_bytes
        /\ twin_iv_bytes <> sample_iv_bytes
        /\ decrypt named_engine (encryptedContent e) sample_key_bytes twin_iv_bytes
           = Ok sample_plaintext)
  /\ (exists e,
        encrypt named_engine sample_key_bytes sample_iv_bytes sample_plaintext None = Ok e
        /\ key e = sample_key_bytes /\ iv e = sample_iv_bytes
        /\ other_key_bytes <> sample_key_bytes
        /\ decrypt named_engine (encryptedContent e) other_key_bytes forged_iv_bytes
           = Ok [131; 0xFFFD; 0xFFFD; 99; 0xFFFD; 16143; 0xFFFD; 97; 66]).
Proof.
  split; [|split; [|split]].
  - eexists. split; [vm_compute; reflexivity|]. vm_compute. reflexivity.
  - eexists. split; [vm_compute; reflexivity|]. vm_compute. reflexivity.
  - eexists. split; [vm_compute; reflexivity|].
    split; [reflexivity|]. split; [reflexivity|].
    split; [vm_compute; discriminate|]. vm_compute. reflexivity.
  - eexists. split; [vm_compute; reflexivity|].
    split; [reflexivity|]. split; [reflexivity|].
    split; [vm_compute; discriminate|]. vm_compute. reflexivity.
Qed.

(** Under another key, another nonce, or with one bit of the ciphertext
    flipped, the sample ciphertext is refused. *)
Example decrypt_wrong_key :
  decrypt named_engine (map Z_to_byte
             (Hex.unhex "207eb20a16c930eb4a172d8d3ba01fbc4995f153b806eda95f2ddded"))
    (map Z_to_byte (map Z.of_nat (seq 1 32))) sample_iv_bytes
  = Throw (named_engine AuthenticationFailed).
Proof. vm_compute. reflexivity. Qed.

Example decrypt_wrong_nonce :
  decrypt named_engine (map Z_to_byte
             (Hex.unhex "207eb20a16c930eb4a172d8d3ba01fbc4995f153b806eda95f2ddded"))
    sample_key_bytes (map Z_to_byte (map Z.of_nat (seq 101 12)))
  = Throw (named_engine AuthenticationFailed).
Proof. vm_compute. reflexivity. Qed.

Example decrypt_flipped_bit :
  decrypt named_engine (map Z_to_byte
             (Hex.unhex "217eb20a16c930eb4a172d8d3ba01fbc4995f153b806eda95f2ddded"))
    sample_key_bytes sample_iv_bytes
  = Throw (named_engine AuthenticationFailed).
Proof. vm_compute. reflexivity. Qed.

Example decrypt_short_key :
  decrypt named_engine (map Z_to_byte
             (Hex.unhex "207eb20a16c930eb4a172d8d3ba01fbc4995f153b806eda95f2ddded"))
    [x00; x01; x02] sample_iv_bytes
  = Throw (named_engine InvalidKeyLength).
Proof. vm_compute. reflexivity. Qed.

End CryptoProofs.

(** ** The reveal pipeline *)

Module RevealProofs.
Import JS Kit Reveal.

Example sample_reveal_succeeds :
  success (result (sample_reveal sample_storage (js "capsule_abc") good_kit)) = true
  /\ console (sample_reveal sample_storage (js "capsule_abc") good_kit)
     = [LogStarting; LogFoundCid; LogFetching; LogDownloaded; LogDecrypting; LogRevealed]
  /\ option_map originalData
       (data (result (sample_reveal sample_storage (js "capsule_abc") good_kit)))
     = Some sample_bundle.
Proof. vm_compute. repeat split. Qed.


Lemma jsstring_eqb_true (a b : list Z) : jsstring_eqb a b = true <-> a = b.
Proof.
  unfold jsstring_eqb. destruct (decide (a = b)) as [E|E]; split; intros H;
    try assumption; try reflexivity; try discriminate H; contradiction.
Qed.

Lemma jsstring_eqb_false (a b : list Z) : jsstring_eqb a b = false <-> a <> b.
Proof.
  unfold jsstring_eqb. destruct (decide (a = b)) as [E|E]; split; intros H;
    try assumption; try reflexivity; try discriminate H; contradiction.
Qed.

Lemma jsstring_eqb_refl (a : list Z) : jsstring_eqb a a = true.
Proof. apply jsstring_eqb_true. reflexivity. Qed.

(** *** The index under [storeRevealedCapsule] *)

Lemma count_id_app (i : list Z) (l1 l2 : list RevealedCapsule) :
  count_id i (l1 ++ l2) = (count_id i l1 + count_id i l2)%nat.
Proof. unfold count_id. rewrite List.filter_app, length_app. reflexivity. Qed.

Lemma count_id_filtered_same (i : list Z) (l : list RevealedCapsule) :
  count_id i (List.filter (fun c => negb (jsstring_eqb (id c) i)) l) = 0%nat.
Proof.
  unfold count_id. induction l as [|c l IH]; simpl; [reflexivity|].
  destruct (jsstring_eqb (id c) i) eqn:E; simpl; [exact IH|].
  rewrite E. exact IH.
Qed.

Lemma count_id_filtered_other (i j : list Z) (l : list RevealedCapsule) :
  i <> j ->
  count_id i (List.filter (fun c => negb (jsstring_eqb (id c) j)) l) = count_id i l.
Proof.
  intros Hne. unfold count_id. induction l as [|c l IH]; simpl; [reflexivity|].
  destruct (jsstring_eqb (id c) j) eqn:Ej; simpl.
  - apply jsstring_eqb_true in Ej.
    assert (Ei : jsstring_eqb (id c) i = false)
      by (apply jsstring_eqb_false; congruence).
    rewrite Ei. exact IH.
  - destruct (jsstring_eqb (id c) i); simpl; rewrite IH; reflexivity.
Qed.

(** After [storeRevealedCapsule] the index holds exactly one record under the
    stored id, whatever it held before. *)
Lemma store_count_same (ls : LocalStorage) (c : RevealedCapsule) :
  count_id (id c) (revealed_capsules (storeRevealedCapsule ls c)) = 1%nat.
Proof.
  unfold storeRevealedCapsule, getRevealedCapsules. simpl.
  rewrite count_id_app, count_id_filtered_same. unfold count_id. simpl.
  rewrite jsstring_eqb_refl. reflexivity.
Qed.

Lemma store_count_other (ls : LocalStorage) (c : RevealedCapsule) (i : list Z) :
  i <> id c ->
  count_id i (revealed_capsules (storeRevealedCapsule ls c))
  = count_id i (revealed_capsules ls).
Proof.
  intros Hne. unfold storeRevealedCapsule, getRevealedCapsules. simpl.
  rewrite count_id_app, (count_id_filtered_other i (id c) _ Hne).
  unfold count_id at 2. simpl.
  assert (E : jsstring_eqb (id c) i = false) by (apply jsstring_eqb_false; congruence).
  rewrite E. simpl. lia.
Qed.

Lemma find_filter_other (i j : list Z) (l : list RevealedCapsule) (extra : list RevealedCapsule)
    (r : RevealedCapsule) :
  i <> j ->
  List.find (fun c => jsstring_eqb (id c) i) l = Some r ->
  List.find (fun c => jsstring_eqb (id c) i)
    (List.filter (fun c => negb (jsstring_eqb (id c) j)) l ++ extra) = Some r.
Proof.
  intros Hne. induction l as [|c l IH]; simpl; [discriminate|].
  destruct (jsstring_eqb (id c) i) eqn:Ei.
  - intros H. injection H as <-.
    assert (Ej : jsstring_eqb (id c) j = false).
    { apply jsstring_eqb_true in Ei. apply jsstring_eqb_false. congruence. }
    rewrite Ej. simpl. rewrite Ei. reflexivity.
  - intros H. destruct (jsstring_eqb (id c) j); simpl; [exact (IH H)|].
    rewrite Ei. exact (IH H).
Qed.

Lemma store_keeps_others (ls : LocalStorage) (c r : RevealedCapsule) (i : list Z) :
  i <> id c ->
  getRevealedCapsule ls i = Some r ->
  getRevealedCapsule (storeRevealedCapsule ls c) i = Some r.
Proof.
  intros Hne H. unfold getRevealedCapsule, getRevealedCapsules, storeRevealedCapsule in *.
  simpl. apply find_filter_other; assumption.
Qed.

Section Client.

Variable engine_message : Crypto.CryptoFailure -> list Z.
Variable encodeURIComponent : list Z -> list Z.
Variable JSON_stringify : JsValue -> list Z.
Variable JSON_parse : list Z -> Result JsValue.
Variable toLowerCase : list Z -> list Z.
Variable pinataJWT : list Z.

Local Abbreviation reveal := (revealCapsule engine_message encodeURIComponent JSON_stringify
    JSON_parse
                      toLowerCase pinataJWT).
Local Abbreviation reveal_rest := (reveal_unrevealed engine_message encodeURIComponent
    JSON_stringify JSON_parse
                           toLowerCase pinataJWT).

(** What the second half of the pipeline does to the storage: nothing, or one
    [storeRevealedCapsule] under the id revealed, and that only when the id
    had no record. *)
Lemma rest_storage (fetch : IPFS.Request -> Result IPFS.Response) (now : nat -> Z)
    (ls : LocalStorage) (log : list Log) (capsuleId : list Z) (kit : JsValue)
    (user : list Z) (unlock : Z) (msg : option (list Z)) :
  let o := reveal_rest fetch now ls log capsuleId kit user unlock msg in
  (storage o = ls /\ success (result o) = false)
  \/ (exists c, id c = capsuleId
                /\ getRevealedCapsule ls capsuleId = None
                /\ storage o = storeRevealedCapsule ls c
                /\ result o = revealed c).
Proof.
  unfold reveal_unrevealed.
  destruct (getRevealedCapsule ls capsuleId) as [r|] eqn:Eg; [left; split; reflexivity|].
  destruct (getCapsuleIPFSHash ls capsuleId) as [v|]; [|left; split; reflexivity].
  destruct v as [| |b|n|ipfsCid|fields|elems]; try (left; split; reflexivity).
  destruct (startsWith ipfsCid (js "mock_")).
  - right. eexists. split; [|split; [reflexivity|split; reflexivity]]. reflexivity.
  - destruct (IPFS.download _ _ _ _ _ _) as [[enc|message] reqs];
      [|left; split; reflexivity].
    destruct (Crypto.decryptCapsuleContent _ _ _) as [d|message];
      [|left; split; reflexivity].
    destruct (isUserAuthorized toLowerCase d user) as [[|]|message];
      try (left; split; reflexivity).
    right. eexists. split; [|split; [reflexivity|split; reflexivity]]. reflexivity.
Qed.

Lemma reveal_storage (fetch : IPFS.Request -> Result IPFS.Response) (now : nat -> Z)
    (ls : LocalStorage) (capsuleId : list Z) (kit : JsValue)
    (user : list Z) (unlock : Z) (msg : option (list Z)) :
  let o := reveal fetch now ls capsuleId kit user unlock msg in
  (storage o = ls /\ success (result o) = false)
  \/ (exists c, id c = capsuleId
                /\ getRevealedCapsule ls capsuleId = None
                /\ storage o = storeRevealedCapsule ls c
                /\ result o = revealed c).
Proof.
  unfold revealCapsule.
  destruct (isValid (validateRecoveryKit kit)); simpl; [|left; split; reflexivity].
  destruct (strict_eq_string (get kit (js "capsuleId")) capsuleId); simpl.
  - apply rest_storage.
  - destruct (all_digits capsuleId); simpl; [|left; split; reflexivity].
    apply rest_storage.
Qed.

(** A call for an id that already has a record fails and stores nothing. *)
Lemma reveal_again_rejected (fetch : IPFS.Request -> Result IPFS.Response)
    (now : nat -> Z) (ls : LocalStorage) (capsuleId : list Z) (kit : JsValue)
    (user : list Z) (unlock : Z) (msg : option (list Z)) (r : RevealedCapsule) :
  getRevealedCapsule ls capsuleId = Some r ->
  success (result (reveal fetch now ls capsuleId kit user unlock msg)) = false
  /\ storage (reveal fetch now ls capsuleId kit user unlock msg) = ls.
Proof.
  intros Hr.
  destruct (reveal_storage fetch now ls capsuleId kit user unlock msg)
    as [[Hs Hf]|(c & _ & Hnone & _)].
  - split; assumption.
  - rewrite Hr in Hnone. discriminate Hnone.
Qed.

(** Its failure names the earlier reveal once the kit has passed validation
    and the id check. *)
Lemma reveal_again_message (fetch : IPFS.Request -> Result IPFS.Response)
    (now : nat -> Z) (ls : LocalStorage) (capsuleId : list Z) (kit : JsValue)
    (user : list Z) (unlock : Z) (msg : option (list Z)) (r : RevealedCapsule) :
  getRevealedCapsule ls capsuleId = Some r ->
  isValid (validateRecoveryKit kit) = true ->
  get kit (js "capsuleId") = JString capsuleId \/ all_digits capsuleId = true ->
  result (reveal fetch now ls capsuleId kit user unlock msg)
  = failure (js "This capsule has already been revealed").
Proof.
  intros Hr Hv Hid. unfold revealCapsule, reveal_unrevealed. rewrite Hv, Hr. simpl.
  destruct (strict_eq_string (get kit (js "capsuleId")) capsuleId) eqn:E; simpl;
    [reflexivity|].
  destruct Hid as [Hid|Hid].
  - rewrite Hid in E. simpl in E. rewrite jsstring_eqb_refl in E. discriminate E.
  - rewrite Hid. reflexivity.
Qed.

(** Any call, for any id, leaves an existing record as it is. *)
Lemma reveal_keeps_record (fetch : IPFS.Request -> Result IPFS.Response)
    (now : nat -> Z) (ls : LocalStorage) (capsuleId other : list Z) (kit : JsValue)
    (user : list Z) (unlock : Z) (msg : option (list Z)) (r : RevealedCapsule) :
  getRevealedCapsule ls capsuleId = Some r ->
  getRevealedCapsule (storage (reveal fetch now ls other kit user unlock msg)) capsuleId
  = Some r.
Proof.
  intros Hr.
  destruct (reveal_storage fetch now ls other kit user unlock msg)
    as [[Hs _]|(c & Hid & Hnone & Hs & _)]; rewrite Hs; [exact Hr|].
  apply store_keeps_others; [|exact Hr].
  intros E. assert (Heq : other = capsuleId) by congruence.
  rewrite Heq in Hnone. congruence.
Qed.

(** No call makes a second record for an id. *)
Lemma reveal_count (fetch : IPFS.Request -> Result IPFS.Response)
    (now : nat -> Z) (ls : LocalStorage) (capsuleId : list Z) (kit : JsValue)
    (user : list Z) (unlock : Z) (msg : option (list Z)) (i : list Z) :
  (count_id i (revealed_capsules ls) <= 1)%nat ->
  (count_id i (revealed_capsules
                 (storage (reveal fetch now ls capsuleId kit user unlock msg))) <= 1)%nat.
Proof.
  intros Hle.
  destruct (reveal_storage fetch now ls capsuleId kit user unlock msg)
    as [[Hs _]|(c & Hid & _ & Hs & _)]; rewrite Hs; [exact Hle|].
  destruct (decide (i = id c)) as [->|Hne].
  - rewrite store_count_same. lia.
  - rewrite (store_count_other ls c i Hne). exact Hle.
Qed.

(** C5, as the code has it. [storeRevealedCapsule] leaves exactly one record
    under the stored id, and no [revealCapsule] call makes a second one. Once
    an id has a record, every later [revealCapsule] call for that id fails and
    leaves the storage as it is; the failure reads "This capsule has already
    been revealed" when the kit passes validation and the id check, which come
    first. A call for any id leaves the existing record unchanged. On the
    ledger, [revealCapsule] on a REVEALED capsule always reverts, and with
    [CapsuleAlreadyRevealed] when the call carries no value, the capsule
    exists, its unlock time has come and the caller passes the access check,
    which come first. *)
Theorem C5_reveal_once :
  (forall (ls : LocalStorage) (c : RevealedCapsule),
      count_id (id c) (revealed_capsules (storeRevealedCapsule ls c)) = 1%nat)
  /\ (forall fetch now ls capsuleId kit user unlock msg (i : list Z),
        (count_id i (revealed_capsules ls) <= 1)%nat ->
        (count_id i (revealed_capsules
                       (storage (reveal fetch now ls capsuleId kit user unlock msg)))
         <= 1)%nat)
  /\ (forall fetch now ls capsuleId kit user unlock msg (r : RevealedCapsule),
        getRevealedCapsule ls capsuleId = Some r ->
        success (result (reveal fetch now ls capsuleId kit user unlock msg)) = false
        /\ storage (reveal fetch now ls capsuleId kit user unlock msg) = ls
        /\ (isValid (validateRecoveryKit kit) = true ->
            get kit (js "capsuleId") = JString capsuleId \/ all_digits capsuleId = true ->
            result (reveal fetch now ls capsuleId kit user unlock msg)
            = failure (js "This capsule has already been revealed")))
  /\ (forall fetch now ls capsuleId other kit user unlock msg (r : RevealedCapsule),
        getRevealedCapsule ls capsuleId = Some r ->
        getRevealedCapsule
          (storage (reveal fetch now ls other kit user unlock msg)) capsuleId = Some r)
  /\ (forall (env : TimeCapsule.Env) (st : TimeCapsule.Storage) (capsuleId : Z)
             (m : list byte) (ref : string),
        TimeCapsule.status (TimeCapsule.capsuleAt st capsuleId) = TimeCapsule.REVEALED ->
        (exists e, TimeCapsule.revealCapsule env st capsuleId m ref
                   = TimeCapsule.Reverted e)
        /\ (TimeCapsule.msg_value env = 0 ->
            TimeCapsule.exists_capsule st capsuleId ->
            TimeCapsule.block_timestamp env
              >= TimeCapsule.unlockTime (TimeCapsule.capsuleAt st capsuleId) ->
            TimeCapsule._canAccessCapsule env st capsuleId (TimeCapsule.msg_sender env)
              = true ->
            TimeCapsule.revealCapsule env st capsuleId m ref
            = TimeCapsule.Reverted TimeCapsule.CapsuleAlreadyRevealed)).
Proof.
  split; [|split; [|split; [|split]]].
  - apply store_count_same.
  - intros. apply reveal_count. assumption.
  - intros fetch now ls capsuleId kit user unlock msg r Hr.
    destruct (reveal_again_rejected fetch now ls capsuleId kit user unlock msg r Hr)
      as [Hf Hs].
    split; [exact Hf|]. split; [exact Hs|].
    intros Hv Hid. exact (reveal_again_message fetch now ls capsuleId kit user unlock msg r Hr
        Hv Hid).
  - intros. apply reveal_keeps_record. assumption.
  - intros env st capsuleId m ref Hrev. split.
    + apply TimeCapsuleProofs.reveal_revealed_reverts. exact Hrev.
    + intros Hval Hex Htime Hacc.
      apply TimeCapsuleProofs.reveal_revealed_error; assumption.
Qed.

End Client.

Example sample_revealed_record :
  option_map id (getRevealedCapsule sample_revealed_storage (js "capsule_abc"))
  = Some (js "capsule_abc")
  /\ count_id (js "capsule_abc") (revealed_capsules sample_revealed_storage) = 1%nat.
Proof. vm_compute. split; reflexivity. Qed.

Lemma C5_witness :
  success (result (sample_reveal sample_revealed_storage (js "capsule_abc") good_kit))
  = false
  /\ storage (sample_reveal sample_revealed_storage (js "capsule_abc") good_kit)
     = sample_revealed_storage
  /\ result (sample_reveal sample_revealed_storage (js "capsule_abc") good_kit)
     = failure (js "This capsule has already been revealed")
  /\ TimeCapsule.revealCapsule (TimeCapsule.env_at TimeCapsule.alice 42)
       TimeCapsule.st_revealed 1 TimeCapsule.secret ""
     = TimeCapsule.Reverted TimeCapsule.CapsuleAlreadyRevealed.
Proof.
  destruct (C5_reveal_once Crypto.named_engine IPFS.plain_encode IPFS.plain_stringify sample_parse
              ascii_lower []) as (_ & _ & Hagain & _ & Hledger).
  destruct (getRevealedCapsule sample_revealed_storage (js "capsule_abc"))
    as [r|] eqn:Hr; [|vm_compute in Hr; discriminate Hr].
  destruct (Hagain IPFS.no_network sample_clock sample_revealed_storage
              (js "capsule_abc") good_kit (js "0xa11ce") 1700000000 None r Hr)
    as (Hf & Hs & Hmsg).
  split; [exact Hf|]. split; [exact Hs|]. split.
  - apply Hmsg; [vm_compute; reflexivity|left; vm_compute; reflexivity].
  - apply Hledger.
    + vm_compute. reflexivity.
    + reflexivity.
    + unfold TimeCapsule.exists_capsule. vm_compute. split; discriminate.
    + vm_compute. discriminate.
    + vm_compute. reflexivity.
Defined.

(** After the reveal, a call for the same id with a kit that fails validation
    is told so, not that the capsule has been revealed; and on the ledger a
    caller without access to the REVEALED capsule gets [UnauthorizedAccess]. *)
Lemma C5_counterexample :
  (exists r, getRevealedCapsule sample_revealed_storage (js "capsule_abc") = Some r)
  /\ result (sample_reveal sample_revealed_storage (js "capsule_abc") short_kit)
     = failure (js "Invalid recovery kit: Invalid encryption key length")
  /\ TimeCapsule.status (TimeCapsule.capsuleAt TimeCapsule.st_revealed 1)
     = TimeCapsule.REVEALED
  /\ TimeCapsule.revealCapsule (TimeCapsule.env_at TimeCapsule.carol 42)
       TimeCapsule.st_revealed 1 TimeCapsule.secret ""
     = TimeCapsule.Reverted TimeCapsule.UnauthorizedAccess.
Proof.
  split; [|split; [|split]].
  - destruct (getRevealedCapsule sample_revealed_storage (js "capsule_abc"))
      as [r|] eqn:Hr; [exists r; reflexivity|vm_compute in Hr; discriminate Hr].
  - vm_compute. reflexivity.
  - vm_compute. reflexivity.
  - vm_compute. reflexivity.
Qed.

(** *** Validation at the entry of the pipeline *)

Lemma nonempty_string_Some (v : JsValue) (s : list Z) :
  nonempty_string v = Some s -> v = JString s /\ s <> [].
Proof.
  destruct v as [| |b|n|t|fields|elems]; simpl; try discriminate.
  destruct t as [|c t]; [discriminate|]. intros H. injection H as <-.
  split; [reflexivity|discriminate].
Qed.

Lemma check_lengths_valid (key iv : list Z) :
  isValid (check_lengths key iv) = true ->
  exists keyBuffer ivBuffer,
    base64ToArrayBuffer key = Ok keyBuffer /\ length keyBuffer = 32%nat
    /\ base64ToArrayBuffer iv = Ok ivBuffer /\ length ivBuffer = 12%nat.
Proof.
  unfold check_lengths.
  destruct (base64ToArrayBuffer key) as [kb|e]; [|discriminate].
  destruct (base64ToArrayBuffer iv) as [ib|e]; [|discriminate].
  destruct (Z.of_nat (length kb) =? 32) eqn:Ek; simpl; [|discriminate].
  destruct (Z.of_nat (length ib) =? 12) eqn:Ei; simpl; [|discriminate].
  intros _. apply Z.eqb_eq in Ek, Ei. exists kb, ib. repeat split; lia.
Qed.

(** What a kit that passes [validateRecoveryKit] is known to be. *)
Lemma validated_kit (kit : JsValue) :
  isValid (validateRecoveryKit kit) = true ->
  exists key iv capsuleId,
    get kit (js "key") = JString key /\ key <> []
    /\ get kit (js "iv") = JString iv /\ iv <> []
    /\ get kit (js "capsuleId") = JString capsuleId /\ capsuleId <> []
    /\ (all_digits capsuleId = false ->
        exists keyBuffer ivBuffer,
          base64ToArrayBuffer key = Ok keyBuffer /\ length keyBuffer = 32%nat
          /\ base64ToArrayBuffer iv = Ok ivBuffer /\ length ivBuffer = 12%nat).
Proof.
  unfold validateRecoveryKit.
  destruct (negb (truthy kit) || negb _); [discriminate|].
  destruct (nonempty_string (get kit (js "key"))) as [key|] eqn:Ek; [|discriminate].
  destruct (nonempty_string (get kit (js "iv"))) as [iv|] eqn:Ei; [|discriminate].
  destruct (nonempty_string (get kit (js "capsuleId"))) as [capsuleId|] eqn:Ec;
    [|discriminate].
  apply nonempty_string_Some in Ek, Ei, Ec.
  destruct Ek as [Ek Ek'], Ei as [Ei Ei'], Ec as [Ec Ec'].
  intros H. exists key, iv, capsuleId. repeat (split; [assumption|]).
  intros Hd. rewrite Hd in H.
  destruct (base64_format (remove_whitespace (trim key))); simpl in H; [|discriminate].
  destruct (base64_format (remove_whitespace (trim iv))); simpl in H; [|discriminate].
  destruct (atob (remove_whitespace (trim key))); [|discriminate].
  destruct (atob (remove_whitespace (trim iv))); [|discriminate].
  apply check_lengths_valid. exact H.
Qed.

Lemma check_lengths_result (key iv : list Z) :
  check_lengths key iv = valid \/ exists message, check_lengths key iv = invalid message.
Proof.
  unfold check_lengths.
  destruct (base64ToArrayBuffer key) as [kb|e]; [|right; eexists; reflexivity].
  destruct (base64ToArrayBuffer iv) as [ib|e]; [|right; eexists; reflexivity].
  destruct (negb (Z.of_nat (length kb) =? 32)); [right; eexists; reflexivity|].
  destruct (negb (Z.of_nat (length ib) =? 12)); [right; eexists; reflexivity|].
  left. reflexivity.
Qed.

(** [validateRecoveryKit] answers [valid] or an error with its message. *)
Lemma validation_result (kit : JsValue) :
  validateRecoveryKit kit = valid
  \/ exists message, validateRecoveryKit kit = invalid message.
Proof.
  unfold validateRecoveryKit.
  destruct (negb (truthy kit) || negb _); [right; eexists; reflexivity|].
  destruct (nonempty_string (get kit (js "key"))) as [key|];
    [|right; eexists; reflexivity].
  destruct (nonempty_string (get kit (js "iv"))) as [iv|];
    [|right; eexists; reflexivity].
  destruct (nonempty_string (get kit (js "capsuleId"))) as [capsuleId|];
    [|right; eexists; reflexivity].
  destruct (all_digits capsuleId); [left; reflexivity|].
  destruct (negb (base64_format (remove_whitespace (trim key))));
    [right; eexists; reflexivity|].
  destruct (negb (base64_format (remove_whitespace (trim iv))));
    [right; eexists; reflexivity|].
  destruct (atob (remove_whitespace (trim key))); [|right; eexists; reflexivity].
  destruct (atob (remove_whitespace (trim iv))); [|right; eexists; reflexivity].
  apply check_lengths_result.
Qed.

Section Entry.

Variable engine_message : Crypto.CryptoFailure -> list Z.
Variable encodeURIComponent : list Z -> list Z.
Variable JSON_stringify : JsValue -> list Z.
Variable JSON_parse : list Z -> Result JsValue.
Variable toLowerCase : list Z -> list Z.
Variable pinataJWT : list Z.

Local Abbreviation reveal := (revealCapsule engine_message encodeURIComponent JSON_stringify
    JSON_parse
                                toLowerCase pinataJWT).
Local Abbreviation reveal_rest := (reveal_unrevealed engine_message encodeURIComponent
    JSON_stringify
                                     JSON_parse toLowerCase pinataJWT).

(** The entry checks of the reveal pipeline. A kit passes [validateRecoveryKit] only if its
    key, IV and capsuleId are non-empty strings and, unless its own capsuleId
    is all digits, its key decodes to 32 bytes and its IV to 12; a kit whose
    capsuleId is all digits is not checked further. [revealCapsule] validates
    first: a kit that fails yields the failure "Invalid recovery kit: ..."
    with nothing fetched, decrypted or stored. A kit whose capsuleId differs
    from the id revealed yields "Recovery kit does not match the specified
    capsule", again before any decryption, unless the id revealed is all
    digits, in which case the pipeline goes on as for a matching kit. *)
Theorem validation_comes_first :
  (forall kit : JsValue,
      isValid (validateRecoveryKit kit) = true ->
      exists key iv capsuleId,
        get kit (js "key") = JString key /\ key <> []
        /\ get kit (js "iv") = JString iv /\ iv <> []
        /\ get kit (js "capsuleId") = JString capsuleId /\ capsuleId <> []
        /\ (all_digits capsuleId = false ->
            exists keyBuffer ivBuffer,
              base64ToArrayBuffer key = Ok keyBuffer /\ length keyBuffer = 32%nat
              /\ base64ToArrayBuffer iv = Ok ivBuffer /\ length ivBuffer = 12%nat))
  /\ (forall fetch now ls capsuleId kit user unlock msg,
        isValid (validateRecoveryKit kit) = false ->
        exists message,
          validateRecoveryKit kit = invalid message
          /\ reveal fetch now ls capsuleId kit user unlock msg
             = mkOutcome (failure (js "Invalid recovery kit: " ++ message))
                 ls [LogStarting] [])
  /\ (forall fetch now ls capsuleId kit user unlock msg,
        isValid (validateRecoveryKit kit) = true ->
        get kit (js "capsuleId") <> JString capsuleId ->
        all_digits capsuleId = false ->
        reveal fetch now ls capsuleId kit user unlock msg
        = mkOutcome (failure (js "Recovery kit does not match the specified capsule"))
            ls [LogStarting] [])
  /\ (forall fetch now ls capsuleId kit user unlock msg,
        isValid (validateRecoveryKit kit) = true ->
        get kit (js "capsuleId") <> JString capsuleId ->
        all_digits capsuleId = true ->
        reveal fetch now ls capsuleId kit user unlock msg
        = reveal_rest fetch now ls [LogStarting; LogMockBypassId]
            capsuleId kit user unlock msg)
  /\ (forall fetch now ls capsuleId kit user unlock msg,
        isValid (validateRecoveryKit kit) = true ->
        get kit (js "capsuleId") = JString capsuleId ->
        reveal fetch now ls capsuleId kit user unlock msg
        = reveal_rest fetch now ls [LogStarting] capsuleId kit user unlock msg).
Proof.
  assert (Hmis : forall kit capsuleId,
             get kit (js "capsuleId") <> JString capsuleId ->
             strict_eq_string (get kit (js "capsuleId")) capsuleId = false).
  { intros kit capsuleId Hne. unfold strict_eq_string.
    destruct (get kit (js "capsuleId")) as [| |b|n|t|fields|elems]; try reflexivity.
    apply jsstring_eqb_false. congruence. }
  split; [|split; [|split; [|split]]].
  - exact validated_kit.
  - intros fetch now ls capsuleId kit user unlock msg Hv.
    destruct (validation_result kit) as [E|[message E]].
    + rewrite E in Hv. discriminate Hv.
    + exists message. split; [exact E|]. unfold revealCapsule. rewrite E. reflexivity.
  - intros fetch now ls capsuleId kit user unlock msg Hv Hne Hd.
    unfold revealCapsule. rewrite Hv, (Hmis _ _ Hne), Hd. reflexivity.
  - intros fetch now ls capsuleId kit user unlock msg Hv Hne Hd.
    unfold revealCapsule. rewrite Hv, (Hmis _ _ Hne), Hd. reflexivity.
  - intros fetch now ls capsuleId kit user unlock msg Hv He.
    unfold revealCapsule. rewrite Hv, He. simpl. rewrite jsstring_eqb_refl. reflexivity.
Qed.

End Entry.

Lemma validation_comes_first_witness :
  (exists keyBuffer ivBuffer,
      base64ToArrayBuffer (arrayBufferToBase64 sample_key_bytes) = Ok keyBuffer
      /\ length keyBuffer = 32%nat
      /\ base64ToArrayBuffer (arrayBufferToBase64 sample_iv_bytes) = Ok ivBuffer
      /\ length ivBuffer = 12%nat)
  /\ sample_reveal sample_storage (js "capsule_abc") short_kit
     = mkOutcome (failure (js "Invalid recovery kit: Invalid encryption key length"))
         sample_storage [LogStarting] []
  /\ sample_reveal sample_storage (js "capsule_xyz") good_kit
     = mkOutcome (failure (js "Recovery kit does not match the specified capsule"))
         sample_storage [LogStarting] [].
Proof.
  destruct (validation_comes_first Crypto.named_engine IPFS.plain_encode IPFS.plain_stringify
      sample_parse
              ascii_lower []) as (Hvalid & Hinvalid & Hmismatch & _ & _).
  split; [|split].
  - destruct (Hvalid good_kit) as (key & iv & capsuleId & Hk & _ & Hi & _ & Hc & _ & Hlen);
      [vm_compute; reflexivity|].
    vm_compute in Hk, Hi, Hc. injection Hk as <-. injection Hi as <-. injection Hc as <-.
    destruct Hlen as (kb & ib & H1 & H2 & H3 & H4); [vm_compute; reflexivity|].
    exists kb, ib. repeat split; assumption.
  - destruct (Hinvalid IPFS.no_network sample_clock sample_storage (js "capsule_abc")
                short_kit (js "0xa11ce") 1700000000 None) as (message & Hm & Ho);
      [vm_compute; reflexivity|].
    vm_compute in Hm. injection Hm as <-. exact Ho.
  - apply Hmismatch; [vm_compute; reflexivity| |vm_compute; reflexivity].
    vm_compute. discriminate.
Defined.

(** C7 (a short key that is not refused). A kit whose capsuleId is all
    digits, as every id the application issues is, passes
    [validateRecoveryKit] with a three-byte key and a three-byte IV: the
    length checks are skipped. For a capsule stored under a real address the
    pipeline then downloads the content and attempts the decryption, which
    fails there, with the engine's message for a key of the wrong length,
    instead of at validation. *)
Theorem C7_short_key_reaches_decryption :
  validateRecoveryKit short_numeric_kit = valid
  /\ base64ToArrayBuffer (js "AAAA") = Ok [x00; x00; x00]
  /\ option_map (fun ipfsCid => strict_eq_string ipfsCid (js "local_1700000000000_k3x9qa"))
       (getCapsuleIPFSHash sample_storage (js "1700000000000")) = Some true
  /\ console (sample_reveal sample_storage (js "1700000000000") short_numeric_kit)
     = [LogStarting; LogFoundCid; LogFetching; LogDownloaded; LogDecrypting; LogFailed]
  /\ success (result (sample_reveal sample_storage (js "1700000000000") short_numeric_kit))
     = false
  /\ storage (sample_reveal sample_storage (js "1700000000000") short_numeric_kit)
     = sample_storage
  /\ (forall engine_message : Crypto.CryptoFailure -> list Z,
        result (revealCapsule engine_message IPFS.plain_encode IPFS.plain_stringify
                  sample_parse ascii_lower [] IPFS.no_network sample_clock
                  sample_storage (js "1700000000000") short_numeric_kit (js "0xa11ce")
                  1700000000 None)
        = failure (js "Decryption failed: "
                     ++ engine_message Crypto.InvalidKeyLength)).
Proof.
  split; [vm_compute; reflexivity|]. split; [vm_compute; reflexivity|].
  split; [vm_compute; reflexivity|]. split; [vm_compute; reflexivity|].
  split; [vm_compute; reflexivity|]. split; [vm_compute; reflexivity|].
  intros engine_message. vm_compute. reflexivity.
Qed.

(** The id check is bypassed for an all-digit id: a kit made for another
    capsule reveals it. *)
Example numeric_id_bypass :
  console (sample_reveal sample_storage (js "1700000000001") good_kit)
  = [LogStarting; LogMockBypassId; LogFoundCid; LogFetching; LogMockScenario; LogMockDone]
  /\ success (result (sample_reveal sample_storage (js "1700000000001") good_kit)) = true.
Proof. vm_compute. split; reflexivity. Qed.

End RevealProofs.

(** ** The ledger contract: administration, registry and access *)

Module LedgerProofs.
Import TimeCapsule TimeCapsuleProofs Ledger.

(** What a successful [createCapsule] does to the storage. *)
Lemma create_success (env : Env) (st st' : Storage) (t : CapsuleType) (h : Z)
    (r : string) (u : Z) (rs : list string) (p : bool) (ret : Z) (log : list Event) :
  createCapsule env st t h r u rs p = Success st' ret log ->
  ret = _capsuleCounter st + 1
  /\ st' = {| _capsuleCounter := _capsuleCounter st + 1;
              _capsules :=
                <[_capsuleCounter st + 1 :=
                    {| owner := msg_sender env;
                       createdAt := block_timestamp env mod 2 ^ 64;
                       unlockTime := u; capsuleType := t; status := LOCKED;
                       contentHash := h; contentRef := r; recipients := rs;
                       isPublic := p |}]> (_capsules st);
              _userCapsules :=
                <[msg_sender env :=
                    default [] (_userCapsules st !! msg_sender env)
                      ++ [_capsuleCounter st + 1]]> (_userCapsules st);
              protocolFee := protocolFee st;
              treasury := treasury st |}
  /\ log = [CapsuleCreated (_capsuleCounter st + 1) (msg_sender env) u t h]
  /\ msg_value env >= protocolFee st
  /\ Forall (fun tr => accepts_payment env (fst tr) (snd tr) = true)
       (createCapsule_transfers env st).
Proof.
  unfold createCapsule, createCapsule_transfers. intros H.
  destruct (_ >? UINT64_MAX); [discriminate H|].
  destruct (u <=? _); [discriminate H|].
  destruct (_ >? UINT64_MAX); [discriminate H|].
  destruct (u >? _); [discriminate H|].
  destruct (msg_value env <? protocolFee st) eqn:Efee; [discriminate H|].
  destruct (_ >? UINT256_MAX); [discriminate H|].
  apply Z.ltb_ge in Efee.
  destruct ((protocolFee st >? 0) && negb (treasury st =? 0)) eqn:E1; simpl in H.
  - destruct (accepts_payment env (treasury st) (protocolFee st)) eqn:A1;
      simpl in H; [|discriminate H].
    destruct (msg_value env >? protocolFee st) eqn:E2; simpl in H.
    + destruct (accepts_payment env (msg_sender env) (msg_value env - protocolFee st))
        eqn:A2; simpl in H; [|discriminate H].
      injection H as <- <- <-. repeat split; try lia.
      simpl. repeat constructor; assumption.
    + injection H as <- <- <-. repeat split; try lia.
      simpl. repeat constructor; assumption.
  - destruct (msg_value env >? protocolFee st) eqn:E2; simpl in H.
    + destruct (accepts_payment env (msg_sender env) (msg_value env - protocolFee st))
        eqn:A2; simpl in H; [|discriminate H].
      injection H as <- <- <-. repeat split; try lia.
      simpl. repeat constructor; assumption.
    + injection H as <- <- <-. repeat split; try lia. simpl. constructor.
Qed.

(** *** Payments *)

(** X1 (payments of a creation). A [createCapsule] that succeeds was sent at
    least the protocol fee, and every transfer it made was accepted. With a
    treasury set (or no fee) it pays out exactly what it was sent: the fee to
    the treasury and the rest back to the caller. With a fee and the zero
    address as treasury the fee stays in the contract. *)
Theorem creation_pays_out (env : Env) (st st' : Storage) (t : CapsuleType) (h : Z)
    (r : string) (u : Z) (rs : list string) (p : bool) (ret : Z) (log : list Event) :
  0 <= protocolFee st ->
  createCapsule env st t h r u rs p = Success st' ret log ->
  msg_value env >= protocolFee st
  /\ Forall (fun tr => accepts_payment env (fst tr) (snd tr) = true)
       (createCapsule_transfers env st)
  /\ total_sent (createCapsule_transfers env st)
     = (if (protocolFee st >? 0) && (treasury st =? 0)
        then msg_value env - protocolFee st
        else msg_value env)
  /\ protocolFee st' = protocolFee st /\ treasury st' = treasury st.
Proof.
  intros Hfee H.
  destruct (create_success _ _ _ _ _ _ _ _ _ _ _ H) as (_ & -> & _ & Hv & Hacc).
  split; [exact Hv|]. split; [exact Hacc|]. split; [|split; reflexivity].
  unfold createCapsule_transfers, total_sent.
  destruct (protocolFee st >? 0) eqn:E0; destruct (treasury st =? 0) eqn:E1;
    destruct (msg_value env >? protocolFee st) eqn:E2; simpl;
    rewrite ?Z.gtb_ltb in *;
    try apply Z.ltb_lt in E0; try apply Z.ltb_ge in E0;
    try apply Z.ltb_lt in E2; try apply Z.ltb_ge in E2; lia.
Qed.

Lemma creation_pays_out_witness :
  total_sent (createCapsule_transfers (env_paying alice (3 * 10 ^ 15))
                (constructor the_treasury))
  = 3 * 10 ^ 15
  /\ createCapsule_transfers (env_paying alice (3 * 10 ^ 15)) (constructor the_treasury)
     = [(the_treasury, 10 ^ 15); (alice, 2 * 10 ^ 15)]
  /\ total_sent (createCapsule_transfers (env_paying alice (3 * 10 ^ 15)) (constructor 0))
     = 2 * 10 ^ 15.
Proof.
  assert (Hfee : forall tr, 0 <= protocolFee (constructor tr)) by (intros; vm_compute; discriminate).
  assert (H1 : createCapsule (env_paying alice (3 * 10 ^ 15)) (constructor the_treasury)
                 ENCRYPTED (keccak256 secret) "QmTest123" (t0 + 40 * 86400) [] false
               = Success
                   (storage_after (constructor the_treasury)
                      (createCapsule (env_paying alice (3 * 10 ^ 15))
                         (constructor the_treasury) ENCRYPTED (keccak256 secret)
                         "QmTest123" (t0 + 40 * 86400) [] false))
                   1 [CapsuleCreated 1 alice (t0 + 40 * 86400) ENCRYPTED (keccak256 secret)])
    by (vm_compute; reflexivity).
  assert (H2 : createCapsule (env_paying alice (3 * 10 ^ 15)) (constructor 0)
                 ENCRYPTED (keccak256 secret) "QmTest123" (t0 + 40 * 86400) [] false
               = Success
                   (storage_after (constructor 0)
                      (createCapsule (env_paying alice (3 * 10 ^ 15))
                         (constructor 0) ENCRYPTED (keccak256 secret)
                         "QmTest123" (t0 + 40 * 86400) [] false))
                   1 [CapsuleCreated 1 alice (t0 + 40 * 86400) ENCRYPTED (keccak256 secret)])
    by (vm_compute; reflexivity).
  destruct (creation_pays_out _ _ _ _ _ _ _ _ _ _ _ (Hfee the_treasury) H1)
    as (_ & _ & Ha & _).
  destruct (creation_pays_out _ _ _ _ _ _ _ _ _ _ _ (Hfee 0) H2) as (_ & _ & Hb & _).
  split; [rewrite Ha; vm_compute; reflexivity|].
  split; [vm_compute; reflexivity|].
  rewrite Hb. vm_compute. reflexivity.
Defined.

(** *** Administration *)

Lemma exec_admin_fields (st : Storage) (tx : Env * Call) :
  (treasury (exec st tx) <> treasury st \/ protocolFee (exec st tx) <> protocolFee st) ->
  msg_sender (fst tx) = treasury st
  /\ msg_value (fst tx) = 0
  /\ ((exists newFee, snd tx = CallSetProtocolFee newFee)
      \/ (exists newTreasury, snd tx = CallSetTreasury newTreasury)).
Proof.
  destruct tx as [env call]. unfold exec. simpl.
  destruct call as [t h r u rs p | i m ref | i | f | tr].
  - destruct (createCapsule env st t h r u rs p) as [st' ret log|e] eqn:E; simpl.
    + destruct (create_success _ _ _ _ _ _ _ _ _ _ _ E) as (_ & -> & _). simpl.
      intros [H|H]; exfalso; apply H; reflexivity.
    + intros [H|H]; exfalso; apply H; reflexivity.
  - destruct (revealCapsule env st i m ref) as [st' [] log|e] eqn:E; simpl.
    + destruct (reveal_success _ _ _ _ _ _ _ E) as (_ & _ & _ & _ & ->). simpl.
      intros [H|H]; exfalso; apply H; reflexivity.
    + intros [H|H]; exfalso; apply H; reflexivity.
  - destruct (unlockCapsule env st i) as [st' [] log|e] eqn:E; simpl.
    + destruct (unlock_success _ _ _ _ _ E) as (_ & _ & _ & [(_ & -> & _)|(_ & -> & _)]);
        simpl; intros [H|H]; exfalso; apply H; reflexivity.
    + intros [H|H]; exfalso; apply H; reflexivity.
  - unfold setProtocolFee.
    destruct (msg_value env =? 0) eqn:Ev; cbn [negb];
      [|simpl; intros [H|H]; exfalso; apply H; reflexivity].
    destruct (msg_sender env =? treasury st) eqn:E; simpl.
    + intros _. apply Z.eqb_eq in E. apply Z.eqb_eq in Ev.
      split; [exact E|]. split; [exact Ev|]. left. eexists. reflexivity.
    + intros [H|H]; exfalso; apply H; reflexivity.
  - unfold setTreasury.
    destruct (msg_value env =? 0) eqn:Ev; cbn [negb];
      [|simpl; intros [H|H]; exfalso; apply H; reflexivity].
    destruct (msg_sender env =? treasury st) eqn:E; simpl.
    + intros _. apply Z.eqb_eq in E. apply Z.eqb_eq in Ev.
      split; [exact E|]. split; [exact Ev|]. right. eexists. reflexivity.
    + intros [H|H]; exfalso; apply H; reflexivity.
Qed.

Lemma exec_admin_kept (st : Storage) (tx : Env * Call) :
  msg_sender (fst tx) <> treasury st ->
  treasury (exec st tx) = treasury st /\ protocolFee (exec st tx) = protocolFee st.
Proof.
  intros Hne.
  destruct (Z.eq_dec (treasury (exec st tx)) (treasury st)) as [Et|Et];
    destruct (Z.eq_dec (protocolFee (exec st tx)) (protocolFee st)) as [Ef|Ef];
    try (split; assumption);
    exfalso; apply Hne;
    [ apply (exec_admin_fields st tx); right; exact Ef
    | apply (exec_admin_fields st tx); left; exact Et
    | apply (exec_admin_fields st tx); left; exact Et ].
Qed.

(** X2 (administration). A transaction changes the protocol fee or the
    treasury only if it is a [setProtocolFee] or [setTreasury] call sent by
    the current treasury without value; over any sequence of transactions
    none of which the treasury sends, both stay as they are. The treasury's
    own calls without value take effect, whatever the new value:
    [setTreasury] accepts the zero address. Sent with value they revert, as
    the functions are not [payable]. *)
Theorem treasury_only_administration :
  (forall (st : Storage) (tx : Env * Call),
      treasury (exec st tx) <> treasury st \/ protocolFee (exec st tx) <> protocolFee st ->
      msg_sender (fst tx) = treasury st
      /\ msg_value (fst tx) = 0
      /\ ((exists newFee, snd tx = CallSetProtocolFee newFee)
          \/ (exists newTreasury, snd tx = CallSetTreasury newTreasury)))
  /\ (forall (st : Storage) (txs : list (Env * Call)),
        Forall (fun tx => msg_sender (fst tx) <> treasury st) txs ->
        treasury (run st txs) = treasury st
        /\ protocolFee (run st txs) = protocolFee st)
  /\ (forall (env : Env) (st : Storage) (v : Z),
        msg_sender env = treasury st ->
        msg_value env = 0 ->
        protocolFee (exec st (env, CallSetProtocolFee v)) = v
        /\ treasury (exec st (env, CallSetTreasury v)) = v)
  /\ (forall (env : Env) (st : Storage) (v : Z),
        msg_value env <> 0 ->
        setProtocolFee env st v = Reverted NotPayable
        /\ setTreasury env st v = Reverted NotPayable).
Proof.
  split; [exact exec_admin_fields|]. split.
  - intros st txs. revert st.
    induction txs as [|tx txs IH]; intros st Hall; [split; reflexivity|].
    rewrite run_cons. inversion Hall as [|? ? Hne Hrest]; subst.
    destruct (exec_admin_kept st tx Hne) as [Et Ef].
    destruct (IH (exec st tx)) as [Ht Hf].
    { rewrite Et. exact Hrest. }
    split; congruence.
  - split.
    + intros env st v Hs Hval. unfold exec, setProtocolFee, setTreasury. simpl.
      rewrite Hval, Hs, !Z.eqb_refl. simpl. split; reflexivity.
    + intros env st v Hval. apply Z.eqb_neq in Hval.
      unfold setProtocolFee, setTreasury. rewrite Hval. split; reflexivity.
Qed.

Lemma treasury_only_administration_witness :
  (treasury (run st_created
               [ (env_at alice 1, CallSetTreasury alice);
                 (env_at bob 2, CallSetProtocolFee 0);
                 (env_at alice 41, CallUnlock 1) ]) = the_treasury
   /\ protocolFee (run st_created
                     [ (env_at alice 1, CallSetTreasury alice);
                       (env_at bob 2, CallSetProtocolFee 0);
                       (env_at alice 41, CallUnlock 1) ]) = 10 ^ 15)
  /\ (protocolFee (exec st_created (env_at the_treasury 1, CallSetProtocolFee 0)) = 0
      /\ treasury (exec st_created (env_at the_treasury 1, CallSetTreasury 0)) = 0)
  /\ setProtocolFee (env_paying the_treasury 1) st_created 0 = Reverted NotPayable
  /\ setTreasury (env_paying the_treasury 1) st_created 0 = Reverted NotPayable.
Proof.
  destruct treasury_only_administration as (_ & Hrun & Hset & Hvalue).
  split; [|split].
  - apply (Hrun st_created).
    repeat constructor; vm_compute; discriminate.
  - apply (Hset (env_at the_treasury 1) st_created 0); reflexivity.
  - apply (Hvalue (env_paying the_treasury 1) st_created 0). vm_compute. discriminate.
Defined.

(** *** The registry *)

Lemma exec_counter (st : Storage) (tx : Env * Call) :
  _capsuleCounter (exec st tx) = _capsuleCounter st + creations st [tx].
Proof.
  destruct tx as [env call]. unfold exec. simpl.
  destruct call as [t h r u rs p | i m ref | i | f | tr].
  - destruct (createCapsule env st t h r u rs p) as [st' ret log|e] eqn:E; simpl.
    + destruct (create_success _ _ _ _ _ _ _ _ _ _ _ E) as (_ & -> & _). simpl. lia.
    + lia.
  - destruct (revealCapsule env st i m ref) as [st' [] log|e] eqn:E; simpl; [|lia].
    destruct (reveal_success _ _ _ _ _ _ _ E) as (_ & _ & _ & _ & ->). simpl. lia.
  - destruct (unlockCapsule env st i) as [st' [] log|e] eqn:E; simpl; [|lia].
    destruct (unlock_success _ _ _ _ _ E) as (_ & _ & _ & [(_ & -> & _)|(_ & -> & _)]);
      simpl; lia.
  - unfold setProtocolFee.
    destruct (msg_value env =? 0), (msg_sender env =? treasury st); simpl; lia.
  - unfold setTreasury.
    destruct (msg_value env =? 0), (msg_sender env =? treasury st); simpl; lia.
Qed.

Lemma creations_cons (st : Storage) (tx : Env * Call) (txs : list (Env * Call)) :
  creations st (tx :: txs) = creations st [tx] + creations (exec st tx) txs.
Proof. simpl. lia. Qed.

Lemma creations_one (st : Storage) (tx : Env * Call) : 0 <= creations st [tx] <= 1.
Proof.
  simpl. destruct (snd tx); try lia.
  destruct (succeeded _); lia.
Qed.

(** X3 (capsule count). [totalCapsules] grows by one with every
    [createCapsule] that succeeds and by nothing else: after any sequence of
    transactions it is the earlier total plus the number of successful
    creations, so ids are handed out consecutively and never taken back. *)
Theorem total_counts_creations (st : Storage) (txs : list (Env * Call)) :
  totalCapsules (run st txs) = totalCapsules st + creations st txs
  /\ 0 <= creations st txs <= Z.of_nat (length txs).
Proof.
  revert st. induction txs as [|tx txs IH]; intros st.
  - simpl. unfold totalCapsules. lia.
  - rewrite run_cons, creations_cons.
    destruct (IH (exec st tx)) as [Ht Hb].
    pose proof (creations_one st tx) as H1.
    unfold totalCapsules in *. rewrite Ht, exec_counter.
    cbn [length]. lia.
Qed.

Lemma registry_initial (_treasury : Z) : registry_consistent (constructor _treasury).
Proof.
  split; [unfold totalCapsules; simpl; lia|]. split.
  - intros user capsuleId. unfold getUserCapsules, exists_capsule. simpl.
    rewrite lookup_empty. simpl. split; [intros []|intros [H _]; lia].
  - intros user. unfold getUserCapsules. simpl. rewrite lookup_empty. constructor.
Qed.

Lemma registry_setCapsule (st : Storage) (i : Z) (c : CapsuleMeta) :
  owner c = owner (capsuleAt st i) ->
  registry_consistent st -> registry_consistent (setCapsule st i c).
Proof.
  intros Ho (Hpos & Hin & Hnd). split; [exact Hpos|]. split; [|exact Hnd].
  intros user capsuleId. unfold getUserCapsules in *. simpl.
  rewrite Hin. unfold exists_capsule. simpl.
  destruct (Z.eq_dec i capsuleId) as [->|Hne].
  - rewrite capsuleAt_setCapsule_eq, Ho. reflexivity.
  - rewrite capsuleAt_setCapsule_ne by exact Hne. reflexivity.
Qed.

Lemma registry_exec (st : Storage) (tx : Env * Call) :
  registry_consistent st -> registry_consistent (exec st tx).
Proof.
  intros Hinv. destruct tx as [env call]. unfold exec. simpl.
  destruct call as [t h r u rs p | i m ref | i | f | tr].
  - destruct (createCapsule env st t h r u rs p) as [st' ret log|e] eqn:E; simpl;
      [|exact Hinv].
    destruct (create_success _ _ _ _ _ _ _ _ _ _ _ E) as (_ & -> & _).
    destruct Hinv as (Hpos & Hin & Hnd). unfold totalCapsules in Hpos.
    assert (Hfresh : forall user, ~ In (_capsuleCounter st + 1) (getUserCapsules st user)).
    { intros user Hi. apply Hin in Hi. destruct Hi as [[_ Hhi] _]. lia. }
    split; [unfold totalCapsules; simpl; lia|]. split.
    + intros user capsuleId. unfold getUserCapsules, exists_capsule, capsuleAt. simpl.
      destruct (Z.eq_dec (msg_sender env) user) as [->|Hu].
      * rewrite lookup_insert_eq. simpl. rewrite in_app_iff. simpl.
        destruct (Z.eq_dec (_capsuleCounter st + 1) capsuleId) as [<-|Hc].
        -- rewrite lookup_insert_eq. simpl. split; [intros _|intros _; right; left; reflexivity].
           split; [lia|reflexivity].
        -- rewrite lookup_insert_ne by exact Hc.
           fold (getUserCapsules st user). fold (capsuleAt st capsuleId).
           rewrite Hin. unfold exists_capsule. split.
           ++ intros [[[Hlo Hhi] Ho]|[Hc'|[]]]; [|contradiction].
              split; [lia|exact Ho].
           ++ intros [[Hlo Hhi] Ho]. left. split; [lia|exact Ho].
      * rewrite lookup_insert_ne by exact Hu.
        fold (getUserCapsules st user).
        destruct (Z.eq_dec (_capsuleCounter st + 1) capsuleId) as [<-|Hc].
        -- rewrite lookup_insert_eq. simpl. split.
           ++ intros Hi. exfalso. exact (Hfresh user Hi).
           ++ intros [_ Ho]. contradiction.
        -- rewrite lookup_insert_ne by exact Hc. fold (capsuleAt st capsuleId).
           rewrite Hin. unfold exists_capsule. split.
           ++ intros [[Hlo Hhi] Ho]. split; [lia|exact Ho].
           ++ intros [[Hlo Hhi] Ho]. split; [lia|exact Ho].
    + intros user. unfold getUserCapsules. simpl.
      destruct (Z.eq_dec (msg_sender env) user) as [->|Hu].
      * rewrite lookup_insert_eq. simpl.
        apply NoDup_app. split; [exact (Hnd user)|].
        split; [|apply NoDup_singleton].
        intros x Hx Hk. apply list_elem_of_In in Hx. apply list_elem_of_In in Hk.
        destruct Hk as [<-|[]]. exact (Hfresh user Hx).
      * rewrite lookup_insert_ne by exact Hu. exact (Hnd user).
  - destruct (revealCapsule env st i m ref) as [st' [] log|e] eqn:E; simpl; [|exact Hinv].
    destruct (reveal_success _ _ _ _ _ _ _ E) as (_ & _ & _ & _ & ->).
    apply registry_setCapsule; [|exact Hinv].
    destruct (Z.of_nat (String.length ref) >? 0); reflexivity.
  - destruct (unlockCapsule env st i) as [st' [] log|e] eqn:E; simpl; [|exact Hinv].
    destruct (unlock_success _ _ _ _ _ E) as (_ & _ & _ & [(_ & -> & _)|(_ & -> & _)]);
      [|exact Hinv].
    apply registry_setCapsule; [reflexivity|exact Hinv].
  - unfold setProtocolFee.
    destruct (msg_value env =? 0), (msg_sender env =? treasury st); simpl; exact Hinv.
  - unfold setTreasury.
    destruct (msg_value env =? 0), (msg_sender env =? treasury st); simpl; exact Hinv.
Qed.

(** X4 (registry). In every storage reached from a fresh deployment,
    [getUserCapsules] of a user lists exactly the ids of the existing capsules
    that user owns, each of them once; the capsule a successful
    [createCapsule] registers goes to the end of its creator's list. *)
Theorem user_lists_match_owners :
  (forall (_treasury : Z) (txs : list (Env * Call)) (user capsuleId : Z),
      let st := run (constructor _treasury) txs in
      (In capsuleId (getUserCapsules st user)
       <-> exists_capsule st capsuleId /\ owner (capsuleAt st capsuleId) = user)
      /\ NoDup (getUserCapsules st user))
  /\ (forall (env : Env) (st st' : Storage) (t : CapsuleType) (h : Z) (r : string)
             (u : Z) (rs : list string) (p : bool) (ret : Z) (log : list Event),
        createCapsule env st t h r u rs p = Success st' ret log ->
        ret = totalCapsules st + 1
        /\ getUserCapsules st' (msg_sender env)
           = getUserCapsules st (msg_sender env) ++ [ret]
        /\ (forall user, user <> msg_sender env ->
                         getUserCapsules st' user = getUserCapsules st user)).
Proof.
  split.
  - intros _treasury txs user capsuleId st.
    assert (Hinv : registry_consistent st).
    { subst st. generalize (registry_initial _treasury).
      generalize (constructor _treasury). induction txs as [|tx txs IH]; intros s Hs.
      - exact Hs.
      - rewrite run_cons. apply IH. apply registry_exec. exact Hs. }
    destruct Hinv as (_ & Hin & Hnd). split; [apply Hin|apply Hnd].
  - intros env st st' t h r u rs p ret log H.
    destruct (create_success _ _ _ _ _ _ _ _ _ _ _ H) as (-> & -> & _).
    split; [reflexivity|]. unfold getUserCapsules. simpl. split.
    + rewrite lookup_insert_eq. reflexivity.
    + intros user Hne. rewrite lookup_insert_ne by congruence. reflexivity.
Qed.

Lemma user_lists_match_owners_witness :
  NoDup (getUserCapsules
           (run (constructor the_treasury)
              [ (env_create,
                 CallCreate ENCRYPTED (keccak256 secret) "QmTest123" (t0 + 40 * 86400)
                   [] false);
                (env_at bob 1,
                 CallCreate ENCRYPTED (keccak256 secret) "QmOther" (t0 + 40 * 86400)
                   [] true) ]) alice)
  /\ getUserCapsules st_private alice = getUserCapsules (constructor the_treasury) alice ++ [1]
  /\ getUserCapsules st_private bob = getUserCapsules (constructor the_treasury) bob.
Proof.
  destruct user_lists_match_owners as [Hinv Hcreate].
  split.
  - apply (Hinv the_treasury
             [ (env_create,
                CallCreate ENCRYPTED (keccak256 secret) "QmTest123" (t0 + 40 * 86400)
                  [] false);
               (env_at bob 1,
                CallCreate ENCRYPTED (keccak256 secret) "QmOther" (t0 + 40 * 86400)
                  [] true) ] alice 1).
  - assert (H1 : createCapsule env_create (constructor the_treasury) ENCRYPTED
                   (keccak256 secret) "QmTest123" (t0 + 40 * 86400) [] false
                 = Success st_private 1
                     [CapsuleCreated 1 alice (t0 + 40 * 86400) ENCRYPTED (keccak256 secret)])
      by (vm_compute; reflexivity).
    destruct (Hcreate _ _ _ _ _ _ _ _ _ _ _ H1) as (_ & Happ & Hother).
    split; [exact Happ|]. apply Hother. vm_compute. discriminate.
Defined.

(** *** Access *)

Lemma canAccess_stranger (env : Env) (st : Storage) (capsuleId user : Z) :
  isPublic (capsuleAt st capsuleId) = false ->
  recipients (capsuleAt st capsuleId) = [] ->
  user <> owner (capsuleAt st capsuleId) ->
  _canAccessCapsule env st capsuleId user = false.
Proof.
  intros Hp Hr Hu. unfold _canAccessCapsule. rewrite Hp, Hr. simpl.
  replace (owner (capsuleAt st capsuleId) =? user) with false; [reflexivity|].
  symmetry. apply Z.eqb_neq. congruence.
Qed.

(** What one transaction of a stranger does to a private capsule without
    recipients: nothing. *)
Lemma exec_private (st : Storage) (tx : Env * Call) (capsuleId : Z) :
  exists_capsule st capsuleId ->
  isPublic (capsuleAt st capsuleId) = false ->
  recipients (capsuleAt st capsuleId) = [] ->
  msg_sender (fst tx) <> owner (capsuleAt st capsuleId) ->
  capsuleAt (exec st tx) capsuleId = capsuleAt st capsuleId.
Proof.
  intros Hex Hp Hr Hu. destruct tx as [env call]. unfold exec. simpl in *.
  destruct call as [t h r u rs p | i m ref | i | f | tr].
  - destruct (createCapsule env st t h r u rs p) as [st' ret log|e] eqn:E; simpl;
      [|reflexivity].
    exact (proj2 (proj2 (create_frame _ _ _ _ _ _ _ _ _ _ _ capsuleId E Hex))).
  - destruct (revealCapsule env st i m ref) as [st' [] log|e] eqn:E; simpl; [|reflexivity].
    destruct (reveal_success _ _ _ _ _ _ _ E) as (_ & _ & _ & Hacc & ->).
    destruct (Z.eq_dec i capsuleId) as [->|Hne].
    + rewrite (canAccess_stranger env st capsuleId _ Hp Hr Hu) in Hacc. discriminate Hacc.
    + apply capsuleAt_setCapsule_ne. exact Hne.
  - destruct (unlockCapsule env st i) as [st' [] log|e] eqn:E; simpl; [|reflexivity].
    destruct (unlock_success _ _ _ _ _ E) as (_ & Hacc & _ & [(_ & -> & _)|(_ & -> & _)]);
      [|reflexivity].
    destruct (Z.eq_dec i capsuleId) as [->|Hne].
    + rewrite (canAccess_stranger env st capsuleId _ Hp Hr Hu) in Hacc. discriminate Hacc.
    + apply capsuleAt_setCapsule_ne. exact Hne.
  - unfold setProtocolFee.
    destruct (msg_value env =? 0), (msg_sender env =? treasury st); reflexivity.
  - unfold setTreasury.
    destruct (msg_value env =? 0), (msg_sender env =? treasury st); reflexivity.
Qed.

(** X5 (private capsules). A capsule that is not public and lists no
    recipient is out of reach of everyone but its owner: over any sequence of
    transactions none of which the owner sends, at any time and with any
    bytes presented, its record stays exactly as it is. *)
Theorem private_capsule_untouched (st : Storage) (txs : list (Env * Call))
    (capsuleId : Z) :
  exists_capsule st capsuleId ->
  isPublic (capsuleAt st capsuleId) = false ->
  recipients (capsuleAt st capsuleId) = [] ->
  Forall (fun tx => msg_sender (fst tx) <> owner (capsuleAt st capsuleId)) txs ->
  capsuleAt (run st txs) capsuleId = capsuleAt st capsuleId.
Proof.
  revert st. induction txs as [|tx txs IH]; intros st Hex Hp Hr Hall; [reflexivity|].
  rewrite run_cons. inversion Hall as [|? ? Hu Hrest]; subst.
  pose proof (exec_private st tx capsuleId Hex Hp Hr Hu) as Hsame.
  rewrite IH.
  - exact Hsame.
  - apply exec_evolves. exact Hex.
  - rewrite Hsame. exact Hp.
  - rewrite Hsame. exact Hr.
  - rewrite Hsame. exact Hrest.
Qed.

Lemma st_private_capsule :
  capsuleAt st_private 1 =
    {| owner := alice; createdAt := t0; unlockTime := t0 + 40 * 86400;
       capsuleType := ENCRYPTED; status := LOCKED;
       contentHash := keccak256 secret; contentRef := "QmTest123";
       recipients := []; isPublic := false |}.
Proof. vm_compute. reflexivity. Qed.

Lemma st_private_exists : exists_capsule st_private 1.
Proof. unfold exists_capsule. vm_compute. split; discriminate. Qed.

Lemma private_capsule_untouched_witness :
  capsuleAt
    (run st_private
       [ (env_at mallory 41, CallUnlock 1);
         (env_at mallory 42, CallReveal 1 secret "QmEvil");
         (env_at bob 43, CallReveal 1 secret "") ]) 1
  = capsuleAt st_private 1.
Proof.
  apply (private_capsule_untouched st_private).
  - exact st_private_exists.
  - rewrite st_private_capsule. reflexivity.
  - rewrite st_private_capsule. reflexivity.
  - rewrite st_private_capsule. repeat constructor; vm_compute; discriminate.
Defined.

(** X6 (when unlocking and revealing succeed). For an existing capsule,
    [unlockCapsule] succeeds exactly when the call carries no value, the
    unlock time has come and [canAccessCapsule] answers yes for the caller;
    [revealCapsule] succeeds exactly when, besides, the capsule is not yet
    REVEALED and the bytes presented hash to the stored [contentHash]. Asked
    without value, [canAccessCapsule] always answers yes for the owner, also
    before the unlock time. *)
Theorem unlock_and_reveal_conditions (env : Env) (st : Storage) (capsuleId : Z) :
  exists_capsule st capsuleId ->
  (succeeded (unlockCapsule env st capsuleId) = true
   <-> msg_value env = 0
       /\ block_timestamp env >= unlockTime (capsuleAt st capsuleId)
       /\ canAccessCapsule env st capsuleId (msg_sender env) = Success st true [])
  /\ (forall (m : list byte) (ref : string),
        succeeded (revealCapsule env st capsuleId m ref) = true
        <-> msg_value env = 0
            /\ block_timestamp env >= unlockTime (capsuleAt st capsuleId)
            /\ canAccessCapsule env st capsuleId (msg_sender env) = Success st true []
            /\ status (capsuleAt st capsuleId) <> REVEALED
            /\ keccak256 m = contentHash (capsuleAt st capsuleId))
  /\ (msg_value env = 0 ->
      canAccessCapsule env st capsuleId (owner (capsuleAt st capsuleId))
      = Success st true []).
Proof.
  intros Hex. unfold canAccessCapsule, unlockCapsule, revealCapsule, onlyUnlocked.
  destruct (msg_value env =? 0) eqn:Ev; cbn [negb].
  2:{ apply Z.eqb_neq in Ev. split; [|split].
      - split; [discriminate|intros [H _]; contradiction].
      - intros m ref. split; [discriminate|intros [H _]; contradiction].
      - intros H. contradiction. }
  apply Z.eqb_eq in Ev. rewrite (validCapsule_exists _ _ Hex).
  split; [|split].
  - destruct (block_timestamp env <? unlockTime (capsuleAt st capsuleId)) eqn:Et.
    + apply Z.ltb_lt in Et. simpl. split; [discriminate|intros (_ & H & _); lia].
    + apply Z.ltb_ge in Et.
      destruct (_canAccessCapsule env st capsuleId (msg_sender env)); simpl.
      * split; [intros _; split; [exact Ev|split; [lia|reflexivity]]|].
        intros _. destruct (status_eqb _ LOCKED); reflexivity.
      * split; [discriminate|intros (_ & _ & H); discriminate H].
  - intros m ref.
    destruct (block_timestamp env <? unlockTime (capsuleAt st capsuleId)) eqn:Et.
    + apply Z.ltb_lt in Et. simpl. split; [discriminate|intros (_ & H & _); lia].
    + apply Z.ltb_ge in Et.
      destruct (_canAccessCapsule env st capsuleId (msg_sender env)); simpl;
        [|split; [discriminate|intros (_ & _ & H & _); discriminate H]].
      destruct (status_eqb (status (capsuleAt st capsuleId)) REVEALED) eqn:Es.
      * apply status_eqb_eq in Es. simpl.
        split; [discriminate|intros (_ & _ & _ & H & _); contradiction].
      * apply status_eqb_neq in Es.
        destruct (keccak256 m =? contentHash (capsuleAt st capsuleId)) eqn:Eh; simpl.
        -- apply Z.eqb_eq in Eh. split; [|reflexivity].
           intros _. repeat split; try assumption. lia.
        -- apply Z.eqb_neq in Eh.
           split; [discriminate|intros (_ & _ & _ & _ & H); contradiction].
  - intros _. unfold _canAccessCapsule. rewrite Z.eqb_refl. reflexivity.
Qed.

Lemma unlock_and_reveal_conditions_witness :
  (succeeded (unlockCapsule (env_at mallory 41) st_private 1) = true
   <-> msg_value (env_at mallory 41) = 0
       /\ block_timestamp (env_at mallory 41) >= unlockTime (capsuleAt st_private 1)
       /\ canAccessCapsule (env_at mallory 41) st_private 1 mallory
          = Success st_private true [])
  /\ canAccessCapsule (env_at mallory 1) st_private 1 alice = Success st_private true []
  /\ succeeded (unlockCapsule (env_paying alice 1) st_private 1) = false.
Proof.
  destruct (unlock_and_reveal_conditions (env_at mallory 41) st_private 1 st_private_exists)
    as (Hu & _ & _).
  destruct (unlock_and_reveal_conditions (env_at mallory 1) st_private 1 st_private_exists)
    as (_ & _ & Ho).
  destruct (unlock_and_reveal_conditions (env_paying alice 1) st_private 1
              st_private_exists) as (Hv & _ & _).
  split; [exact Hu|]. split.
  - rewrite st_private_capsule in Ho. apply Ho. reflexivity.
  - destruct (succeeded (unlockCapsule (env_paying alice 1) st_private 1));
      [|reflexivity].
    destruct (proj1 Hv eq_refl) as [H _]. vm_compute in H. discriminate H.
Defined.

(** X7 (ids that do not exist). Id 0 and every id above [totalCapsules] name
    no capsule: [getCapsule], [canAccessCapsule], [unlockCapsule] and
    [revealCapsule] all fail, whoever calls and whenever, and called without
    value they revert with [CapsuleNotFound]. Every id from 1 to
    [totalCapsules] is answered by [getCapsule] with the stored record, locked
    or not. *)
Theorem unknown_ids_not_found :
  (forall (env : Env) (st : Storage) (capsuleId user : Z) (m : list byte) (ref : string),
      capsuleId = 0 \/ capsuleId > totalCapsules st ->
      getCapsule st capsuleId = Reverted CapsuleNotFound
      /\ succeeded (canAccessCapsule env st capsuleId user) = false
      /\ succeeded (unlockCapsule env st capsuleId) = false
      /\ succeeded (revealCapsule env st capsuleId m ref) = false
      /\ (msg_value env = 0 ->
          canAccessCapsule env st capsuleId user = Reverted CapsuleNotFound
          /\ unlockCapsule env st capsuleId = Reverted CapsuleNotFound
          /\ revealCapsule env st capsuleId m ref = Reverted CapsuleNotFound))
  /\ (forall (st : Storage) (capsuleId : Z),
        1 <= capsuleId <= totalCapsules st ->
        getCapsule st capsuleId = Success st (capsuleAt st capsuleId) []).
Proof.
  split.
  - intros env st capsuleId user m ref H.
    assert (Hv : validCapsule st capsuleId = Some CapsuleNotFound).
    { unfold validCapsule. unfold totalCapsules in H.
      destruct H as [->|H]; [reflexivity|].
      replace (capsuleId >? _capsuleCounter st) with true;
        [rewrite orb_true_r; reflexivity|].
      symmetry. rewrite Z.gtb_ltb. apply Z.ltb_lt. lia. }
    unfold getCapsule, canAccessCapsule, unlockCapsule, revealCapsule. rewrite Hv.
    destruct (msg_value env =? 0) eqn:Ev; cbn [negb succeeded].
    + repeat split.
    + apply Z.eqb_neq in Ev.
      split; [reflexivity|]. split; [reflexivity|]. split; [reflexivity|].
      split; [reflexivity|]. intros Hval. contradiction.
  - intros st capsuleId H. unfold getCapsule.
    rewrite (validCapsule_exists st capsuleId H). reflexivity.
Qed.

Lemma unknown_ids_not_found_witness :
  (getCapsule st_private 2 = Reverted CapsuleNotFound
   /\ canAccessCapsule (env_at alice 41) st_private 2 alice = Reverted CapsuleNotFound
   /\ unlockCapsule (env_at alice 41) st_private 2 = Reverted CapsuleNotFound
   /\ revealCapsule (env_at alice 41) st_private 2 secret "" = Reverted CapsuleNotFound)
  /\ getCapsule st_private 1 = Success st_private (capsuleAt st_private 1) [].
Proof.
  destruct unknown_ids_not_found as [Hmissing Hthere].
  split.
  - destruct (Hmissing (env_at alice 41) st_private 2 alice secret "")
      as (Hg & _ & _ & _ & Hrest); [right; vm_compute; reflexivity|].
    split; [exact Hg|]. apply Hrest. reflexivity.
  - apply Hthere. exact st_private_exists.
Defined.

(** X8 (the owner can always reveal). Whatever transactions anyone sends in
    between, a capsule whose [contentHash] is the hash of [m] is either
    REVEALED already, or its owner's [revealCapsule] with [m], sent without
    value at any time from [unlockTime] on, succeeds and leaves it REVEALED. *)
Theorem owner_can_always_reveal (st : Storage) (txs : list (Env * Call))
    (env : Env) (capsuleId : Z) (m : list byte) (ref : string) :
  msg_value env = 0 ->
  exists_capsule st capsuleId ->
  keccak256 m = contentHash (capsuleAt st capsuleId) ->
  msg_sender env = owner (capsuleAt st capsuleId) ->
  block_timestamp env >= unlockTime (capsuleAt st capsuleId) ->
  status (capsuleAt (run st txs) capsuleId) = REVEALED
  \/ exists st' log,
       revealCapsule env (run st txs) capsuleId m ref = Success st' tt log
       /\ status (capsuleAt st' capsuleId) = REVEALED.
Proof.
  intros Hval Hex Hhash Hown Htime.
  destruct (run_evolves txs st capsuleId Hex) as ((Ho & _ & Hu & _ & _ & _ & Hh) & _).
  assert (Hex' : exists_capsule (run st txs) capsuleId).
  { clear - Hex. revert st Hex. induction txs as [|tx txs IH]; intros st Hex; [exact Hex|].
    rewrite run_cons. apply IH. apply exec_evolves. exact Hex. }
  destruct (status_eqb (status (capsuleAt (run st txs) capsuleId)) REVEALED) eqn:Es.
  - left. apply status_eqb_eq. exact Es.
  - right. apply status_eqb_neq in Es.
    rewrite (reveal_outcome env (run st txs) capsuleId m ref Hval Hex').
    + replace (keccak256 m =? contentHash (capsuleAt (run st txs) capsuleId)) with true
        by (symmetry; apply Z.eqb_eq; congruence).
      eexists. eexists. split; [reflexivity|].
      rewrite capsuleAt_setCapsule_eq.
      destruct (Z.of_nat (String.length ref) >? 0); reflexivity.
    + rewrite Hu. exact Htime.
    + left. congruence.
    + exact Es.
Qed.

Lemma owner_can_always_reveal_witness :
  status (capsuleAt
            (run st_private
               [ (env_at mallory 41, CallUnlock 1);
                 (env_at the_treasury 42, CallSetProtocolFee 0) ]) 1) = REVEALED
  \/ exists st' log,
       revealCapsule (env_at alice 50)
         (run st_private
            [ (env_at mallory 41, CallUnlock 1);
              (env_at the_treasury 42, CallSetProtocolFee 0) ]) 1 secret "QmFinal"
       = Success st' tt log
       /\ status (capsuleAt st' 1) = REVEALED.
Proof.
  apply (owner_can_always_reveal st_private).
  - reflexivity.
  - exact st_private_exists.
  - rewrite st_private_capsule. reflexivity.
  - rewrite st_private_capsule. reflexivity.
  - rewrite st_private_capsule. vm_compute. discriminate.
Defined.

End LedgerProofs.

(** ** Addresses as strings *)

Module AddressProofs.
Import JS TimeCapsule Addresses EncodingProofs.

Lemma addressToString_shape (addr : Z) :
  _addressToString addr
  = String "0" (String "x"
      (hex_bytes (Z.land addr (2 ^ 160 - 1)) (map Z.of_nat (seq 0 20)))).
Proof.
  unfold _addressToString. cbv zeta.
  assert (H : forall (value : Z) (l : list Z),
             fold_right
               (fun i acc =>
                  String (alphabet_at (Z.shiftr (bytes32_at value (i + 12)) 4))
                    (String (alphabet_at (Z.land (bytes32_at value (i + 12)) 15)) acc))
               EmptyString l
             = hex_bytes value l).
  { intros value l. induction l as [|i l IH]; simpl; [reflexivity|].
    rewrite IH. reflexivity. }
  rewrite H. reflexivity.
Qed.

Lemma hex_digit_alphabet (n : Z) : 0 <= n < 16 -> Hex.hex_digit (alphabet_at n) = n.
Proof.
  intros H. apply Z.eqb_eq.
  apply (forall_range_sound (fun k => Hex.hex_digit (alphabet_at k) =? k) 0 16);
    [vm_compute; reflexivity|lia].
Qed.

Lemma alphabet_lower (n : Z) :
  0 <= n < 16 -> is_lower_hex (Z.of_N (N_of_ascii (alphabet_at n))) = true.
Proof.
  intros H.
  apply (forall_range_sound
           (fun k => is_lower_hex (Z.of_N (N_of_ascii (alphabet_at k)))) 0 16);
    [vm_compute; reflexivity|lia].
Qed.

Lemma bytes32_at_range (value j : Z) : 0 <= bytes32_at value j <= 255.
Proof.
  unfold bytes32_at. set (x := Z.shiftr value (8 * (31 - j))).
  replace (Z.land x 255) with (x mod 2 ^ 8)
    by (change 255 with (Z.ones 8); rewrite Z.land_ones by lia; reflexivity).
  pose proof (Z.mod_pos_bound x (2 ^ 8)). lia.
Qed.

Lemma high_nibble (b : Z) : 0 <= b <= 255 -> 0 <= Z.shiftr b 4 < 16 /\ Z.shiftr b 4 = b / 16.
Proof.
  intros H. rewrite Z.shiftr_div_pow2 by lia. change (2 ^ 4) with 16.
  split; [|reflexivity]. split.
  - apply Z.div_pos; lia.
  - apply Z.div_lt_upper_bound; lia.
Qed.

Lemma low_nibble (b : Z) : 0 <= Z.land b 15 < 16 /\ Z.land b 15 = b mod 16.
Proof.
  change 15 with (Z.ones 4). rewrite Z.land_ones by lia. change (2 ^ 4) with 16.
  split; [|reflexivity]. apply Z.mod_pos_bound. lia.
Qed.

Lemma js_String (a : ascii) (s : string) :
  js (String a s) = Z.of_N (N_of_ascii a) :: js s.
Proof. reflexivity. Qed.

Lemma hex_bytes_lower (value : Z) (idx : list Z) :
  forallb is_lower_hex (js (hex_bytes value idx)) = true.
Proof.
  induction idx as [|i idx IH]; [reflexivity|].
  cbn [hex_bytes]. rewrite !js_String. cbn [forallb]. rewrite IH.
  pose proof (bytes32_at_range value (i + 12)) as Hb.
  rewrite (alphabet_lower _ (proj1 (high_nibble _ Hb))).
  rewrite (alphabet_lower _ (proj1 (low_nibble (bytes32_at value (i + 12))))).
  reflexivity.
Qed.

Lemma hex_bytes_length (value : Z) (idx : list Z) :
  String.length (hex_bytes value idx) = (2 * length idx)%nat.
Proof. induction idx as [|i idx IH]; simpl; [reflexivity|]. rewrite IH. lia. Qed.

Lemma js_length (s : string) : length (js s) = String.length s.
Proof.
  unfold js. rewrite length_map.
  induction s as [|a s IH]; simpl; [reflexivity|]. rewrite IH. reflexivity.
Qed.

(** The byte written at index [k] of the loop. *)
Lemma bytes32_at_digit (value : Z) (k : nat) :
  (k < 20)%nat ->
  bytes32_at value (Z.of_nat k + 12) = (value / 256 ^ (19 - Z.of_nat k)) mod 256.
Proof.
  intros Hk. unfold bytes32_at. change 255 with (Z.ones 8). rewrite Z.land_ones by lia.
  rewrite Z.shiftr_div_pow2 by lia. change (2 ^ 8) with 256.
  replace (8 * (31 - (Z.of_nat k + 12))) with (8 * (19 - Z.of_nat k)) by lia.
  rewrite Z.pow_mul_r by lia. reflexivity.
Qed.

Lemma hex_value_bytes (value : Z) (n : nat) :
  forall (k : nat) (acc : Z),
    (k + n <= 20)%nat ->
    hex_value (hex_bytes value (map Z.of_nat (seq k n))) acc
    = acc * 256 ^ Z.of_nat n
      + (value / 256 ^ (20 - Z.of_nat k - Z.of_nat n)) mod 256 ^ Z.of_nat n.
Proof.
  induction n as [|n IH]; intros k acc Hk.
  - simpl. rewrite Z.mod_1_r. lia.
  - cbn [seq map hex_bytes hex_value].
    pose proof (bytes32_at_range value (Z.of_nat k + 12)) as Hb.
    destruct (high_nibble _ Hb) as [Hh1 Hh2].
    destruct (low_nibble (bytes32_at value (Z.of_nat k + 12))) as [Hl1 Hl2].
    rewrite (hex_digit_alphabet _ Hh1), (hex_digit_alphabet _ Hl1).
    rewrite IH by lia.
    set (b := bytes32_at value (Z.of_nat k + 12)) in *.
    assert (Hbyte : 16 * (16 * acc + Z.shiftr b 4) + Z.land b 15 = 256 * acc + b).
    { rewrite Hh2, Hl2. pose proof (Z.div_mod b 16). lia. }
    rewrite Hbyte.
    replace (20 - Z.of_nat (S k) - Z.of_nat n) with (20 - Z.of_nat k - Z.of_nat (S n)) by lia.
    set (e := 20 - Z.of_nat k - Z.of_nat (S n)).
    set (w := value / 256 ^ e).
    assert (He : 0 <= e) by (unfold e; lia).
    assert (Hpow : 0 < 256 ^ Z.of_nat n) by (apply Z.pow_pos_nonneg; lia).
    assert (Hb' : b = (w / 256 ^ Z.of_nat n) mod 256).
    { unfold b, w. rewrite bytes32_at_digit by lia.
      rewrite Z.div_div by (try apply Z.pow_pos_nonneg; lia).
      rewrite <- Z.pow_add_r by lia.
      replace (e + Z.of_nat n) with (19 - Z.of_nat k) by (unfold e; lia). reflexivity. }
    replace (Z.of_nat (S n)) with (Z.of_nat n + 1) by lia.
    rewrite Z.pow_add_r by lia. change (256 ^ 1) with 256.
    rewrite (Z.rem_mul_r w (256 ^ Z.of_nat n) 256) by lia.
    rewrite <- Hb'. lia.
Qed.

Lemma address_roundtrip (addr : Z) :
  address_of_string (_addressToString addr) = addr mod 2 ^ 160.
Proof.
  rewrite addressToString_shape. cbn [address_of_string].
  rewrite (hex_value_bytes _ 20 0 0) by lia.
  change (Z.of_nat 20) with 20. change (Z.of_nat 0) with 0.
  change (20 - 0 - 20) with 0. rewrite Z.pow_0_r, Z.div_1_r.
  change (2 ^ 160 - 1) with (Z.ones 160). rewrite Z.land_ones by lia.
  change (256 ^ 20) with (2 ^ 160). rewrite Z.mod_mod by lia. lia.
Qed.

(** X9 (address strings). [_addressToString] writes 42 characters, and the
    forty digits after the prefix spell the address again: two different
    160-bit addresses never get the same string, so a recipient entry names
    at most one address. *)
Theorem address_string_roundtrip :
  (forall addr : Z,
      String.length (_addressToString addr) = 42%nat
      /\ address_of_string (_addressToString addr) = addr mod 2 ^ 160)
  /\ (forall a b : Z,
        0 <= a < 2 ^ 160 -> 0 <= b < 2 ^ 160 ->
        _addressToString a = _addressToString b -> a = b).
Proof.
  split.
  - intros addr. split; [|apply address_roundtrip].
    rewrite addressToString_shape. cbn [String.length].
    rewrite hex_bytes_length. reflexivity.
  - intros a b Ha Hb H.
    pose proof (address_roundtrip a) as Ra. pose proof (address_roundtrip b) as Rb.
    rewrite H in Ra. rewrite Ra in Rb.
    rewrite (Z.mod_small a), (Z.mod_small b) in Rb by lia. exact Rb.
Qed.

Lemma address_string_roundtrip_witness :
  address_of_string (_addressToString the_treasury) = the_treasury
  /\ _addressToString alice <> _addressToString bob.
Proof.
  destruct address_string_roundtrip as [Hround Hinj].
  split.
  - rewrite (proj2 (Hround the_treasury)). vm_compute. reflexivity.
  - intros H. apply Hinj in H; [discriminate H| |];
      vm_compute; split; (discriminate || reflexivity).
Defined.

Lemma upper_not_lower (c : Z) : is_upper_hex c = true -> is_lower_hex c = false.
Proof.
  unfold is_upper_hex, is_lower_hex. intros H.
  apply andb_true_iff in H. destruct H as [H1 H2].
  apply Z.leb_le in H1. apply Z.leb_le in H2.
  replace (c <=? 57) with false by (symmetry; apply Z.leb_gt; lia).
  replace (97 <=? c) with false by (symmetry; apply Z.leb_gt; lia).
  rewrite andb_false_r. reflexivity.
Qed.

Lemma lower_is_hex (c : Z) : is_lower_hex c = true -> is_hex_digit c = true.
Proof.
  unfold is_lower_hex, is_hex_digit. intros H.
  apply orb_true_iff in H. destruct H as [H|H]; rewrite H; [reflexivity|].
  rewrite orb_true_r. reflexivity.
Qed.

Lemma forallb_impl {A : Type} (f g : A -> bool) (l : list A) :
  (forall x, f x = true -> g x = true) -> forallb f l = true -> forallb g l = true.
Proof.
  intros Himp. induction l as [|x l IH]; simpl; [reflexivity|].
  intros H. apply andb_true_iff in H. destruct H as [H1 H2].
  rewrite (Himp x H1), (IH H2). reflexivity.
Qed.

Lemma lower_no_upper (l : list Z) :
  forallb is_lower_hex l = true -> existsb is_upper_hex l = false.
Proof.
  induction l as [|c l IH]; simpl; [reflexivity|].
  intros H. apply andb_true_iff in H. destruct H as [H1 H2].
  rewrite (IH H2). destruct (is_upper_hex c) eqn:E; [|reflexivity].
  rewrite (upper_not_lower c E) in H1. discriminate H1.
Qed.

(** X10 (the page's address check and the contract's strings). Every string
    the contract writes for an address passes the creation page's
    [isValidAddress]. The page also accepts the forms with upper-case
    digits, as wallets display checksummed addresses, but the contract
    writes none of them: such a recipient entry is not the string of any
    address. *)
Theorem valid_address_and_ledger_string :
  (forall addr : Z, isValidAddress (js (_addressToString addr)) = true)
  /\ (forall address : list Z,
        isValidAddress address = true ->
        existsb is_upper_hex address = true ->
        forall addr : Z, js (_addressToString addr) <> address).
Proof.
  split.
  - intros addr. rewrite addressToString_shape. rewrite !js_String.
    change (Z.of_N (N_of_ascii "0")) with 48. change (Z.of_N (N_of_ascii "x")) with 120.
    cbn [isValidAddress]. rewrite js_length, hex_bytes_length. cbn [length map seq].
    change (2 * 20 =? 40)%nat with true. cbn [andb].
    apply (forallb_impl is_lower_hex); [exact lower_is_hex|apply hex_bytes_lower].
  - intros address _ Hup addr Heq. subst address.
    rewrite addressToString_shape, !js_String in Hup.
    cbn [existsb] in Hup.
    rewrite (lower_no_upper _ (hex_bytes_lower _ _)) in Hup.
    vm_compute in Hup. discriminate Hup.
Qed.

Lemma valid_address_and_ledger_string_witness :
  isValidAddress checksummed = true
  /\ existsb is_upper_hex checksummed = true
  /\ js (_addressToString the_treasury) <> checksummed
  /\ unlockCapsule (env_at the_treasury 41) st_checksummed 1
     = Reverted UnauthorizedAccess.
Proof.
  assert (Hv : isValidAddress checksummed = true) by (vm_compute; reflexivity).
  assert (Hu : existsb is_upper_hex checksummed = true) by (vm_compute; reflexivity).
  split; [exact Hv|]. split; [exact Hu|]. split.
  - exact (proj2 valid_address_and_ledger_string checksummed Hv Hu the_treasury).
  - vm_compute. reflexivity.
Defined.

(** *** The recipients of the creation page *)

Lemma jsstring_eqb_iff (a b : list Z) : jsstring_eqb a b = true <-> a = b.
Proof. unfold jsstring_eqb. destruct (decide (a = b)); split; congruence. Qed.

Lemma existsb_eqb_In (a : list Z) (l : list (list Z)) :
  existsb (jsstring_eqb a) l = false <-> ~ In a l.
Proof.
  induction l as [|b l IH]; simpl; [tauto|].
  rewrite orb_false_iff, IH. split.
  - intros [H1 H2] [E|Hin]; [|contradiction].
    subst b. rewrite (proj2 (jsstring_eqb_iff a a) eq_refl) in H1. discriminate H1.
  - intros H. split; [|tauto].
    destruct (jsstring_eqb a b) eqn:E; [|reflexivity].
    apply jsstring_eqb_iff in E. exfalso. apply H. left. congruence.
Qed.

(** X11 (recipient list). [addRecipient] either refuses the entry and makes
    no update, or appends to the current list one address that passes
    [isValidAddress] and was not in the list the page showed when the call
    was made: a list of valid addresses stays one, always, and a list of
    distinct addresses stays one when no other update came between the test
    and the append. Two calls made from the same render for the same entry
    both pass the test and list the address twice. [removeRecipient] leaves
    no copy of the address removed and keeps the rest valid and distinct. *)
Theorem recipients_stay_valid :
  (forall (rendered prev : list (list Z)) (newRecipient : list Z)
          (resolved : option (list Z)) (recipients' : list (list Z)),
      addRecipient rendered prev newRecipient resolved = Some recipients' ->
      exists address,
        recipients' = prev ++ [address]
        /\ isValidAddress address = true /\ ~ In address rendered
        /\ (forallb isValidAddress prev = true ->
            forallb isValidAddress recipients' = true)
        /\ (prev = rendered -> NoDup rendered -> NoDup recipients')
        /\ addRecipient rendered recipients' newRecipient resolved
           = Some (prev ++ [address; address]))
  /\ (forall (recipients : list (list Z)) (address : list Z),
        ~ In address (removeRecipient recipients address)
        /\ (NoDup recipients -> NoDup (removeRecipient recipients address))
        /\ (forallb isValidAddress recipients = true ->
            forallb isValidAddress (removeRecipient recipients address) = true)).
Proof.
  split.
  - intros rendered prev newRecipient resolved recipients'. unfold addRecipient.
    destruct (trim newRecipient) as [|c rest]; [discriminate|].
    set (entered := c :: rest).
    assert (Hcase : forall address,
               (if negb (isValidAddress address) then None
                else if existsb (jsstring_eqb address) rendered then None
                     else Some (prev ++ [address])) = Some recipients' ->
               exists address0,
                 recipients' = prev ++ [address0]
                 /\ isValidAddress address0 = true /\ ~ In address0 rendered
                 /\ (forallb isValidAddress prev = true ->
                     forallb isValidAddress recipients' = true)
                 /\ (prev = rendered -> NoDup rendered -> NoDup recipients')
                 /\ (if negb (isValidAddress address) then None
                     else if existsb (jsstring_eqb address) rendered then None
                          else Some (recipients' ++ [address]))
                    = Some (prev ++ [address0; address0])).
    { intros address H.
      destruct (isValidAddress address) eqn:Ev; simpl in H; [|discriminate H].
      destruct (existsb (jsstring_eqb address) rendered) eqn:Ee; [discriminate H|].
      injection H as <-. pose proof (proj1 (existsb_eqb_In _ _) Ee) as Hin.
      exists address. split; [reflexivity|]. split; [exact Ev|]. split; [exact Hin|].
      split; [|split].
      - intros Hall. rewrite forallb_app, Hall. simpl. rewrite Ev. reflexivity.
      - intros -> Hnd. apply NoDup_app. split; [exact Hnd|].
        split; [|apply NoDup_singleton].
        intros x Hx Hk. apply list_elem_of_In in Hx. apply list_elem_of_In in Hk.
        destruct Hk as [<-|[]]. contradiction.
      - cbn [negb]. rewrite <- app_assoc. reflexivity. }
    destruct (isValidEnsName entered).
    + destruct resolved as [[|d a]|]; try discriminate. apply Hcase.
    + apply Hcase.
  - intros recipients address. unfold removeRecipient. split; [|split].
    + intros Hin. apply filter_In in Hin. destruct Hin as [_ H].
      rewrite (proj2 (jsstring_eqb_iff address address) eq_refl) in H. discriminate H.
    + intros Hnd. apply NoDup_ListNoDup. apply List.NoDup_filter.
      apply NoDup_ListNoDup. exact Hnd.
    + intros Hall. rewrite forallb_forall in *. intros x Hx.
      apply filter_In in Hx. apply Hall. tauto.
Qed.

Lemma recipients_stay_valid_witness :
  exists address,
    addRecipient [js (_addressToString alice)] [js (_addressToString alice)]
      (js "  " ++ checksummed ++ js " ") None
    = Some ([js (_addressToString alice)] ++ [address])
    /\ isValidAddress address = true
    /\ addRecipient [js (_addressToString alice)]
         ([js (_addressToString alice)] ++ [address])
         (js "  " ++ checksummed ++ js " ") None
       = Some ([js (_addressToString alice)] ++ [address; address]).
Proof.
  destruct (proj1 recipients_stay_valid [js (_addressToString alice)]
              [js (_addressToString alice)]
              (js "  " ++ checksummed ++ js " ") None
              [js (_addressToString alice); checksummed])
    as (address & Heq & Hv & _ & _ & _ & Htwice).
  - vm_compute. reflexivity.
  - exists address. split; [|split; [exact Hv|]].
    + rewrite <- Heq. vm_compute. reflexivity.
    + rewrite <- Heq. exact Htwice.
Defined.

End AddressProofs.

(** ** Base64 *)

Module Base64Proofs.
Import JS Kit Encoding EncodingProofs BrowserBuffer.

Lemma list3_ind {A : Type} (P : list A -> Prop) :
  P [] -> (forall a, P [a]) -> (forall a b, P [a; b]) ->
  (forall a b c l, P l -> P (a :: b :: c :: l)) ->
  forall l, P l.
Proof.
  intros H0 H1 H2 H3 l.
  assert (H : P l /\ (forall a, P (a :: l)) /\ (forall a b, P (a :: b :: l))).
  { induction l as [|x l (Ha & Hb & Hc)].
    - split; [exact H0|]. split; [exact H1|exact H2].
    - split; [apply Hb|]. split; [intros a; apply Hc|]. intros a b. apply H3. exact Ha. }
  exact (proj1 H).
Qed.

(** *** Bits *)

Lemma small_bits_above (x k n : Z) :
  0 <= x < 2 ^ k -> k <= n -> Z.testbit x n = false.
Proof.
  intros Hx Hn. destruct (Z.eq_dec x 0) as [->|Hne]; [apply Z.bits_0|].
  apply Z.bits_above_log2; [lia|].
  assert (Z.log2 x < k) by (apply Z.log2_lt_pow2; lia). lia.
Qed.

Lemma lor_shiftl_add (h x k : Z) :
  0 <= k -> 0 <= x < 2 ^ k -> Z.lor (Z.shiftl h k) x = h * 2 ^ k + x.
Proof.
  intros Hk Hx. rewrite Z.shiftl_mul_pow2 by lia.
  assert (Hdisj : Z.land (h * 2 ^ k) x = 0).
  { apply Z.bits_inj'. intros n Hn. rewrite Z.land_spec, Z.bits_0.
    destruct (Z.lt_ge_cases n k) as [Hlo|Hhi].
    - rewrite Z.mul_pow2_bits_low by lia. reflexivity.
    - rewrite (small_bits_above x k n Hx Hhi). apply andb_false_r. }
  rewrite <- Z.lxor_lor by exact Hdisj. symmetry. apply Z.add_nocarry_lxor. exact Hdisj.
Qed.

Lemma land_63 (x : Z) : Z.land x 63 = x mod 64.
Proof. change 63 with (Z.ones 6). rewrite Z.land_ones by lia. reflexivity. Qed.

Lemma land_255 (x : Z) : Z.land x 255 = x mod 256.
Proof. change 255 with (Z.ones 8). rewrite Z.land_ones by lia. reflexivity. Qed.

(** Three bytes joined, as [btoa] does. *)
Lemma join3 (a b c : Z) :
  in_byte a -> in_byte b -> in_byte c ->
  Z.lor (Z.shiftl a 16) (Z.lor (Z.shiftl b 8) c) = a * 65536 + b * 256 + c.
Proof.
  unfold in_byte. intros Ha Hb Hc.
  rewrite (lor_shiftl_add b c 8) by lia.
  rewrite (lor_shiftl_add a _ 16) by lia. lia.
Qed.

Lemma join2 (a b : Z) :
  in_byte a -> in_byte b ->
  Z.lor (Z.shiftl a 16) (Z.shiftl b 8) = a * 65536 + b * 256.
Proof.
  unfold in_byte. intros Ha Hb.
  rewrite (Z.shiftl_mul_pow2 b 8) by lia.
  rewrite (lor_shiftl_add a _ 16) by lia. lia.
Qed.

(** Four sextets joined, as [atob] does. *)
Lemma join4 (s1 s2 s3 s4 : Z) :
  0 <= s2 < 64 -> 0 <= s3 < 64 -> 0 <= s4 < 64 ->
  Z.lor (Z.shiftl s1 18) (Z.lor (Z.shiftl s2 12) (Z.lor (Z.shiftl s3 6) s4))
  = s1 * 262144 + s2 * 4096 + s3 * 64 + s4.
Proof.
  intros H2 H3 H4.
  rewrite (lor_shiftl_add s3 s4 6) by lia.
  rewrite (lor_shiftl_add s2 _ 12) by lia.
  rewrite (lor_shiftl_add s1 _ 18) by lia. lia.
Qed.

(** *** The alphabet *)

Lemma base64_index_char (v : Z) : 0 <= v < 64 -> base64_index (base64_char v) = Some v.
Proof.
  intros H.
  pose proof (forall_range_sound
                (fun v => match base64_index (base64_char v) with
                          | Some w => w =? v
                          | None => false
                          end) 0 64 eq_refl v ltac:(lia)) as E.
  simpl in E. destruct (base64_index (base64_char v)) as [w|]; [|discriminate E].
  apply Z.eqb_eq in E. congruence.
Qed.

Lemma base64_char_range (v : Z) :
  0 <= v < 64 -> 0x2B <= base64_char v <= 0x7A /\ base64_char v <> 0x3D.
Proof.
  intros H.
  pose proof (forall_range_sound
                (fun v => (0x2B <=? base64_char v) && (base64_char v <=? 0x7A)
                          && negb (base64_char v =? 0x3D)) 0 64 eq_refl v ltac:(lia)) as E.
  simpl in E. apply andb_true_iff in E. destruct E as [E E3].
  apply andb_true_iff in E. destruct E as [E1 E2].
  apply Z.leb_le in E1. apply Z.leb_le in E2. apply negb_true_iff in E3.
  apply Z.eqb_neq in E3. lia.
Qed.

Lemma is_base64_char_char (v : Z) : 0 <= v < 64 -> is_base64_char (base64_char v) = true.
Proof. intros H. unfold is_base64_char. rewrite (base64_index_char v H). reflexivity. Qed.

Lemma is_base64_char_range (c : Z) : is_base64_char c = true -> 0x2B <= c <= 0x7A /\ c <> 0x3D.
Proof.
  unfold is_base64_char, base64_index.
  destruct ((0x41 <=? c) && (c <=? 0x5A)) eqn:E1.
  { apply andb_true_iff in E1. destruct E1 as [A B].
    apply Z.leb_le in A. apply Z.leb_le in B. intros _. lia. }
  destruct ((0x61 <=? c) && (c <=? 0x7A)) eqn:E2.
  { apply andb_true_iff in E2. destruct E2 as [A B].
    apply Z.leb_le in A. apply Z.leb_le in B. intros _. lia. }
  destruct ((0x30 <=? c) && (c <=? 0x39)) eqn:E3.
  { apply andb_true_iff in E3. destruct E3 as [A B].
    apply Z.leb_le in A. apply Z.leb_le in B. intros _. lia. }
  destruct (c =? 0x2B) eqn:E4; [apply Z.eqb_eq in E4; intros _; lia|].
  destruct (c =? 0x2F) eqn:E5; [apply Z.eqb_eq in E5; intros _; lia|].
  discriminate.
Qed.

Lemma text_not_whitespace (c : Z) :
  0x2B <= c <= 0x7A -> is_whitespace c = false /\ is_ascii_whitespace c = false.
Proof.
  intros H. unfold is_whitespace, is_ascii_whitespace.
  repeat match goal with
         | |- context [?a =? ?b] =>
             replace (a =? b) with false by (symmetry; apply Z.eqb_neq; lia)
         end.
  replace (c <=? 0x200A) with true by (symmetry; apply Z.leb_le; lia).
  replace (0x2000 <=? c) with false by (symmetry; apply Z.leb_gt; lia).
  split; reflexivity.
Qed.

Lemma is_base64_text_range (c : Z) : is_base64_text c = true -> 0x2B <= c <= 0x7A.
Proof.
  unfold is_base64_text. intros H. apply orb_true_iff in H. destruct H as [H|H].
  - apply is_base64_char_range in H. lia.
  - apply Z.eqb_eq in H. lia.
Qed.

(** *** Strings without white space *)

Lemma filter_id {A : Type} (f : A -> bool) (l : list A) :
  forallb f l = true -> List.filter f l = l.
Proof.
  induction l as [|x l IH]; simpl; [reflexivity|].
  intros H. apply andb_true_iff in H. destruct H as [H1 H2].
  rewrite H1, (IH H2). reflexivity.
Qed.

Lemma drop_while_id (f : Z -> bool) (s : list Z) :
  forallb (fun c => negb (f c)) s = true -> drop_while f s = s.
Proof.
  destruct s as [|c s]; simpl; [reflexivity|].
  intros H. apply andb_true_iff in H. destruct H as [H1 _].
  apply negb_true_iff in H1. rewrite H1. reflexivity.
Qed.

Lemma forallb_rev {A : Type} (f : A -> bool) (l : list A) :
  forallb f (rev l) = forallb f l.
Proof.
  induction l as [|x l IH]; simpl; [reflexivity|].
  rewrite forallb_app, IH. simpl. rewrite andb_true_r. apply andb_comm.
Qed.

Lemma trim_id (s : list Z) :
  forallb (fun c => negb (is_whitespace c)) s = true -> trim s = s.
Proof.
  intros H. unfold trim. rewrite (drop_while_id _ s H).
  rewrite drop_while_id by (rewrite forallb_rev; exact H). apply rev_involutive.
Qed.

Lemma text_clean (s : list Z) :
  forallb is_base64_text s = true ->
  remove_whitespace (trim s) = s
  /\ List.filter (fun c => negb (is_ascii_whitespace c)) s = s.
Proof.
  intros H.
  assert (H1 : forallb (fun c => negb (is_whitespace c)) s = true).
  { apply forallb_forall. intros c Hc.
    rewrite forallb_forall in H. specialize (H c Hc).
    rewrite (proj1 (text_not_whitespace c (is_base64_text_range c H))). reflexivity. }
  assert (H2 : forallb (fun c => negb (is_ascii_whitespace c)) s = true).
  { apply forallb_forall. intros c Hc.
    rewrite forallb_forall in H. specialize (H c Hc).
    rewrite (proj2 (text_not_whitespace c (is_base64_text_range c H))). reflexivity. }
  split.
  - rewrite (trim_id s H1). apply filter_id. exact H1.
  - apply filter_id. exact H2.
Qed.

(** *** The shape of an encoding *)

Lemma btoa_split (bs : list Z) : btoa bs = btoa_unpadded bs ++ btoa_padding bs.
Proof.
  induction bs as [| a | a b | a b c l IH] using list3_ind; try reflexivity.
  cbn [btoa btoa_unpadded btoa_padding]. rewrite IH. reflexivity.
Qed.

Lemma sextet_ranges (n : Z) :
  0 <= n < 2 ^ 24 ->
  0 <= Z.shiftr n 18 < 64 /\ 0 <= Z.land (Z.shiftr n 12) 63 < 64
  /\ 0 <= Z.land (Z.shiftr n 6) 63 < 64 /\ 0 <= Z.land n 63 < 64.
Proof.
  intros H. rewrite !land_63, !Z.shiftr_div_pow2 by lia.
  change (2 ^ 18) with 262144. change (2 ^ 24) with 16777216 in H.
  repeat split; try (apply Z.mod_pos_bound; lia).
  - apply Z.div_pos; lia.
  - apply Z.div_lt_upper_bound; lia.
Qed.

Lemma join3_range (a b c : Z) :
  in_byte a -> in_byte b -> in_byte c ->
  0 <= Z.lor (Z.shiftl a 16) (Z.lor (Z.shiftl b 8) c) < 2 ^ 24.
Proof. intros Ha Hb Hc. rewrite join3 by assumption. unfold in_byte in *. lia. Qed.

Lemma join2_range (a b : Z) :
  in_byte a -> in_byte b -> 0 <= Z.lor (Z.shiftl a 16) (Z.shiftl b 8) < 2 ^ 24.
Proof. intros Ha Hb. rewrite join2 by assumption. unfold in_byte in *. lia. Qed.

Lemma join1_range (a : Z) : in_byte a -> 0 <= Z.shiftl a 16 < 2 ^ 24.
Proof. intros Ha. rewrite Z.shiftl_mul_pow2 by lia. unfold in_byte in *. lia. Qed.

Lemma unpadded_chars (bs : list Z) :
  Forall in_byte bs -> forallb is_base64_char (btoa_unpadded bs) = true.
Proof.
  induction bs as [| a | a b | a b c l IH] using list3_ind; intros Hall.
  - reflexivity.
  - inversion Hall as [|? ? Ha _]; subst.
    destruct (sextet_ranges _ (join1_range a Ha)) as (R1 & R2 & _).
    cbn [btoa_unpadded forallb].
    rewrite (is_base64_char_char _ R1), (is_base64_char_char _ R2). reflexivity.
  - inversion Hall as [|? ? Ha Hall']; subst. inversion Hall' as [|? ? Hb _]; subst.
    destruct (sextet_ranges _ (join2_range a b Ha Hb)) as (R1 & R2 & R3 & _).
    cbn [btoa_unpadded forallb].
    rewrite (is_base64_char_char _ R1), (is_base64_char_char _ R2),
      (is_base64_char_char _ R3). reflexivity.
  - inversion Hall as [|? ? Ha Hall']; subst. inversion Hall' as [|? ? Hb Hall'']; subst.
    inversion Hall'' as [|? ? Hc Hl]; subst.
    destruct (sextet_ranges _ (join3_range a b c Ha Hb Hc)) as (R1 & R2 & R3 & R4).
    cbn [btoa_unpadded forallb].
    rewrite (is_base64_char_char _ R1), (is_base64_char_char _ R2),
      (is_base64_char_char _ R3), (is_base64_char_char _ R4), (IH Hl). reflexivity.
Qed.

Lemma padding_cases (bs : list Z) :
  (btoa_padding bs = [] /\ Z.of_nat (length (btoa_unpadded bs)) mod 4 = 0)
  \/ (btoa_padding bs = [0x3D] /\ Z.of_nat (length (btoa_unpadded bs)) mod 4 = 3)
  \/ (btoa_padding bs = [0x3D; 0x3D] /\ Z.of_nat (length (btoa_unpadded bs)) mod 4 = 2).
Proof.
  induction bs as [| a | a b | a b c l IH] using list3_ind.
  - left. split; reflexivity.
  - right. right. split; reflexivity.
  - right. left. split; reflexivity.
  - cbn [btoa_padding btoa_unpadded length].
    replace (Z.of_nat (S (S (S (S (length (btoa_unpadded l)))))))
      with (Z.of_nat (length (btoa_unpadded l)) + 1 * 4) by lia.
    rewrite Z.mod_add by lia. exact IH.
Qed.

Lemma btoa_length (bs : list Z) : Z.of_nat (length (btoa bs)) mod 4 = 0.
Proof.
  rewrite btoa_split, length_app, Nat2Z.inj_add.
  destruct (padding_cases bs) as [[-> H]|[[-> H]|[-> H]]]; cbn [length];
    rewrite Z.add_mod, H by lia; reflexivity.
Qed.

Lemma drop_while_app (f : Z -> bool) (u v : list Z) :
  forallb f u = true -> drop_while f (u ++ v) = drop_while f v.
Proof.
  induction u as [|c u IH]; simpl; [reflexivity|].
  intros H. apply andb_true_iff in H. destruct H as [H1 H2].
  rewrite H1. apply IH. exact H2.
Qed.

Lemma btoa_format (bs : list Z) : Forall in_byte bs -> base64_format (btoa bs) = true.
Proof.
  intros Hall. unfold base64_format.
  rewrite btoa_split, (drop_while_app _ _ _ (unpadded_chars bs Hall)).
  destruct (padding_cases bs) as [[-> _]|[[-> _]|[-> _]]]; reflexivity.
Qed.

Lemma btoa_text (bs : list Z) : Forall in_byte bs -> forallb is_base64_text (btoa bs) = true.
Proof.
  intros Hall. rewrite btoa_split, forallb_app. apply andb_true_iff. split.
  - apply forallb_forall. intros c Hc.
    pose proof (unpadded_chars bs Hall) as H. rewrite forallb_forall in H.
    unfold is_base64_text. rewrite (H c Hc). reflexivity.
  - destruct (padding_cases bs) as [[-> _]|[[-> _]|[-> _]]]; reflexivity.
Qed.

(** The last character before the padding is not [=]. *)
Lemma unpadded_last (bs : list Z) (c : Z) (r : list Z) :
  Forall in_byte bs -> rev (btoa_unpadded bs) = c :: r -> c <> 0x3D.
Proof.
  intros Hall Hrev.
  pose proof (unpadded_chars bs Hall) as H. rewrite <- forallb_rev, Hrev in H.
  simpl in H. apply andb_true_iff in H. destruct H as [H _].
  apply is_base64_char_range in H. lia.
Qed.

Lemma not_pad_match {A : Type} (c : Z) (r : list Z) (z : A) (f g : list Z -> A) :
  c <> 0x3D ->
  match c :: r with
  | 0x3D :: 0x3D :: r' => f r'
  | 0x3D :: r' => g r'
  | _ => z
  end = z.
Proof.
  intros Hc. destruct c as [|p|p]; try reflexivity.
  do 6 (destruct p as [p|p|]; try reflexivity).
  exfalso. apply Hc. reflexivity.
Qed.

Lemma strip_padding_btoa (bs : list Z) :
  Forall in_byte bs -> strip_padding (btoa bs) = btoa_unpadded bs.
Proof.
  intros Hall. unfold strip_padding.
  rewrite (btoa_length bs). change (0 =? 0) with true. cbv iota.
  rewrite btoa_split, rev_app_distr.
  destruct (rev (btoa_unpadded bs)) as [|c r] eqn:Er.
  - assert (Hnil : btoa_unpadded bs = []).
    { rewrite <- (rev_involutive (btoa_unpadded bs)), Er. reflexivity. }
    rewrite Hnil.
    destruct (padding_cases bs) as [[-> _]|[[_ H]|[_ H]]];
      [reflexivity | rewrite Hnil in H; discriminate H | rewrite Hnil in H; discriminate H].
  - pose proof (unpadded_last bs c r Hall Er) as Hc.
    assert (Hu : rev (c :: r) = btoa_unpadded bs).
    { rewrite <- Er. apply rev_involutive. }
    destruct (padding_cases bs) as [[-> _]|[[-> _]|[-> _]]]; cbn [rev app].
    + rewrite (not_pad_match c r _ (fun r' => rev r') (fun r' => rev r') Hc).
      rewrite app_nil_r. reflexivity.
    + destruct c as [|p|p]; try exact Hu.
      do 6 (destruct p as [p|p|]; try exact Hu).
      exfalso. apply Hc. reflexivity.
    + exact Hu.
Qed.

(** *** Decoding what was encoded *)

Lemma decode_three (a b c : Z) :
  in_byte a -> in_byte b -> in_byte c ->
  let n := Z.lor (Z.shiftl a 16) (Z.lor (Z.shiftl b 8) c) in
  let m := Z.lor (Z.shiftl (Z.shiftr n 18) 18)
             (Z.lor (Z.shiftl (Z.land (Z.shiftr n 12) 63) 12)
                (Z.lor (Z.shiftl (Z.land (Z.shiftr n 6) 63) 6) (Z.land n 63))) in
  Z.shiftr m 16 = a /\ Z.land (Z.shiftr m 8) 255 = b /\ Z.land m 255 = c.
Proof.
  intros Ha Hb Hc n m.
  destruct (sextet_ranges n (join3_range a b c Ha Hb Hc)) as (R1 & R2 & R3 & R4).
  assert (Hm : m = n).
  { unfold m. rewrite join4 by assumption.
    rewrite !land_63, !Z.shiftr_div_pow2 by lia.
    change (2 ^ 18) with 262144. change (2 ^ 12) with 4096. change (2 ^ 6) with 64.
    Z.div_mod_to_equations. lia. }
  rewrite Hm. unfold n. rewrite join3 by assumption.
  rewrite !land_255, !Z.shiftr_div_pow2 by lia.
  change (2 ^ 16) with 65536. change (2 ^ 8) with 256.
  unfold in_byte in *. repeat split; Z.div_mod_to_equations; lia.
Qed.

Lemma decode_two (a b : Z) :
  in_byte a -> in_byte b ->
  let n := Z.lor (Z.shiftl a 16) (Z.shiftl b 8) in
  let m := Z.shiftr
             (Z.lor (Z.shiftl (Z.shiftr n 18) 12)
                (Z.lor (Z.shiftl (Z.land (Z.shiftr n 12) 63) 6)
                   (Z.land (Z.shiftr n 6) 63))) 2 in
  Z.shiftr m 8 = a /\ Z.land m 255 = b.
Proof.
  intros Ha Hb n m.
  destruct (sextet_ranges n (join2_range a b Ha Hb)) as (R1 & R2 & R3 & _).
  unfold m. rewrite (lor_shiftl_add _ (Z.land (Z.shiftr n 6) 63) 6) by lia.
  rewrite (lor_shiftl_add (Z.shiftr n 18) _ 12) by lia.
  unfold n. rewrite join2 by assumption.
  rewrite !land_63, !land_255, !Z.shiftr_div_pow2 by lia.
  change (2 ^ 18) with 262144. change (2 ^ 12) with 4096. change (2 ^ 6) with 64.
  change (2 ^ 8) with 256. change (2 ^ 2) with 4.
  unfold in_byte in *. split; Z.div_mod_to_equations; lia.
Qed.

Lemma decode_one (a : Z) :
  in_byte a ->
  let n := Z.shiftl a 16 in
  Z.shiftr (Z.lor (Z.shiftl (Z.shiftr n 18) 6) (Z.land (Z.shiftr n 12) 63)) 4 = a.
Proof.
  intros Ha n.
  destruct (sextet_ranges n (join1_range a Ha)) as (R1 & R2 & _).
  rewrite (lor_shiftl_add (Z.shiftr n 18) _ 6) by lia.
  unfold n. rewrite Z.shiftl_mul_pow2 by lia.
  rewrite !land_63, !Z.shiftr_div_pow2 by lia.
  change (2 ^ 18) with 262144. change (2 ^ 12) with 4096. change (2 ^ 6) with 64.
  change (2 ^ 16) with 65536. change (2 ^ 4) with 16.
  unfold in_byte in *. Z.div_mod_to_equations. lia.
Qed.

Lemma decode_unpadded (bs : list Z) :
  Forall in_byte bs ->
  exists vs, sextets (btoa_unpadded bs) = Some vs /\ decode_sextets vs = bs.
Proof.
  induction bs as [| a | a b | a b c l IH] using list3_ind; intros Hall.
  - exists []. split; reflexivity.
  - inversion Hall as [|? ? Ha _]; subst.
    destruct (sextet_ranges _ (join1_range a Ha)) as (R1 & R2 & _).
    eexists. cbn [btoa_unpadded sextets].
    rewrite (base64_index_char _ R1), (base64_index_char _ R2).
    split; [reflexivity|]. cbn [decode_sextets]. rewrite (decode_one a Ha). reflexivity.
  - inversion Hall as [|? ? Ha Hall']; subst. inversion Hall' as [|? ? Hb _]; subst.
    destruct (sextet_ranges _ (join2_range a b Ha Hb)) as (R1 & R2 & R3 & _).
    eexists. cbn [btoa_unpadded sextets].
    rewrite (base64_index_char _ R1), (base64_index_char _ R2), (base64_index_char _ R3).
    split; [reflexivity|]. cbn [decode_sextets].
    destruct (decode_two a b Ha Hb) as [E1 E2]. cbv zeta in E1, E2.
    rewrite E1, E2. reflexivity.
  - inversion Hall as [|? ? Ha Hall']; subst. inversion Hall' as [|? ? Hb Hall'']; subst.
    inversion Hall'' as [|? ? Hc Hl]; subst.
    destruct (IH Hl) as (vs & Hs & Hd).
    destruct (sextet_ranges _ (join3_range a b c Ha Hb Hc)) as (R1 & R2 & R3 & R4).
    eexists. cbn [btoa_unpadded sextets].
    rewrite (base64_index_char _ R1), (base64_index_char _ R2),
      (base64_index_char _ R3), (base64_index_char _ R4), Hs.
    split; [reflexivity|]. cbn [decode_sextets].
    destruct (decode_three a b c Ha Hb Hc) as (E1 & E2 & E3). cbv zeta in E1, E2, E3.
    rewrite E1, E2, E3, Hd. reflexivity.
Qed.

Lemma atob_btoa (bs : list Z) : Forall in_byte bs -> atob (btoa bs) = Some bs.
Proof.
  intros Hall. unfold atob.
  rewrite (proj2 (text_clean _ (btoa_text bs Hall))).
  rewrite (strip_padding_btoa bs Hall).
  destruct (decode_unpadded bs Hall) as (vs & Hs & Hd).
  replace (Z.of_nat (length (btoa_unpadded bs)) mod 4 =? 1) with false.
  - rewrite Hs, Hd. reflexivity.
  - symmetry. apply Z.eqb_neq.
    destruct (padding_cases bs) as [[_ H]|[[_ H]|[_ H]]]; rewrite H; discriminate.
Qed.

Lemma bytes_in_byte (buffer : list byte) : Forall in_byte (map byte_to_Z buffer).
Proof.
  induction buffer as [|b buffer IH]; simpl; constructor;
    [apply byte_to_Z_range|exact IH].
Qed.

Lemma pad_base64_id (s : list Z) : Z.of_nat (length s) mod 4 = 0 -> pad_base64 s = s.
Proof. intros H. unfold pad_base64. rewrite H. simpl. apply app_nil_r. Qed.

Lemma kit_decode_encoded (buffer : list byte) :
  Kit.base64ToArrayBuffer (Kit.arrayBufferToBase64 buffer) = Ok buffer.
Proof.
  pose proof (bytes_in_byte buffer) as Hall.
  unfold Kit.base64ToArrayBuffer, Kit.arrayBufferToBase64.
  rewrite (proj1 (text_clean _ (btoa_text _ Hall))).
  rewrite (pad_base64_id _ (btoa_length _)).
  rewrite (btoa_format _ Hall), (atob_btoa _ Hall). cbn [negb].
  rewrite bytes_roundtrip'. reflexivity.
Qed.

Lemma atob_of_unpadded (bs : list Z) :
  Forall in_byte bs -> atob (btoa_unpadded bs) = Some bs.
Proof.
  intros Hall. unfold atob.
  assert (Htext : forallb is_base64_text (btoa_unpadded bs) = true).
  { apply forallb_forall. intros c Hc.
    pose proof (unpadded_chars bs Hall) as H. rewrite forallb_forall in H.
    unfold is_base64_text. rewrite (H c Hc). reflexivity. }
  rewrite (proj2 (text_clean _ Htext)).
  assert (Hstrip : strip_padding (btoa_unpadded bs) = btoa_unpadded bs).
  { unfold strip_padding.
    destruct (Z.of_nat (length (btoa_unpadded bs)) mod 4 =? 0); [|reflexivity].
    destruct (rev (btoa_unpadded bs)) as [|c r] eqn:Er; [reflexivity|].
    apply not_pad_match. exact (unpadded_last bs c r Hall Er). }
  rewrite Hstrip.
  destruct (decode_unpadded bs Hall) as (vs & Hs & Hd).
  replace (Z.of_nat (length (btoa_unpadded bs)) mod 4 =? 1) with false.
  - rewrite Hs, Hd. reflexivity.
  - symmetry. apply Z.eqb_neq.
    destruct (padding_cases bs) as [[_ H]|[[_ H]|[_ H]]]; rewrite H; discriminate.
Qed.

Lemma filter_app_both {A : Type} (f : A -> bool) (u v : list A) :
  forallb f u = true -> forallb (fun x => negb (f x)) v = true ->
  List.filter f (u ++ v) = u.
Proof.
  intros Hu Hv. rewrite List.filter_app, (filter_id f u Hu).
  assert (Hnil : List.filter f v = []).
  { clear -Hv. induction v as [|x v IH]; simpl in *; [reflexivity|].
    apply andb_true_iff in Hv. destruct Hv as [H1 H2].
    apply negb_true_iff in H1. rewrite H1. exact (IH H2). }
  rewrite Hnil. apply app_nil_r.
Qed.

Lemma without_padding (bs : list Z) :
  Forall in_byte bs ->
  List.filter (fun c => negb (c =? 0x3D)) (btoa bs) = btoa_unpadded bs.
Proof.
  intros Hall. rewrite btoa_split. apply filter_app_both.
  - apply forallb_forall. intros c Hc.
    pose proof (unpadded_chars bs Hall) as H. rewrite forallb_forall in H.
    specialize (H c Hc). apply is_base64_char_range in H.
    apply negb_true_iff. apply Z.eqb_neq. lia.
  - destruct (padding_cases bs) as [[-> _]|[[-> _]|[-> _]]]; reflexivity.
Qed.

Lemma pad_unpadded (bs : list Z) : pad_base64 (btoa_unpadded bs) = btoa bs.
Proof.
  unfold pad_base64. rewrite btoa_split.
  destruct (padding_cases bs) as [[-> H]|[[-> H]|[-> H]]]; rewrite H; reflexivity.
Qed.

(** *** White space *)

Lemma filter_drop_while (f : Z -> bool) (s : list Z) :
  List.filter (fun c => negb (f c)) (drop_while f s) = List.filter (fun c => negb (f c)) s.
Proof.
  induction s as [|c s IH]; simpl; [reflexivity|].
  destruct (f c) eqn:E; simpl; [exact IH|]. rewrite E. reflexivity.
Qed.

Lemma filter_rev {A : Type} (f : A -> bool) (l : list A) :
  List.filter f (rev l) = rev (List.filter f l).
Proof.
  induction l as [|x l IH]; simpl; [reflexivity|].
  rewrite List.filter_app, IH. simpl. destruct (f x); simpl; [reflexivity|].
  apply app_nil_r.
Qed.

Lemma remove_whitespace_trim (s : list Z) :
  remove_whitespace (trim s) = remove_whitespace s.
Proof.
  unfold remove_whitespace, trim.
  rewrite filter_rev, filter_drop_while, filter_rev, rev_involutive.
  apply filter_drop_while.
Qed.

Lemma remove_whitespace_idem (s : list Z) :
  remove_whitespace (remove_whitespace s) = remove_whitespace s.
Proof.
  unfold remove_whitespace. apply filter_id.
  apply forallb_forall. intros c Hc. apply filter_In in Hc. tauto.
Qed.

(** X12 (base64 round trip). Decoding what [arrayBufferToBase64] wrote gives
    the bytes back, for every byte sequence, through [base64ToArrayBuffer] of
    the crypto service and through the one of [BrowserBuffer] alike; the
    encoding has four characters for every three bytes begun. *)
Theorem base64_roundtrip (buffer : list byte) :
  Kit.base64ToArrayBuffer (Kit.arrayBufferToBase64 buffer) = Ok buffer
  /\ BrowserBuffer.base64ToArrayBuffer (BrowserBuffer.arrayBufferToBase64 buffer)
     = Ok buffer
  /\ BrowserBuffer.base64ToUint8Array (BrowserBuffer.uint8ArrayToBase64 buffer)
     = Ok buffer
  /\ Z.of_nat (length (Kit.arrayBufferToBase64 buffer))
     = 4 * ((Z.of_nat (length buffer) + 2) / 3).
Proof.
  pose proof (bytes_in_byte buffer) as Hall.
  split; [apply kit_decode_encoded|]. split; [|split].
  - unfold BrowserBuffer.base64ToArrayBuffer, BrowserBuffer.arrayBufferToBase64.
    rewrite (atob_btoa _ Hall), bytes_roundtrip'. reflexivity.
  - unfold BrowserBuffer.base64ToUint8Array, BrowserBuffer.uint8ArrayToBase64.
    rewrite (atob_btoa _ Hall), bytes_roundtrip'. reflexivity.
  - unfold Kit.arrayBufferToBase64.
    replace (length buffer) with (length (map byte_to_Z buffer)) by apply length_map.
    generalize (map byte_to_Z buffer). clear. intros bs.
    induction bs as [| a | a b | a b c l IH] using list3_ind; try reflexivity.
    cbn [btoa length].
    replace (Z.of_nat (S (S (S (S (length (btoa l))))))) with (Z.of_nat (length (btoa l)) + 4)
      by lia.
    rewrite IH.
    replace (Z.of_nat (S (S (S (length l)))) + 2) with (Z.of_nat (length l) + 2 + 1 * 3)
      by lia.
    rewrite Z.div_add by lia. lia.
Qed.

(** X13 (what the decoder puts up with). [base64ToArrayBuffer] of the crypto
    service ignores white space wherever it stands, and decodes an encoding
    whose [=] padding was dropped to the same bytes. *)
Theorem base64_decoder_is_lenient :
  (forall base64 : list Z,
      Kit.base64ToArrayBuffer base64 = Kit.base64ToArrayBuffer (remove_whitespace base64))
  /\ (forall buffer : list byte,
        Kit.base64ToArrayBuffer
          (List.filter (fun c => negb (c =? 0x3D)) (Kit.arrayBufferToBase64 buffer))
        = Ok buffer).
Proof.
  split.
  - intros base64. unfold Kit.base64ToArrayBuffer.
    rewrite !remove_whitespace_trim, remove_whitespace_idem. reflexivity.
  - intros buffer. pose proof (bytes_in_byte buffer) as Hall.
    unfold Kit.arrayBufferToBase64. rewrite (without_padding _ Hall).
    unfold Kit.base64ToArrayBuffer.
    assert (Htext : forallb is_base64_text (btoa_unpadded (map byte_to_Z buffer)) = true).
    { apply forallb_forall. intros c Hc.
      pose proof (unpadded_chars _ Hall) as H. rewrite forallb_forall in H.
      unfold is_base64_text. rewrite (H c Hc). reflexivity. }
    rewrite (proj1 (text_clean _ Htext)), pad_unpadded.
    rewrite (btoa_format _ Hall), (atob_btoa _ Hall). cbn [negb].
    rewrite bytes_roundtrip'. reflexivity.
Qed.

End Base64Proofs.

(** ** Recovery kits made by the service *)

Module SealingProofs.
Import JS Kit Crypto Encoding EncodingProofs CryptoProofs BrowserBuffer Base64Proofs.

Lemma created_kit_fields (now : Z) (e : EncryptedData) (capsuleId : list Z) :
  get (createRecoveryKit now e capsuleId) (js "key")
  = JString (Kit.arrayBufferToBase64 (key e))
  /\ get (createRecoveryKit now e capsuleId) (js "iv")
     = JString (Kit.arrayBufferToBase64 (iv e))
  /\ get (createRecoveryKit now e capsuleId) (js "capsuleId") = JString capsuleId.
Proof. repeat split. Qed.

Lemma btoa_nonempty (bs : list Z) : bs <> [] -> btoa bs <> [].
Proof.
  destruct bs as [|a [|b [|c rest]]]; [contradiction| | |]; intros _; discriminate.
Qed.

Lemma nonempty_string_JString (s : list Z) : s <> [] -> nonempty_string (JString s) = Some s.
Proof. destruct s; [contradiction|reflexivity]. Qed.

Section Engine.

Context {engine_message : CryptoFailure -> list Z}.

Local Abbreviation encrypt := (Crypto.encrypt engine_message).
Local Abbreviation decrypt := (Crypto.decrypt engine_message).
Local Abbreviation decryptWithRecoveryKit := (Crypto.decryptWithRecoveryKit engine_message).

(** [decryptWithRecoveryKit] reads from a kit of the service the key and
    nonce the kit was made from. *)
Lemma decrypt_with_created_kit (now : Z) (e : EncryptedData) (capsuleId : list Z)
    (c : list byte) :
  decryptWithRecoveryKit c (createRecoveryKit now e capsuleId) = decrypt c (key e) (iv e).
Proof.
  unfold Crypto.decryptWithRecoveryKit.
  destruct (created_kit_fields now e capsuleId) as (Hk & Hi & _).
  change (match createRecoveryKit now e capsuleId with
          | JNull | JUndefined => Throw TypeError_message
          | _ =>
              match base64ToArrayBuffer_value (get (createRecoveryKit now e capsuleId) (js "key")) with
              | Throw e0 => Throw e0
              | Ok key0 =>
                  match base64ToArrayBuffer_value
                          (get (createRecoveryKit now e capsuleId) (js "iv")) with
                  | Throw e0 => Throw e0
                  | Ok iv0 => decrypt c key0 iv0
                  end
              end
          end)
    with (match base64ToArrayBuffer_value (get (createRecoveryKit now e capsuleId) (js "key")) with
          | Throw e0 => Throw e0
          | Ok key0 =>
              match base64ToArrayBuffer_value
                      (get (createRecoveryKit now e capsuleId) (js "iv")) with
              | Throw e0 => Throw e0
              | Ok iv0 => decrypt c key0 iv0
              end
          end).
  rewrite Hk, Hi. cbn [base64ToArrayBuffer_value].
  rewrite !kit_decode_encoded. reflexivity.
Qed.

Lemma encrypt_fresh (fresh_key fresh_iv : list byte) (data : list Z) (e : EncryptedData) :
  encrypt fresh_key fresh_iv data None = Ok e ->
  key e = fresh_key /\ iv e = fresh_iv /\ fresh_iv <> []
  /\ encryptedContent e
     = map Z_to_byte
         (GCM.seal (map byte_to_Z fresh_key) (map byte_to_Z fresh_iv)
            (map byte_to_Z (TextEncoder_encode data))).
Proof.
  unfold Crypto.encrypt, subtle_encrypt, exportKey, generateKey. cbn [may_encrypt extractable
      raw negb].
  destruct (Z.of_nat (length (TextEncoder_encode data)) >? MAX_PLAINTEXT); [discriminate|].
  destruct fresh_iv as [|b n]; [discriminate|]. cbn [length Nat.eqb].
  intros H. injection H as <-. cbn. repeat split. discriminate.
Qed.

Lemma seal_length (k n p : list Z) : length (GCM.seal k n p) = (length p + 16)%nat.
Proof. unfold GCM.seal. rewrite length_app, gctr_length, tag_length. reflexivity. Qed.

Lemma validate_created (now : Z) (e : EncryptedData) (capsuleId : list Z) :
  key e <> [] -> iv e <> [] -> capsuleId <> [] ->
  validateRecoveryKit (createRecoveryKit now e capsuleId)
  = if all_digits capsuleId then valid
    else if negb (Z.of_nat (length (key e)) =? 32)
    then invalid (js "Invalid encryption key length")
    else if negb (Z.of_nat (length (iv e)) =? 12)
    then invalid (js "Invalid initialization vector length")
    else valid.
Proof.
  intros Hk Hi Hc. unfold validateRecoveryKit.
  destruct (created_kit_fields now e capsuleId) as (Ek & Ei & Ec).
  rewrite Ek, Ei, Ec.
  change (negb (truthy (createRecoveryKit now e capsuleId))
          || negb match typeof (createRecoveryKit now e capsuleId) with
                  | T_object => true
                  | _ => false
                  end) with false.
  cbv iota.
  assert (Hkb : Kit.arrayBufferToBase64 (key e) <> []).
  { unfold Kit.arrayBufferToBase64. apply btoa_nonempty.
    destruct (key e); [contradiction|discriminate]. }
  assert (Hib : Kit.arrayBufferToBase64 (iv e) <> []).
  { unfold Kit.arrayBufferToBase64. apply btoa_nonempty.
    destruct (iv e); [contradiction|discriminate]. }
  rewrite (nonempty_string_JString _ Hkb), (nonempty_string_JString _ Hib),
    (nonempty_string_JString _ Hc).
  destruct (all_digits capsuleId); [reflexivity|].
  pose proof (bytes_in_byte (key e)) as Ak. pose proof (bytes_in_byte (iv e)) as Ai.
  unfold Kit.arrayBufferToBase64 at 1 2 3 4.
  rewrite !(proj1 (text_clean _ (btoa_text _ Ak))), !(proj1 (text_clean _ (btoa_text _ Ai))).
  rewrite (btoa_format _ Ak), (btoa_format _ Ai), (atob_btoa _ Ak), (atob_btoa _ Ai).
  cbn [negb]. unfold check_lengths. rewrite !kit_decode_encoded. reflexivity.
Qed.

(** X14 (kits made by the service). For a key, a nonce and a capsule id that
    are not empty, [validateRecoveryKit] accepts the kit [createRecoveryKit]
    makes exactly when the id is all digits or the key has 32 bytes and the
    nonce 12; under any other id a shorter AES key, which [decrypt] would
    take, is refused. The kit made from what [encrypt] returned for a fresh
    32-byte key and 12-byte nonce is always accepted. *)
Theorem created_kit_validates :
  (forall (now : Z) (e : EncryptedData) (capsuleId : list Z),
      key e <> [] -> iv e <> [] -> capsuleId <> [] ->
      validateRecoveryKit (createRecoveryKit now e capsuleId)
      = if all_digits capsuleId then valid
        else if negb (Z.of_nat (length (key e)) =? 32)
        then invalid (js "Invalid encryption key length")
        else if negb (Z.of_nat (length (iv e)) =? 12)
        then invalid (js "Invalid initialization vector length")
        else valid)
  /\ (forall (fresh_key fresh_iv : list byte) (data : list Z) (e : EncryptedData)
             (now : Z) (capsuleId : list Z),
        length fresh_key = 32%nat -> length fresh_iv = 12%nat -> capsuleId <> [] ->
        encrypt fresh_key fresh_iv data None = Ok e ->
        validateRecoveryKit (createRecoveryKit now e capsuleId) = valid).
Proof.
  split; [exact validate_created|].
  intros fresh_key fresh_iv data e now capsuleId Hk Hi Hc He.
  destruct (encrypt_fresh _ _ _ _ He) as (Ek & Ei & _ & _).
  rewrite validate_created.
  - rewrite Ek, Ei, Hk, Hi. destruct (all_digits capsuleId); reflexivity.
  - rewrite Ek. destruct fresh_key; [discriminate Hk|discriminate].
  - rewrite Ei. destruct fresh_iv; [discriminate Hi|discriminate].
  - exact Hc.
Qed.

(** X15 (the kit opens what was sealed). For a text that is well-formed
    UTF-16, does not start with U+FEFF and fits the size cap, a fresh key of
    16, 24 or 32 bytes and a nonce that is not empty, [encrypt] returns, and
    [decryptWithRecoveryKit] under the kit [createRecoveryKit] makes from the
    result gives the text back, also after the sealed bytes went through
    [arrayBufferToBase64] and [base64ToArrayBuffer]. *)
Theorem created_kit_opens (fresh_key fresh_iv : list byte) (text : list Z)
    (now : Z) (capsuleId : list Z) :
  forallb is_code_unit text = true -> well_formed text = true -> hd 0 text <> 0xFEFF ->
  Z.of_nat (length (TextEncoder_encode text)) <= MAX_PLAINTEXT ->
  valid_key_length (length fresh_key) = true -> fresh_iv <> [] ->
  exists e,
    encrypt fresh_key fresh_iv text None = Ok e
    /\ decryptWithRecoveryKit (encryptedContent e) (createRecoveryKit now e capsuleId)
       = Ok text
    /\ (forall sealed,
          Kit.base64ToArrayBuffer (Kit.arrayBufferToBase64 (encryptedContent e))
          = Ok sealed ->
          decryptWithRecoveryKit sealed (createRecoveryKit now e capsuleId) = Ok text).
Proof.
  intros Hu Hw Hb Hcap Hk Hn.
  pose proof (@encrypt_Ok engine_message fresh_key fresh_iv text None Hcap eq_refl
                eq_refl Hn) as He.
  cbv zeta in He. cbn [generateKey raw] in He.
  eexists. split; [exact He|].
  assert (Hd : decryptWithRecoveryKit
                 (map Z_to_byte
                    (GCM.seal (map byte_to_Z fresh_key) (map byte_to_Z fresh_iv)
                       (map byte_to_Z (TextEncoder_encode text))))
                 (createRecoveryKit now
                    {| encryptedContent :=
                         map Z_to_byte
                           (GCM.seal (map byte_to_Z fresh_key) (map byte_to_Z fresh_iv)
                              (map byte_to_Z (TextEncoder_encode text)));
                       iv := fresh_iv; key := fresh_key |} capsuleId)
               = Ok text).
  { rewrite decrypt_with_created_kit. cbn [key iv].
    rewrite (decrypt_sealed fresh_key fresh_iv _ Hk Hn).
    rewrite (text_roundtrip text Hu Hw Hb). reflexivity. }
  split; [exact Hd|].
  intros sealed Hs. cbn [encryptedContent] in Hs.
  rewrite kit_decode_encoded in Hs. injection Hs as <-. exact Hd.
Qed.

(** X16 (size of a sealed text). What [encrypt] returns is sixteen bytes
    longer than the UTF-8 form of the text, the tag coming last, and its key
    and nonce are the fresh ones; [decrypt] throws on every input shorter
    than a tag. *)
Theorem sealed_size :
  (forall (fresh_key fresh_iv : list byte) (data : list Z) (e : EncryptedData),
      encrypt fresh_key fresh_iv data None = Ok e ->
      length (encryptedContent e) = (length (TextEncoder_encode data) + 16)%nat
      /\ key e = fresh_key /\ iv e = fresh_iv)
  /\ (forall encryptedData key iv : list byte,
        (length encryptedData < 16)%nat ->
        exists message, decrypt encryptedData key iv = Throw message).
Proof.
  split.
  - intros fresh_key fresh_iv data e He.
    destruct (encrypt_fresh _ _ _ _ He) as (Ek & Ei & _ & Ec).
    split; [|split; assumption].
    rewrite Ec, length_map, seal_length, length_map. reflexivity.
  - intros c k n Hlen. apply decrypt_Throw. right. right.
    unfold GCM.open. rewrite length_map.
    replace (length c <? 16)%nat with true; [reflexivity|].
    symmetry. apply Nat.ltb_lt. exact Hlen.
Qed.

End Engine.

Lemma created_kit_validates_witness :
  validateRecoveryKit
    (createRecoveryKit 1700000000000
       {| encryptedContent := []; iv := sample_iv_bytes; key := sample_key_bytes |}
       (js "capsule_abc")) = valid
  /\ validateRecoveryKit
       (createRecoveryKit 1700000000000
          {| encryptedContent := []; iv := sample_iv_bytes;
             key := firstn 16 sample_key_bytes |}
          (js "capsule_abc")) = invalid (js "Invalid encryption key length")
  /\ validateRecoveryKit
       (createRecoveryKit 1700000000000
          {| encryptedContent := []; iv := sample_iv_bytes;
             key := firstn 16 sample_key_bytes |}
          (js "1700000000000")) = valid.
Proof.
  destruct (@created_kit_validates named_engine) as [Hv _].
  split; [|split]; rewrite Hv; try (vm_compute; reflexivity); discriminate.
Defined.

Lemma created_kit_opens_witness :
  exists e,
    encrypt named_engine sample_key_bytes sample_iv_bytes sample_plaintext None = Ok e
    /\ decryptWithRecoveryKit named_engine (encryptedContent e)
         (createRecoveryKit 1700000000000 e (js "capsule_abc"))
       = Ok sample_plaintext.
Proof.
  assert (Hu : forallb is_code_unit sample_plaintext = true) by (vm_compute; reflexivity).
  assert (Hw : well_formed sample_plaintext = true) by (vm_compute; reflexivity).
  assert (Hb : hd 0 sample_plaintext <> 0xFEFF) by (vm_compute; discriminate).
  assert (Hcap : Z.of_nat (length (TextEncoder_encode sample_plaintext)) <= MAX_PLAINTEXT)
    by (vm_compute; discriminate).
  assert (Hk : valid_key_length (length sample_key_bytes) = true)
    by (vm_compute; reflexivity).
  assert (Hn : sample_iv_bytes <> []) by (vm_compute; discriminate).
  destruct (@created_kit_opens named_engine sample_key_bytes sample_iv_bytes sample_plaintext
              1700000000000 (js "capsule_abc") Hu Hw Hb Hcap Hk Hn) as (e & He & Hd & _).
  exists e. split; assumption.
Defined.

Lemma sealed_size_witness :
  (exists e, sample_sealed = Ok e /\ length (encryptedContent e) = 28%nat)
  /\ exists message,
       decrypt named_engine (firstn 15 sample_key_bytes) sample_key_bytes sample_iv_bytes
       = Throw message.
Proof.
  destruct (@sealed_size named_engine) as [Hlen Hshort]. split.
  - assert (Hcap : Z.of_nat (length (TextEncoder_encode sample_plaintext)) <= MAX_PLAINTEXT)
      by (vm_compute; discriminate).
    assert (Hn : sample_iv_bytes <> []) by (vm_compute; discriminate).
    pose proof (@encrypt_Ok named_engine sample_key_bytes sample_iv_bytes sample_plaintext None Hcap
                  eq_refl eq_refl Hn) as He.
    cbv zeta in He. cbn [generateKey raw] in He.
    eexists. split; [exact He|].
    rewrite (proj1 (Hlen _ _ _ _ He)). vm_compute. reflexivity.
  - apply Hshort. vm_compute. lia.
Defined.

End SealingProofs.

(** ** The storage gateway: uploads, the token and availability *)

Module GatewayProofs.
Import JS IPFS IPFSProofs Gateway.

Section Service.

Variable encodeURIComponent : list Z -> list Z.
Variable JSON_stringify : JsValue -> list Z.
Variable pinataJWT : list Z.

Local Abbreviation download' := (download encodeURIComponent JSON_stringify pinataJWT).

Lemma startsWith_app (p s : list Z) : startsWith (p ++ s) p = true.
Proof.
  induction p as [|c p IH]; [destruct s; reflexivity|].
  simpl. rewrite Z.eqb_refl. exact IH.
Qed.

Lemma download_local (fetch : Request -> Result Response)
    (localStorage : gmap (list Z) (list Z)) (cid : list Z) :
  startsWith cid (js "local_") = true ->
  download' fetch localStorage cid
  = (match localStorage !! (js "ipfs_" ++ cid) with
     | Some (c :: stored) => Ok (c :: stored)
     | _ => Throw (js "Content not found in localStorage for CID: " ++ cid)
     end, []).
Proof.
  intros Hlocal. destruct (local_prefix_shape cid Hlocal) as [rest ->].
  unfold download. rewrite Hlocal.
  assert (Htrim : jsstring_eqb (trim (108 :: rest)) [] = false).
  { unfold jsstring_eqb. destruct (decide (trim (108 :: rest) = [])) as [E|E]; [|reflexivity].
    exfalso. exact (trim_nonempty 108 rest eq_refl E). }
  rewrite Htrim. cbn [truthy negb orb].
  destruct (localStorage !! (js "ipfs_" ++ 108 :: rest)) as [[|c stored]|]; reflexivity.
Qed.

Lemma fallback_stores (localStorage : gmap (list Z) (list Z)) (timestamp : Z)
    (randomId data fileName : list Z) :
  let out := fallbackToLocalStorage JSON_stringify localStorage timestamp randomId
               data fileName in
  startsWith (cid (snd out)) (js "local_") = true
  /\ fst out !! (js "ipfs_" ++ cid (snd out)) = Some data
  /\ size (snd out) = Z.of_nat (length data)
  /\ upload_method (snd out) = viaLocalStorage
  /\ gatewayUrl (snd out) = getGatewayUrl (cid (snd out))
  /\ (forall k, k <> js "ipfs_" ++ cid (snd out) ->
                k <> js "ipfs_meta_" ++ cid (snd out) ->
                fst out !! k = localStorage !! k).
Proof.
  unfold fallbackToLocalStorage. cbv zeta. cbn [fst snd cid size upload_method gatewayUrl].
  set (rest := decimal timestamp ++ js "_" ++ randomId).
  assert (Hs : startsWith (js "local_" ++ rest) (js "local_") = true)
    by apply startsWith_app.
  split; [exact Hs|]. split; [|split; [reflexivity|split; [reflexivity|split]]].
  - rewrite lookup_insert_ne; [apply lookup_insert_eq|].
    change (js "ipfs_meta_") with ([105; 112; 102; 115; 95] ++ [109; 101; 116; 97; 95]).
    change (js "ipfs_") with [105; 112; 102; 115; 95].
    change (js "local_") with [108; 111; 99; 97; 108; 95].
    simpl. intros H. discriminate H.
  - unfold getGatewayUrl. rewrite Hs. reflexivity.
  - intros k H1 H2. rewrite !lookup_insert_ne by congruence. reflexivity.
Qed.

Variable pin : list Z -> list Z -> Result Response.

Local Abbreviation upload := (uploadString JSON_stringify pinataJWT pin).

Lemma upload_cases (localStorage : gmap (list Z) (list Z)) (timestamp : Z)
    (randomId data fileName : list Z) :
  (exists reqs,
      upload localStorage timestamp randomId data fileName
      = (fst (fallbackToLocalStorage JSON_stringify localStorage timestamp randomId
                data fileName),
         Cached (snd (fallbackToLocalStorage JSON_stringify localStorage timestamp
                        randomId data fileName)),
         reqs)
      /\ (pinataJWT = [] -> reqs = []))
  \/ (exists result response,
        upload localStorage timestamp randomId data fileName
        = (localStorage, Pinned result (Z.of_nat (length data)), [pin_request pinataJWT])
        /\ pinataJWT <> [] /\ pin data fileName = Ok response /\ ok response = true
        /\ json response = Ok result).
Proof.
  unfold uploadString, uploadToPinata.
  destruct (fallbackToLocalStorage JSON_stringify localStorage timestamp randomId
              data fileName) as [ls r] eqn:Ef.
  cbn [fst snd].
  destruct pinataJWT as [|c jwt] eqn:Ej.
  { left. exists []. split; reflexivity. }
  destruct (pin data fileName) as [response|message] eqn:Ep.
  2: { left. eexists. split; [reflexivity|discriminate]. }
  destruct (ok response) eqn:Eo; cbn [negb].
  2: { left. eexists. split; [reflexivity|discriminate]. }
  destruct (json response) as [result|message] eqn:Er.
  2: { left. eexists. split; [reflexivity|discriminate]. }
  destruct result as [| |b|n|s|fields|elems];
    try (left; eexists; split; [reflexivity|discriminate]);
    right; eexists; exists response; (split; [reflexivity|]);
    (split; [discriminate|]); (split; [reflexivity|]); (split; [exact Eo|exact Er]).
Qed.

(** X17 (uploads and the local cache). With no token configured
    [uploadString] asks nobody and stores the content in the local cache; it
    does the same when the pinning service cannot be reached or answers with
    an error. Whenever it returns a record of the cache, the content is
    stored under [ipfs_] followed by the returned address, the address begins
    with [local_], the other entries of the cache are as they were, and
    [download] of that address gives the content back without any request,
    unless the content is the empty string. *)
Theorem upload_lands_in_cache :
  (forall (localStorage : gmap (list Z) (list Z)) (timestamp : Z)
          (randomId data fileName : list Z),
      pinataJWT = [] \/ (exists message, pin data fileName = Throw message)
      \/ (exists response, pin data fileName = Ok response /\ ok response = false) ->
      exists ls' r reqs,
        upload localStorage timestamp randomId data fileName = (ls', Cached r, reqs)
        /\ (pinataJWT = [] -> reqs = []))
  /\ (forall (localStorage ls' : gmap (list Z) (list Z)) (timestamp : Z)
             (randomId data fileName : list Z) (r : IPFSUploadResult)
             (reqs : list Request),
        upload localStorage timestamp randomId data fileName = (ls', Cached r, reqs) ->
        startsWith (cid r) (js "local_") = true
        /\ ls' !! (js "ipfs_" ++ cid r) = Some data
        /\ size r = Z.of_nat (length data)
        /\ (forall k, k <> js "ipfs_" ++ cid r -> k <> js "ipfs_meta_" ++ cid r ->
                      ls' !! k = localStorage !! k)
        /\ (forall fetch : Request -> Result Response,
              download' fetch ls' (cid r)
              = (match data with
                 | [] => Throw (js "Content not found in localStorage for CID: " ++ cid r)
                 | _ => Ok data
                 end, []))).
Proof.
  split.
  - intros localStorage timestamp randomId data fileName Hwhy.
    destruct (upload_cases localStorage timestamp randomId data fileName)
      as [(reqs & E & Hn)|(result & response & E & Hj & Hp & Ho & _)].
    + eexists. eexists. exists reqs. split; [exact E|exact Hn].
    + exfalso. destruct Hwhy as [H|[[m H]|(resp & H1 & H2)]].
      * contradiction.
      * rewrite H in Hp. discriminate Hp.
      * rewrite H1 in Hp. injection Hp as ->. rewrite H2 in Ho. discriminate Ho.
  - intros localStorage ls' timestamp randomId data fileName r reqs E.
    pose proof (fallback_stores localStorage timestamp randomId data fileName) as HF.
    cbv zeta in HF.
    destruct (upload_cases localStorage timestamp randomId data fileName)
      as [(reqs' & E' & _)|(result & response & E' & _)];
      rewrite E in E'; [|discriminate E'].
    set (F := fallbackToLocalStorage JSON_stringify localStorage timestamp randomId
                data fileName) in *.
    clearbody F. injection E' as Hls Hr _. subst ls' r.
    destruct HF as (Hs & Hl & Hz & _ & _ & Hk).
    split; [exact Hs|]. split; [exact Hl|]. split; [exact Hz|]. split; [exact Hk|].
    intros fetch. rewrite (download_local fetch _ _ Hs), Hl.
    destruct data; reflexivity.
Qed.

(** *** The token *)

Lemma first_success_trace {A : Type} (attempt : A -> option (list Z))
    (request : A -> Request) (xs : list A) (r : Request) :
  In r (snd (first_success attempt request xs)) -> exists x, In x xs /\ r = request x.
Proof.
  induction xs as [|x xs IH]; simpl; [intros []|].
  destruct (attempt x).
  - simpl. intros [<-|[]]. exists x. split; [left; reflexivity|reflexivity].
  - destruct (first_success attempt request xs) as [res trace]. simpl in *.
    intros [<-|Hin].
    + exists x. split; [left; reflexivity|reflexivity].
    + destruct (IH Hin) as (y & Hy & ->). exists y. split; [right; exact Hy|reflexivity].
Qed.

Lemma first_success_length {A : Type} (attempt : A -> option (list Z))
    (request : A -> Request) (xs : list A) :
  (length (snd (first_success attempt request xs)) <= length xs)%nat.
Proof.
  induction xs as [|x xs IH]; simpl; [lia|].
  destruct (attempt x); simpl; [lia|].
  destruct (first_success attempt request xs) as [res trace]. simpl in *. lia.
Qed.

Lemma try_pinata_trace (fetch : Request -> Result Response) (cid : list Z) (r : Request) :
  In r (snd (try_pinata pinataJWT fetch cid)) ->
  pinataJWT <> []
  /\ (r = pin_list_request pinataJWT cid \/ r = auth_gateway_request pinataJWT cid).
Proof.
  unfold try_pinata. destruct pinataJWT as [|c jwt] eqn:Ej; [intros []|].
  intros Hin. split; [discriminate|].
  destruct (fetch (pin_list_request (c :: jwt) cid)) as [response|m].
  2: { destruct Hin as [<-|[]]. left. reflexivity. }
  destruct (ok response).
  2: { destruct Hin as [<-|[]]. left. reflexivity. }
  destruct (json response) as [v|m].
  2: { destruct Hin as [<-|[]]. left. reflexivity. }
  destruct v as [| |b|n|s|fields|elems];
    try (destruct Hin as [<-|[]]; left; reflexivity);
    (destruct (has_rows _);
     [destruct Hin as [<-|[<-|[]]]; [left|right]; reflexivity
     |destruct Hin as [<-|[]]; left; reflexivity]).
Qed.

Lemma try_pinata_length (fetch : Request -> Result Response) (cid : list Z) :
  (length (snd (try_pinata pinataJWT fetch cid)) <= 2)%nat.
Proof.
  unfold try_pinata. destruct pinataJWT as [|c jwt]; [simpl; lia|].
  destruct (fetch _) as [response|m]; [|simpl; lia].
  destruct (ok response); [|simpl; lia].
  destruct (json response) as [v|m]; [|simpl; lia].
  destruct v; try (simpl; lia); destruct (has_rows _); simpl; lia.
Qed.

(** The requests of the network chain, by the strategy that made them. *)
Lemma network_trace (fetch : Request -> Result Response) (cid : list Z) (r : Request) :
  In r (snd (download_from_network encodeURIComponent JSON_stringify pinataJWT fetch cid)) ->
  (exists u, r = proxy_request u)
  \/ (pinataJWT <> []
      /\ (r = pin_list_request pinataJWT cid \/ r = auth_gateway_request pinataJWT cid))
  \/ (exists u, r = gateway_request u)
  \/ (exists m, r = alternative_request cid m).
Proof.
  unfold download_from_network.
  destruct (first_success (try_cors_proxy JSON_stringify fetch) proxy_request
              (corsProxies encodeURIComponent cid)) as [r1 t1] eqn:E1.
  assert (H1 : forall q, In q t1 -> exists u, q = proxy_request u).
  { intros q Hq. replace t1 with (snd (first_success (try_cors_proxy JSON_stringify fetch)
                                        proxy_request (corsProxies encodeURIComponent cid)))
      in Hq by (rewrite E1; reflexivity).
    destruct (first_success_trace _ _ _ _ Hq) as (u & _ & ->). exists u. reflexivity. }
  destruct r1 as [content|]; [simpl; intros Hin; left; exact (H1 r Hin)|].
  destruct (try_pinata pinataJWT fetch cid) as [r2 t2] eqn:E2.
  assert (H2 : forall q, In q t2 ->
               pinataJWT <> []
               /\ (q = pin_list_request pinataJWT cid
                   \/ q = auth_gateway_request pinataJWT cid)).
  { intros q Hq. apply (try_pinata_trace fetch). rewrite E2. exact Hq. }
  destruct r2 as [content|].
  { simpl. intros Hin. apply in_app_or in Hin.
    destruct Hin as [Hin|Hin]; [left; exact (H1 r Hin)|right; left; exact (H2 r Hin)]. }
  destruct (first_success (fun u => try_text fetch (gateway_request u)) gateway_request
              (corsOptimizedGateways cid)) as [r3 t3] eqn:E3.
  assert (H3 : forall q, In q t3 -> exists u, q = gateway_request u).
  { intros q Hq. replace t3 with (snd (first_success
                                        (fun u => try_text fetch (gateway_request u))
                                        gateway_request (corsOptimizedGateways cid)))
      in Hq by (rewrite E3; reflexivity).
    destruct (first_success_trace _ _ _ _ Hq) as (u & _ & ->). exists u. reflexivity. }
  destruct r3 as [content|].
  { simpl. intros Hin. apply in_app_or in Hin. destruct Hin as [Hin|Hin];
      [left; exact (H1 r Hin)|].
    apply in_app_or in Hin. destruct Hin as [Hin|Hin];
      [right; left; exact (H2 r Hin)|right; right; left; exact (H3 r Hin)]. }
  destruct (first_success (fun m => try_text fetch (alternative_request cid m))
              (alternative_request cid) alternativeMethods) as [r4 t4] eqn:E4.
  assert (H4 : forall q, In q t4 -> exists m, q = alternative_request cid m).
  { intros q Hq. replace t4 with (snd (first_success
                                        (fun m => try_text fetch (alternative_request cid m))
                                        (alternative_request cid) alternativeMethods))
      in Hq by (rewrite E4; reflexivity).
    destruct (first_success_trace _ _ _ _ Hq) as (m & _ & ->). exists m. reflexivity. }
  assert (Hall : In r (t1 ++ t2 ++ t3 ++ t4) ->
                 (exists u, r = proxy_request u)
                 \/ (pinataJWT <> []
                     /\ (r = pin_list_request pinataJWT cid
                         \/ r = auth_gateway_request pinataJWT cid))
                 \/ (exists u, r = gateway_request u)
                 \/ (exists m, r = alternative_request cid m)).
  { intros Hin. apply in_app_or in Hin. destruct Hin as [Hin|Hin];
      [left; exact (H1 r Hin)|].
    apply in_app_or in Hin. destruct Hin as [Hin|Hin];
      [right; left; exact (H2 r Hin)|].
    apply in_app_or in Hin. destruct Hin as [Hin|Hin];
      [right; right; left; exact (H3 r Hin)|right; right; right; exact (H4 r Hin)]. }
  destruct r4; simpl; exact Hall.
Qed.

Lemma network_length (fetch : Request -> Result Response) (cid : list Z) :
  (length (snd (download_from_network encodeURIComponent JSON_stringify pinataJWT fetch cid))
   <= 11)%nat.
Proof.
  unfold download_from_network.
  pose proof (first_success_length (try_cors_proxy JSON_stringify fetch) proxy_request
                (corsProxies encodeURIComponent cid)) as L1.
  pose proof (try_pinata_length fetch cid) as L2.
  pose proof (first_success_length (fun u => try_text fetch (gateway_request u))
                gateway_request (corsOptimizedGateways cid)) as L3.
  pose proof (first_success_length (fun m => try_text fetch (alternative_request cid m))
                (alternative_request cid) alternativeMethods) as L4.
  cbn [corsProxies corsOptimizedGateways alternativeMethods length] in L1, L3, L4.
  destruct (first_success (try_cors_proxy JSON_stringify fetch) proxy_request _) as [[c|] t1];
    cbn [snd] in *; [lia|].
  destruct (try_pinata pinataJWT fetch cid) as [[c|] t2]; cbn [snd] in *;
    [rewrite length_app; lia|].
  destruct (first_success (fun u => try_text fetch (gateway_request u)) _ _) as [[c|] t3];
    cbn [snd] in *; [rewrite !length_app; lia|].
  destruct (first_success (fun m => try_text fetch (alternative_request cid m)) _ _)
    as [[c|] t4]; cbn [snd] in *; rewrite !length_app; lia.
Qed.

(** X18 (where the token goes). [download] makes at most eleven requests.
    Among them only the two sent to the pinning service and its gateway
    carry an [Authorization] header, and only when a token is configured:
    the CORS proxies and the public gateways are never shown it. *)
Theorem token_stays_with_pinata (fetch : Request -> Result Response)
    (localStorage : gmap (list Z) (list Z)) (cid : list Z) :
  (length (snd (download' fetch localStorage cid)) <= 11)%nat
  /\ (forall r : Request,
        In r (snd (download' fetch localStorage cid)) ->
        carries_token r = true ->
        pinataJWT <> [] /\ to_pinata r = true
        /\ headers r = [bearer pinataJWT] ++ tl (headers r)).
Proof.
  unfold download.
  destruct (negb (truthy (JString cid)) || jsstring_eqb (trim cid) []);
    [split; [simpl; lia|intros r []]|].
  destruct (startsWith cid (js "local_")).
  { destruct (localStorage !! (js "ipfs_" ++ cid)) as [stored|];
      [destruct (negb (truthy (JString stored)))|]; (split; [simpl; lia|intros r []]). }
  split; [apply network_length|].
  intros r Hin Htok.
  destruct (network_trace fetch cid r Hin)
    as [(u & ->)|[(Hj & [->| ->])|[(u & ->)|(m & ->)]]].
  - vm_compute in Htok. discriminate Htok.
  - split; [exact Hj|]. split; [|reflexivity].
    unfold to_pinata, pin_list_request. cbn [url]. rewrite startsWith_app. reflexivity.
  - split; [exact Hj|]. split; [|reflexivity].
    unfold to_pinata, auth_gateway_request, gateway_path. cbn [url].
    rewrite startsWith_app. apply orb_true_r.
  - vm_compute in Htok. discriminate Htok.
  - vm_compute in Htok. discriminate Htok.
Qed.

(** X19 (is it there?). For an address of the local cache
    [checkContentExists] asks nobody and reports the content as available
    exactly when the cache has an entry for it. Whenever [download] returns
    the content, [checkContentExists] reports it; the two disagree only on an
    entry that holds the empty string, which is reported as available and
    cannot be downloaded. *)
Theorem local_availability (status_text : Response -> list Z)
    (fetch : Request -> Result Response)
    (localStorage : gmap (list Z) (list Z)) (cid : list Z) :
  startsWith cid (js "local_") = true ->
  let present := match localStorage !! (js "ipfs_" ++ cid) with
                 | Some _ => true
                 | None => false
                 end in
  checkContentExists fetch status_text localStorage cid
  = (present,
     [{| gateway_name := js "localStorage"; gateway_url := js "local://" ++ cid;
         gateway_status := if present then js "available" else js "not found" |}],
     [])
  /\ (forall content, fst (download' fetch localStorage cid) = Ok content ->
                      present = true
                      /\ localStorage !! (js "ipfs_" ++ cid) = Some content)
  /\ (forall message, fst (download' fetch localStorage cid) = Throw message ->
                      present = true -> localStorage !! (js "ipfs_" ++ cid) = Some []).
Proof.
  intros Hlocal present. subst present.
  split; [unfold checkContentExists; rewrite Hlocal; reflexivity|].
  rewrite (download_local fetch localStorage cid Hlocal). cbn [fst].
  destruct (localStorage !! (js "ipfs_" ++ cid)) as [[|c stored]|]; split;
    intros x H; try discriminate H.
  - intros _. reflexivity.
  - injection H as <-. split; reflexivity.
  - intros H'. discriminate H'.
Qed.

End Service.

Lemma upload_lands_in_cache_witness :
  exists ls' r reqs,
    sample_upload = (ls', Cached r, reqs)
    /\ startsWith (cid r) (js "local_") = true
    /\ ls' !! (js "ipfs_" ++ cid r) = Some (js "encrypted blob")
    /\ download plain_encode plain_stringify (js "jwt") echo_network ls' (cid r)
       = (Ok (js "encrypted blob"), []).
Proof.
  destruct (proj1 (upload_lands_in_cache plain_encode plain_stringify (js "jwt") pin_down)
              ∅ 1700000000000 (js "k3x9qa") (js "encrypted blob")
              (js "capsule-content.enc"))
    as (ls' & r & reqs & E & _).
  { right. left. eexists. reflexivity. }
  destruct (proj2 (upload_lands_in_cache plain_encode plain_stringify (js "jwt") pin_down)
              ∅ ls' 1700000000000 (js "k3x9qa") (js "encrypted blob")
              (js "capsule-content.enc") r reqs E) as (Hs & Hl & _ & _ & Hd).
  exists ls', r, reqs.
  split; [exact E|]. split; [exact Hs|]. split; [exact Hl|].
  exact (Hd echo_network).
Defined.

Lemma token_stays_with_pinata_witness :
  (length (snd (download plain_encode plain_stringify (js "jwt") no_network ∅
                  (js "bafy123"))) <= 11)%nat
  /\ to_pinata (pin_list_request (js "jwt") (js "bafy123")) = true
  /\ List.filter carries_token
       (snd (download plain_encode plain_stringify (js "jwt") no_network ∅ (js "bafy123")))
     = [pin_list_request (js "jwt") (js "bafy123")].
Proof.
  destruct (token_stays_with_pinata plain_encode plain_stringify (js "jwt") no_network ∅
              (js "bafy123")) as [Hlen Htok].
  split; [exact Hlen|]. split; [|vm_compute; reflexivity].
  apply (Htok (pin_list_request (js "jwt") (js "bafy123"))).
  - vm_compute. right. right. right. left. reflexivity.
  - vm_compute. reflexivity.
Defined.

Lemma local_availability_witness :
  fst (fst (checkContentExists no_network (fun _ => js "0")
              (fst cache_after_empty_upload) (cid (snd cache_after_empty_upload))))
  = true
  /\ fst (download plain_encode plain_stringify (js "jwt") no_network
            (fst cache_after_empty_upload) (cid (snd cache_after_empty_upload)))
     = Throw (js "Content not found in localStorage for CID: "
                ++ cid (snd cache_after_empty_upload))
  /\ fst cache_after_empty_upload !! (js "ipfs_" ++ cid (snd cache_after_empty_upload))
     = Some [].
Proof.
  assert (Hlocal : startsWith (cid (snd cache_after_empty_upload)) (js "local_") = true)
    by (vm_compute; reflexivity).
  destruct (local_availability plain_encode plain_stringify (js "jwt") (fun _ => js "0")
              no_network (fst cache_after_empty_upload)
              (cid (snd cache_after_empty_upload)) Hlocal) as (Hc & _ & Hd).
  assert (Hthrow : fst (download plain_encode plain_stringify (js "jwt") no_network
                          (fst cache_after_empty_upload)
                          (cid (snd cache_after_empty_upload)))
                   = Throw (js "Content not found in localStorage for CID: "
                              ++ cid (snd cache_after_empty_upload)))
    by (vm_compute; reflexivity).
  split; [rewrite Hc; vm_compute; reflexivity|]. split; [exact Hthrow|].
  apply (Hd _ Hthrow). vm_compute. reflexivity.
Defined.

End GatewayProofs.

(** ** The social feed *)

Module FeedProofs.
Import JS Kit Reveal RevealProofs Feed.

(** *** Updating the first record under an id *)

Lemma update_first_ids (i : list Z) (f : RevealedCapsule -> RevealedCapsule)
    (l : list RevealedCapsule) :
  (forall c, id (f c) = id c) -> map id (update_first i f l) = map id l.
Proof.
  intros Hf. induction l as [|c l IH]; simpl; [reflexivity|].
  destruct (jsstring_eqb (id c) i); simpl; [rewrite Hf; reflexivity|].
  rewrite IH. reflexivity.
Qed.

Lemma find_update_same (i : list Z) (f : RevealedCapsule -> RevealedCapsule)
    (l : list RevealedCapsule) :
  (forall c, id (f c) = id c) ->
  List.find (fun c => jsstring_eqb (id c) i) (update_first i f l)
  = option_map f (List.find (fun c => jsstring_eqb (id c) i) l).
Proof.
  intros Hf. induction l as [|c l IH]; simpl; [reflexivity|].
  destruct (jsstring_eqb (id c) i) eqn:E; simpl.
  - rewrite Hf, E. reflexivity.
  - rewrite E. exact IH.
Qed.

Lemma find_update_other (i j : list Z) (f : RevealedCapsule -> RevealedCapsule)
    (l : list RevealedCapsule) :
  i <> j -> (forall c, id (f c) = id c) ->
  List.find (fun c => jsstring_eqb (id c) j) (update_first i f l)
  = List.find (fun c => jsstring_eqb (id c) j) l.
Proof.
  intros Hne Hf. induction l as [|c l IH]; simpl; [reflexivity|].
  destruct (jsstring_eqb (id c) i) eqn:E; simpl.
  - rewrite Hf. apply jsstring_eqb_true in E.
    assert (Ej : jsstring_eqb (id c) j = false) by (apply jsstring_eqb_false; congruence).
    rewrite Ej. reflexivity.
  - destruct (jsstring_eqb (id c) j); [reflexivity|exact IH].
Qed.

Lemma likeCapsule_eq (ls : LocalStorage) (capsuleId : list Z) :
  likeCapsule ls capsuleId
  = match getRevealedCapsule ls capsuleId with
    | None => (false, ls)
    | Some _ =>
        (true,
         {| items := items ls;
            revealed_capsules := update_first capsuleId with_like (revealed_capsules ls);
            timeCapsules := timeCapsules ls |})
    end.
Proof.
  unfold likeCapsule. destruct (getRevealedCapsule ls capsuleId); [|reflexivity].
  f_equal. f_equal.
  induction (revealed_capsules ls) as [|c l IH]; [reflexivity|].
  cbn [update_first]. destruct (jsstring_eqb (id c) capsuleId); [reflexivity|].
  f_equal. exact IH.
Qed.

(** X20 (likes). [likeCapsule] of a capsule that has no record in the feed
    returns false and changes nothing. Otherwise it returns true and adds
    exactly one like to the first record under that id: the records keep
    their order and ids, the comments and every other record stay as they
    are, and [n] calls add [n] likes. *)
Theorem likes_count_up :
  (forall (ls : LocalStorage) (capsuleId : list Z),
      getRevealedCapsule ls capsuleId = None -> likeCapsule ls capsuleId = (false, ls))
  /\ (forall (ls : LocalStorage) (capsuleId : list Z) (c : RevealedCapsule),
        getRevealedCapsule ls capsuleId = Some c ->
        fst (likeCapsule ls capsuleId) = true
        /\ getRevealedCapsule (snd (likeCapsule ls capsuleId)) capsuleId
           = Some (with_like c)
        /\ map id (revealed_capsules (snd (likeCapsule ls capsuleId)))
           = map id (revealed_capsules ls)
        /\ (forall other, other <> capsuleId ->
                          getRevealedCapsule (snd (likeCapsule ls capsuleId)) other
                          = getRevealedCapsule ls other))
  /\ (forall (n : nat) (ls : LocalStorage) (capsuleId : list Z) (c : RevealedCapsule),
        getRevealedCapsule ls capsuleId = Some c ->
        likes_of (like_times n ls capsuleId) capsuleId
        = Some (likes (revealMetadata c) + Z.of_nat n)
        /\ comments_of (like_times n ls capsuleId) capsuleId
           = Some (comments (revealMetadata c))).
Proof.
  assert (Hid : forall c, id (with_like c) = id c) by reflexivity.
  assert (Hstep : forall ls capsuleId c,
             getRevealedCapsule ls capsuleId = Some c ->
             getRevealedCapsule (snd (likeCapsule ls capsuleId)) capsuleId
             = Some (with_like c)).
  { intros ls capsuleId c H. rewrite likeCapsule_eq, H. cbn [snd].
    unfold getRevealedCapsule, getRevealedCapsules in *. cbn [revealed_capsules].
    rewrite (find_update_same _ _ _ Hid), H. reflexivity. }
  split; [|split].
  - intros ls capsuleId H. rewrite likeCapsule_eq, H. reflexivity.
  - intros ls capsuleId c H. split; [rewrite likeCapsule_eq, H; reflexivity|].
    split; [exact (Hstep ls capsuleId c H)|].
    rewrite likeCapsule_eq, H. cbn [snd revealed_capsules]. split.
    + apply update_first_ids. exact Hid.
    + intros other Hne. unfold getRevealedCapsule, getRevealedCapsules.
      cbn [revealed_capsules]. apply find_update_other; [congruence|exact Hid].
  - intros n. induction n as [|n IH]; intros ls capsuleId c H.
    + cbn [like_times]. unfold likes_of, comments_of. rewrite H. cbn [option_map].
      rewrite Z.add_0_r. split; reflexivity.
    + cbn [like_times].
      destruct (IH _ _ _ (Hstep ls capsuleId c H)) as [Hl Hc].
      rewrite Hl, Hc. cbn [with_like revealMetadata likes comments].
      split; [f_equal; lia|reflexivity].
Qed.

Lemma likes_count_up_witness :
  likeCapsule empty_feed (js "capsule_abc") = (false, empty_feed)
  /\ likes_of (like_times 3 feed_storage (js "capsule_abc")) (js "capsule_abc") = Some 3.
Proof.
  destruct likes_count_up as (Hnone & _ & Hn).
  assert (E : getRevealedCapsule feed_storage (js "capsule_abc") = Some sample_record)
    by (vm_compute; reflexivity).
  split.
  - apply Hnone. reflexivity.
  - rewrite (proj1 (Hn 3%nat feed_storage (js "capsule_abc") sample_record E)).
    reflexivity.
Defined.

(** X21 (comments). [addComment] on a capsule without a record returns
    false and changes nothing. Otherwise it returns true and puts the new
    comment, with the author and the text given, after the comments the
    first record under that id already has; likes, order, ids and every
    other record stay as they are. *)
Theorem comments_are_appended :
  (forall (now : nat -> Z) (ls : LocalStorage) (capsuleId author content : list Z),
      getRevealedCapsule ls capsuleId = None ->
      addComment now ls capsuleId author content = (false, ls))
  /\ (forall (now : nat -> Z) (ls : LocalStorage) (capsuleId author content : list Z)
             (c : RevealedCapsule),
        getRevealedCapsule ls capsuleId = Some c ->
        let ls' := snd (addComment now ls capsuleId author content) in
        fst (addComment now ls capsuleId author content) = true
        /\ comments_of ls' capsuleId
           = Some (comments (revealMetadata c)
                     ++ [{| comment_id := IPFS.decimal (now 0%nat); author := author;
                            content := content; timestamp := now 1%nat |}])
        /\ likes_of ls' capsuleId = Some (likes (revealMetadata c))
        /\ map id (revealed_capsules ls') = map id (revealed_capsules ls)
        /\ (forall other, other <> capsuleId ->
                          getRevealedCapsule ls' other = getRevealedCapsule ls other)).
Proof.
  split.
  - intros now ls capsuleId author content H. unfold addComment. rewrite H. reflexivity.
  - intros now ls capsuleId author content c H ls'. subst ls'.
    unfold addComment. rewrite H. cbn [fst snd].
    set (comment := {| comment_id := IPFS.decimal (now 0%nat); author := author;
                       content := content; timestamp := now 1%nat |}).
    assert (Hid : forall c, id (with_comment comment c) = id c) by reflexivity.
    split; [reflexivity|].
    unfold comments_of, likes_of, getRevealedCapsule, getRevealedCapsules in *.
    cbn [revealed_capsules].
    rewrite (find_update_same _ _ _ Hid), H. cbn [option_map].
    split; [reflexivity|]. split; [reflexivity|]. split.
    + apply update_first_ids. exact Hid.
    + intros other Hne. apply find_update_other; [congruence|exact Hid].
Qed.

Lemma comments_are_appended_witness :
  option_map (map content)
    (comments_of
       (snd (addComment sample_clock
               (snd (addComment sample_clock feed_storage (js "capsule_abc")
                       (js "0xb0b") (js "first")))
               (js "capsule_abc") (js "0xa11ce") (js "second")))
       (js "capsule_abc"))
  = Some [js "first"; js "second"]
  /\ addComment sample_clock empty_feed (js "capsule_abc") (js "0xb0b") (js "first")
     = (false, empty_feed).
Proof.
  destruct comments_are_appended as [Hnone Hsome].
  split; [|apply Hnone; reflexivity].
  set (ls1 := snd (addComment sample_clock feed_storage (js "capsule_abc")
                     (js "0xb0b") (js "first"))).
  destruct (getRevealedCapsule ls1 (js "capsule_abc")) as [c|] eqn:E.
  - destruct (Hsome sample_clock ls1 (js "capsule_abc") (js "0xa11ce") (js "second") c E)
      as (_ & Hc & _).
    cbv zeta in Hc. rewrite Hc. cbn [option_map]. rewrite map_app. cbn [map content].
    assert (Hfirst : option_map (fun c => map content (comments (revealMetadata c)))
                       (getRevealedCapsule ls1 (js "capsule_abc")) = Some [js "first"])
      by (vm_compute; reflexivity).
    rewrite E in Hfirst. cbn [option_map] in Hfirst. injection Hfirst as ->. reflexivity.
  - exfalso.
    assert (Hc : option_map id (getRevealedCapsule ls1 (js "capsule_abc"))
                 = Some (js "capsule_abc")) by (vm_compute; reflexivity).
    rewrite E in Hc. discriminate Hc.
Defined.

(** X22 (the index of revealed capsules). What [storeRevealedCapsule] stored
    is what [getRevealedCapsule] finds under its id, whatever was there
    before, and the lookup under every other id is as before. After
    [clearAllRevealedCapsules] no id has a record, so likes and comments are
    refused for every id. *)
Theorem stored_record_is_found :
  (forall (ls : LocalStorage) (c : RevealedCapsule),
      getRevealedCapsule (storeRevealedCapsule ls c) (id c) = Some c)
  /\ (forall (ls : LocalStorage) (c : RevealedCapsule) (other : list Z),
        other <> id c ->
        getRevealedCapsule (storeRevealedCapsule ls c) other = getRevealedCapsule ls other)
  /\ (forall (now : nat -> Z) (ls : LocalStorage) (capsuleId author content : list Z),
        getRevealedCapsule (clearAllRevealedCapsules ls) capsuleId = None
        /\ fst (likeCapsule (clearAllRevealedCapsules ls) capsuleId) = false
        /\ fst (addComment now (clearAllRevealedCapsules ls) capsuleId author content)
           = false).
Proof.
  split; [|split].
  - intros ls c. unfold getRevealedCapsule, storeRevealedCapsule, getRevealedCapsules.
    cbn [revealed_capsules].
    induction (revealed_capsules ls) as [|x l IH]; cbn [List.filter List.find app].
    + rewrite jsstring_eqb_refl. reflexivity.
    + destruct (jsstring_eqb (id x) (id c)) eqn:E; cbn [negb List.find app]; [exact IH|].
      rewrite E. exact IH.
  - intros ls c other Hne.
    unfold getRevealedCapsule, storeRevealedCapsule, getRevealedCapsules.
    cbn [revealed_capsules].
    induction (revealed_capsules ls) as [|x l IH]; cbn [List.filter List.find app].
    + assert (E : jsstring_eqb (id c) other = false)
        by (apply jsstring_eqb_false; congruence).
      rewrite E. reflexivity.
    + destruct (jsstring_eqb (id x) (id c)) eqn:E; cbn [negb List.find app].
      * apply jsstring_eqb_true in E.
        assert (Eo : jsstring_eqb (id x) other = false)
          by (apply jsstring_eqb_false; congruence).
        rewrite Eo. exact IH.
      * destruct (jsstring_eqb (id x) other); [reflexivity|exact IH].
  - intros now ls capsuleId author content.
    split; [reflexivity|]. split; reflexivity.
Qed.

Lemma stored_record_is_found_witness :
  getRevealedCapsule (storeRevealedCapsule feed_storage sample_record) (js "capsule_abc")
  = Some sample_record
  /\ getRevealedCapsule (storeRevealedCapsule feed_storage sample_record)
       (js "1700000000000") = None.
Proof.
  destruct stored_record_is_found as (Hsame & Hother & _).
  split.
  - exact (Hsame feed_storage sample_record).
  - rewrite Hother by (vm_compute; discriminate). vm_compute. reflexivity.
Defined.

(** *** The preview *)

Lemma mock_creator (createdAt : Z) (userAddress : list Z) :
  get (mock_content createdAt userAddress) (js "creator") = JString userAddress.
Proof. reflexivity. Qed.

Lemma mock_authorized (toLowerCase : list Z -> list Z) (createdAt : Z)
    (userAddress : list Z) :
  isUserAuthorized toLowerCase (mock_content createdAt userAddress) userAddress = Ok true.
Proof.
  unfold isUserAuthorized. rewrite mock_creator, jsstring_eqb_refl. reflexivity.
Qed.

Section Client.

Variable engine_message : Crypto.CryptoFailure -> list Z.
Variable encodeURIComponent : list Z -> list Z.
Variable JSON_stringify : JsValue -> list Z.
Variable JSON_parse : list Z -> Result JsValue.
Variable toLowerCase : list Z -> list Z.
Variable pinataJWT : list Z.

Local Abbreviation reveal := (revealCapsule engine_message encodeURIComponent JSON_stringify
    JSON_parse
                                toLowerCase pinataJWT).
Local Abbreviation preview := (previewCapsule engine_message encodeURIComponent JSON_stringify
    JSON_parse
                                 toLowerCase pinataJWT).

(** X23 (preview and reveal). For a kit that passes validation and the id
    check, and a capsule not yet revealed, [previewCapsule] succeeds exactly
    when [revealCapsule] does, after the same requests, and shows the
    content, the times and the early flag that the reveal records; only the
    reveal message is left out. Unlike the reveal, the preview does not look
    at the index of revealed capsules at all: it answers the same for a
    capsule that has been revealed. *)
Theorem preview_shows_what_reveal_records :
  (forall (fetch : IPFS.Request -> Result IPFS.Response) (now : nat -> Z)
          (ls : LocalStorage) (capsuleId : list Z) (kit : JsValue) (user : list Z)
          (unlock : Z) (msg : option (list Z)),
      isValid (validateRecoveryKit kit) = true ->
      get kit (js "capsuleId") = JString capsuleId \/ all_digits capsuleId = true ->
      getRevealedCapsule ls capsuleId = None ->
      success (fst (preview fetch now ls capsuleId kit user unlock))
      = success (result (reveal fetch now ls capsuleId kit user unlock msg))
      /\ snd (preview fetch now ls capsuleId kit user unlock)
         = requests (reveal fetch now ls capsuleId kit user unlock msg)
      /\ (forall c,
            data (result (reveal fetch now ls capsuleId kit user unlock msg)) = Some c ->
            exists shown,
              data (fst (preview fetch now ls capsuleId kit user unlock)) = Some shown
              /\ id shown = id c /\ originalData shown = originalData c
              /\ revealedAt (revealMetadata shown) = revealedAt (revealMetadata c)
              /\ revealedBy (revealMetadata shown) = revealedBy (revealMetadata c)
              /\ isEarlyReveal (revealMetadata shown) = isEarlyReveal (revealMetadata c)
              /\ revealMessage (revealMetadata shown) = None))
  /\ (forall (fetch : IPFS.Request -> Result IPFS.Response) (now : nat -> Z)
             (ls : LocalStorage) (feed : list RevealedCapsule) (capsuleId : list Z)
             (kit : JsValue) (user : list Z) (unlock : Z),
        preview fetch now
          {| items := items ls; revealed_capsules := feed; timeCapsules := timeCapsules ls |}
          capsuleId kit user unlock
        = preview fetch now ls capsuleId kit user unlock).
Proof.
  split; [|reflexivity].
  intros fetch now ls capsuleId kit user unlock msg Hv Hid Hnone.
  assert (Hrest : reveal fetch now ls capsuleId kit user unlock msg
                  = reveal_unrevealed engine_message encodeURIComponent JSON_stringify JSON_parse
                      toLowerCase pinataJWT fetch now ls [LogStarting] capsuleId kit user
                      unlock msg
                  \/ reveal fetch now ls capsuleId kit user unlock msg
                     = reveal_unrevealed engine_message encodeURIComponent JSON_stringify JSON_parse
                         toLowerCase pinataJWT fetch now ls [LogStarting; LogMockBypassId]
                         capsuleId kit user unlock msg).
  { unfold revealCapsule. rewrite Hv. cbn [negb].
    destruct (strict_eq_string (get kit (js "capsuleId")) capsuleId) eqn:Es; cbn [negb];
      [left; reflexivity|].
    destruct Hid as [Hid|Hid].
    - rewrite Hid in Es. cbn [strict_eq_string] in Es.
      rewrite jsstring_eqb_refl in Es. discriminate Es.
    - rewrite Hid. cbn [negb]. right. reflexivity. }
  assert (Hgoal : forall log,
             success (fst (preview fetch now ls capsuleId kit user unlock))
             = success (result (reveal_unrevealed engine_message encodeURIComponent JSON_stringify
                                  JSON_parse toLowerCase pinataJWT fetch now ls log
                                  capsuleId kit user unlock msg))
             /\ snd (preview fetch now ls capsuleId kit user unlock)
                = requests (reveal_unrevealed engine_message encodeURIComponent JSON_stringify
                              JSON_parse toLowerCase pinataJWT fetch now ls log
                              capsuleId kit user unlock msg)
             /\ (forall c,
                   data (result (reveal_unrevealed engine_message encodeURIComponent JSON_stringify
                                   JSON_parse toLowerCase pinataJWT fetch now ls log
                                   capsuleId kit user unlock msg)) = Some c ->
                   exists shown,
                     data (fst (preview fetch now ls capsuleId kit user unlock))
                     = Some shown
                     /\ id shown = id c /\ originalData shown = originalData c
                     /\ revealedAt (revealMetadata shown) = revealedAt (revealMetadata c)
                     /\ revealedBy (revealMetadata shown) = revealedBy (revealMetadata c)
                     /\ isEarlyReveal (revealMetadata shown)
                        = isEarlyReveal (revealMetadata c)
                     /\ revealMessage (revealMetadata shown) = None)).
  { intros log. unfold previewCapsule, reveal_unrevealed. rewrite Hv, Hnone. cbn [negb].
    destruct (getCapsuleIPFSHash ls capsuleId) as [[| |b|n|ipfsCid|fields|elems]|];
      try (cbn; split; [reflexivity|split; [reflexivity|intros c H; discriminate H]]).
    destruct (startsWith ipfsCid (js "mock_")).
    { rewrite mock_authorized. cbn [fst snd success data result requests].
      split; [reflexivity|]. split; [reflexivity|].
      intros c H. injection H as <-. eexists. split; [reflexivity|].
      cbn [id originalData revealMetadata fresh_metadata revealedAt revealedBy
           isEarlyReveal revealMessage].
      repeat split. }
    destruct (IPFS.download encodeURIComponent JSON_stringify pinataJWT fetch (items ls)
                ipfsCid) as [[encryptedContent|message] reqs];
      [|cbn; split; [reflexivity|split; [reflexivity|intros c H; discriminate H]]].
    destruct (Crypto.decryptCapsuleContent engine_message JSON_parse encryptedContent kit)
      as [decrypted|message];
      [|cbn; split; [reflexivity|split; [reflexivity|intros c H; discriminate H]]].
    destruct (isUserAuthorized toLowerCase decrypted user) as [[|]|message];
      cbn; (split; [reflexivity|]); (split; [reflexivity|]); intros c H;
      try discriminate H.
    injection H as <-. eexists. split; [reflexivity|]. cbn. repeat split. }
  destruct Hrest as [-> | ->]; apply Hgoal.
Qed.

End Client.

Lemma preview_shows_what_reveal_records_witness :
  success (fst (previewCapsule Crypto.named_engine IPFS.plain_encode IPFS.plain_stringify
      sample_parse
                  ascii_lower [] IPFS.no_network sample_clock mock_storage
                  (js "1700000000001") good_kit (js "0xa11ce") 1700000000)) = true
  /\ success (result (sample_reveal mock_storage (js "1700000000001") good_kit)) = true
  /\ success (fst (previewCapsule Crypto.named_engine IPFS.plain_encode IPFS.plain_stringify
      sample_parse
                     ascii_lower [] IPFS.no_network sample_clock
                     (storage (sample_reveal mock_storage (js "1700000000001") good_kit))
                     (js "1700000000001") good_kit (js "0xa11ce") 1700000000)) = true.
Proof.
  pose proof (preview_shows_what_reveal_records Crypto.named_engine IPFS.plain_encode
      IPFS.plain_stringify
                sample_parse ascii_lower []) as [Hsame Hfeed].
  assert (Hv : isValid (validateRecoveryKit good_kit) = true) by (vm_compute; reflexivity).
  assert (Hnone : getRevealedCapsule mock_storage (js "1700000000001") = None)
    by reflexivity.
  assert (Hok : success (result (sample_reveal mock_storage (js "1700000000001") good_kit))
                = true) by (vm_compute; reflexivity).
  destruct (Hsame IPFS.no_network sample_clock mock_storage (js "1700000000001") good_kit
              (js "0xa11ce") 1700000000 None Hv (or_intror eq_refl) Hnone)
    as (Hs & _ & _).
  split; [rewrite Hs; exact Hok|]. split; [exact Hok|].
  assert (Hst : storage (sample_reveal mock_storage (js "1700000000001") good_kit)
                = {| items := items mock_storage;
                     revealed_capsules :=
                       revealed_capsules
                         (storeRevealedCapsule mock_storage
                            {| id := js "1700000000001";
                               originalData := mock_content 1800000000000 (js "0xa11ce");
                               revealMetadata :=
                                 fresh_metadata 1800000000002 (js "0xa11ce") false
                                   1700000000 (Some []) |});
                     timeCapsules := timeCapsules mock_storage |})
    by (vm_compute; reflexivity).
  rewrite Hst, Hfeed, Hs. exact Hok.
Defined.

End FeedProofs.

(** ** The recovery-kit upload form *)

Module KitFormProofs.
Import JS Kit Reveal RevealProofs Addresses KitForm.

Lemma accepted_content (JSON_parse : jsstring -> Result JsValue)
    (capsuleId : option jsstring) (content : jsstring) (kit : JsValue) :
  validateAndProcessKit JSON_parse capsuleId content = onValidKit kit ->
  JSON_parse content = Ok kit
  /\ isValid (validateRecoveryKit kit) = true
  /\ (forall c rest, capsuleId = Some (c :: rest) ->
        strict_eq_string (get kit (js "capsuleId")) (c :: rest) = true).
Proof.
  unfold validateAndProcessKit. intros H.
  destruct (JSON_parse content) as [parsed|m]; [|discriminate H].
  destruct (isValid (validateRecoveryKit parsed)) eqn:Ev; cbn [negb] in H;
    [|discriminate H].
  destruct capsuleId as [[|c rest]|].
  - injection H as ->. repeat split; [assumption|]. intros ? ? E. discriminate E.
  - destruct (strict_eq_string (get parsed (js "capsuleId")) (c :: rest)) eqn:Es;
      cbn [negb] in H; [|discriminate H].
    injection H as ->. repeat split; [assumption|].
    intros c' rest' E. injection E as <- <-. exact Es.
  - injection H as ->. repeat split; [assumption|]. intros ? ? E. discriminate E.
Qed.

Lemma strict_eq_string_true (v : JsValue) (s : jsstring) :
  strict_eq_string v s = true <-> v = JString s.
Proof.
  destruct v; cbn [strict_eq_string]; split; intros H; try discriminate H.
  - apply jsstring_eqb_true in H. subst. reflexivity.
  - injection H as ->. apply jsstring_eqb_refl.
Qed.

Section Client.

Variable engine_message : Crypto.CryptoFailure -> jsstring.
Variable encodeURIComponent : jsstring -> jsstring.
Variable JSON_stringify : JsValue -> jsstring.
Variable JSON_parse : jsstring -> Result JsValue.
Variable toLowerCase : jsstring -> jsstring.
Variable pinataJWT : jsstring.

Local Abbreviation reveal := (revealCapsule engine_message encodeURIComponent JSON_stringify
    JSON_parse
                                toLowerCase pinataJWT).
Local Abbreviation rest_of_reveal :=
  (reveal_unrevealed engine_message encodeURIComponent JSON_stringify JSON_parse toLowerCase
      pinataJWT).

(** X24 (the upload form against the reveal). A file the form accepts for a
    capsule is a [.json] file of at most 10240 bytes whose text parses to a
    kit that passes [validateRecoveryKit] and names that very capsule, so
    [revealCapsule] takes it past its own two checks without the numeric-id
    exception. The form is the stricter of the two: a valid kit for another
    capsule is turned away by the form even when the capsule id is all
    digits, where [revealCapsule] lets it through. *)
Theorem form_accepts_only_matching_kits :
  (forall (parse : jsstring -> Result JsValue) (wanted : jsstring) (file : File)
          (kit : JsValue),
      wanted <> [] ->
      handleFileSelect parse (Some wanted) file = onValidKit kit ->
      endsWith (file_name file) (js ".json") = true
      /\ file_size file <= 10240
      /\ (exists content, file_text file = Some content /\ parse content = Ok kit)
      /\ isValid (validateRecoveryKit kit) = true
      /\ get kit (js "capsuleId") = JString wanted
      /\ (forall fetch now ls user unlock msg,
            reveal fetch now ls wanted kit user unlock msg
            = rest_of_reveal fetch now ls [LogStarting] wanted kit user unlock msg))
  /\ (forall (parse : jsstring -> Result JsValue) (wanted content : jsstring)
             (kit : JsValue),
        parse content = Ok kit ->
        isValid (validateRecoveryKit kit) = true ->
        get kit (js "capsuleId") <> JString wanted ->
        all_digits wanted = true ->
        validateAndProcessKit parse (Some wanted) content
        = onError (WrongCapsule (get kit (js "capsuleId")) wanted)
        /\ (forall fetch now ls user unlock msg,
              reveal fetch now ls wanted kit user unlock msg
              = rest_of_reveal fetch now ls [LogStarting; LogMockBypassId] wanted kit
                  user unlock msg)).
Proof.
  split.
  - intros parse wanted file kit Hne H. unfold handleFileSelect in H.
    destruct (endsWith (file_name file) (js ".json")) eqn:Ee; cbn [negb] in H;
      [|discriminate H].
    destruct (file_size file >? 10 * 1024) eqn:Es; [discriminate H|].
    destruct (file_text file) as [content|] eqn:Et; [|discriminate H].
    destruct (accepted_content _ _ _ _ H) as (Hp & Hv & Hid).
    destruct wanted as [|c rest]; [contradiction Hne; reflexivity|].
    specialize (Hid c rest eq_refl).
    split; [reflexivity|]. split; [lia|]. split; [exists content; split; auto|].
    split; [exact Hv|]. split; [apply strict_eq_string_true; exact Hid|].
    intros. unfold revealCapsule. rewrite Hv, Hid. reflexivity.
  - intros parse wanted content kit Hp Hv Hid Hd.
    assert (Es : strict_eq_string (get kit (js "capsuleId")) wanted = false).
    { destruct (strict_eq_string (get kit (js "capsuleId")) wanted) eqn:Es; [|reflexivity].
      apply strict_eq_string_true in Es. contradiction. }
    split.
    + unfold validateAndProcessKit. rewrite Hp, Hv. cbn [negb].
      destruct wanted as [|c rest]; [discriminate Hd|]. rewrite Es. reflexivity.
    + intros. unfold revealCapsule. rewrite Hv, Es, Hd. reflexivity.
Qed.

End Client.

Lemma form_accepts_only_matching_kits_witness :
  handleFileSelect kit_parse (Some (js "capsule_abc")) kit_file = onValidKit good_kit
  /\ get good_kit (js "capsuleId") = JString (js "capsule_abc")
  /\ validateAndProcessKit kit_parse (Some (js "1700000000000")) (js "{ kit }")
     = onError (WrongCapsule (JString (js "capsule_abc")) (js "1700000000000")).
Proof.
  pose proof (form_accepts_only_matching_kits Crypto.named_engine IPFS.plain_encode
      IPFS.plain_stringify
                sample_parse ascii_lower []) as [Hform Hgap].
  assert (Ha : handleFileSelect kit_parse (Some (js "capsule_abc")) kit_file
               = onValidKit good_kit) by (vm_compute; reflexivity).
  split; [exact Ha|]. split.
  - apply (Hform kit_parse (js "capsule_abc") kit_file good_kit);
      [discriminate|exact Ha].
  - apply (Hgap kit_parse (js "1700000000000") (js "{ kit }") good_kit);
      [reflexivity|vm_compute; reflexivity|discriminate|reflexivity].
Defined.

End KitFormProofs.
